(* ===== verification/_CoqProject ===== *)
-Q . S2P
Prelude.v
GoStrings.v
GoNet.v
GoTime.v
Types.v
Database.v
Concrete.v
BoltProps.v
Cloud.v
Arping.v
Kube.v
Iputils.v
IpamdBase.v
World.v
IpPool.v
PoolProps.v
Ipamds.v
VpcClaim.v
PodIp.v
IpamdRpc.v
Reconcile.v
LogTail.v
Rps.v
DnsConfig.v
Chain.v
IptRules.v
Portmap.v
PortmapProps.v
VipController.v
VipWorker.v
LogFollow.v
OsFs.v
CniInit.v
DevicePlugin.v
SvcStart.v
ReleaseIp.v
IpRules.v
GoNetProps.v
Sha1.v
CniBase.v
NatOutgoing.v
UniRoutes.v
CniUni.v
CniAlloc.v
CniVeth.v
CniMain.v
CniMainProps.v
CniCommands.v
CniNode.v
CniDaemon.v
CniLife.v
CniPlugin.v
CniWorld.v
CniDemo.v
