(* ===== verification/Prelude.v ===== *)
(** * A verification library of the UK8S VPC CNI plugin

    The repository implements pod networking on UCloud: the CNI plugin
    [cnivpc] asks the node daemon [cnivpc-ipamd] for a VPC address, the daemon
    keeps pools of such addresses in a bolt database, and [vip-controller]
    releases the addresses of static pods whose claims are over.  The library is a
    shallow embedding of that Go code with theorems about it.

    ** The model of Go

    A Go function that reads or changes state is a computation of the monad [M S A]
    of this file: it maps a state to an [outcome] ([Ok], [Err] for a returned error,
    [Panic], and [Diverge] for a run without enough fuel) and the new state.
    [attempt] is [v, err := f()], [ignore] drops an error, [zoom] runs a part on a
    field of the state.  Properties are stated with [wp m Q s]: the run of [m] from
    [s] ends in an outcome and a state that satisfy [Q]; since a run is a function
    the statement also covers that it ends.  Integers are [Z], with their width
    written out where the code can reach it; bytes are [Z] below 256; Go maps are
    [gmap]s, and where the code ranges over one the order is the argument or the
    choice of a parameter.  Logging is left out.

    Code outside the repository is a class with laws: bbolt ([BoltApi],
    [BoltLaws]), encoding/json ([JsonCodec]), the Kubernetes API ([KubeApi],
    [VipKubeApi], [CniKubeApi]), the UCloud SDK, the metadata service, sockets and
    the clock ([CloudApi], [UniApi]), sort and map iteration ([GoRuntime]), iptables
    ([IptApi], [IptMoreApi]), netlink's rules, routes, links, namespaces and ipsets
    ([RuleApi], [RouteApi], [VethApi], [IpsetApi]), the host's routes and sysctls
    ([HostApi]), sysfs ([SysfsApi]), the lock file ([LockApi]), gRPC ([IpamdClient]),
    the work queue of client-go ([WorkQueue]), what the start of the daemon calls
    ([BootApi]), the environment file and the CNI library's PluginMain ([EnvFileApi],
    [PluginMain]), and what a file answers to [--version] (the argument [run_version]
    of [CniInit]).  Every group of laws has a
    concrete instance ([Concrete], [World], [MemIpt] in [Chain], [CniWorld], ...),
    at which the witnesses run.

    ** The files

    - [Prelude]: outcomes, the monad, its [wp] rules and tactics.
    - [GoStrings], [GoNet], [GoTime]: what the code uses of strings, strconv, net
      and time.
    - [Types]: messages (rpc/ipamd.pb.go) and custom resources (kubernetes/apis).
    - [Database]: pkg/database; [Bolt] keeps a typed map in a bucket.  The class
      [Database] is the Go interface; [DatabaseLaws] is what it promises: each open
      handle represents a finite map, Put, Get, Delete, Count, Pop and List act on
      that map, and other handles are not affected.  [Bolt_DatabaseLaws] proves the
      laws, all clients are proved against the class.
    - [Concrete], [World]: an in-memory bolt file, a VPC with a clock, a cluster.
    - [Cloud], [Iputils], [Arping]: pkg/uapi, pkg/iputils, pkg/arping.
    - [Kube]: the Kubernetes calls and retry.RetryOnConflict.
    - [IpamdBase]: the server state and pkg/ipamd/uapi.go.
    - [IpPool]: the pool operations of pkg/ipamd/pool.go and the migration of
      svc.go; the abstract state [Abs] (pools by subnet, cooldown set, records) and
      the representation relation [rep] with a specification for each operation.
    - [PoolProps]: lending, release, recycling, migration, and the demo server.
    - [Ipamds]: status resources, candidates, borrowing.
    - [VpcClaim]: pkg/ipamd/k8s.go and vpcclaim.go.
    - [PodIp]: assignment of addresses and the events of the pool manager.
    - [IpamdRpc]: the gRPC handlers, reconciliation, and the server as a step
      relation [server_step] over its operations.
    - [Reconcile]: the reconciliation cut at its calls, alone and among the handlers.
    - [LogTail], [LogFollow]: pkg/ipamd/log_tail.go and version_server.go: the offset
      of the last lines; the following of the log as a state machine [follow_step]
      interleaved with the writer of the log and the notifications of its directory.
    - [OsFs]: files, symbolic links and sockets under package os.  [os_env] says how
      each system call fares, [os_trace] keeps every disk state there was.
    - [CniInit]: cmd/cnivpc-init over [OsFs].
    - [DevicePlugin]: pkg/deviceplugin over [OsFs], with the rounds of its watch for
      kubelet restarts as a step relation [plugin_run].
    - [SvcStart]: Start, initServer and cleanUpOnTermination of svc.go, the in-cluster
      clients of pkg/kubeclient, the cluster query of uapi.go.
    - [ReleaseIp]: cmd/release-ip.
    - [Rps], [DnsConfig]: cmd/cnivpc/rps.go and dnsconfig.go.
    - [Chain], [Portmap], [PortmapProps]: pkg/portmap.
    - [BoltProps]: the store as a refinement of finite maps, and Pop under
      concurrent callers.
    - [IptRules], [IpRules]: the iptables and the policy rules of cmd/cnivpc/if.go.
    - [VipController], [VipWorker]: cmd/vip-controller: the handlers; the event handlers
      of the informers, the work queues and their workers as a step relation [ctl_step].
    - [GoNetProps], [Sha1]: facts about addresses; crypto/sha1, computed.
    - [CniBase]: the state [Cni] of the plugin (process with the VPC, iptables, the
      node's network, the API server, daemon with the bolt file), the clients of
      pkg/kubeclient and the record functions of cmd/cnivpc/rpc.go.  [RecordLaws] is
      what the plugin assumes of the daemon, stated on the record bucket.
    - [NatOutgoing]: nat_outgoing.go and updateRules of if.go.
    - [UniRoutes]: ensureUNIPrimaryIPRoute and rp_filter of if.go.
    - [CniUni]: subnets, network interfaces and secondary addresses of rpc.go.
    - [CniAlloc]: assignPodIp, releasePodIp and what they call.
    - [CniVeth]: veth.go, runcmd.go, pkg/snapshot.
    - [CniMain]: cmdAdd and cmdDel of main.go, pkg/lockfile, config/cnivpc.go.
    - [CniMainProps], [CniCommands]: rollback and wiring; the commands as a whole.
    - [CniNode]: a node over time, the commands one after the other with anything
      that changes records of other pods in between, as a relation [node_run].
    - [CniDaemon]: the daemon as the other end of the gRPC calls; its handlers
      discharge [RecordLaws].
    - [CniLife]: the operations of that daemon, its stops and restarts and its
      reconciliation between the commands, as the relations [life_step] (around one
      pod) and [history] (all that happens on a node).
    - [CniPlugin]: main of cmd/cnivpc, which dispatches the commands, and
      hack/version.go, which asks the daemon for the version of the plugin.
    - [CniWorld], [CniDemo]: a concrete node, on which ADD and DEL run.

    ** The theorems

    [IpamdRpc.server_invariant] is the invariant of the daemon: every reachable
    state represents pools in which each address has its own key and lies in the
    pool of its subnet.  [SvcStart.Start_correct] composes it with the start: a daemon
    that serves is in such a state, with what the bolt file held and the addresses of
    the v1 pool.  The contracts of the single operations say where an
    address can go: from the pool to a pod ([assignPodIP_correct], [getPodIp_safe],
    [getPodIp_no_loss]), to another node ([lendIP_correct], [borrowIP_correct]), to
    the cooldown set and back ([DelPodIP_correct], [recycleCooldownIP_correct]), to
    the VPC ([releasePool_correct]).  The claims of static pods, their rollback and
    their garbage collection are in [VpcClaim] and [VipController];
    [VipWorker.controller_safe] is the invariant of the whole controller.
    [reconcile_interleaved] says what the reconciliation may do to records while the
    handlers change them, and [reconcile_steps_equiv] that its steps are the function.
    [CniCommands.cmdAdd_correct], [add_pod_correct] and [cmdDel_correct] say what the
    two commands of the plugin leave behind, on success and at each failure; they
    rest on the contracts of their steps, among them the bypass of the node's SNAT
    ([updateRules_correct], [migrate_correct]), the interfaces of a subnet
    ([subnet_uni_correct]), the routes of an interface
    ([ensureUNIPrimaryIPRoute_correct]) and the records that plugin and daemon share
    ([records_shared]).
    [CniLife.node_records_correct] and [CniLife.pod_lifecycle] are about whole
    sequences of commands: a pod that was added is deleted with the network that its
    ADD recorded, whatever other pods and the daemon did in between.  Port mapping
    is stated on the rule set: what ADD establishes, DEL removes and CHECK accepts.
    The programs around them: an installation of the plugin binary is atomic and can be
    repeated after any interruption ([run_atomic], [run_converges]), the device plugin
    keeps a server and its announcement in step ([plugin_invariant]), and the log
    stream is whole lines in order ([log_tail_correct]).

    ** Fuel and bounds

    [migrateV1BoltDB] takes more fuel than there are old addresses, as each round
    pops one; [tailStartOffset] takes more fuel than the file has bytes.  The lock
    is tried [lock_tries] times, the bound of the code; the wait for a new interface
    ends after the number of ticks that its timeout allows, a value of [UniApi].  All
    other loops are structural.

    ** Not modelled

    The main functions other than that of cnivpc (flags, signals), the HTTP mux,
    pkg/ulog, pkg/version and cmd/cnivpctl: input and output without a decision that
    the other parts depend on; the timer that ends a hanging cnivpc; and the generated
    clients under kubernetes/generated.
    Goroutines: the handlers of the daemon run as atomic steps of [server_step], but
    for Pop ([BoltProps]) and the reconciliation ([Reconcile]), whose calls interleave
    with the others; its mutexes serialise nothing more.  A handler of the controller
    is one step of [ctl_step].  The commands of the plugin hold a lock, so
    one command is one step; the daemon is only seen through the calls of the
    command.  The VPC of the plugin and the VPC of the daemon are separate values:
    no theorem relates an address of one to the other.  The clock has whole seconds;
    texts of wrapped errors are shortened to their fixed part. *)
From stdpp Require Export base gmap strings list list_numbers fin_maps functions numbers sorting pretty.

Declare Scope go_scope.
Delimit Scope go_scope with go.
Open Scope Z_scope.
Open Scope go_scope.
#[export] Set Warnings "-clear-no-such-hyp".

(** ** Errors *)

(** The reasons of a Kubernetes [StatusError] that the program tests for. *)
Inductive k8s_reason : Type :=
| NotFound | AlreadyExists | Conflict | Forbidden | Unauthorized
| Invalid | BadRequest | MethodNotSupported | Timeout | OtherReason.

(** Go error values.  The sentinel errors are constructors; [K8sErr] is a
    [*StatusError] of the API server; [ExtErr] is an error made by code outside
    the repository; [Errorf] is a fresh error made with [fmt.Errorf("...%v")] or
    [errors.New], which does not unwrap; [Wrap] is [errors.Wrap] or [%w], which
    does. *)
Inductive error : Type :=
| ErrEOF
| ErrNotFound
| ErrOutOfIP
| ErrIPConflict
| K8sErr (reason : k8s_reason)
| ExtErr (msg : string)
| Errorf (msg : string)
| Wrap (msg : string) (inner : error).

#[global] Instance k8s_reason_eq_dec : EqDecision k8s_reason.
Proof. solve_decision. Defined.
#[global] Instance error_eq_dec : EqDecision error.
Proof. solve_decision. Defined.

(** [errors.Is]: the chain of wrapped errors is followed. *)
Fixpoint errors_Is (e target : error) : bool :=
  bool_decide (e = target) ||
  match e with Wrap _ e' => errors_Is e' target | _ => false end.

(** [kerrors.ReasonForError]: the reason of the first [StatusError] of the chain. *)
Fixpoint ReasonForError (e : error) : option k8s_reason :=
  match e with
  | K8sErr r => Some r
  | Wrap _ e' => ReasonForError e'
  | _ => None
  end.

Definition k8serr_is (r : k8s_reason) (e : error) : bool :=
  bool_decide (ReasonForError e = Some r).

(** ** Outcomes and the state monad *)

(** What a Go call can do: return normally, return an error, panic (nil
    dereference, index out of range), or, for the loops that are run on fuel,
    not have finished within it. *)
Inductive outcome (A : Type) : Type :=
| Ok (a : A)
| Err (e : error)
| Panic (why : string)
| Diverge.
Arguments Ok {A} a.
Arguments Err {A} e.
Arguments Panic {A} why.
Arguments Diverge {A}.

Definition M (S A : Type) : Type := S → outcome A * S.

#[global] Instance M_ret {S} : MRet (M S) := λ A a s, (Ok a, s).
#[global] Instance M_bind {S} : MBind (M S) := λ A B k m s,
  match m s with
  | (Ok a, s') => k a s'
  | (Err e, s') => (Err e, s')
  | (Panic w, s') => (Panic w, s')
  | (Diverge, s') => (Diverge, s')
  end.

Definition throw {S A} (e : error) : M S A := λ s, (Err e, s).
Definition panic {S A} (why : string) : M S A := λ s, (Panic why, s).
Definition diverge {S A} : M S A := λ s, (Diverge, s).
Definition gets {S A} (f : S → A) : M S A := λ s, (Ok (f s), s).
Definition modify {S} (f : S → S) : M S unit := λ s, (Ok tt, f s).

(** The pair [v, err := m()] of Go as a value: [inr v] when [err] is nil. *)
Definition attempt {S A} (m : M S A) : M S (error + A) := λ s,
  match m s with
  | (Ok a, s') => (Ok (inr a), s')
  | (Err e, s') => (Ok (inl e), s')
  | (Panic w, s') => (Panic w, s')
  | (Diverge, s') => (Diverge, s')
  end.

(** [_ = m()]: the error is dropped. *)
Definition ignore {S A} (m : M S A) : M S unit :=
  _ ← attempt m; mret tt.

(** [if err != nil { return fmt.Errorf("msg: %v", err) }]. *)
Definition with_msg {S A} (msg : string) (m : M S A) : M S A := λ s,
  match m s with
  | (Err e, s') => (Err (Errorf msg), s')
  | r => r
  end.

(** [errors.Wrap(err, msg)]. *)
Definition with_wrap {S A} (msg : string) (m : M S A) : M S A := λ s,
  match m s with
  | (Err e, s') => (Err (Wrap msg e), s')
  | r => r
  end.

(** Running a computation on a component of a larger state. *)
Definition zoom {S T A} (get : S → T) (put : T → S → S) (m : M T A) : M S A := λ s,
  let '(o, t) := m (get s) in (o, put t s).

(** [for _, x := range l { body }] *)
Fixpoint for_range {S A} (l : list A) (body : A → M S unit) : M S unit :=
  match l with
  | [] => mret tt
  | x :: l' => body x;; for_range l' body
  end.

(** Turning the option into the Go convention. *)
Definition of_option {S A} (e : error) (o : option A) : M S A :=
  match o with Some a => mret a | None => throw e end.

(** ** A weakest-precondition calculus for [M] *)

Definition wp {S A} (m : M S A) (Q : outcome A → S → Prop) (s : S) : Prop :=
  Q (m s).1 (m s).2.

(** The postcondition that a continuation sees. *)
Definition kont {S A B} (k : A → M S B) (Q : outcome B → S → Prop)
    (o : outcome A) (s : S) : Prop :=
  match o with
  | Ok a => wp (k a) Q s
  | Err e => Q (Err e) s
  | Panic w => Q (Panic w) s
  | Diverge => Q Diverge s
  end.

Section wp_rules.
Context {S : Type}.
Implicit Types s : S.

Lemma wp_ret {A} (a : A) Q s : Q (Ok a) s → wp (mret a : M S A) Q s.
Proof. done. Qed.

Lemma wp_throw {A} e (Q : outcome A → S → Prop) s : Q (Err e) s → wp (throw e) Q s.
Proof. done. Qed.

Lemma wp_bind {A B} (m : M S A) (k : A → M S B) Q s :
  wp m (kont k Q) s → wp (x ← m; k x) Q s.
Proof.
  unfold wp. cbv [mbind M_bind kont]. destruct (m s) as [[] s']; simpl; auto.
Qed.

Lemma wp_mono {A} (m : M S A) (P Q : outcome A → S → Prop) s :
  wp m P s → (∀ o s', P o s' → Q o s') → wp m Q s.
Proof. unfold wp. auto. Qed.

Lemma wp_attempt {A} (m : M S A) (Q : outcome (error + A) → S → Prop) s :
  wp m (λ o s', match o with
                | Ok a => Q (Ok (inr a)) s'
                | Err e => Q (Ok (inl e)) s'
                | Panic w => Q (Panic w) s'
                | Diverge => Q Diverge s'
                end) s →
  wp (attempt m) Q s.
Proof. unfold wp, attempt. destruct (m s) as [[] s']; simpl; auto. Qed.

Lemma wp_with_msg {A} msg (m : M S A) (Q : outcome A → S → Prop) s :
  wp m (λ o s', match o with Err _ => Q (Err (Errorf msg)) s' | _ => Q o s' end) s →
  wp (with_msg msg m) Q s.
Proof. unfold wp, with_msg. destruct (m s) as [[] s']; simpl; auto. Qed.

Lemma wp_with_wrap {A} msg (m : M S A) (Q : outcome A → S → Prop) s :
  wp m (λ o s', match o with Err e => Q (Err (Wrap msg e)) s' | _ => Q o s' end) s →
  wp (with_wrap msg m) Q s.
Proof. unfold wp, with_wrap. destruct (m s) as [[] s']; simpl; auto. Qed.

Lemma wp_gets {A} (f : S → A) Q s : Q (Ok (f s)) s → wp (gets f) Q s.
Proof. done. Qed.

Lemma wp_modify (f : S → S) Q s : Q (Ok tt) (f s) → wp (modify f) Q s.
Proof. done. Qed.

Lemma wp_of_option {A} e (x : option A) Q s :
  (∀ a, x = Some a → Q (Ok a) s) → (x = None → Q (Err e) s) → wp (of_option e x) Q s.
Proof. destruct x; unfold wp; simpl; eauto. Qed.

Lemma wp_zoom {T A} get put (m : M T A) (Q : outcome A → S → Prop) s :
  wp m (λ o t, Q o (put t s)) (get s) → wp (zoom get put m) Q s.
Proof. unfold wp, zoom. by destruct (m (get s)). Qed.

(** A loop over a list keeps an invariant indexed by the elements left. *)
Lemma wp_for_range {A} (l : list A) (body : A → M S unit)
    (I : list A → S → Prop) (Q : outcome unit → S → Prop) s :
  I l s →
  (∀ x l' s', I (x :: l') s' →
     wp (body x) (λ o s'', match o with
                           | Ok _ => I l' s''
                           | _ => Q o s'' end) s') →
  (∀ s', I [] s' → Q (Ok tt) s') →
  wp (for_range l body) Q s.
Proof.
  revert s. induction l as [|x l IH]; intros s HI Hbody Hend; [by apply Hend|].
  simpl. apply wp_bind. eapply wp_mono; [by apply Hbody|].
  intros [[]| | |] s' H; simpl; auto.
Qed.

(** From a wp to the run it speaks of. *)
Lemma wp_run {A} (m : M S A) Q s o s' : wp m Q s → m s = (o, s') → Q o s'.
Proof. unfold wp. intros H E. by rewrite E in H. Qed.

Lemma run_wp {A} (m : M S A) (Q : outcome A → S → Prop) s :
  (∀ o s', m s = (o, s') → Q o s') → wp m Q s.
Proof. intros H. apply H. by destruct (m s). Qed.

End wp_rules.

(** One symbolic-execution step on a [wp] goal; [wp_steps] runs it to the next
    operation that has no rule of its own. *)
Ltac wp_step :=
  lazymatch goal with
  | |- wp (mret _) _ _ => apply wp_ret
  | |- wp (throw _) _ _ => apply wp_throw
  | |- wp (mbind _ _) _ _ => apply wp_bind
  | |- wp (attempt _) _ _ => apply wp_attempt
  | |- wp (ignore _) _ _ => unfold ignore at 1
  | |- wp (with_msg _ _) _ _ => apply wp_with_msg
  | |- wp (with_wrap _ _) _ _ => apply wp_with_wrap
  | |- wp (gets _) _ _ => apply wp_gets
  | |- wp (modify _) _ _ => apply wp_modify
  | |- wp (zoom _ _ _) _ _ => apply wp_zoom
  | |- kont _ _ (Ok _) _ => cbn [kont]
  | |- kont _ _ (Err _) _ => cbn [kont]
  | |- kont _ _ (Panic _) _ => cbn [kont]
  | |- kont _ _ Diverge _ => cbn [kont]
  | |- wp (if true then _ else _) _ _ => cbn iota
  | |- wp (if false then _ else _) _ _ => cbn iota
  | |- wp (if negb true then _ else _) _ _ => cbn [negb]
  | |- wp (if negb false then _ else _) _ _ => cbn [negb]
  | |- wp (if ?b then _ else _) _ _ => destruct b eqn:?
  end.
Ltac wp_steps := repeat first [ wp_step | progress cbn beta iota ].

(** Use a specification lemma of the operation in focus. *)
Tactic Notation "wp_use" uconstr(L) "as" simple_intropattern(p) :=
  eapply wp_mono; [ apply L | intros ?o ?st p ].

(** ** Computations that return *)

(** [safe m]: whatever the state, [m] returns a value or an error. *)
Definition returns {A} (o : outcome A) : bool :=
  match o with Ok _ | Err _ => true | Panic _ | Diverge => false end.
Definition safe {S A} (m : M S A) : Prop := ∀ s, returns (m s).1 = true.

Section safe_rules.
Context {S : Type}.

Lemma safe_ret {A} (a : A) : safe (mret a : M S A).
Proof. done. Qed.
Lemma safe_throw {A} e : safe (throw e : M S A).
Proof. done. Qed.
Lemma safe_gets {A} (f : S → A) : safe (gets f).
Proof. done. Qed.
Lemma safe_modify (f : S → S) : safe (modify f).
Proof. done. Qed.
Lemma safe_bind {A B} (m : M S A) (k : A → M S B) :
  safe m → (∀ a, safe (k a)) → safe (x ← m; k x).
Proof.
  intros Hm Hk s. cbv [mbind M_bind]. specialize (Hm s).
  destruct (m s) as [[] s']; try done. apply Hk.
Qed.
Lemma safe_attempt {A} (m : M S A) : safe m → safe (attempt m).
Proof. intros Hm s. specialize (Hm s). unfold attempt. by destruct (m s) as [[] s']. Qed.
Lemma safe_with_msg {A} msg (m : M S A) : safe m → safe (with_msg msg m).
Proof. intros Hm s. specialize (Hm s). unfold with_msg. by destruct (m s) as [[] s']. Qed.
Lemma safe_with_wrap {A} msg (m : M S A) : safe m → safe (with_wrap msg m).
Proof. intros Hm s. specialize (Hm s). unfold with_wrap. by destruct (m s) as [[] s']. Qed.
Lemma safe_for_range {A} (l : list A) (f : A → M S unit) :
  (∀ x, safe (f x)) → safe (for_range l f).
Proof. intros Hf. induction l; simpl; [done|]. by apply safe_bind. Qed.
Lemma safe_zoom {T A} get put (m : M T A) : safe m → safe (zoom get put m : M S A).
Proof. intros Hm s. unfold zoom. specialize (Hm (get s)). by destruct (m (get s)). Qed.

(** After a safe computation only the two ordinary outcomes are left. *)
Lemma safe_cases {A} (m : M S A) s o s' :
  safe m → m s = (o, s') → (∃ a, o = Ok a) ∨ (∃ e, o = Err e).
Proof. intros Hm E. specialize (Hm s). rewrite E in Hm. destruct o; eauto; done. Qed.
End safe_rules.

Create HintDb safe.
#[export] Hint Resolve safe_ret safe_throw safe_gets safe_modify safe_zoom : safe.

Ltac solve_safe :=
  intros; repeat first
  [ progress intros
  | apply safe_ret | apply safe_throw | apply safe_gets | apply safe_modify
  | apply safe_bind
  | apply safe_attempt | apply safe_with_msg | apply safe_with_wrap
  | apply safe_for_range
  | solve [eauto with safe nocore]
  | apply safe_zoom
  | match goal with |- safe (match ?x with _ => _ end) => destruct x end
  | match goal with |- safe (if ?x then _ else _) => destruct x end
  | progress unfold ignore ].

(** ** Computations that leave a part of the state alone *)

Definition keeping {S X A} (f : S → X) (m : M S A) : Prop := ∀ s, f (m s).2 = f s.

Section keeping.
Context {S X : Type} (f : S → X).

Lemma keeping_ret {A} (a : A) : keeping f (mret a).
Proof. done. Qed.
Lemma keeping_throw {A} e : keeping f (throw e : M S A).
Proof. done. Qed.
Lemma keeping_panic {A} w : keeping f (panic w : M S A).
Proof. done. Qed.
Lemma keeping_gets {A} (g : S → A) : keeping f (gets g).
Proof. done. Qed.
Lemma keeping_bind {A B} (m : M S A) (k : A → M S B) :
  keeping f m → (∀ a, keeping f (k a)) → keeping f (x ← m; k x).
Proof.
  intros Hm Hk s. cbv [mbind M_bind]. specialize (Hm s). destruct (m s) as [[] s']; try done.
  by rewrite Hk.
Qed.
Lemma keeping_attempt {A} (m : M S A) : keeping f m → keeping f (attempt m).
Proof. intros Hm s. specialize (Hm s). unfold attempt. destruct (m s) as [[] ?]; exact Hm. Qed.
Lemma keeping_with_msg {A} msg (m : M S A) : keeping f m → keeping f (with_msg msg m).
Proof. intros Hm s. specialize (Hm s). unfold with_msg. destruct (m s) as [[] ?]; exact Hm. Qed.
Lemma keeping_with_wrap {A} msg (m : M S A) : keeping f m → keeping f (with_wrap msg m).
Proof. intros Hm s. specialize (Hm s). unfold with_wrap. destruct (m s) as [[] ?]; exact Hm. Qed.
Lemma keeping_for_range {A} (l : list A) (body : A → M S unit) :
  (∀ x, keeping f (body x)) → keeping f (for_range l body).
Proof. intros Hb. induction l as [|x l IH]; [apply keeping_ret|]. apply keeping_bind; [apply Hb|]. intros _. exact IH. Qed.
Lemma keeping_zoom {T A} (get : S → T) (put : T → S → S) (m : M T A) :
  (∀ t s, f (put t s) = f s) → keeping f (zoom get put m).
Proof. intros Hp s. unfold zoom. destruct (m (get s)). apply Hp. Qed.
Lemma keeping_zoom_in {T A} (g : T → X) (get : S → T) (put : T → S → S) (m : M T A) :
  (∀ t s, f (put t s) = g t) → (∀ s, f s = g (get s)) → keeping g m → keeping f (zoom get put m).
Proof. intros Hp Hg Hm s. unfold zoom. specialize (Hm (get s)). destruct (m (get s)). simpl in *. rewrite Hp, Hg. exact Hm. Qed.
Lemma keeping_ignore {A} (m : M S A) : keeping f m → keeping f (ignore m).
Proof. intros Hm. apply keeping_bind; [by apply keeping_attempt|]. intros _. apply keeping_ret. Qed.
Lemma wp_keep {A} (m : M S A) s : keeping f m → wp m (λ _ s', f s' = f s) s.
Proof. intros Hm. apply Hm. Qed.
Lemma wp_keeping_of {A} (m : M S A) (Q : outcome A → S → Prop) s :
  keeping f m → wp m Q s → wp m (λ o s', Q o s' ∧ f s' = f s) s.
Proof. intros Hm Hw. split; [exact Hw|apply Hm]. Qed.
End keeping.

Create HintDb keep.
Ltac solve_keeping :=
  intros; repeat first
  [ progress intros
  | apply keeping_ret | apply keeping_throw | apply keeping_panic | apply keeping_gets
  | solve [eauto 2 with keep nocore]
  | apply keeping_bind | apply keeping_attempt | apply keeping_with_msg | apply keeping_with_wrap
  | apply keeping_for_range
  | apply keeping_zoom; [by intros ? []]
  | match goal with |- keeping _ (match ?x with _ => _ end) => destruct x end
  | match goal with |- keeping _ (if ?x then _ else _) => destruct x end
  | progress unfold ignore ].
