(* ===== verification/GoStrings.v ===== *)
(** The functions of Go's [strings] and [strconv] packages that the program
    uses, over byte strings.  [ToLower], [ToUpper], [EqualFold] and [TrimSpace]
    treat the ASCII letters and white space; the identifiers, MAC addresses and
    annotations they are applied to are ASCII.  [int] is 64 bits wide. *)
From S2P Require Export Prelude.
From Stdlib Require Import Ascii.
#[global] Arguments String.append !_ _ / : simpl nomatch.
#[global] Arguments String.length !_ / : simpl nomatch.

(** ** Definitions *)

Definition HasPrefix (s p : string) : bool := String.prefix p s.

(** Dropping the first [n] bytes. *)
Fixpoint str_drop (n : nat) (s : string) : string :=
  match n, s with
  | O, _ => s
  | S n', String _ s' => str_drop n' s'
  | S _, EmptyString => ""
  end.

Definition TrimPrefix (s p : string) : string :=
  if HasPrefix s p then str_drop (String.length p) s else s.

Definition HasSuffix (s x : string) : bool :=
  bool_decide (String.length x ≤ String.length s)%nat &&
  String.eqb (str_drop (String.length s - String.length x)%nat s) x.

Fixpoint Contains (s x : string) : bool :=
  HasPrefix s x || match s with EmptyString => false | String _ s' => Contains s' x end.

Definition ascii_lower (a : ascii) : ascii :=
  let n := N_of_ascii a in
  if (65 <=? n)%N && (n <=? 90)%N then ascii_of_N (n + 32) else a.
Definition ascii_upper (a : ascii) : ascii :=
  let n := N_of_ascii a in
  if (97 <=? n)%N && (n <=? 122)%N then ascii_of_N (n - 32) else a.

Fixpoint str_map (f : ascii → ascii) (s : string) : string :=
  match s with EmptyString => "" | String a s' => String (f a) (str_map f s') end.

Definition ToLower : string → string := str_map ascii_lower.
Definition ToUpper : string → string := str_map ascii_upper.
Definition EqualFold (a b : string) : bool := String.eqb (ToLower a) (ToLower b).

Definition is_space (a : ascii) : bool :=
  let n := N_of_ascii a in ((9 <=? n)%N && (n <=? 13)%N) || (n =? 32)%N.
Definition is_digit (a : ascii) : bool :=
  let n := N_of_ascii a in (48 <=? n)%N && (n <=? 57)%N.

(** Every byte of the string. *)
Fixpoint all_chars (p : ascii → bool) (s : string) : bool :=
  match s with EmptyString => true | String a s' => p a && all_chars p s' end.

Fixpoint trim_left (p : ascii → bool) (s : string) : string :=
  match s with
  | EmptyString => ""
  | String a s' => if p a then trim_left p s' else s
  end.
Definition str_rev (s : string) : string :=
  String.string_of_list_ascii (reverse (String.list_ascii_of_string s)).
Definition trim_right (p : ascii → bool) (s : string) : string :=
  str_rev (trim_left p (str_rev s)).
Definition TrimSpace (s : string) : string := trim_right is_space (trim_left is_space s).

(** [strings.ReplaceAll] of a one-byte string by the empty one. *)
Fixpoint str_remove (c : ascii) (s : string) : string :=
  match s with
  | EmptyString => ""
  | String a s' => if Ascii.eqb a c then str_remove c s' else String a (str_remove c s')
  end.

(** [strings.Split] on a one-byte separator: always at least one field. *)
Fixpoint Split (s : string) (c : ascii) : list string :=
  match s with
  | EmptyString => [""]
  | String a s' =>
      if Ascii.eqb a c then "" :: Split s' c
      else match Split s' c with
           | x :: r => String a x :: r
           | [] => [String a ""]
           end
  end.

(** [strings.Fields]: the maximal runs of non-space bytes. *)
Fixpoint Fields_aux (s : string) (cur : string) : list string :=
  match s with
  | EmptyString => if String.eqb cur "" then [] else [cur]
  | String a s' =>
      if is_space a
      then (if String.eqb cur "" then Fields_aux s' "" else cur :: Fields_aux s' "")
      else Fields_aux s' (cur +:+ String a "")
  end.
Definition Fields (s : string) : list string := Fields_aux s "".

Fixpoint Join (l : list string) (sep : string) : string :=
  match l with
  | [] => ""
  | [x] => x
  | x :: l' => x +:+ sep +:+ Join l' sep
  end.

Definition Itoa (z : Z) : string := pretty z.

Fixpoint digits_val (s : string) (acc : Z) : option Z :=
  match s with
  | EmptyString => Some acc
  | String a s' =>
      if is_digit a then digits_val s' (acc * 10 + (Z.of_N (N_of_ascii a) - 48)) else None
  end.

(** [strconv.Atoi] and [strconv.ParseInt(s, 10, 64)]: an optional sign, at least
    one digit, and the value in the range of [int64]. *)
Definition Atoi (s : string) : option Z :=
  let '(neg, ds) :=
    match s with
    | String "-" r => (true, r)
    | String "+" r => (false, r)
    | _ => (false, s)
    end in
  if String.eqb ds "" then None else
  v ← digits_val ds 0;
  let z := if neg : bool then - v else v in
  if (- 2 ^ 63 <=? z) && (z <? 2 ^ 63) then Some z else None.

(** [strconv.FormatUint(n, 16)] and [%x]; 16 digits write every [uint64]. *)
Definition digit_char (d : Z) : ascii :=
  ascii_of_N (Z.to_N (if d <? 10 then 48 + d else 87 + d)).
Fixpoint format_hex (fuel : nat) (n : Z) : string :=
  match fuel with
  | O => ""
  | S fuel' => if n <? 16 then String (digit_char n) ""
               else format_hex fuel' (n / 16) +:+ String (digit_char (n mod 16)) ""
  end.
Definition FormatUint16 (n : Z) : string := format_hex 16 n.

(** ** Lemmas *)

Lemma str_app_nil_r s : s +:+ "" = s.
Proof. induction s as [|a s IH]; simpl; [done|]. by rewrite IH. Qed.

Lemma str_app_assoc a b c : a +:+ (b +:+ c) = (a +:+ b) +:+ c.
Proof. induction a as [|x a IH]; simpl; [done|]. by rewrite IH. Qed.

Lemma str_app_inj_l a b c : a +:+ b = a +:+ c → b = c.
Proof. induction a as [|x a IH]; simpl; [done|]. intros [= H]. auto. Qed.

Lemma str_length_app a b : String.length (a +:+ b) = (String.length a + String.length b)%nat.
Proof. induction a as [|x a IH]; simpl; [done|]. by rewrite IH. Qed.

Lemma str_app_inj_r a b c : a +:+ c = b +:+ c → a = b.
Proof.
  revert b. induction a as [|x a IH]; intros [|y b]; simpl; intros H; try done.
  - apply (f_equal String.length) in H. simpl in H. rewrite ?str_length_app in H; simpl in H; lia.
  - apply (f_equal String.length) in H. simpl in H. rewrite ?str_length_app in H; simpl in H; lia.
  - injection H as -> H. f_equal. auto.
Qed.

Lemma prefix_cons a p b s :
  String.prefix (String a p) (String b s) =
  if ascii_dec a b then String.prefix p s else false.
Proof. reflexivity. Qed.

Lemma HasPrefix_app p s : HasPrefix (p +:+ s) p = true.
Proof.
  unfold HasPrefix. induction p as [|a p IH]; [by destruct s|].
  change (String a p +:+ s) with (String a (p +:+ s)). rewrite prefix_cons.
  destruct (ascii_dec a a) as [_|n]; [exact IH|by destruct n].
Qed.

Lemma HasPrefix_spec s p : HasPrefix s p = true ↔ ∃ r, s = p +:+ r.
Proof.
  split; [|intros [r ->]; apply HasPrefix_app].
  unfold HasPrefix. revert s. induction p as [|a p IH]; intros s; simpl.
  - intros _. by exists s.
  - destruct s as [|b s]; [discriminate|]. rewrite prefix_cons.
    destruct (ascii_dec a b) as [->|]; [|discriminate].
    intros [r ->]%IH. by exists r.
Qed.

Lemma str_drop_app p s : str_drop (String.length p) (p +:+ s) = s.
Proof. induction p as [|a p IH]; [by destruct s|]. done. Qed.

Lemma TrimPrefix_app p s : TrimPrefix (p +:+ s) p = s.
Proof. unfold TrimPrefix. by rewrite HasPrefix_app, str_drop_app. Qed.

(** The separator of a joined key splits it uniquely when the right-hand part
    has no separator. *)
Fixpoint str_elem (c : ascii) (s : string) : bool :=
  match s with EmptyString => false | String a s' => Ascii.eqb a c || str_elem c s' end.

Lemma str_elem_app c a b : str_elem c (a +:+ b) = str_elem c a || str_elem c b.
Proof. induction a as [|x a IH]; simpl; [done|]. by rewrite IH, orb_assoc. Qed.

Lemma str_split_last c a b x y :
  str_elem c x = false → str_elem c y = false →
  a +:+ String c x = b +:+ String c y → a = b ∧ x = y.
Proof.
  revert b. induction a as [|u a IH]; intros [|v b] Hx Hy; simpl; intros H.
  - by injection H as ->.
  - injection H as -> ->. rewrite str_elem_app in Hx. simpl in Hx.
    by rewrite Ascii.eqb_refl, orb_true_r in Hx.
  - injection H as -> <-. rewrite str_elem_app in Hy. simpl in Hy.
    by rewrite Ascii.eqb_refl, orb_true_r in Hy.
  - injection H as -> H. destruct (IH _ Hx Hy H) as [-> ->]. done.
Qed.

Lemma str_split_first c a b x y :
  str_elem c a = false → str_elem c b = false →
  a +:+ String c x = b +:+ String c y → a = b ∧ x = y.
Proof.
  revert b. induction a as [|u a IH]; intros [|v b] Hx Hy; simpl in *; intros H.
  - by injection H as ->.
  - injection H as -> ->. by rewrite Ascii.eqb_refl in Hy.
  - injection H as -> <-. by rewrite Ascii.eqb_refl in Hx.
  - injection H as -> H. apply orb_false_iff in Hx as [_ Hx], Hy as [_ Hy].
    destruct (IH _ Hx Hy H) as [-> ->]. done.
Qed.

Lemma Split_nonempty s c : Split s c ≠ [].
Proof.
  destruct s as [|a s]; simpl; [done|]. destruct (Ascii.eqb a c); [done|].
  by destruct (Split s c).
Qed.

(** Joining the fields with the separator gives the string back. *)
Lemma Join_Split s c : Join (Split s c) (String c "") = s.
Proof.
  induction s as [|a s IH]; simpl; [done|].
  destruct (Ascii.eqb_spec a c) as [->|].
  - pose proof (Split_nonempty s c). destruct (Split s c) as [|x r]; [done|].
    simpl in *. by rewrite IH.
  - pose proof (Split_nonempty s c). destruct (Split s c) as [|x [|y r]]; simpl in *;
      [done| |]; by rewrite IH.
Qed.

Lemma Split_none s c : str_elem c s = false → Split s c = [s].
Proof.
  induction s as [|a s IH]; simpl; [done|]. intros [Ha Hs]%orb_false_iff. by rewrite Ha, IH.
Qed.

Lemma Split_app s c t : str_elem c s = false → Split (s +:+ String c t) c = s :: Split t c.
Proof.
  induction s as [|a s IH]; intros Hs.
  - cbn [String.append Split]. by rewrite Ascii.eqb_refl.
  - simpl in Hs. apply orb_false_iff in Hs as [Ha Hs]. cbn [String.append Split]. by rewrite Ha, IH.
Qed.

(** Fields on both sides of a separator. *)
Lemma Split_at s c t : Split (s +:+ String c t) c = Split s c ++ Split t c.
Proof.
  induction s as [|a s IH]; [cbn [String.append Split]; by rewrite Ascii.eqb_refl|].
  cbn [String.append Split]. rewrite IH. destruct (Ascii.eqb a c); [done|].
  pose proof (Split_nonempty s c). by destruct (Split s c).
Qed.


(** The fields come back when none contains the separator. *)
Lemma Split_Join l c :
  l ≠ [] → Forall (λ s, str_elem c s = false) l → Split (Join l (String c "")) c = l.
Proof.
  intros Hne Hl. induction Hl as [|x l Hx Hl IH]; [done|].
  destruct l as [|y l]; [by apply Split_none|].
  change (Join (x :: y :: l) (String c "")) with (x +:+ String c (Join (y :: l) (String c ""))).
  by rewrite Split_app, IH.
Qed.

Lemma HasSuffix_app a b : HasSuffix (a +:+ b) b = true.
Proof.
  unfold HasSuffix. rewrite str_length_app, bool_decide_eq_true_2 by lia.
  replace (String.length a + String.length b - String.length b)%nat with (String.length a) by lia.
  by rewrite str_drop_app, String.eqb_refl.
Qed.

Lemma pretty_N_go_elem c x s :
  (∀ y, pretty_N_char y ≠ c) → str_elem c s = false → str_elem c (pretty_N_go x s) = false.
Proof.
  intros Hc. revert s. induction (N.lt_wf_0 x) as [x _ IH]; intros s Hs.
  destruct (decide (0 < x)%N) as [Hx|Hx].
  - rewrite pretty_N_go_step by done. apply IH; [by apply N.div_lt|].
    simpl. rewrite Hs, orb_false_r. by apply Ascii.eqb_neq.
  - replace x with 0%N by lia. by rewrite pretty_N_go_0.
Qed.

(** A decimal numeral has no other characters than digits and the sign. *)
Lemma Itoa_elem c z : is_digit c = false → c ≠ "-"%char → str_elem c (Itoa z) = false.
Proof.
  intros Hd Hm.
  assert (∀ y, pretty_N_char y ≠ c) as Hc.
  { intros y <-. unfold pretty_N_char in Hd. repeat case_match; done. }
  assert (∀ p, str_elem c (pretty (N.pos p)) = false) as Hp.
  { intros p. unfold pretty, pretty_N. rewrite decide_False by done. by apply pretty_N_go_elem. }
  unfold Itoa. destruct z as [|p|p].
  - change (str_elem c "0" = false). cbn [str_elem]. rewrite orb_false_r. apply Ascii.eqb_neq. by intros <-.
  - apply Hp.
  - change (str_elem c (String "-" (pretty (N.pos p))) = false). cbn [str_elem]. rewrite Hp, orb_false_r.
    apply Ascii.eqb_neq. congruence.
Qed.

Create Rewrite HintDb gostr.
#[export] Hint Rewrite str_app_nil_r HasPrefix_app str_drop_app TrimPrefix_app
  str_length_app str_elem_app : gostr.
