(* ===== verification/GoNet.v ===== *)
(** The parts of Go's [net] package that the program uses: [ParseIP], [To4] and
    [String] of [net.IP], with a [net.IP] as the list of its bytes ([nil] is the
    empty list). *)
From S2P Require Export Prelude GoStrings.
From Stdlib Require Import Ascii.

(** ** Definitions *)

(** A decimal field of a dotted quad: one to three digits without a leading
    zero, at most 255. *)
Definition ipv4_field (f : string) : option Z :=
  match f with
  | EmptyString => None
  | String "0"%char (String _ _) => None
  | _ =>
      if (String.length f <=? 3)%nat
      then v ← digits_val f 0; if v <=? 255 then Some v else None
      else None
  end.

Definition parseIPv4 (s : string) : option (list Z) :=
  match Split s "."%char with
  | [a; b; c; d] =>
      a ← ipv4_field a; b ← ipv4_field b; c ← ipv4_field c; d ← ipv4_field d;
      Some [a; b; c; d]
  | _ => None
  end.

Definition hex_val (a : ascii) : option Z :=
  let n := Z.of_N (N_of_ascii a) in
  if (48 <=? n) && (n <=? 57) then Some (n - 48)
  else if (97 <=? n) && (n <=? 102) then Some (n - 87)
  else if (65 <=? n) && (n <=? 70) then Some (n - 55)
  else None.

(** The hexadecimal digits at the head: their number, value and the rest. *)
Fixpoint hex_group (s : string) (n : nat) (acc : Z) : nat * Z * string :=
  match s with
  | String a s' =>
      match hex_val a with
      | Some v => hex_group s' (S n) (acc * 16 + v)
      | None => (n, acc, s)
      end
  | EmptyString => (n, acc, s)
  end.

(** The group loop of [netip.parseIPv6]: [ip] holds the bytes parsed so far,
    [ell] the position of the ellipsis.  Eight groups fill an address, so nine
    rounds of fuel always reach a return. *)
Fixpoint ipv6_groups (fuel : nat) (s : string) (ip : list Z) (ell : option nat)
    : option (list Z * option nat) :=
  match fuel with
  | O => None
  | S fuel' =>
      if (16 <=? length ip)%nat then
        if String.eqb s "" then Some (ip, ell) else None
      else
        let '(off, acc, rest) := hex_group s 0 0 in
        if (off =? 0)%nat || (4 <? off)%nat then None else
        match rest with
        | String "."%char _ =>
            if negb (match ell with None => (length ip =? 12)%nat | Some _ => true end) then None
            else if (16 <? length ip + 4)%nat then None
            else quad ← parseIPv4 s; Some (ip ++ quad, ell)
        | EmptyString => Some (ip ++ [acc / 256; acc mod 256], ell)
        | String ":"%char EmptyString => None
        | String ":"%char (String ":"%char rest') =>
            match ell with
            | Some _ => None
            | None =>
                let ip' := ip ++ [acc / 256; acc mod 256] in
                if String.eqb rest' "" then Some (ip', Some (length ip'))
                else ipv6_groups fuel' rest' ip' (Some (length ip'))
            end
        | String ":"%char rest' => ipv6_groups fuel' rest' (ip ++ [acc / 256; acc mod 256]) ell
        | _ => None
        end
  end.

Definition parseIPv6 (s : string) : option (list Z) :=
  let '(ell, s') :=
    match s with
    | String ":"%char (String ":"%char r) => (Some O, r)
    | _ => (None, s)
    end in
  match ell, s' with
  | Some _, EmptyString => Some (replicate 16 0)
  | _, _ =>
      '(ip, ell') ← ipv6_groups 9 s' [] ell;
      match ell' with
      | None => if (length ip =? 16)%nat then Some ip else None
      | Some k =>
          if (length ip <? 16)%nat
          then Some (take k ip ++ replicate (16 - length ip) 0 ++ drop k ip)
          else None
      end
  end.

(** [net.ParseIP]: the 16-byte form, IPv4 addresses in mapped form. *)
Fixpoint ip_kind (s : string) : option bool :=
  match s with
  | EmptyString => None
  | String "."%char _ => Some true
  | String ":"%char _ => Some false
  | String "%"%char _ => None
  | String _ s' => ip_kind s'
  end.

Definition v4_in_v6 : list Z := [0; 0; 0; 0; 0; 0; 0; 0; 0; 0; 255; 255].

Definition ParseIP (s : string) : option (list Z) :=
  match ip_kind s with
  | Some true => q ← parseIPv4 s; Some (v4_in_v6 ++ q)
  | Some false => parseIPv6 s
  | None => None
  end.

(** [IP.To4]: [None] is nil. *)
Definition To4 (ip : list Z) : option (list Z) :=
  if (length ip =? 4)%nat then Some ip
  else if (length ip =? 16)%nat && bool_decide (take 12 ip = v4_in_v6)
  then Some (drop 12 ip)
  else None.

(** [IP.String] of an IPv4 address. *)
Definition quad_string (q : list Z) : string := Join (Itoa <$> q) ".".

Example ParseIP_v4 : ParseIP "10.0.2.51" = Some (v4_in_v6 ++ [10; 0; 2; 51]).
Proof. reflexivity. Qed.
Example ParseIP_bad : map ParseIP ["10.0.2"; "10.0.2.256"; "10.0.02.1"; ""; "x"; "1.2.3.4.5"; "1..2.3"]
  = replicate 7 None.
Proof. reflexivity. Qed.
Example ParseIP_v6 : ParseIP "2001:db8::ff00:42:8329"
  = Some [32; 1; 13; 184; 0; 0; 0; 0; 0; 0; 255; 0; 0; 66; 131; 41].
Proof. reflexivity. Qed.
Example ParseIP_mapped : ParseIP "::ffff:1.2.3.4" = Some (v4_in_v6 ++ [1; 2; 3; 4]).
Proof. reflexivity. Qed.
Example ParseIP_v6_bad : map ParseIP ["::1::"; ":"; "1:2:3:4:5:6:7"; "1:2:3:4:5:6:7:8::"; "fe80::1%eth0"; "12345::"]
  = replicate 6 None.
Proof. reflexivity. Qed.
Example ParseIP_v6_ends : (ParseIP "::", ParseIP "1::")
  = (Some (replicate 16 0), Some (0 :: 1 :: replicate 14 0)).
Proof. reflexivity. Qed.

(** ** Addresses and networks as text *)

Definition ip6_groups (ip : list Z) : list Z :=
  (λ i, default 0 (ip !! (2 * i)%nat) * 256 + default 0 (ip !! (2 * i + 1)%nat)) <$> seq 0 8.

Fixpoint zero_run (l : list Z) : nat :=
  match l with x :: l' => if x =? 0 then S (zero_run l') else O | [] => O end.

(** The first longest run of at least two zero groups, as its bounds. *)
Definition longest_run (g : list Z) : option (nat * nat) :=
  foldl (λ best i,
    let l := zero_run (drop i g) in
    if (2 <=? l)%nat && (match best with Some (s, e) => e - s | None => 0 end <? l)%nat
    then Some (i, (i + l)%nat) else best) None (seq 0 8).

Definition ip6_string (ip : list Z) : string :=
  let g := ip6_groups ip in
  match longest_run g with
  | Some (s, e) =>
      Join (FormatUint16 <$> take s g) ":" +:+ "::" +:+ Join (FormatUint16 <$> drop e g) ":"
  | None => Join (FormatUint16 <$> g) ":"
  end.

Definition hex_bytes (b : list Z) : string :=
  foldr (λ x s, String (digit_char (x / 16)) (String (digit_char (x mod 16)) s)) "" b.

(** [IP.String]. *)
Definition IP_String (ip : list Z) : string :=
  match To4 ip with
  | Some q => quad_string q
  | None =>
      if (length ip =? 0)%nat then "<nil>"
      else if (length ip =? 16)%nat then ip6_string ip
      else "?" +:+ hex_bytes ip
  end.

(** [net.IPNet]; a nil address or mask is the empty list. *)
Record IPNet : Type := mkIPNet { net_IP : list Z; net_Mask : list Z }.

Definition networkNumberAndMask (n : IPNet) : option (list Z * list Z) :=
  let ip := match To4 (net_IP n) with Some q => q | None => net_IP n end in
  let m := net_Mask n in
  if negb ((length ip =? 4)%nat || (length ip =? 16)%nat) then None
  else if (length m =? 4)%nat then (if (length ip =? 4)%nat then Some (ip, m) else None)
  else if (length m =? 16)%nat then Some (ip, if (length ip =? 4)%nat then drop 12 m else m)
  else None.

(** The leading ones of a byte, when only zeros follow. *)
Definition byte_ones (v : Z) : option Z :=
  match v with
  | 0 => Some 0 | 128 => Some 1 | 192 => Some 2 | 224 => Some 3
  | 240 => Some 4 | 248 => Some 5 | 252 => Some 6 | 254 => Some 7 | _ => None
  end.

(** [simpleMaskLength], [None] for -1. *)
Fixpoint simpleMaskLength (mask : list Z) (n : Z) : option Z :=
  match mask with
  | [] => Some n
  | v :: rest =>
      if v =? 255 then simpleMaskLength rest (n + 8)
      else k ← byte_ones v; if forallb (λ x, x =? 0) rest then Some (n + k) else None
  end.

(** [IPNet.String]. *)
Definition IPNet_String (n : IPNet) : string :=
  match networkNumberAndMask n with
  | None => "<nil>"
  | Some (nn, m) =>
      match simpleMaskLength m 0 with
      | Some l => IP_String nn +:+ "/" +:+ Itoa l
      | None => IP_String nn +:+ "/" +:+ hex_bytes m
      end
  end.

(** [net.CIDRMask] and [net.ParseCIDR]. *)

Definition CIDRMask (ones bits : Z) : list Z :=
  (λ i, let k := Z.max 0 (Z.min 8 (ones - 8 * i)) in 256 - 2 ^ (8 - k)) <$> seqZ 0 (bits / 8).

Definition all_digits (s : string) : bool := negb (String.eqb s "") && all_chars is_digit s.

Definition ParseCIDR (s : string) : error + (list Z * IPNet) :=
  let bad := inl (ExtErr "invalid CIDR address") in
  match Split s "/"%char with
  | [addr; mask] =>
      match ParseIP addr, (if all_digits mask then Atoi mask else None) with
      | Some ip, Some n =>
          let iplen := if default false (ip_kind addr) then 4 else 16 in
          if 8 * iplen <? n then bad else
          let m := CIDRMask n (8 * iplen) in
          let base := if iplen =? 4 then default [] (To4 ip) else ip in
          inr (ip, mkIPNet (zip_with Z.land base m) m)
      | _, _ => bad
      end
  | _ => bad
  end.

(** [IP.IsUnspecified]. *)
Definition IsUnspecified (ip : list Z) : bool :=
  bool_decide (To4 ip = Some [0; 0; 0; 0]) || bool_decide (ip = replicate 16 0).

Example IPNet_String_mapped :
  IPNet_String (mkIPNet (default [] (ParseIP "10.0.2.51")) (default [] (ParseIP "255.255.0.0"))) = "10.0.2.51/16".
Proof. reflexivity. Qed.
Example IP_String_v6 : IP_String (default [] (ParseIP "2001:db8::ff00:42:8329")) = "2001:db8::ff00:42:8329".
Proof. reflexivity. Qed.
Example IP_String_ends : map (λ s, IP_String (default [] (ParseIP s))) ["::"; "::1"; "fe80::"; "1:0:0:2:0:0:0:3"]
  = ["::"; "::1"; "fe80::"; "1:0:0:2::3"].
Proof. reflexivity. Qed.
Example parse_cidr_32 : ParseCIDR "10.0.0.5/32" = inr (default [] (ParseIP "10.0.0.5"), mkIPNet [10; 0; 0; 5] [255; 255; 255; 255]).
Proof. reflexivity. Qed.
Example parse_cidr_20 : snd <$> (match ParseCIDR "172.16.31.9/20" with inr x => Some x | inl _ => None end)
  = Some (mkIPNet [172; 16; 16; 0] [255; 255; 240; 0]).
Proof. reflexivity. Qed.
Example parse_cidr_bad : ParseCIDR "10.0.0.5/33" = inl (ExtErr "invalid CIDR address").
Proof. reflexivity. Qed.
