(* ===== verification/GoTime.v ===== *)
(** The part of Go's [time] package that the program uses: the layout
    ["2006-01-02 15:04:05"] of [Time.Format] and [time.Parse], on the proleptic
    Gregorian calendar.  A [Time] is its Unix second. *)
From S2P Require Export Prelude GoStrings.
From Stdlib Require Import Ascii.

(** ** Definitions *)

(** Year, month and day of a day counted from 1970-01-01, by the 400-year eras
    that begin on the first of March. *)
Definition civil_of_days (days : Z) : Z * Z * Z :=
  let z := days + 719468 in
  let era := z / 146097 in
  let doe := z mod 146097 in
  let yoe := (doe - doe / 1460 + doe / 36524 - doe / 146096) / 365 in
  let doy := doe - (365 * yoe + yoe / 4 - yoe / 100) in
  let mp := (5 * doy + 2) / 153 in
  let d := doy - (153 * mp + 2) / 5 + 1 in
  let m := if mp <? 10 then mp + 3 else mp - 9 in
  (yoe + era * 400 + (if m <=? 2 then 1 else 0), m, d).

Definition days_of_civil (y m d : Z) : Z :=
  let y' := if m <=? 2 then y - 1 else y in
  let era := y' / 400 in
  let yoe := y' mod 400 in
  let doy := (153 * (if 2 <? m then m - 3 else m + 9) + 2) / 5 + d - 1 in
  era * 146097 + (yoe * 365 + yoe / 4 - yoe / 100 + doy) - 719468.

Definition digit (v : Z) : ascii := ascii_of_N (Z.to_N (48 + v)).
Definition pad2 (v : Z) : string := String (digit (v / 10)) (String (digit (v mod 10)) "").
(** A year of four digits. *)
Definition pad4 (v : Z) : string := pad2 (v / 100) +:+ pad2 (v mod 100).

(** [t.Format("2006-01-02 15:04:05")] in the zone [offset] seconds east of UTC,
    for years 0 to 9999. *)
Definition FormatDateTime (offset t : Z) : string :=
  let local := t + offset in
  let '(y, m, d) := civil_of_days (local / 86400) in
  let s := local mod 86400 in
  pad4 y +:+ "-" +:+ pad2 m +:+ "-" +:+ pad2 d +:+ " " +:+
  pad2 (s / 3600) +:+ ":" +:+ pad2 (s / 60 mod 60) +:+ ":" +:+ pad2 (s mod 60).

Definition digit_val (a : ascii) : option Z :=
  if is_digit a then Some (Z.of_N (N_of_ascii a) - 48) else None.

(** [getnum]: two digits, or one when [fixed] is false and no second follows. *)
Definition getnum (s : string) (fixed : bool) : option (Z * string) :=
  match s with
  | String a s1 =>
      x ← digit_val a;
      match s1 with
      | String b s2 =>
          match digit_val b with
          | Some y => Some (x * 10 + y, s2)
          | None => if fixed then None else Some (x, s1)
          end
      | EmptyString => if fixed then None else Some (x, s1)
      end
  | EmptyString => None
  end.

Definition skip_char (c : ascii) (s : string) : option string :=
  match s with String a s' => if Ascii.eqb a c then Some s' else None | _ => None end.

(** A space of the layout stands for any number of spaces, none only at the end
    of the input. *)
Definition cutspace : string → string := trim_left (Ascii.eqb " ").
Definition skip_space (s : string) : option string :=
  match s with
  | EmptyString => Some s
  | String a _ => if Ascii.eqb a " " then Some (cutspace s) else None
  end.

Definition year4 (s : string) : option (Z * string) :=
  '(hi, s) ← getnum s true; '(lo, s) ← getnum s true; Some (hi * 100 + lo, s).

(** A fraction of a second may follow the seconds. *)
Definition skip_fraction (s : string) : string :=
  match s with
  | String c (String a _ as s') =>
      if (Ascii.eqb c "." || Ascii.eqb c ",") && is_digit a then trim_left is_digit s' else s
  | _ => s
  end.

Definition is_leap (y : Z) : bool :=
  (y mod 4 =? 0) && (negb (y mod 100 =? 0) || (y mod 400 =? 0)).
Definition daysIn (m y : Z) : Z :=
  if m =? 2 then (if is_leap y then 29 else 28)
  else if bool_decide (m ∈ [4; 6; 9; 11]) then 30 else 31.

(** [time.Parse("2006-01-02 15:04:05", s)]: the time is taken as UTC. *)
Definition ParseDateTime (s : string) : option Z :=
  '(y, s) ← year4 s; s ← skip_char "-" s;
  '(m, s) ← getnum s true;
  if (m <? 1) || (12 <? m) then None else
  s ← skip_char "-" s;
  '(d, s) ← getnum s true; s ← skip_space s;
  '(hh, s) ← getnum s false;
  if 24 <=? hh then None else
  s ← skip_char ":" s;
  '(mm, s) ← getnum s true;
  if 60 <=? mm then None else
  s ← skip_char ":" s;
  '(ss, s) ← getnum s true;
  if 60 <=? ss then None else
  if negb (String.eqb (skip_fraction s) "") then None else
  if (d <? 1) || (daysIn m y <? d) then None else
  Some (days_of_civil y m d * 86400 + hh * 3600 + mm * 60 + ss).

Example format_epoch : FormatDateTime 0 0 = "1970-01-01 00:00:00".
Proof. reflexivity. Qed.
Example format_leap : FormatDateTime 28800 1709193599 = "2024-02-29 15:59:59".
Proof. reflexivity. Qed.
Example parse_leap : ParseDateTime "2024-02-29 15:59:59" = Some (1709193599 + 28800).
Proof. reflexivity. Qed.
Example parse_bad : map ParseDateTime
  ["2023-02-29 00:00:00"; "2024-2-29 00:00:00"; "2024-02-29 24:00:00"; ""; "Never";
   "2024-02-29T15:59:59Z"; "2024-02-29 15:59:59 "] = replicate 7 None.
Proof. reflexivity. Qed.
Example parse_lax : ParseDateTime "1970-01-01   5:00:00.123" = Some 18000.
Proof. reflexivity. Qed.

(** *** time.ParseDuration *)

(** [leadingInt]: the digits at the head, [None] beyond 2^63. *)
Fixpoint leadingInt (s : string) (x : Z) : option (Z * string) :=
  match s with
  | String c s' =>
      if is_digit c then
        if 2 ^ 63 / 10 <? x then None else
        let x := x * 10 + (Z.of_N (N_of_ascii c) - 48) in
        if 2 ^ 63 <? x then None else leadingInt s' x
      else Some (x, s)
  | EmptyString => Some (x, s)
  end.

(** [leadingFraction]: the digits after the point and their scale; digits that do
    not fit are dropped. *)
Fixpoint leadingFraction (s : string) (x scale : Z) (overflow : bool) : Z * Z * string :=
  match s with
  | String c s' =>
      if is_digit c then
        if overflow then leadingFraction s' x scale true
        else if (2 ^ 63 - 1) / 10 <? x then leadingFraction s' x scale true
        else
          let y := x * 10 + (Z.of_N (N_of_ascii c) - 48) in
          if 2 ^ 63 <? y then leadingFraction s' x scale true
          else leadingFraction s' y (scale * 10) false
      else (x, scale, s)
  | EmptyString => (x, scale, s)
  end.

Fixpoint duration_unit (s : string) : string * string :=
  match s with
  | String c s' =>
      if Ascii.eqb c "." || is_digit c then ("", s)
      else let '(u, r) := duration_unit s' in (String c u, r)
  | EmptyString => ("", s)
  end.

Definition unit_value (u : string) : option Z :=
  if String.eqb u "ns" then Some 1
  else if String.eqb u "us" || String.eqb u (String "194" (String "181" "s")) || String.eqb u (String "206" (String "188" "s"))
  then Some 1000
  else if String.eqb u "ms" then Some 1000000
  else if String.eqb u "s" then Some 1000000000
  else if String.eqb u "m" then Some 60000000000
  else if String.eqb u "h" then Some 3600000000000
  else None.

(** The terms of a duration; a term takes at least one byte, so the length of
    the text is fuel enough.  A fraction of a unit is exact here. *)
Fixpoint duration_terms (fuel : nat) (s : string) (d : Z) : option Z :=
  match s with
  | EmptyString => Some d
  | String c _ =>
      match fuel with
      | O => None
      | S fuel' =>
          if negb (Ascii.eqb c "." || is_digit c) then None else
          '(v, s1) ← leadingInt s 0;
          let pre := negb (String.length s1 =? String.length s)%nat in
          let '(f, scale, s2, post) :=
            match s1 with
            | String "."%char s' =>
                let '(f, scale, s2) := leadingFraction s' 0 1 false in
                (f, scale, s2, negb (String.length s2 =? String.length s')%nat)
            | _ => (0, 1, s1, false)
            end in
          if negb pre && negb post then None else
          let '(u, s3) := duration_unit s2 in
          if String.eqb u "" then None else
          unit ← unit_value u;
          if 2 ^ 63 / unit <? v then None else
          let v := v * unit + f * unit / scale in
          if 2 ^ 63 <? v then None else
          let d := d + v in
          if 2 ^ 63 <? d then None else duration_terms fuel' s3 d
      end
  end.

Definition ParseDuration (s : string) : option Z :=
  let '(neg, s) :=
    match s with
    | String "-"%char r => (true, r)
    | String "+"%char r => (false, r)
    | _ => (false, s)
    end in
  if String.eqb s "0" then Some 0 else
  if String.eqb s "" then None else
  d ← duration_terms (String.length s) s 0;
  if neg : bool then Some (- d) else if 2 ^ 63 - 1 <? d then None else Some d.

Example duration_ex : map ParseDuration ["168h"; "1h30m"; "-1.5s"; "0"; "1.5"; ""; "Never"; "1d"; "3000000h"]
  = [Some (168 * 3600000000000); Some 5400000000000; Some (-1500000000); Some 0; None; None; None; None; None].
Proof. vm_compute. reflexivity. Qed.

(** ** Lemmas *)

(** [lia] with the equations of the quotients and remainders. *)
Ltac div_lia := Z.to_euclidean_division_equations; lia.

(** A quotient by a constant as a variable with its remainder. *)
Ltac div_var e q r :=
  lazymatch e with
  | ?a / ?b =>
      pose proof (Z.div_mod a b ltac:(lia)); pose proof (Z.mod_pos_bound a b ltac:(lia));
      set (q := a / b) in *; set (r := a mod b) in *; clearbody q r
  end.

(** The year of the era and the day of the (March) year. *)
Lemma yoe_bounds doe :
  0 ≤ doe < 146097 →
  let yoe := (doe - doe / 1460 + doe / 36524 - doe / 146096) / 365 in
  let doy := doe - (365 * yoe + yoe / 4 - yoe / 100) in
  0 ≤ yoe < 400 ∧ 0 ≤ doy ≤ 365 ∧
  (doy = 365 → (yoe + 1) mod 4 = 0 ∧ ((yoe + 1) mod 100 ≠ 0 ∨ (yoe + 1) mod 400 = 0)).
Proof.
  intros H. cbv zeta.
  div_var (doe / 1460) a ra. div_var (doe / 36524) b rb. div_var (doe / 146096) c rc.
  div_var ((doe - a + b - c) / 365) y ry.
  assert (0 ≤ y < 400) by lia. split; [done|].
  assert ((y + 1) mod 4 = 0 ∨ y mod 4 < 3) as Hm4 by (clear; div_lia).
  assert ((y + 1) mod 100 ≠ 0 ∨ y mod 100 = 99) as Hm100 by (clear; div_lia).
  assert ((y + 1) mod 400 = 0 ∨ y < 399) as Hm400.
  { destruct (decide (y = 399)) as [->|]; [by left|right; lia]. }
  set (m4 := (y + 1) mod 4) in *. set (m100 := (y + 1) mod 100) in *. set (m400 := (y + 1) mod 400) in *.
  clearbody m4 m100 m400.
  div_var (y / 4) q4 r4. div_var (y / 100) q1 r1.
  assert (q1 = 0 ∨ q1 = 1 ∨ q1 = 2 ∨ q1 = 3) as Hq by lia.
  assert (b = 0 ∨ b = 1 ∨ b = 2 ∨ b = 3 ∨ b = 4) as Hb by lia.
  assert (c = 0 ∨ c = 1) as Hc by lia.
  assert (r4 = 0 ∨ r4 = 1 ∨ r4 = 2 ∨ r4 = 3) as Hr4 by lia.
  destruct Hc as [-> | ->], Hb as [->|[->|[->|[->| ->]]]]; try lia; destruct Hq as [->|[->|[->| ->]]]; try lia;
    destruct Hr4 as [->|[->|[->| ->]]]; try lia.
Qed.

(** The calendar date of a day is a date, and the day of that date. *)
Lemma civil_spec z :
  let '(y, m, d) := civil_of_days z in
  days_of_civil y m d = z ∧ 1 ≤ m ≤ 12 ∧ 1 ≤ d ≤ daysIn m y.
Proof.
  unfold civil_of_days. cbv zeta.
  pose proof (Z.div_mod (z + 719468) 146097 ltac:(lia)) as Hz.
  pose proof (Z.mod_pos_bound (z + 719468) 146097 ltac:(lia)) as Hdoe.
  set (era := (z + 719468) / 146097) in *. set (doe := (z + 719468) mod 146097) in *. clearbody era doe.
  pose proof (yoe_bounds doe Hdoe) as (Hy & Hdoy & Hleap).
  set (yoe := (doe - doe / 1460 + doe / 36524 - doe / 146096) / 365) in *. clearbody yoe.
  set (doy := doe - (365 * yoe + yoe / 4 - yoe / 100)) in *.
  assert (doe = 365 * yoe + yoe / 4 - yoe / 100 + doy) as Hde by (unfold doy; lia). clearbody doy.
  div_var ((5 * doy + 2) / 153) mp rmp. assert (0 ≤ mp ≤ 11) as Hmp by lia.
  set (m := if mp <? 10 then mp + 3 else mp - 9).
  assert (m = mp + 3 ∧ mp < 10 ∨ m = mp - 9 ∧ 10 ≤ mp) as Hm
    by (unfold m; destruct (Z.ltb_spec mp 10); lia). clearbody m.
  set (y := yoe + era * 400 + (if m <=? 2 then 1 else 0)).
  assert ((if m <=? 2 then y - 1 else y) = yoe + era * 400) as Hy'.
  { unfold y. destruct (Z.leb_spec m 2); lia. }
  split; [|split; [lia|]].
  - unfold days_of_civil. rewrite Hy'. cbv zeta.
    replace ((yoe + era * 400) / 400) with era by (rewrite Z.div_add, Z.div_small; lia).
    replace ((yoe + era * 400) mod 400) with yoe by (rewrite Z.mod_add, Z.mod_small; lia).
    assert ((if 2 <? m then m - 3 else m + 9) = mp) as -> by (destruct (Z.ltb_spec 2 m); lia).
    lia.
  - assert (1 ≤ doy - (153 * mp + 2) / 5 + 1) by (div_lia). split; [done|].
    unfold daysIn. destruct (Z.eqb_spec m 2) as [Hm2|Hm2].
    + assert (mp = 11) as -> by lia. change ((153 * 11 + 2) / 5) with 337.
      destruct (decide (doy = 365)) as [Hd|]; [|destruct (is_leap y); lia].
      destruct (Hleap Hd) as [H4 H400].
      assert (is_leap y = true) as ->; [|lia].
      unfold is_leap, y. destruct (Z.leb_spec m 2) as [_|]; [|lia].
      assert (∀ k n, k * n = 400 → n ≠ 0 → (yoe + era * 400 + 1) mod n = (yoe + 1) mod n) as Hmod.
      { intros k n Hk Hn. replace (yoe + era * 400 + 1) with (yoe + 1 + era * k * n)
          by (rewrite <- Z.mul_assoc, Hk; lia). by apply Z.mod_add. }
      rewrite (Hmod 100 4), (Hmod 4 100), (Hmod 1 400) by done.
      rewrite H4. simpl. apply orb_true_iff. destruct H400 as [Hn| ->]; [left|by right].
      apply negb_true_iff. by apply Z.eqb_neq.
    + clear -Hm Hm2 Hdoy Hmp H H0.
      case_bool_decide as Hs; [|div_lia].
      assert (m = 4 ∨ m = 6 ∨ m = 9 ∨ m = 11) as Hmm by set_solver.
      assert (mp = 1 ∨ mp = 3 ∨ mp = 6 ∨ mp = 8) as Hmpp by lia.
      destruct Hmpp as [->|[->|[->| ->]]]; div_lia.
Qed.

Lemma digit_val_digit x : 0 ≤ x < 10 → digit_val (digit x) = Some x.
Proof.
  intros Hx.
  assert (x = 0 ∨ x = 1 ∨ x = 2 ∨ x = 3 ∨ x = 4 ∨ x = 5 ∨ x = 6 ∨ x = 7 ∨ x = 8 ∨ x = 9) as Hc by lia.
  by repeat destruct Hc as [->|Hc]; [..|subst x].
Qed.

Lemma getnum_pad2 v s fixed : 0 ≤ v < 100 → getnum (pad2 v +:+ s) fixed = Some (v, s).
Proof.
  intros Hv. unfold pad2. cbn [String.append getnum].
  rewrite !digit_val_digit by div_lia. cbn [mbind option_bind]. do 2 f_equal. div_lia.
Qed.

Lemma year4_pad4 v s : 0 ≤ v < 10000 → year4 (pad4 v +:+ s) = Some (v, s).
Proof.
  intros Hv. unfold year4, pad4. rewrite <- str_app_assoc, getnum_pad2 by div_lia.
  cbn [mbind option_bind]. rewrite getnum_pad2 by div_lia. cbn [mbind option_bind]. do 2 f_equal. div_lia.
Qed.

Definition four_digit_year (t : Z) : Prop := let '(y, _, _) := civil_of_days (t / 86400) in 0 ≤ y < 10000.

Lemma skip_space_pad2 v s : 0 ≤ v < 100 → skip_space (" " +:+ (pad2 v +:+ s)) = Some (pad2 v +:+ s).
Proof.
  intros Hv. cbn [String.append skip_space]. rewrite Ascii.eqb_refl. unfold cutspace, pad2.
  assert (∀ x, 0 ≤ x < 10 → Ascii.eqb " " (digit x) = false) as Hd.
  { intros x Hx. apply Ascii.eqb_neq. intros Heq. pose proof (digit_val_digit x Hx) as He. by rewrite <- Heq in He. }
  cbn [String.append trim_left]. rewrite Ascii.eqb_refl. by rewrite Hd by div_lia.
Qed.

(** Reading back what was written gives the local time taken as UTC. *)
Lemma parse_format offset t :
  four_digit_year (t + offset) → ParseDateTime (FormatDateTime offset t) = Some (t + offset).
Proof.
  unfold four_digit_year, FormatDateTime. cbv zeta. set (l := t + offset).
  pose proof (civil_spec (l / 86400)) as Hc. destruct (civil_of_days (l / 86400)) as [[y m] d].
  destruct Hc as (Hdays & Hm & Hd). intros Hy.
  assert (daysIn m y ≤ 31) as Hd31.
  { unfold daysIn. destruct (m =? 2); [destruct (is_leap y); lia|]. case_bool_decide; lia. }
  pose proof (Z.mod_pos_bound l 86400 ltac:(lia)) as Hs. pose proof (Z.div_mod l 86400 ltac:(lia)) as Hl.
  set (s := l mod 86400) in *. clearbody s.
  unfold ParseDateTime. rewrite year4_pad4 by done. cbn [mbind option_bind].
  assert (∀ c x, skip_char c (String c "" +:+ x) = Some x) as Hskip.
  { intros c x. cbn [String.append skip_char]. by rewrite Ascii.eqb_refl. }
  rewrite Hskip. cbn [mbind option_bind]. rewrite getnum_pad2 by lia. cbn [mbind option_bind].
  destruct (Z.ltb_spec m 1); [lia|]. destruct (Z.ltb_spec 12 m); [lia|]. cbn [orb].
  rewrite Hskip. cbn [mbind option_bind]. rewrite getnum_pad2 by lia. cbn [mbind option_bind].
  rewrite skip_space_pad2 by div_lia. cbn [mbind option_bind]. rewrite getnum_pad2 by div_lia. cbn [mbind option_bind].
  destruct (Z.leb_spec 24 (s / 3600)); [div_lia|].
  rewrite Hskip. cbn [mbind option_bind]. rewrite getnum_pad2 by div_lia. cbn [mbind option_bind].
  destruct (Z.leb_spec 60 (s / 60 mod 60)); [div_lia|].
  rewrite Hskip. cbn [mbind option_bind].
  rewrite <- (str_app_nil_r (pad2 (s mod 60))), getnum_pad2 by div_lia. cbn [mbind option_bind].
  destruct (Z.leb_spec 60 (s mod 60)); [div_lia|]. cbn [skip_fraction String.eqb negb].
  destruct (Z.ltb_spec d 1); [lia|]. destruct (Z.ltb_spec (daysIn m y) d); [lia|]. cbn [orb].
  f_equal. rewrite Hdays. div_lia.
Qed.
