(* ===== verification/Types.v ===== *)
(** The data that crosses component boundaries: the gRPC messages of
    [rpc/ipamd.proto] and the custom resources of [kubernetes/apis], with the
    fields of the Kubernetes objects ([Pod], [Node]) that the program reads.
    A Go map field that is only looked up or created on first write is a
    [gmap], the empty map standing for the nil map as well. *)
From S2P Require Export Prelude.

(** ** gRPC messages *)

Inductive CNIErrorCode : Type :=
| CNISuccess | CNIMissingParameters | CNIAllocateSecondaryIPFailure
| CNIReleaseSecondaryIPFailure | CNIAllocateEIPFailure | CNIReleaseEIPFailure
| CNIBindEIPFailure | CNIUnbindEIPFailure | CNIAllocateUNIFailure
| CNIReleaseUNIFailure | CNIAttachUNIFailure | CNIDetachUNIFailure
| CNIK8SAPIError | CNIWriteDBError | CNIReadDBError | CNIBorrowIPFailure.

Definition CNIErrorCode_value (c : CNIErrorCode) : Z :=
  match c with
  | CNISuccess => 0
  | CNIMissingParameters => 1001
  | CNIAllocateSecondaryIPFailure => 1002
  | CNIReleaseSecondaryIPFailure => 1003
  | CNIAllocateEIPFailure => 1004
  | CNIReleaseEIPFailure => 1005
  | CNIBindEIPFailure => 1006
  | CNIUnbindEIPFailure => 1007
  | CNIAllocateUNIFailure => 1008
  | CNIReleaseUNIFailure => 1009
  | CNIAttachUNIFailure => 1010
  | CNIDetachUNIFailure => 1011
  | CNIK8SAPIError => 1012
  | CNIWriteDBError => 1013
  | CNIReadDBError => 1014
  | CNIBorrowIPFailure => 1015
  end.

Record PodNetwork : Type := mkPodNetwork {
  pn_PodName : string;
  pn_PodNS : string;
  pn_PodUID : string;
  pn_SandboxID : string;
  pn_NetNS : string;
  pn_VPCIP : string;
  pn_VPCID : string;
  pn_SubnetID : string;
  pn_Gateway : string;
  pn_Mask : string;
  pn_MacAddress : string;
  pn_DedicatedUNI : bool;
  pn_InterfaceID : string;
  pn_EIPID : string;
  pn_CreateTime : Z;
  pn_RecycleTime : Z;
  pn_Recycled : bool
}.

(** Assignments to one field, [pn.F = v]. *)
Definition pn_set_PodUID (v : string) (p : PodNetwork) : PodNetwork :=
  mkPodNetwork (pn_PodName p) (pn_PodNS p) v (pn_SandboxID p) (pn_NetNS p)
    (pn_VPCIP p) (pn_VPCID p) (pn_SubnetID p) (pn_Gateway p) (pn_Mask p)
    (pn_MacAddress p) (pn_DedicatedUNI p) (pn_InterfaceID p) (pn_EIPID p)
    (pn_CreateTime p) (pn_RecycleTime p) (pn_Recycled p).
Definition pn_set_Pod (name ns sandbox : string) (p : PodNetwork) : PodNetwork :=
  mkPodNetwork name ns (pn_PodUID p) sandbox (pn_NetNS p)
    (pn_VPCIP p) (pn_VPCID p) (pn_SubnetID p) (pn_Gateway p) (pn_Mask p)
    (pn_MacAddress p) (pn_DedicatedUNI p) (pn_InterfaceID p) (pn_EIPID p)
    (pn_CreateTime p) (pn_RecycleTime p) (pn_Recycled p).
Definition pn_set_NetNS (v : string) (p : PodNetwork) : PodNetwork :=
  mkPodNetwork (pn_PodName p) (pn_PodNS p) (pn_PodUID p) (pn_SandboxID p) v
    (pn_VPCIP p) (pn_VPCID p) (pn_SubnetID p) (pn_Gateway p) (pn_Mask p)
    (pn_MacAddress p) (pn_DedicatedUNI p) (pn_InterfaceID p) (pn_EIPID p)
    (pn_CreateTime p) (pn_RecycleTime p) (pn_Recycled p).
Definition pn_set_SubnetID (v : string) (p : PodNetwork) : PodNetwork :=
  mkPodNetwork (pn_PodName p) (pn_PodNS p) (pn_PodUID p) (pn_SandboxID p) (pn_NetNS p)
    (pn_VPCIP p) (pn_VPCID p) v (pn_Gateway p) (pn_Mask p)
    (pn_MacAddress p) (pn_DedicatedUNI p) (pn_InterfaceID p) (pn_EIPID p)
    (pn_CreateTime p) (pn_RecycleTime p) (pn_Recycled p).
Definition pn_set_MacAddress (v : string) (p : PodNetwork) : PodNetwork :=
  mkPodNetwork (pn_PodName p) (pn_PodNS p) (pn_PodUID p) (pn_SandboxID p) (pn_NetNS p)
    (pn_VPCIP p) (pn_VPCID p) (pn_SubnetID p) (pn_Gateway p) (pn_Mask p)
    v (pn_DedicatedUNI p) (pn_InterfaceID p) (pn_EIPID p)
    (pn_CreateTime p) (pn_RecycleTime p) (pn_Recycled p).
Definition pn_set_InterfaceID (v : string) (p : PodNetwork) : PodNetwork :=
  mkPodNetwork (pn_PodName p) (pn_PodNS p) (pn_PodUID p) (pn_SandboxID p) (pn_NetNS p)
    (pn_VPCIP p) (pn_VPCID p) (pn_SubnetID p) (pn_Gateway p) (pn_Mask p)
    (pn_MacAddress p) (pn_DedicatedUNI p) v (pn_EIPID p)
    (pn_CreateTime p) (pn_RecycleTime p) (pn_Recycled p).
Definition pn_set_CreateTime (v : Z) (p : PodNetwork) : PodNetwork :=
  mkPodNetwork (pn_PodName p) (pn_PodNS p) (pn_PodUID p) (pn_SandboxID p) (pn_NetNS p)
    (pn_VPCIP p) (pn_VPCID p) (pn_SubnetID p) (pn_Gateway p) (pn_Mask p)
    (pn_MacAddress p) (pn_DedicatedUNI p) (pn_InterfaceID p) (pn_EIPID p)
    v (pn_RecycleTime p) (pn_Recycled p).
Definition pn_set_RecycleTime (v : Z) (p : PodNetwork) : PodNetwork :=
  mkPodNetwork (pn_PodName p) (pn_PodNS p) (pn_PodUID p) (pn_SandboxID p) (pn_NetNS p)
    (pn_VPCIP p) (pn_VPCID p) (pn_SubnetID p) (pn_Gateway p) (pn_Mask p)
    (pn_MacAddress p) (pn_DedicatedUNI p) (pn_InterfaceID p) (pn_EIPID p)
    (pn_CreateTime p) v (pn_Recycled p).
Definition pn_set_Recycled (v : bool) (p : PodNetwork) : PodNetwork :=
  mkPodNetwork (pn_PodName p) (pn_PodNS p) (pn_PodUID p) (pn_SandboxID p) (pn_NetNS p)
    (pn_VPCIP p) (pn_VPCID p) (pn_SubnetID p) (pn_Gateway p) (pn_Mask p)
    (pn_MacAddress p) (pn_DedicatedUNI p) (pn_InterfaceID p) (pn_EIPID p)
    (pn_CreateTime p) (pn_RecycleTime p) v.

(** The zero value [&rpc.PodNetwork{}]. *)
Definition pn_zero : PodNetwork :=
  mkPodNetwork "" "" "" "" "" "" "" "" "" "" "" false "" "" 0 0 false.

Record AddPodNetworkRequest : Type := mkAddReq {
  ar_PodName : string;
  ar_PodNamespace : string;
  ar_SandboxID : string;
  ar_Netns : string;
  ar_SubnetID : string;
  ar_MacAddress : string;
  ar_InterfaceID : string
}.

Record BorrowIPRequest : Type := mkBorrowReq {
  br_MacAddress : string;
  br_SubnetID : string
}.

(** A response message with its payload; every handler returns it together with
    a gRPC status, nil on success. *)
Record Response (A : Type) : Type := mkResp {
  resp_Code : CNIErrorCode;
  resp_payload : A
}.
Arguments mkResp {A} _ _.
Arguments resp_Code {A} _.
Arguments resp_payload {A} _.

(** ** Kubernetes objects *)

Record OwnerReference : Type := mkOwner { or_Kind : string; or_Name : string }.

Inductive PodPhase : Type := PodPending | PodRunning | PodSucceeded | PodFailed | PodUnknown.

Record Pod : Type := mkPod {
  pod_Name : string;
  pod_Namespace : string;
  pod_UID : string;
  pod_NodeName : string;
  pod_Annotations : gmap string string;
  pod_OwnerReferences : list OwnerReference;
  pod_Phase : PodPhase
}.

Record Node : Type := mkNode { node_Name : string; node_Labels : gmap string string }.

(** [kubernetes/apis/ipamd/v1beta1]. *)
Record IpamdStatus : Type := mkIpamdStatus {
  is_Current : Z; is_High : Z; is_Low : Z; is_Status : string
}.
Record IpamdSpec : Type := mkIpamdSpec {
  isp_Node : string; isp_Addr : string; isp_Subnet : string
}.
Record Ipamd : Type := mkIpamd {
  ipamd_Name : string; ipamd_Spec : IpamdSpec; ipamd_Status : IpamdStatus
}.
Definition StatusDry : string := "dry".
Definition StatusHungry : string := "hungry".
Definition StatusNormal : string := "normal".
Definition StatusOverflow : string := "overflow".

(** [kubernetes/apis/vipcontroller/v1beta1]. *)
Record VpcIpClaimSpec : Type := mkClaimSpec {
  cs_Ip : string; cs_Mask : string; cs_Gateway : string;
  cs_SubnetId : string; cs_VpcId : string
}.
Record VpcIpClaimStatus : Type := mkClaimStatus {
  ct_Attached : bool; ct_Zone : string; ct_LastDetachTime : string;
  ct_Mac : string; ct_ReleaseTime : string; ct_SandboxId : string
}.
Record VpcIpClaim : Type := mkClaim {
  vip_Name : string;
  vip_Namespace : string;
  vip_Labels : gmap string string;
  vip_Finalizers : list string;
  vip_Spec : VpcIpClaimSpec;
  vip_Status : VpcIpClaimStatus
}.

(** [kubernetes/apis/podnetworking/v1beta1]. *)
Definition SubnetAllocationStrategySequential : string := "sequential".
Definition SubnetAllocationStrategyBalanced : string := "balanced".
Record PodNetworkingSpec : Type := mkPodNetworkingSpec {
  pns_SecurityGroupIds : list string;
  pns_SubnetIds : list string;
  pns_Strategy : string;
  pns_NATGWOutgoingEnabled : bool
}.
Record PodNetworking : Type := mkPodNetworking {
  pnw_Name : string; pnw_Spec : PodNetworkingSpec
}.

#[global] Instance PodNetwork_eq_dec : EqDecision PodNetwork.
Proof. solve_decision. Defined.
#[global] Instance CNIErrorCode_eq_dec : EqDecision CNIErrorCode.
Proof. solve_decision. Defined.
#[global] Instance IpamdStatus_eq_dec : EqDecision IpamdStatus.
Proof. solve_decision. Defined.
#[global] Instance PodPhase_eq_dec : EqDecision PodPhase.
Proof. solve_decision. Defined.

(** A [PodNetwork] as nested tuples, for the [Countable] instance. *)
Definition pn_tuple (p : PodNetwork) :=
  ((pn_PodName p, pn_PodNS p, pn_PodUID p, pn_SandboxID p, pn_NetNS p, pn_VPCIP p),
   (pn_VPCID p, pn_SubnetID p, pn_Gateway p, pn_Mask p, pn_MacAddress p),
   (pn_DedicatedUNI p, pn_InterfaceID p, pn_EIPID p, pn_CreateTime p, pn_RecycleTime p,
    pn_Recycled p)).
Definition pn_untuple t : PodNetwork :=
  let '((a, b, c, d, e, f), (g, h, i, j, k), (l, m, n, o, p, q)) := t in
  mkPodNetwork a b c d e f g h i j k l m n o p q.
#[global] Instance PodNetwork_countable : Countable PodNetwork.
Proof. refine (inj_countable' pn_tuple pn_untuple _). by intros []. Defined.
