(* ===== verification/Database.v ===== *)
(** [pkg/database]: the [Database] interface and its boltdb implementation.

    [BoltApi] is what the program uses of the [github.com/boltdb/bolt] package,
    [JsonCodec] what it uses of [encoding/json]; their law classes state the
    documented behaviour.  [Database] is the Go interface, [DatabaseLaws] what it
    promises to its clients: an operation either has the effect of the finite-map
    operation or fails and leaves the contents alone, and it never touches
    another bucket.  The instances for [Bolt] discharge the promise. *)
From S2P Require Export Prelude GoStrings.

(** ** The bolt package *)

(** The operations on a database file.  A bucket call is preceded by
    [tx.Bucket(name)], which is nil when [bolt_has_bucket] is false; the calls
    that write are those of a read-write transaction with this one call in it,
    committed when no error is returned. *)
Class BoltApi (D : Type) : Type := {
  bolt_create_bucket : string → D → option error * D;
  bolt_has_bucket : string → D → bool;
  bolt_put : string → string → string → D → option error * D;
  bolt_delete : string → string → D → option error * D;
  bolt_begin_read : D → option error * D;
  bolt_get : string → string → D → option string;
  bolt_cursor : string → D → list (string * string);
  bolt_keyN : string → D → Z
}.

(** Documented behaviour, stated on a ghost view of the file: bucket name to key
    to value.  A transaction that fails leaves the file as it was. *)
Class BoltLaws (D : Type) `{!BoltApi D} : Type := {
  bolt_view : D → gmap string (gmap string string);
  bolt_has_bucket_view b d :
    bolt_has_bucket b d = bool_decide (is_Some (bolt_view d !! b));
  bolt_create_view b d :
    bolt_view (bolt_create_bucket b d).2 =
    match (bolt_create_bucket b d).1, bolt_view d !! b with
    | None, None => <[b := ∅]> (bolt_view d)
    | _, _ => bolt_view d
    end;
  bolt_put_view b k v d raw :
    bolt_view d !! b = Some raw →
    bolt_view (bolt_put b k v d).2 =
    match (bolt_put b k v d).1 with
    | None => <[b := <[k := v]> raw]> (bolt_view d)
    | Some _ => bolt_view d
    end;
  bolt_put_blank b v d : (bolt_put b "" v d).1 ≠ None;
  bolt_delete_view b k d raw :
    bolt_view d !! b = Some raw →
    bolt_view (bolt_delete b k d).2 =
    match (bolt_delete b k d).1 with
    | None => <[b := delete k raw]> (bolt_view d)
    | Some _ => bolt_view d
    end;
  bolt_begin_read_view d : bolt_view (bolt_begin_read d).2 = bolt_view d;
  bolt_get_view b k d raw :
    bolt_view d !! b = Some raw → bolt_get b k d = raw !! k;
  bolt_cursor_view b d raw :
    bolt_view d !! b = Some raw → bolt_cursor b d ≡ₚ map_to_list raw;
  bolt_keyN_view b d raw :
    bolt_view d !! b = Some raw → bolt_keyN b d = Z.of_nat (size raw);
  bolt_view_blank b d raw : bolt_view d !! b = Some raw → raw !! "" = None
}.

(** ** encoding/json *)

Class JsonCodec (T : Type) : Type := {
  json_Marshal : T → outcome string;
  json_Unmarshal : string → outcome T
}.

Definition json_decode {T} `{!JsonCodec T} (s : string) : option T :=
  match json_Unmarshal s with Ok v => Some v | _ => None end.

(** A struct of strings, integers and booleans survives the round trip; the
    empty input is a syntax error; neither function panics. *)
Class JsonLaws (T : Type) `{!JsonCodec T} : Prop := {
  json_roundtrip v s : json_Marshal v = Ok s → json_Unmarshal s = Ok v;
  json_Marshal_total v : (∃ s, json_Marshal v = Ok s) ∨ (∃ e, json_Marshal v = Err e);
  json_Unmarshal_total s : (∃ v, json_Unmarshal s = Ok v) ∨ (∃ e, json_Unmarshal s = Err e);
  json_Unmarshal_empty : ∃ e, json_Unmarshal "" = Err e
}.

(** ** database.go *)

Record KeyValue (T : Type) : Type := mkKV { kv_Key : string; kv_Value : T }.
Arguments mkKV {T} _ _.
Arguments kv_Key {T} _.
Arguments kv_Value {T} _.

Definition IsNotFound (e : error) : bool := errors_Is e ErrNotFound.
Definition IsEOF (e : error) : bool := errors_Is e ErrEOF.

Definition PodKey (podName podNS sandboxId : string) : string :=
  podName +:+ "-" +:+ podNS +:+ "-" +:+ sandboxId.

Definition Values {T} (kvs : list (KeyValue T)) : list T := kv_Value <$> kvs.

(** The interface.  [H] is the type of handles, [D] the file they share;
    [db_New] is the constructor of the implementation. *)
Class Database (T H D : Type) : Type := {
  db_New : string → M D H;
  db_Put : H → string → T → M D unit;
  db_Get : H → string → M D T;
  db_Delete : H → string → M D unit;
  db_Pop : H → M D (KeyValue T);
  db_List : H → M D (list (KeyValue T));
  db_Count : H → M D Z
}.

(** ** bolt.go *)

(** The struct's [db] pointer is the file [D] that every method runs on. *)
Record Bolt : Type := mkBolt { bucket : string }.
#[global] Instance Bolt_eq_dec : EqDecision Bolt.
Proof. solve_decision. Defined.

Section bolt.
Context {T D : Type} `{!BoltApi D} `{!JsonCodec T}.

(** A transaction whose closure is one bucket call that can fail. *)
Definition bolt_update (f : D → option error * D) : M D unit := λ d,
  match f d with
  | (None, d') => (Ok tt, d')
  | (Some e, d') => (Err e, d')
  end.

(** [db.View(func(tx) { bucket := tx.Bucket(name); ... read ... })]: a read of a
    missing bucket dereferences nil. *)
Definition bolt_read {A} (b : string) (read : D → A) : M D A :=
  bolt_update bolt_begin_read;;
  ok ← gets (bolt_has_bucket b);
  if ok : bool then gets read else panic "nil bucket".

Definition NewBolt (b : string) : M D Bolt :=
  with_msg "boltdb create bucket error" (bolt_update (bolt_create_bucket b));;
  mret (mkBolt b).

Definition decodeValue (data : string) : M D T :=
  with_msg "decode boltdb value error" (λ d, (json_Unmarshal data, d)).

Definition Bolt_Put (h : Bolt) (key : string) (value : T) : M D unit :=
  data ← with_msg "marshal boltdb value error" (λ d, (json_Marshal value, d));
  ok ← gets (bolt_has_bucket (bucket h));
  if ok : bool
  then with_msg "write boltdb error" (bolt_update (bolt_put (bucket h) key data))
  else panic "nil bucket".

Definition Bolt_Get (h : Bolt) (key : string) : M D T :=
  data ← with_msg "read boltdb error" (bolt_read (bucket h) (bolt_get (bucket h) key));
  match data with
  | None => throw ErrNotFound
  | Some data => if String.eqb data "" then throw ErrNotFound else decodeValue data
  end.

Definition Bolt_Count (h : Bolt) : M D Z :=
  with_msg "read boltdb length error" (bolt_read (bucket h) (bolt_keyN (bucket h))).

Definition Bolt_Delete (h : Bolt) (key : string) : M D unit :=
  ok ← gets (bolt_has_bucket (bucket h));
  if ok : bool
  then with_msg "Delete boltdb error" (bolt_update (bolt_delete (bucket h) key))
  else panic "nil bucket".

Definition Bolt_Pop (h : Bolt) : M D (KeyValue T) :=
  first ← with_msg "read boltdb error"
            (bolt_read (bucket h) (λ d, head (bolt_cursor (bucket h) d)));
  match first with
  | None => throw ErrEOF
  | Some (key, data) =>
      if String.eqb key "" then throw ErrEOF else
      value ← decodeValue data;
      with_msg "delete kv after pop error" (Bolt_Delete h key);;
      mret (mkKV key value)
  end.

(** The cursor loop of [List]: the first value that does not decode ends it. *)
Fixpoint decode_entries (entries : list (string * string)) : M D (list (KeyValue T)) :=
  match entries with
  | [] => mret []
  | (key, data) :: rest =>
      value ← decodeValue data;
      kvs ← decode_entries rest;
      mret (mkKV key value :: kvs)
  end.

Definition Bolt_List (h : Bolt) : M D (list (KeyValue T)) :=
  with_msg "List boltdb error"
    (entries ← bolt_read (bucket h) (bolt_cursor (bucket h));
     decode_entries entries).

#[global] Instance Bolt_Database : Database T Bolt D := {
  db_New := NewBolt;
  db_Put := Bolt_Put;
  db_Get := Bolt_Get;
  db_Delete := Bolt_Delete;
  db_Pop := Bolt_Pop;
  db_List := Bolt_List;
  db_Count := Bolt_Count
}.

End bolt.

(** ** The contract of the interface *)

(** The handle of a bucket is determined by its name.
    [only_touches h d d']: going from [d] to [d'] changed nothing outside the
    bucket of [h].  It does not depend on the type of the stored values, so that
    databases of different value types on one file are independent. *)
Class StoreFrame (H D : Type) : Type := {
  db_handle : string → H;
  db_handle_inj b b' : db_handle b = db_handle b' → b = b';
  only_touches : H → D → D → Prop;
  only_touches_refl h d : only_touches h d d;
  only_touches_trans h d1 d2 d3 :
    only_touches h d1 d2 → only_touches h d2 d3 → only_touches h d1 d3
}.

(** [db_holds h d m]: in file [d] the database [h] exists and its contents are
    the finite map [m].  [db_fresh h d]: it has not been created. *)
Class DatabaseLaws (T H D : Type) `{!Database T H D} `{!StoreFrame H D} : Type := {
  db_holds : H → D → gmap string T → Prop;
  db_fresh : H → D → Prop;
  db_holds_fun h d m m' : db_holds h d m → db_holds h d m' → m = m';
  db_holds_frame h h' d d' m :
    only_touches h d d' → h ≠ h' → db_holds h' d m → db_holds h' d' m;
  db_fresh_frame h h' d d' :
    only_touches h d d' → h ≠ h' → db_fresh h' d → db_fresh h' d';
  db_New_law b d :
    wp (db_New b) (λ o d',
      only_touches (db_handle b) d d' ∧
      (∀ m, db_holds (db_handle b) d m → db_holds (db_handle b) d' m) ∧
      ((o = Ok (db_handle b) ∧
        (db_fresh (db_handle b) d → db_holds (db_handle b) d' ∅)) ∨
       (∃ e, o = Err e ∧ (db_fresh (db_handle b) d → db_fresh (db_handle b) d')))) d;
  db_Put_law h k v d m :
    db_holds h d m →
    wp (db_Put h k v) (λ o d',
      only_touches h d d' ∧
      ((o = Ok tt ∧ db_holds h d' (<[k := v]> m)) ∨
       (∃ e, o = Err e ∧ db_holds h d' m))) d;
  db_Get_law h k d m :
    db_holds h d m →
    wp (db_Get h k) (λ o d',
      only_touches h d d' ∧ db_holds h d' m ∧
      ((∃ v, o = Ok v ∧ m !! k = Some v) ∨
       (o = Err ErrNotFound ∧ m !! k = None) ∨
       (∃ e, o = Err e ∧ IsNotFound e = false))) d;
  db_Delete_law h k d m :
    db_holds h d m →
    wp (db_Delete h k) (λ o d',
      only_touches h d d' ∧
      ((o = Ok tt ∧ db_holds h d' (delete k m)) ∨
       (∃ e, o = Err e ∧ db_holds h d' m))) d;
  db_Pop_law h d m :
    db_holds h d m →
    wp (db_Pop h) (λ o d',
      only_touches h d d' ∧
      ((∃ k v, o = Ok (mkKV k v) ∧ m !! k = Some v ∧ db_holds h d' (delete k m)) ∨
       (o = Err ErrEOF ∧ m = ∅ ∧ db_holds h d' m) ∨
       (∃ e, o = Err e ∧ IsEOF e = false ∧ db_holds h d' m))) d;
  db_List_law h d m :
    db_holds h d m →
    wp (db_List h) (λ o d',
      only_touches h d d' ∧ db_holds h d' m ∧
      ((∃ kvs, o = Ok kvs ∧
          ((λ kv, (kv_Key kv, kv_Value kv)) <$> kvs) ≡ₚ map_to_list m) ∨
       (∃ e, o = Err e))) d;
  db_Count_law h d m :
    db_holds h d m →
    wp (db_Count h) (λ o d',
      only_touches h d d' ∧ db_holds h d' m ∧
      (o = Ok (Z.of_nat (size m)) ∨ (∃ e, o = Err e))) d
}.

(** The values of the entries of a map. *)
Lemma Values_perm {T} (kvs : list (KeyValue T)) (m : gmap string T) :
  ((λ kv, (kv_Key kv, kv_Value kv)) <$> kvs) ≡ₚ map_to_list m → Values kvs ≡ₚ (map_to_list m).*2.
Proof. intros Hp. rewrite <- Hp, <- list_fmap_compose. done. Qed.

(** ** The implementation meets the contract *)

(** Decoding the values of a map whose values all decode. *)
Lemma map_to_list_omap_pairs {A B} (f : A → option B) (m : gmap string A) :
  map_to_list (omap f m) ≡ₚ omap (λ '(k, s), (k,.) <$> f s) (map_to_list m).
Proof.
  induction m as [|k x m Hk IH] using map_ind.
  { by rewrite omap_empty, !map_to_list_empty. }
  rewrite (map_to_list_insert m) by done. simpl.
  destruct (f x) as [y|] eqn:E; simpl.
  - rewrite (omap_insert_Some f m k x y E), map_to_list_insert, IH; [done|].
    by rewrite lookup_omap, Hk.
  - rewrite (omap_insert_None f m k x E), delete_id, IH; [done|].
    by rewrite lookup_omap, Hk.
Qed.

Lemma omap_total_size {A B} (f : A → option B) (m : gmap string A) :
  map_Forall (λ _ s, is_Some (f s)) m → size (omap f m) = size m.
Proof.
  induction m as [|k x m Hk IH] using map_ind; [by rewrite omap_empty|].
  intros [[y E] Hall]%map_Forall_insert; [|done].
  rewrite (omap_insert_Some f m k x y E), !map_size_insert_None, IH; try done.
  by rewrite lookup_omap, Hk.
Qed.

Section bolt_laws.
Context {T D : Type} `{!BoltApi D} `{!BoltLaws D} `{!JsonCodec T} `{!JsonLaws T}.

(** The bucket holds [m]: every value decodes, to the value of [m]. *)
Definition bolt_holds (h : Bolt) (d : D) (m : gmap string T) : Prop :=
  ∃ raw, bolt_view d !! bucket h = Some raw ∧
         map_Forall (λ _ s, is_Some (json_decode (T := T) s)) raw ∧
         m = omap json_decode raw.

Definition bolt_touches (h : Bolt) (d d' : D) : Prop :=
  ∀ b, b ≠ bucket h → bolt_view d' !! b = bolt_view d !! b.

Lemma bolt_touches_trans h d1 d2 d3 :
  bolt_touches h d1 d2 → bolt_touches h d2 d3 → bolt_touches h d1 d3.
Proof. intros H1 H2 b Hb. by rewrite H2, H1. Qed.

#[global] Instance Bolt_StoreFrame : StoreFrame Bolt D.
Proof.
  refine {| only_touches := bolt_touches; only_touches_trans := bolt_touches_trans;
            db_handle := mkBolt |}.
  - by intros b b' [=].
  - by intros h d b.
Defined.

Lemma bolt_touches_same h d d' : bolt_view d' = bolt_view d → bolt_touches h d d'.
Proof. by intros E b _; rewrite E. Qed.

Lemma bolt_holds_same h d d' m :
  bolt_view d' = bolt_view d → bolt_holds h d m → bolt_holds h d' m.
Proof. unfold bolt_holds. by intros ->. Qed.

Lemma bolt_holds_has h d m : bolt_holds h d m → bolt_has_bucket (bucket h) d = true.
Proof.
  intros (raw & E & _). rewrite bolt_has_bucket_view, E. by apply bool_decide_eq_true_2.
Qed.

Lemma wp_bolt_update (f : D → option error * D) (Q : outcome unit → D → Prop) d :
  (∀ d', f d = (None, d') → Q (Ok tt) d') →
  (∀ e d', f d = (Some e, d') → Q (Err e) d') →
  wp (bolt_update f) Q d.
Proof. unfold wp, bolt_update. destruct (f d) as [[e|] d'] eqn:E; simpl; eauto. Qed.

(** The rule for a view transaction on an existing bucket. *)
Lemma wp_bolt_read {A} h (read : D → A) m (Q : outcome A → D → Prop) d :
  bolt_holds h d m →
  (∀ d', bolt_view d' = bolt_view d → Q (Ok (read d')) d') →
  (∀ e d', bolt_view d' = bolt_view d → Q (Err e) d') →
  wp (bolt_read (bucket h) read) Q d.
Proof.
  intros Hm Hok Herr. unfold bolt_read. pose proof (bolt_begin_read_view d) as E.
  wp_step. apply wp_bolt_update; intros; rewrite H in E; simpl in *; [|by apply Herr].
  do 2 wp_step. cbn [kont].
  rewrite (bolt_holds_has h d' m) by eauto using bolt_holds_same. wp_steps. by apply Hok.
Qed.

Lemma wp_decodeValue (s : string) (Q : outcome T → D → Prop) d :
  (∀ v, json_decode s = Some v → Q (Ok v) d) →
  (json_decode (T := T) s = None → Q (Err (Errorf "decode boltdb value error")) d) →
  wp (decodeValue s) Q d.
Proof.
  intros Hok Herr. unfold decodeValue, json_decode in *. apply wp_with_msg. unfold wp. simpl.
  destruct (json_Unmarshal_total s) as [[v E]|[e E]]; rewrite E in *; auto.
Qed.

Lemma json_decode_marshal (v : T) s : json_Marshal v = Ok s → json_decode s = Some v.
Proof. intros H%json_roundtrip. unfold json_decode. by rewrite H. Qed.

(** The head of the cursor is an entry of the bucket. *)
Lemma bolt_cursor_head b d raw :
  bolt_view d !! b = Some raw →
  match head (bolt_cursor b d) with
  | Some (k, s) => raw !! k = Some s ∧ k ≠ ""
  | None => raw = ∅
  end.
Proof.
  intros E. pose proof (bolt_cursor_view b d raw E) as P.
  pose proof (bolt_view_blank b d raw E) as Hblank.
  destruct (bolt_cursor b d) as [|[k s] l]; simpl.
  - apply Permutation_nil_l in P. by apply map_to_list_empty_iff.
  - assert ((k, s) ∈ map_to_list raw) as Hin%elem_of_map_to_list by (rewrite <- P; set_solver).
    split; [done|]. intros ->. congruence.
Qed.

Lemma NewBolt_spec b d :
  wp (NewBolt b) (λ o d',
    bolt_touches (mkBolt b) d d' ∧
    (∀ m, bolt_holds (mkBolt b) d m → bolt_holds (mkBolt b) d' m) ∧
    ((o = Ok (mkBolt b) ∧ (bolt_view d !! b = None → bolt_holds (mkBolt b) d' ∅)) ∨
     (∃ e, o = Err e ∧ (bolt_view d !! b = None → bolt_view d' !! b = None)))) d.
Proof.
  unfold NewBolt. do 2 wp_step. pose proof (bolt_create_view b d) as E.
  apply wp_bolt_update; intros; rewrite H in E; simpl in *; wp_steps.
  - split; [|split].
    + intros b' Hb. simpl in Hb. rewrite E. destruct (bolt_view d !! b); [done|].
      by rewrite lookup_insert_ne.
    + intros m (raw & Hraw & ?). exists raw. simpl in *. by rewrite E, Hraw.
    + left. split; [done|]. intros Hn. rewrite Hn in E. exists ∅.
      simpl. rewrite E, lookup_insert_eq, omap_empty. repeat split; [by apply map_Forall_empty].
  - split; [by apply bolt_touches_same|]. split; [by eauto using bolt_holds_same|].
    right. eexists. split; [done|]. by rewrite E.
Qed.

Lemma Bolt_Put_spec h k v d m :
  bolt_holds h d m →
  wp (Bolt_Put h k v) (λ o d',
    bolt_touches h d d' ∧
    ((o = Ok tt ∧ bolt_holds h d' (<[k := v]> m)) ∨
     (∃ e, o = Err e ∧ bolt_holds h d' m))) d.
Proof.
  intros Hm. pose proof (bolt_holds_has _ _ _ Hm) as Hhas. destruct Hm as (raw & Hraw & Hall & ->).
  unfold Bolt_Put. wp_steps. unfold wp at 1. simpl.
  destruct (json_Marshal_total v) as [[s E]|[e E]]; rewrite E; wp_steps; try congruence.
  2:{ split; [by apply bolt_touches_same|]. right. eexists. split; [done|]. by exists raw. }
  pose proof (bolt_put_view (bucket h) k s d raw Hraw) as V.
  apply wp_bolt_update; intros; rewrite H in V; simpl in *.
  - split. { intros b Hb. by rewrite V, lookup_insert_ne. }
    left. split; [done|]. exists (<[k := s]> raw).
    rewrite V, lookup_insert_eq. split; [done|]. apply json_decode_marshal in E. split.
    + apply map_Forall_insert_2; [by eexists|done].
    + symmetry. by apply omap_insert_Some.
  - split; [by apply bolt_touches_same|]. right. eexists. split; [done|].
    exists raw. by rewrite V.
Qed.

Lemma Bolt_Get_spec h k d m :
  bolt_holds h d m →
  wp (Bolt_Get h k) (λ o d',
    bolt_touches h d d' ∧ bolt_holds h d' m ∧
    ((∃ v, o = Ok v ∧ m !! k = Some v) ∨
     (o = Err ErrNotFound ∧ m !! k = None) ∨
     (∃ e, o = Err e ∧ IsNotFound e = false))) d.
Proof.
  intros Hm. unfold Bolt_Get. wp_steps.
  eapply wp_bolt_read; [done|intros d' E|intros e d' E];
    pose proof (bolt_touches_same h d d' E) as Ht; apply (bolt_holds_same _ _ _ _ E) in Hm.
  2:{ wp_steps. split; [done|]. split; [done|]. right; right. by eexists. }
  cbn [kont]. pose proof Hm as (raw & Hraw & Hall & Em).
  rewrite (bolt_get_view _ _ _ _ Hraw).
  assert (m !! k = raw !! k ≫= json_decode) as Emk by (rewrite Em; apply lookup_omap).
  destruct (raw !! k) as [s|] eqn:Ek; simpl in Emk.
  2:{ wp_steps. split; [done|]. split; [done|]. right; left. done. }
  destruct (Hall _ _ Ek) as [v Hv].
  destruct (String.eqb_spec s "") as [->|].
  { destruct (json_Unmarshal_empty (T := T)) as [e He]. unfold json_decode in Hv.
    by rewrite He in Hv. }
  apply wp_decodeValue; intros; [|congruence].
  split; [done|]. split; [done|]. left. exists v0. by split; [|congruence].
Qed.

Lemma Bolt_Delete_spec h k d m :
  bolt_holds h d m →
  wp (Bolt_Delete h k) (λ o d',
    bolt_touches h d d' ∧
    ((o = Ok tt ∧ bolt_holds h d' (delete k m)) ∨
     (∃ e, o = Err (Errorf e) ∧ bolt_holds h d' m))) d.
Proof.
  intros Hm. pose proof (bolt_holds_has _ _ _ Hm) as Hhas. destruct Hm as (raw & Hraw & Hall & ->).
  unfold Bolt_Delete. wp_steps; [|congruence].
  pose proof (bolt_delete_view (bucket h) k d raw Hraw) as V.
  apply wp_bolt_update; intros; rewrite H in V; simpl in *.
  - split. { intros b Hb. by rewrite V, lookup_insert_ne. }
    left. split; [done|]. exists (delete k raw).
    rewrite V, lookup_insert_eq. split; [done|]. split; [by apply map_Forall_delete|].
    by rewrite omap_delete.
  - split; [by apply bolt_touches_same|]. right. eexists. split; [done|].
    exists raw. by rewrite V.
Qed.

Lemma Bolt_Pop_spec h d m :
  bolt_holds h d m →
  wp (Bolt_Pop h) (λ o d',
    bolt_touches h d d' ∧
    ((∃ k v, o = Ok (mkKV k v) ∧ m !! k = Some v ∧ bolt_holds h d' (delete k m)) ∨
     (o = Err ErrEOF ∧ m = ∅ ∧ bolt_holds h d' m) ∨
     (∃ e, o = Err e ∧ IsEOF e = false ∧ bolt_holds h d' m))) d.
Proof.
  intros Hm. unfold Bolt_Pop. wp_steps.
  eapply wp_bolt_read; [done|intros d' E|intros e d' E];
    pose proof (bolt_touches_same h d d' E) as Ht; apply (bolt_holds_same _ _ _ _ E) in Hm.
  2:{ wp_steps. split; [done|]. right; right. by eexists. }
  cbn [kont]. pose proof Hm as (raw & Hraw & Hall & Em).
  pose proof (bolt_cursor_head _ _ _ Hraw) as Hhd.
  destruct (head (bolt_cursor (bucket h) d')) as [[k s]|].
  2:{ wp_steps. split; [done|]. right. left. split; [done|]. split; [|done].
      by rewrite Em, Hhd, omap_empty. }
  destruct Hhd as [Hk Hne]. destruct (String.eqb_spec k ""); [done|].
  destruct (Hall _ _ Hk) as [v Hv]. wp_step. apply wp_decodeValue; intros; [|congruence].
  simplify_eq. wp_steps. eapply wp_mono; [by apply Bolt_Delete_spec|].
  intros o d2 [Ht2 [[-> Hd]|(e & -> & Hd)]]; wp_steps;
    (split; [by eapply bolt_touches_trans|]).
  - left. exists k, v. rewrite lookup_omap, Hk. done.
  - right. right. eexists. done.
Qed.

Lemma decode_entries_spec (raw : gmap string string) entries (d : D) :
  (∀ k s, (k, s) ∈ entries → is_Some (json_decode (T := T) s)) →
  wp (decode_entries entries) (λ o d',
    d' = d ∧ ∃ kvs, o = Ok kvs ∧
      ((λ kv, (kv_Key kv, kv_Value kv)) <$> kvs) =
      omap (λ '(k, s), (k,.) <$> json_decode (T := T) s) entries) d.
Proof.
  induction entries as [|[k s] l IH]; intros Hall; simpl.
  { wp_steps. split; [done|]. by exists []. }
  destruct (Hall k s) as [v Hv]; [set_solver|]. rewrite Hv. simpl.
  wp_step. apply wp_decodeValue; intros; [|congruence]. simplify_eq. wp_steps.
  eapply wp_mono; [apply IH; intros; eapply Hall; by apply list_elem_of_further|].
  intros o d' [-> (kvs & -> & E)]. wp_steps. split; [done|].
  eexists. split; [done|]. by rewrite fmap_cons, E.
Qed.

Lemma Bolt_List_spec h d m :
  bolt_holds h d m →
  wp (Bolt_List h) (λ o d',
    bolt_touches h d d' ∧ bolt_holds h d' m ∧
    ((∃ kvs, o = Ok kvs ∧
        ((λ kv, (kv_Key kv, kv_Value kv)) <$> kvs) ≡ₚ map_to_list m) ∨
     (∃ e, o = Err e))) d.
Proof.
  intros Hm. unfold Bolt_List. wp_steps.
  eapply wp_bolt_read; [done|intros d' E|intros e d' E];
    pose proof (bolt_touches_same h d d' E) as Ht; apply (bolt_holds_same _ _ _ _ E) in Hm.
  2:{ wp_steps. split; [done|]. split; [done|]. right. by eexists. }
  cbn [kont]. pose proof Hm as (raw & Hraw & Hall & Em).
  pose proof (bolt_cursor_view _ _ _ Hraw) as P.
  eapply wp_mono; [apply (decode_entries_spec raw)|].
  { intros k s Hin. eapply Hall. apply elem_of_map_to_list. by rewrite <- P. }
  intros o d2 [-> (kvs & -> & Ekv)]. split; [done|]. split; [done|]. left.
  eexists. split; [done|]. rewrite Ekv, P, Em. symmetry. apply map_to_list_omap_pairs.
Qed.

Lemma Bolt_Count_spec h d m :
  bolt_holds h d m →
  wp (Bolt_Count h) (λ o d',
    bolt_touches h d d' ∧ bolt_holds h d' m ∧
    (o = Ok (Z.of_nat (size m)) ∨ (∃ e, o = Err e))) d.
Proof.
  intros Hm. unfold Bolt_Count. wp_steps.
  eapply wp_bolt_read; [done|intros d' E|intros e d' E];
    pose proof (bolt_touches_same h d d' E) as Ht; apply (bolt_holds_same _ _ _ _ E) in Hm;
    split; try done; split; try done; [left|right; by eexists].
  destruct Hm as (raw & Hraw & Hall & ->). rewrite (bolt_keyN_view _ _ _ Hraw).
  by rewrite omap_total_size.
Qed.

(** The Go type [*Bolt[T]] implements [Database[T]]. *)
#[global] Instance Bolt_DatabaseLaws : DatabaseLaws T Bolt D.
Proof.
  refine {| db_holds := bolt_holds;
            db_fresh h d := bolt_view d !! bucket h = None;
            db_New_law := NewBolt_spec; db_Put_law := Bolt_Put_spec;
            db_Get_law := Bolt_Get_spec; db_Pop_law := Bolt_Pop_spec;
            db_List_law := Bolt_List_spec; db_Count_law := Bolt_Count_spec |}.
  - intros h d m m' (raw & E & _ & ->) (raw' & E' & _ & ->). by simplify_eq.
  - intros h h' d d' m Ht Hne (raw & E & H). exists raw. split; [|done].
    rewrite Ht; [done|]. destruct h, h'; simpl in *; congruence.
  - intros h h' d d' Ht Hne E. rewrite Ht; [done|]. destruct h, h'; simpl in *; congruence.
  - intros h k d m Hm. eapply wp_mono; [by apply Bolt_Delete_spec|].
    intros o d' [Ht [H|(e & H)]]; split; try done; [by left|right]. by exists (Errorf e).
Defined.

End bolt_laws.
