(* ===== verification/Concrete.v ===== *)
(** Concrete instances of the external interfaces, used by the witnesses: an
    in-memory bolt file that can be told to fail, and a codec for any countable
    type.  They show that the law classes can be satisfied. *)
From S2P Require Export Database Types.
From Stdlib Require Import Ascii.

(** ** An in-memory bolt file *)

(** [mb_faults]: the result each coming transaction is to have, [None] for
    success; once the list is used up they all succeed. *)
Record mem_bolt : Type := mkMemBolt {
  mb_buckets : gmap string (gmap string string);
  mb_faults : list (option error)
}.

Definition mb_view (d : mem_bolt) : gmap string (gmap string string) :=
  delete "" <$> mb_buckets d.

(** Take the next scheduled result; on success apply [f] to the buckets. *)
Definition mb_step (f : gmap string (gmap string string) → gmap string (gmap string string))
    (d : mem_bolt) : option error * mem_bolt :=
  match mb_faults d with
  | Some e :: fs => (Some e, mkMemBolt (mb_buckets d) fs)
  | _ :: fs => (None, mkMemBolt (f (mb_buckets d)) fs)
  | [] => (None, mkMemBolt (f (mb_buckets d)) [])
  end.

Definition mb_contents (b : string) (d : mem_bolt) : gmap string string :=
  default ∅ (mb_view d !! b).

#[global] Instance mem_bolt_api : BoltApi mem_bolt := {
  bolt_create_bucket b :=
    mb_step (λ m, match m !! b with None => <[b := ∅]> m | Some _ => m end);
  bolt_has_bucket b d := bool_decide (is_Some (mb_view d !! b));
  bolt_put b k v d :=
    if String.eqb k "" then (Some (ExtErr "key required"), d)
    else mb_step (alter <[k := v]> b) d;
  bolt_delete b k := mb_step (alter (delete k) b);
  bolt_begin_read := mb_step id;
  bolt_get b k d := mb_contents b d !! k;
  bolt_cursor b d := map_to_list (mb_contents b d);
  bolt_keyN b d := Z.of_nat (size (mb_contents b d))
}.

(** ** A codec for countable types *)

Fixpoint pos_to_bits (p : positive) : string :=
  match p with
  | xH => "1"
  | xO p => String "0"%char (pos_to_bits p)
  | xI p => String "1"%char (pos_to_bits p)
  end.

Fixpoint bits_to_pos (s : string) : option positive :=
  match s with
  | String "1"%char "" => Some xH
  | String "0"%char s' => xO <$> bits_to_pos s'
  | String "1"%char s' => xI <$> bits_to_pos s'
  | _ => None
  end.

#[global] Instance countable_codec (T : Type) `{Countable T} : JsonCodec T := {
  json_Marshal v := Ok (pos_to_bits (encode v));
  json_Unmarshal s :=
    match bits_to_pos s ≫= decode with
    | Some v => Ok v
    | None => Err (ExtErr "unexpected input")
    end
}.

(** ** The laws hold *)

Lemma mb_step_cases f d :
  (∃ e d', mb_step f d = (Some e, d') ∧ mb_buckets d' = mb_buckets d) ∨
  (∃ d', mb_step f d = (None, d') ∧ mb_buckets d' = f (mb_buckets d)).
Proof.
  unfold mb_step. destruct (mb_faults d) as [|[e|] fs]; [right|left|right]; eauto.
Qed.

Ltac mb_cases f d :=
  destruct (mb_step_cases f d) as [(?e & ?d' & ?E & ?B)|(?d' & ?E & ?B)];
  rewrite ?E; unfold mb_view in *; simpl; rewrite ?B.

(** Updating one existing bucket, seen through the view. *)
Lemma mb_view_alter (m : gmap string (gmap string string)) b g g' raw :
  (delete "" <$> m) !! b = Some raw →
  (∀ r, delete "" (g r) = g' (delete "" r)) →
  delete "" <$> alter g b m = <[b := g' raw]> (delete "" <$> m).
Proof.
  intros Hraw Hg. apply map_eq. intros i.
  rewrite lookup_fmap, lookup_alter, lookup_insert, lookup_fmap.
  rewrite lookup_fmap in Hraw. case_decide as Hi; [|done]. subst i.
  destruct (m !! b) as [r|]; simplify_eq/=. by rewrite Hg.
Qed.

#[global] Instance mem_bolt_laws : BoltLaws mem_bolt.
Proof.
  refine {| bolt_view := mb_view |}; simpl; unfold mb_contents.
  - done.
  - intros b d. match goal with |- context [mb_step ?f d] => mb_cases f d end; [done|].
    rewrite lookup_fmap. destruct (mb_buckets d !! b) eqn:Eb; simpl; [done|].
    by rewrite fmap_insert, delete_empty.
  - intros b k v d raw Hraw. destruct (String.eqb_spec k ""); [done|].
    match goal with |- context [mb_step ?f d] => mb_cases f d end; [done|].
    apply (mb_view_alter _ _ _ (<[k := v]>)); [done|]. intros r. by rewrite delete_insert_ne.
  - by intros b v d.
  - intros b k d raw Hraw.
    match goal with |- context [mb_step ?f d] => mb_cases f d end; [done|].
    apply (mb_view_alter _ _ _ (delete k)); [done|]. intros r. apply delete_delete.
  - intros d. match goal with |- context [mb_step ?f d] => mb_cases f d end; done.
  - intros b k d raw Hraw. by rewrite Hraw.
  - intros b d raw Hraw. by rewrite Hraw.
  - intros b d raw Hraw. by rewrite Hraw.
  - intros b d raw Hraw. unfold mb_view in Hraw. rewrite lookup_fmap in Hraw.
    destruct (mb_buckets d !! b); simplify_eq/=. apply lookup_delete_eq.
Defined.

Lemma bits_to_pos_to_bits p : bits_to_pos (pos_to_bits p) = Some p.
Proof.
  induction p as [p IH|p IH|]; [| |done]; simpl; rewrite ?IH; simpl; [|done].
  by destruct p.
Qed.

#[global] Instance countable_json (T : Type) `{Countable T} : JsonLaws T.
Proof.
  split; simpl.
  - intros v s [= <-]. rewrite bits_to_pos_to_bits. simpl. by rewrite decode_encode.
  - eauto.
  - intros s. destruct (bits_to_pos s ≫= decode); eauto.
  - by eexists.
Defined.
