(* ===== verification/BoltProps.v ===== *)
(** The bolt store as its clients see it ([pkg/database/bolt.go]): any sequence of
    calls on one file behaves like the same calls on finite maps, and what happens
    when several callers pop at the same time.

    [Bolt.Pop] is two transactions, a View that finds the first entry and an Update
    that deletes it.  [pop_step] interleaves those of any number of callers. *)
From S2P Require Export Database Concrete.
From stdpp Require Import relations.

(** ** Definitions *)

(** *** Calls and what they return *)

Inductive store_op (T : Type) : Type :=
| SNew (b : string)
| SPut (b k : string) (v : T)
| SGet (b k : string)
| SDelete (b k : string)
| SPop (b : string)
| SList (b : string)
| SCount (b : string).
Arguments SNew {T} _.
Arguments SPut {T} _ _ _.
Arguments SGet {T} _ _.
Arguments SDelete {T} _ _.
Arguments SPop {T} _.
Arguments SList {T} _.
Arguments SCount {T} _.

Inductive store_reply (T : Type) : Type :=
| RUnit
| RValue (v : T)
| REntry (kv : KeyValue T)
| REntries (kvs : list (KeyValue T))
| RCount (n : Z).
Arguments RUnit {T}.
Arguments RValue {T} _.
Arguments REntry {T} _.
Arguments REntries {T} _.
Arguments RCount {T} _.

Definition op_bucket {T} (op : store_op T) : string :=
  match op with
  | SNew b | SPut b _ _ | SGet b _ | SDelete b _ | SPop b | SList b | SCount b => b
  end.

Definition is_new {T} (op : store_op T) : bool := match op with SNew _ => true | _ => false end.

Section calls.
Context {T H D : Type} `{!Database T H D} `{!StoreFrame H D}.

Definition store_call (op : store_op T) : M D (store_reply T) :=
  match op with
  | SNew b => _ ← db_New b; mret RUnit
  | SPut b k v => db_Put (db_handle b) k v;; mret RUnit
  | SGet b k => v ← db_Get (db_handle b) k; mret (RValue v)
  | SDelete b k => db_Delete (T := T) (db_handle b) k;; mret RUnit
  | SPop b => kv ← db_Pop (db_handle b); mret (REntry kv)
  | SList b => kvs ← db_List (db_handle b); mret (REntries kvs)
  | SCount b => n ← db_Count (T := T) (db_handle b); mret (RCount n)
  end.

(** A caller that goes on whatever a call returns. *)
Fixpoint store_calls (ops : list (store_op T)) (d : D) : list (outcome (store_reply T)) * D :=
  match ops with
  | [] => ([], d)
  | op :: ops' =>
      let '(o, d') := store_call op d in
      let '(os, d'') := store_calls ops' d' in (o :: os, d'')
  end.
End calls.

(** *** The abstract store: a finite map for each bucket *)

Abbreviation Store T := (gmap string (gmap string T)).

(** What a call may return and the store it leaves; a failure leaves the store
    alone, and only an absent key is reported as not found, only an empty bucket
    as its end. *)
Inductive spec_step {T} : Store T → store_op T → outcome (store_reply T) → Store T → Prop :=
| spec_New σ b : spec_step σ (SNew b) (Ok RUnit) (<[b := default ∅ (σ !! b)]> σ)
| spec_Put σ b m k v : σ !! b = Some m → spec_step σ (SPut b k v) (Ok RUnit) (<[b := <[k := v]> m]> σ)
| spec_Get σ b m k v : σ !! b = Some m → m !! k = Some v → spec_step σ (SGet b k) (Ok (RValue v)) σ
| spec_Get_none σ b m k : σ !! b = Some m → m !! k = None → spec_step σ (SGet b k) (Err ErrNotFound) σ
| spec_Delete σ b m k : σ !! b = Some m → spec_step σ (SDelete b k) (Ok RUnit) (<[b := delete k m]> σ)
| spec_Pop σ b m k v : σ !! b = Some m → m !! k = Some v →
    spec_step σ (SPop b) (Ok (REntry (mkKV k v))) (<[b := delete k m]> σ)
| spec_Pop_none σ b : σ !! b = Some ∅ → spec_step σ (SPop b) (Err ErrEOF) σ
| spec_List σ b m kvs : σ !! b = Some m →
    ((λ kv, (kv_Key kv, kv_Value kv)) <$> kvs) ≡ₚ map_to_list m → spec_step σ (SList b) (Ok (REntries kvs)) σ
| spec_Count σ b m : σ !! b = Some m → spec_step σ (SCount b) (Ok (RCount (Z.of_nat (size m)))) σ
| spec_fail σ op e :
    (∀ b k, op = SGet b k → IsNotFound e = false) → (∀ b, op = SPop b → IsEOF e = false) →
    spec_step σ op (Err e) σ.

Inductive spec_steps {T} : Store T → list (store_op T) → list (outcome (store_reply T)) → Store T → Prop :=
| spec_nil σ : spec_steps σ [] [] σ
| spec_cons σ1 σ2 σ3 op ops o os :
    spec_step σ1 op o σ2 → spec_steps σ2 ops os σ3 → spec_steps σ1 (op :: ops) (o :: os) σ3.

(** *** Concurrent poppers *)

Section poppers.
Context {T D : Type} `{!BoltApi D} `{!JsonCodec T}.

(** The View transaction of [Pop], with the decoding that follows it. *)
Definition pop_read (h : Bolt) : M D (KeyValue T) :=
  first ← with_msg "read boltdb error"
            (bolt_read (bucket h) (λ d, head (bolt_cursor (bucket h) d)));
  match first with
  | None => throw ErrEOF
  | Some (key, data) =>
      if String.eqb key "" then throw ErrEOF else
      value ← decodeValue data; mret (mkKV key value)
  end.

(** Its Update transaction. *)
Definition pop_delete (h : Bolt) (kv : KeyValue T) : M D (KeyValue T) :=
  with_msg "delete kv after pop error" (Bolt_Delete h (kv_Key kv));; mret kv.

(** How far a caller has come. *)
Inductive popper : Type :=
| Started
| HasRead (kv : KeyValue T)
| Finished (o : outcome (KeyValue T)).

Definition after_read (o : outcome (KeyValue T)) : popper :=
  match o with Ok kv => HasRead kv | _ => Finished o end.

(** One transaction of one caller. *)
Inductive pop_step (h : Bolt) : D * list popper → D * list popper → Prop :=
| pop_step_read d ts i :
    ts !! i = Some Started →
    pop_step h (d, ts) ((pop_read h d).2, <[i := after_read (pop_read h d).1]> ts)
| pop_step_delete d ts i kv :
    ts !! i = Some (HasRead kv) →
    pop_step h (d, ts) ((pop_delete h kv d).2, <[i := Finished (pop_delete h kv d).1]> ts).

(** A whole [Pop] that no other caller interrupts, as under a lock. *)
Inductive pop_turn (h : Bolt) : D * list popper → D * list popper → Prop :=
| pop_turn_whole d ts i :
    ts !! i = Some Started →
    pop_turn h (d, ts) ((Bolt_Pop h d).2, <[i := Finished (Bolt_Pop h d).1]> ts).
End poppers.
Arguments popper : clear implicits.
Arguments Started {T}.
Arguments HasRead {T} _.
Arguments Finished {T} _.

(** ** Lemmas *)

Section refines.
Context {T H D : Type} `{!Database T H D} `{!StoreFrame H D} `{!DatabaseLaws T H D}.

(** The file represents the abstract store. *)
Definition represents (d : D) (σ : Store T) : Prop :=
  ∀ b, match σ !! b with
       | Some m => db_holds (db_handle b) d m
       | None => db_fresh (T := T) (db_handle b) d
       end.

Lemma db_handle_ne b b' : b ≠ b' → db_handle (H := H) (D := D) b ≠ db_handle b'.
Proof. by intros Hne ?%db_handle_inj. Qed.

(** A change inside one bucket. *)
Lemma represents_touch d d' σ b m' :
  represents d σ → only_touches (db_handle b) d d' → db_holds (db_handle b) d' m' →
  represents d' (<[b := m']> σ).
Proof.
  intros Hr Ht Hm b'. destruct (decide (b = b')) as [<-|Hne].
  { by rewrite lookup_insert_eq. }
  rewrite lookup_insert_ne by done. specialize (Hr b'). apply db_handle_ne in Hne.
  destruct (σ !! b'); [by eapply db_holds_frame|by eapply db_fresh_frame].
Qed.

Lemma represents_same d d' σ b m :
  represents d σ → σ !! b = Some m → only_touches (db_handle b) d d' →
  db_holds (db_handle b) d' m → represents d' σ.
Proof.
  intros Hr Hb Ht Hm. rewrite <- (insert_id σ b m) by done. by eapply represents_touch.
Qed.

Lemma represents_fresh d d' σ b :
  represents d σ → σ !! b = None → only_touches (db_handle b) d d' →
  db_fresh (T := T) (db_handle b) d' → represents d' σ.
Proof.
  intros Hr Hb Ht Hf b'. destruct (decide (b = b')) as [<-|Hne]; [by rewrite Hb|].
  specialize (Hr b'). apply db_handle_ne in Hne.
  destruct (σ !! b'); [by eapply db_holds_frame|by eapply db_fresh_frame].
Qed.

Lemma spec_failed σ (op : store_op T) e :
  match op with SGet _ _ => IsNotFound e = false | SPop _ => IsEOF e = false | _ => True end →
  spec_step σ op (Err e) σ.
Proof. destruct op; intros; apply spec_fail; intros; simplify_eq; done. Qed.

(** One call. *)
Lemma store_call_spec op d σ :
  represents d σ → (is_new op = true ∨ op_bucket op ∈ dom σ) →
  wp (store_call op) (λ o d', ∃ σ', spec_step σ op o σ' ∧ represents d' σ') d.
Proof.
  intros Hr Hop. destruct op as [b|b k v|b k|b k|b|b|b]; unfold store_call; wp_step.
  { wp_use (db_New_law (T := T)) as (Ht & Hkeep & [[-> Hf]|(e & -> & Hf)]); wp_steps.
    - eexists. split; [apply spec_New|]. pose proof (Hr b) as Hb.
      destruct (σ !! b) as [m|] eqn:E; simpl; eapply represents_touch; eauto.
    - exists σ. split; [by apply spec_failed|]. pose proof (Hr b) as Hb.
      destruct (σ !! b) as [m|] eqn:E; [eapply represents_same|eapply represents_fresh]; eauto. }
  all: destruct Hop as [Hop|[m Hb]%elem_of_dom]; [discriminate|]; simpl in Hb; pose proof (Hr b) as Hm;
    rewrite Hb in Hm.
  - wp_use db_Put_law as (Ht & [[-> Hd]|(e & -> & Hd)]); [done|..]; wp_steps.
    + eexists. split; [by eapply spec_Put|by eapply represents_touch].
    + exists σ. split; [by apply spec_failed|by eapply represents_same].
  - wp_use db_Get_law as (Ht & Hd & [(v & -> & Hv)|[[-> Hv]|(e & -> & He)]]); [done|..]; wp_steps;
      exists σ; (split; [|by eapply represents_same]).
    + by eapply spec_Get.
    + by eapply spec_Get_none.
    + by apply spec_failed.
  - wp_use (db_Delete_law (T := T)) as (Ht & [[-> Hd]|(e & -> & Hd)]); [done|..]; wp_steps.
    + eexists. split; [by eapply spec_Delete|by eapply represents_touch].
    + exists σ. split; [by apply spec_failed|by eapply represents_same].
  - wp_use (db_Pop_law _ _ m Hm) as (Ht & [(k & v & -> & Hv & Hd)|[(-> & -> & Hd)|(e & -> & He & Hd)]]); wp_steps.
    + eexists. split; [by eapply spec_Pop|by eapply represents_touch].
    + exists σ. split; [by apply spec_Pop_none|by eapply represents_same].
    + exists σ. split; [by apply spec_failed|by eapply represents_same].
  - wp_use db_List_law as (Ht & Hd & [(kvs & -> & Hp)|(e & -> )]); [done|..]; wp_steps;
      exists σ; (split; [|by eapply represents_same]).
    + by eapply spec_List.
    + by apply spec_failed.
  - wp_use (db_Count_law (T := T)) as (Ht & Hd & [->|(e & -> )]); [done|..]; wp_steps;
      exists σ; (split; [|by eapply represents_same]).
    + by eapply spec_Count.
    + by apply spec_failed.
Qed.

Lemma spec_step_dom σ (op : store_op T) o σ' : spec_step σ op o σ' → dom σ ⊆ dom σ'.
Proof. destruct 1; try done; rewrite dom_insert; apply union_subseteq_r. Qed.

Lemma store_calls_spec ops d σ :
  represents d σ → Forall (λ op, is_new op = true ∨ op_bucket op ∈ dom σ) ops →
  ∃ σ', spec_steps σ ops (store_calls ops d).1 σ' ∧ represents (store_calls ops d).2 σ'.
Proof.
  revert d σ. induction ops as [|op ops IH]; intros d σ Hr Hops.
  { exists σ. split; [constructor|done]. }
  apply Forall_cons in Hops as [Hop Hops]. simpl.
  pose proof (store_call_spec op d σ Hr Hop) as Hs. unfold wp in Hs.
  destruct (store_call op d) as [o d1]. destruct Hs as (σ1 & Hs & Hr1).
  destruct (IH d1 σ1 Hr1) as (σ2 & Hs2 & Hr2).
  { eapply Forall_impl; [exact Hops|]. intros x [?|Hx]; [by left|right]. by eapply spec_step_dom. }
  destruct (store_calls ops d1) as [os d2]. exists σ2. split; [by eapply spec_cons|done].
Qed.
End refines.

(** *** Interleaved pops *)

Section pops.
Context {T D : Type} `{!BoltApi D} `{!BoltLaws D} `{!JsonCodec T} `{!JsonLaws T}.

(** The two transactions are the whole method. *)
Lemma pop_halves (h : Bolt) (d : D) : Bolt_Pop (T := T) h d = (kv ← pop_read h; pop_delete h kv) d.
Proof.
  unfold Bolt_Pop, pop_read, pop_delete. cbv [mbind M_bind].
  destruct (with_msg _ _ d) as [[[[key data]|]|e|w|] d']; try done.
  destruct (String.eqb key ""); [done|]. cbv [mret M_ret].
  by destruct (decodeValue data d') as [[v|e|w|] d''].
Qed.

Lemma pop_read_spec h d (m : gmap string T) :
  bolt_holds h d m →
  wp (pop_read h) (λ o d', bolt_holds h d' m ∧ returns o = true ∧
    ∀ kv : KeyValue T, o = Ok kv → m !! kv_Key kv = Some (kv_Value kv)) d.
Proof.
  intros Hm. unfold pop_read. wp_steps.
  eapply wp_bolt_read; [done|intros d' E|intros e d' E]; apply (bolt_holds_same _ _ _ _ E) in Hm;
    [|done]. cbn [kont].
  pose proof Hm as (raw & Hraw & Hall & Em). pose proof (bolt_cursor_head _ _ _ Hraw) as Hhd.
  destruct (head (bolt_cursor (bucket h) d')) as [[k s]|]; [|by wp_steps].
  destruct Hhd as [Hk Hne]. destruct (String.eqb_spec k ""); [done|].
  destruct (Hall _ _ Hk) as [v Hv]. wp_step. apply wp_decodeValue; intros; [|congruence].
  wp_steps. split; [done|]. split; [done|]. intros kv [= <-]. simpl. by rewrite Em, lookup_omap, Hk.
Qed.

Lemma pop_delete_spec h (kv : KeyValue T) d (m : gmap string T) :
  bolt_holds h d m →
  wp (pop_delete h kv) (λ o d',
    (o = Ok kv ∧ bolt_holds h d' (delete (kv_Key kv) m)) ∨ (∃ e, o = Err e ∧ bolt_holds h d' m)) d.
Proof.
  intros Hm. unfold pop_delete. do 2 wp_step.
  wp_use (Bolt_Delete_spec (T := T)) as (_ & [[-> Hd]|(e & -> & Hd)]); [done| |]; cbn [kont]; [|by eauto].
  wp_steps. by left.
Qed.

(** What all interleavings keep, from the contents [m0] on. *)
Definition pops_inv (h : Bolt) (m0 : gmap string T) (st : D * list (popper T)) : Prop :=
  ∃ m, bolt_holds h st.1 m ∧ m ⊆ m0 ∧
    (∀ k v, m0 !! k = Some v → m !! k = None → ∃ i, st.2 !! i = Some (Finished (Ok (mkKV k v)))) ∧
    (∀ i kv, st.2 !! i = Some (HasRead kv) → m0 !! kv_Key kv = Some (kv_Value kv)) ∧
    (∀ i o, st.2 !! i = Some (Finished o) → returns o = true ∧
       ∀ kv, o = Ok kv → m0 !! kv_Key kv = Some (kv_Value kv) ∧ m !! kv_Key kv = None).

Lemma pops_inv_step h m0 st st' : pop_step h st st' → pops_inv h m0 st → pops_inv h m0 st'.
Proof.
  intros Hstep (m & Hm & Hsub & Hlost & Hread & Hfin). destruct Hstep as [d ts i Hi|d ts i kv Hi]; simpl in *.
  - pose proof (pop_read_spec h d m Hm) as (Hm' & Hret & Hok). exists m. simpl.
    split; [done|]. split; [done|]. split; [|split].
    + intros k v Hk Hn. destruct (Hlost k v Hk Hn) as [j Hj]. exists j.
      rewrite list_lookup_insert_ne; [done|]. intros ->. congruence.
    + intros j kv [(-> & Hj & _)|[_ Hj]]%list_lookup_insert_Some; [|by eapply Hread].
      destruct (pop_read h d).1 as [kv'| | |]; simplify_eq/=. eapply lookup_weaken; [by apply Hok|done].
    + intros j o [(-> & Hj & _)|[_ Hj]]%list_lookup_insert_Some; [|by eapply Hfin].
      destruct (pop_read h d).1 as [kv'| | |]; simplify_eq/=; done.
  - pose proof (Hread _ _ Hi) as Hkv.
    pose proof (pop_delete_spec h kv d m Hm) as Hd. unfold wp in Hd.
    destruct Hd as [[Ho Hm']|(e & Ho & Hm')]; rewrite Ho.
    + exists (delete (kv_Key kv) m). simpl. split; [done|].
      split; [by etrans; [apply delete_subseteq|]|]. split; [|split].
      * intros k v Hk Hn. destruct (decide (k = kv_Key kv)) as [->|Hne].
        { exists i. rewrite list_lookup_insert_eq by (by eapply lookup_lt_Some).
          do 3 f_equal. destruct kv; simpl in *. congruence. }
        rewrite lookup_delete_ne in Hn by done. destruct (Hlost k v Hk Hn) as [j Hj]. exists j.
        rewrite list_lookup_insert_ne; [done|]. intros ->. congruence.
      * intros j kv' [(-> & [=] & _)|[_ Hj]]%list_lookup_insert_Some. by eapply Hread.
      * intros j o [(-> & [= <-] & _)|[_ Hj]]%list_lookup_insert_Some.
        { split; [done|]. intros kv' [= <-]. by rewrite lookup_delete_eq. }
        destruct (Hfin _ _ Hj) as [? Hf]. split; [done|]. intros kv' ->. destruct (Hf _ eq_refl) as [? Hn].
        split; [done|]. by apply lookup_delete_None; right.
    + exists m. simpl. split; [done|]. split; [done|]. split; [|split].
      * intros k v Hk Hn. destruct (Hlost k v Hk Hn) as [j Hj]. exists j.
        rewrite list_lookup_insert_ne; [done|]. intros ->. congruence.
      * intros j kv' [(-> & [=] & _)|[_ Hj]]%list_lookup_insert_Some. by eapply Hread.
      * intros j o [(-> & [= <-] & _)|[_ Hj]]%list_lookup_insert_Some; [done|by eapply Hfin].
Qed.
End pops.

(** ** Theorems *)

(** C17: The bolt store refines a finite map per bucket: any sequence of its operations,
    run on a file that represents such maps, gives replies and a final file that the
    abstract specification allows; a failed operation changes nothing, and only an
    absent key is reported as not found, only an empty bucket as its end. *)
Theorem store_refines_maps {T D} `{!BoltApi D, !BoltLaws D, !JsonCodec T, !JsonLaws T}
    (ops : list (store_op T)) (d : D) (σ : Store T) :
  represents (H := Bolt) d σ →
  Forall (λ op, is_new op = true ∨ op_bucket op ∈ dom σ) ops →
  ∃ σ', spec_steps σ ops (store_calls (H := Bolt) ops d).1 σ' ∧
        represents (H := Bolt) (store_calls (H := Bolt) ops d).2 σ'.
Proof. apply store_calls_spec. Qed.

Section concurrent.
Context {T D : Type} `{!BoltApi D} `{!BoltLaws D} `{!JsonCodec T} `{!JsonLaws T}.

Lemma pops_inv_start h (d : D) n (m0 : gmap string T) :
  bolt_holds h d m0 → pops_inv h m0 (d, replicate n Started).
Proof.
  intros Hm. exists m0. simpl. split; [done|]. split; [done|].
  split; [intros; congruence|]. split; intros i x [Hx _]%lookup_replicate; discriminate.
Qed.

(** C18: However the two transactions of any number of concurrent Pop calls interleave,
    every caller gets an entry that was in the bucket and is in it no more, or an error,
    and an entry leaves the bucket only when some caller gets it. *)
Theorem concurrent_pops_keep h (d d' : D) n (m0 : gmap string T) ts :
  bolt_holds h d m0 → rtc (pop_step h) (d, replicate n Started) (d', ts) →
  ∃ m, bolt_holds h d' m ∧ m ⊆ m0 ∧
    (∀ k v, m0 !! k = Some v → m !! k = None → ∃ i, ts !! i = Some (Finished (Ok (mkKV k v)))) ∧
    (∀ i o, ts !! i = Some (Finished o) → returns o = true ∧
       ∀ kv, o = Ok kv → m0 !! kv_Key kv = Some (kv_Value kv) ∧ m !! kv_Key kv = None).
Proof.
  intros Hm Hsteps. pose proof (pops_inv_start h d n m0 Hm) as Hinv.
  remember (d, replicate n Started) as st eqn:Est. remember (d', ts) as st' eqn:Est'.
  assert (pops_inv h m0 st') as (m & Hm' & Hsub & Hlost & _ & Hfin).
  { clear Est Est'. induction Hsteps; [done|]. eauto using pops_inv_step. }
  subst st'. exists m. done.
Qed.

(** Callers whose turns do not overlap: what one got is gone for the others. *)
Definition turns_inv (h : Bolt) (st : D * list (popper T)) : Prop :=
  ∃ m, bolt_holds h st.1 m ∧
    (∀ i kv, st.2 !! i = Some (Finished (Ok kv)) → m !! kv_Key kv = None) ∧
    (∀ i j kv kv', st.2 !! i = Some (Finished (Ok kv)) → st.2 !! j = Some (Finished (Ok kv')) →
       kv_Key kv = kv_Key kv' → i = j).

Lemma turns_inv_step h st st' : pop_turn h st st' → turns_inv h st → turns_inv h st'.
Proof.
  intros [d ts i Hi] (m & Hm & Hgone & Hinj). simpl in *.
  pose proof (Bolt_Pop_spec (T := T) h d m Hm) as [_ Hpop].
  destruct Hpop as [(k & v & Ho & Hk & Hm')|Hpop].
  - exists (delete k m). simpl. rewrite Ho. split; [done|].
    assert (∀ j kv, ts !! j = Some (Finished (Ok kv)) → kv_Key kv ≠ k) as Hne.
    { intros j kv Hj <-. rewrite (Hgone _ _ Hj) in Hk. discriminate. }
    split.
    + intros j kv [(-> & [= <-] & _)|[_ Hj]]%list_lookup_insert_Some; [apply lookup_delete_eq|].
      apply lookup_delete_None. right. by eapply Hgone.
    + intros a b kv kv' [(-> & [= <-] & _)|[_ Ha]]%list_lookup_insert_Some
        [(-> & [= <-] & _)|[_ Hb]]%list_lookup_insert_Some Heq; simpl in *; try done.
      * by destruct (Hne _ _ Hb).
      * by destruct (Hne _ _ Ha).
      * eauto.
  - assert (bolt_holds h (Bolt_Pop (T := T) h d).2 m ∧ ∀ kv, (Bolt_Pop (T := T) h d).1 ≠ Ok kv) as [Hm' Hno].
    { by destruct Hpop as [(-> & _ & ?)|(e & -> & _ & ?)]. }
    exists m. simpl. split; [done|]. split.
    + intros j kv [(-> & [= Hj] & _)|[_ Hj]]%list_lookup_insert_Some; [by destruct (Hno kv)|eauto].
    + intros a b kv kv' [(-> & [= Ha] & _)|[_ Ha]]%list_lookup_insert_Some; [by destruct (Hno kv)|].
      intros [(-> & [= Hb] & _)|[_ Hb]]%list_lookup_insert_Some; [by destruct (Hno kv')|eauto].
Qed.

(** Callers of [Pop] that do not overlap never get the same entry. *)
Theorem exclusive_pops_distinct h (d d' : D) n (m0 : gmap string T) ts i j kv kv' :
  bolt_holds h d m0 → rtc (pop_turn h) (d, replicate n Started) (d', ts) →
  ts !! i = Some (Finished (Ok kv)) → ts !! j = Some (Finished (Ok kv')) →
  kv_Key kv = kv_Key kv' → i = j.
Proof.
  intros Hm Hsteps.
  assert (turns_inv h (d, replicate n Started)) as Hinv.
  { exists m0. split; [done|]. split; [intros a x [Hx _]%lookup_replicate; discriminate|].
    intros a b x y [Hx _]%lookup_replicate. discriminate. }
  remember (d, replicate n Started) as st eqn:Est. remember (d', ts) as st' eqn:Est'.
  assert (turns_inv h st') as (m & _ & _ & Hinj).
  { clear Est Est'. induction Hsteps; [done|]. eauto using turns_inv_step. }
  subst st'. intros Hi Hj. by eapply Hinj.
Qed.
End concurrent.

(** *** A file with one address *)

Definition race_bolt : Bolt := mkBolt "pool".
Definition race_file : mem_bolt :=
  mkMemBolt {["pool" := {["10.9.0.7" := pos_to_bits (encode "mac")]}]} [].

(** Two concurrent callers of [Pop] can both get the one entry of a bucket: the
    read and the deletion are separate transactions. *)
Theorem pop_race :
  ∃ (d : mem_bolt) kv, bolt_holds (T := string) race_bolt race_file {[kv_Key kv := kv_Value kv]} ∧
    rtc (pop_step race_bolt) (race_file, [Started; Started]) (d, [Finished (Ok kv); Finished (Ok kv)]).
Proof.
  eexists _, (mkKV "10.9.0.7" "mac"). split.
  { exists {["10.9.0.7" := pos_to_bits (encode "mac")]}. split; [reflexivity|].
    split; [|reflexivity]. apply map_Forall_singleton. by eexists. }
  eapply rtc_l; [by apply (pop_step_read _ _ _ 0)|].
  eapply rtc_l; [by apply (pop_step_read _ _ _ 1)|].
  eapply rtc_l; [by apply (pop_step_delete _ _ _ 0 (mkKV "10.9.0.7" "mac"))|].
  eapply rtc_l; [by apply (pop_step_delete _ _ _ 1 (mkKV "10.9.0.7" "mac"))|].
  apply rtc_refl.
Qed.

(** *** Witnesses *)

Lemma race_holds : bolt_holds (T := string) race_bolt race_file {["10.9.0.7" := "mac"]}.
Proof.
  exists {["10.9.0.7" := pos_to_bits (encode "mac")]}. split; [reflexivity|].
  split; [|reflexivity]. apply map_Forall_singleton. by eexists.
Qed.

Lemma store_refines_maps_witness :
  ∃ σ', spec_steps {["pool" := {["10.9.0.7" := "mac"]}]}
          [SNew "pool"; SPut "pool" "10.9.0.8" "mac2"; SPop "pool"; SGet "pool" "10.9.0.9"]
          (store_calls (H := Bolt) [SNew "pool"; SPut "pool" "10.9.0.8" "mac2"; SPop "pool"; SGet "pool" "10.9.0.9"]
             race_file).1 σ'.
Proof.
  destruct (store_refines_maps (T := string) (D := mem_bolt)
    [SNew "pool"; SPut "pool" "10.9.0.8" "mac2"; SPop "pool"; SGet "pool" "10.9.0.9"] race_file
    {["pool" := {["10.9.0.7" := "mac"]}]}) as (σ' & Hs & _).
  - intros b. destruct (decide (b = "pool")) as [->|Hne].
    + rewrite lookup_singleton_eq. apply race_holds.
    + rewrite lookup_singleton_ne by done. simpl. unfold mb_view. simpl.
      by rewrite lookup_fmap, lookup_singleton_ne.
  - repeat (constructor; [right; apply elem_of_dom; by eexists|]). constructor.
  - by exists σ'.
Defined.

Lemma concurrent_pops_keep_witness :
  ∃ m, bolt_holds (T := string) race_bolt (pop_delete race_bolt (mkKV "10.9.0.7" "mac") race_file).2 m ∧
    m ⊆ {["10.9.0.7" := "mac"]}.
Proof.
  destruct (concurrent_pops_keep (T := string) race_bolt race_file
    (pop_delete race_bolt (mkKV "10.9.0.7" "mac") race_file).2 2 {["10.9.0.7" := "mac"]}
    [Finished (Ok (mkKV "10.9.0.7" "mac")); Started]) as (m & Hm & Hsub & _).
  - apply race_holds.
  - eapply rtc_l; [by apply (pop_step_read _ _ _ 0)|].
    eapply rtc_l; [by apply (pop_step_delete _ _ _ 0 (mkKV "10.9.0.7" "mac"))|]. apply rtc_refl.
  - by exists m.
Defined.

Lemma exclusive_pops_distinct_witness : 0%nat = 0%nat.
Proof.
  apply (exclusive_pops_distinct (T := string) race_bolt race_file (Bolt_Pop (T := string) race_bolt race_file).2
    2 {["10.9.0.7" := "mac"]} [Finished (Ok (mkKV "10.9.0.7" "mac")); Started] 0 0
    (mkKV "10.9.0.7" "mac") (mkKV "10.9.0.7" "mac")).
  - apply race_holds.
  - eapply rtc_l; [by apply (pop_turn_whole _ _ _ 0)|]. apply rtc_refl.
  - reflexivity.
  - reflexivity.
  - reflexivity.
Defined.
