(* ===== verification/Cloud.v ===== *)
(** [pkg/uapi] and the world outside the process.

    [CloudApi] is the interface of what the program calls and the repository does
    not contain: the UCloud SDK (VPC, UHost, STS and metadata services), the
    environment, the clock, the host's network interfaces and ARP socket, and
    the gRPC connection to another node's daemon.  Its state [E] is abstract, so
    that every theorem holds for every behaviour of these services.  The package's
    own code ([meta.go], [client.go], [ability.go]) is translated on top. *)
From S2P Require Export Prelude GoStrings Types.

(** ** Requests and replies of the SDK *)

(** A secondary-address request: a field left nil is [None]. *)
Record SecondaryIpRequest : Type := mkSecReq {
  sr_Zone : option string;
  sr_Mac : option string;
  sr_Ip : option string;
  sr_ObjectId : option string;
  sr_VPCId : option string;
  sr_SubnetId : option string
}.

Record MoveSecondaryIPMacRequest : Type := mkMoveReq {
  mr_Ip : string; mr_NewMac : string; mr_OldMac : string; mr_SubnetId : string
}.

Record DescribeSubnetRequest : Type := mkSubnetReq {
  dr_SubnetId : string; dr_VPCId : string
}.

Record IpInfo : Type := mkIpInfo {
  ii_Ip : string; ii_Mac : string; ii_VPCId : string;
  ii_SubnetId : string; ii_Gateway : string; ii_Mask : string
}.

Record Credential : Type := mkCredential { cr_PublicKey : string; cr_PrivateKey : string }.

Record MDNetworkInterface : Type := mkMDIface {
  md_Id : string; md_Mac : string; md_SubnetId : string; md_VpcId : string; md_Default : bool
}.
Record Metadata : Type := mkMetadata {
  md_Region : string;
  md_InstanceId : string;
  md_AvailabilityZone : string;
  md_UHost_ProjectId : string;
  md_UHost_NetworkInterfaces : list MDNetworkInterface;
  md_UPHost_ProjectId : string;
  md_UPHost_NetworkInterfaces : list MDNetworkInterface
}.

Record UHostIPSet : Type := mkIPSet { us_Default : string; us_NetworkInterfaceId : string }.
Record UHostInstance : Type := mkUHost { uh_IPSet : list UHostIPSet; uh_NetFeatureTag : string }.

(** What one read of the ARP socket gives: the bytes of a frame or an errno. *)
Inductive arp_event : Type :=
| ArpFrame (frame : list Z)
| ArpAgain            (* EAGAIN or EINTR *)
| ArpError (msg : string).

Record NetIface : Type := mkIface { if_Name : string; if_HardwareAddr : list Z; if_MTU : Z }.

(** ** The interface *)

(** A call of outside code: it returns a value or an error, and does not panic. *)
Definition Call (E A : Type) : Type := E → (error + A) * E.

Definition call {E A} (c : Call E A) : M E A := λ e,
  match c e with
  | (inr a, e') => (Ok a, e')
  | (inl err, e') => (Err err, e')
  end.

Section call_rules.
Context {E : Type}.

Lemma wp_call {A} (c : Call E A) (Q : outcome A → E → Prop) e :
  (∀ a e', c e = (inr a, e') → Q (Ok a) e') →
  (∀ err e', c e = (inl err, e') → Q (Err err) e') →
  wp (call c) Q e.
Proof. unfold wp, call. destruct (c e) as [[] e'] eqn:?; simpl; auto. Qed.

Lemma safe_call {A} (c : Call E A) : safe (call c).
Proof. intros e. unfold call. by destruct (c e) as [[] ?]. Qed.
End call_rules.
#[export] Hint Resolve safe_call : safe.

(** A reply [resp, err]: the SDK returns a non-nil response also with an error,
    whose [RetCode] the program reads. *)
Class CloudApi (E : Type) : Type := {
  ext_Getenv : string → E → string;
  ext_Now : E → Z * E;
  ext_LoadSTSConfigV2 : Call E Credential;
  ext_GetInstanceIdentityDocument : Call E Metadata;
  ext_GetMetadata : string → Call E string;
  ext_NumCPU : E → Z;
  ext_DescribeUHostInstance : string → Call E (list UHostInstance);
  ext_AllocateSecondaryIp : SecondaryIpRequest → E → (IpInfo * Z * option error) * E;
  ext_DescribeSecondaryIp : SecondaryIpRequest → Call E (list IpInfo);
  ext_DeleteSecondaryIp : SecondaryIpRequest → E → (Z * option error) * E;
  ext_MoveSecondaryIPMac : MoveSecondaryIPMacRequest → Call E unit;
  ext_DescribeSubnet : DescribeSubnetRequest → Call E (list Z);
  ext_Interfaces : Call E (list NetIface);
  ext_InterfaceByName : string → Call E NetIface;
  ext_LinkList : Call E (list NetIface);
  ext_LinkByName : string → Call E NetIface;
  ext_AddrListV4 : NetIface → Call E (list (list Z));
  ext_TZOffset : Z → E → Z;
  ext_ArpSocket : NetIface → Call E unit;
  ext_ArpExchange : list Z → NetIface → E → list arp_event * E;
  ext_Dial : string → Call E unit;
  ext_BorrowIP : string → BorrowIPRequest → Call E (option PodNetwork)
}.

(** The unspecified choices of the Go runtime and library: the order in which
    [range] visits the entries of a map, made anew each time, and the result of
    [sort.Slice], which is not stable. *)
Class GoRuntime (E : Type) : Type := {
  rt_range {V} : list V → E → list V * E;
  rt_sort {V} : (V → V → bool) → list V → list V
}.
Class GoRuntimeLaws (E : Type) `{!GoRuntime E} : Prop := {
  rt_range_perm V (l : list V) e : (rt_range l e).1 ≡ₚ l;
  rt_sort_perm V less (l : list V) : rt_sort less l ≡ₚ l;
  rt_sort_sorted V (key : V → Z) (l : list V) :
    StronglySorted (λ a b, key b ≤ key a) (rt_sort (λ a b, key a >? key b) l)
}.

(** ** The process: the world and the package-level variables of meta.go *)

Record Proc (E : Type) : Type := mkProc {
  proc_ext : E;
  proc_meta : option Metadata;
  proc_metaOnce : bool
}.
Arguments mkProc {E} _ _ _.
Arguments proc_ext {E} _.
Arguments proc_meta {E} _.
Arguments proc_metaOnce {E} _.

Record ApiClient : Type := mkApiClient {
  ac_instanceId : string;
  ac_zoneId : string;
  ac_vpcId : string;
  ac_subnetId : string;
  ac_Region : string;
  ac_ProjectId : string;
  ac_BaseUrl : string
}.

Definition uApiDefaultEndpoint : string := "http://api.service.ucloud.cn".

Section uapi.
Context {E : Type} `{!CloudApi E}.
#[local] Abbreviation P := (M (Proc E)).

(** Running an outside operation in the process. *)
Definition set_ext (e : E) (p : Proc E) : Proc E := mkProc e (proc_meta p) (proc_metaOnce p).
Definition ext {A} (c : Call E A) : P A := zoom proc_ext set_ext (call c).
Definition ext_total {A} (f : E → A * E) : P A :=
  zoom proc_ext set_ext (λ e, let '(a, e') := f e in (Ok a, e')).
Definition Getenv (k : string) : P string := gets (λ p, ext_Getenv k (proc_ext p)).
Definition Now : P Z := ext_total ext_Now.

(** *** meta.go *)

(** [sync.Once]: the function runs in the first call only, whatever its result;
    the returned pointer is nil when that run failed. *)
Definition GetMeta : P (option Metadata) :=
  done ← gets proc_metaOnce;
  if done : bool then gets proc_meta else
  modify (λ p, mkProc (proc_ext p) (proc_meta p) true);;
  md ← ext ext_GetInstanceIdentityDocument;
  modify (λ p, mkProc (proc_ext p) (Some md) (proc_metaOnce p));;
  gets proc_meta.

Definition ReloadMeta : P Metadata :=
  md ← ext ext_GetInstanceIdentityDocument;
  modify (λ p, mkProc (proc_ext p) (Some md) (proc_metaOnce p));;
  mret md.

(** Reading a field through the returned pointer. *)
Definition deref {S A} (o : option A) : M S A :=
  match o with Some a => mret a | None => panic "nil pointer dereference" end.

Inductive instance_type : Type :=
| instanceTypeCube | instanceTypeUHost | instanceTypeUPHost | instanceTypeUDocker
| instanceTypeUDHost | instanceTypeUNI | instanceTypeUnknown.
#[global] Instance instance_type_eq_dec : EqDecision instance_type.
Proof. solve_decision. Defined.

Definition instanceType (resource : string) : instance_type :=
  if HasPrefix resource "uhost-" then instanceTypeUHost
  else if HasPrefix resource "upm-" then instanceTypeUPHost
  else if HasPrefix resource "docker-" then instanceTypeUDocker
  else if HasPrefix resource "udhost-" then instanceTypeUDHost
  else if HasPrefix resource "uni-" then instanceTypeUNI
  else if HasPrefix resource "cube-" then instanceTypeCube
  else instanceTypeUnknown.

(** *** client.go *)

Definition CreateCredential : P Credential :=
  config ← attempt (ext ext_LoadSTSConfigV2);
  match config with
  | inl _ =>
      pub ← Getenv "UCLOUD_API_PUBKEY";
      pri ← Getenv "UCLOUD_API_PRIKEY";
      if String.eqb pub "" || String.eqb pri ""
      then throw (Errorf "cannot get uapi credential, sts call failed")
      else mret (mkCredential pub pri)
  | inr c => mret c
  end.

(** The credential is made anew for every client; the client is its configuration. *)
Definition VPCClient (c : ApiClient) : P unit := _ ← CreateCredential; mret tt.
Definition UHostClient (c : ApiClient) : P unit := _ ← CreateCredential; mret tt.
Definition UNetClient (c : ApiClient) : P unit := _ ← CreateCredential; mret tt.
Definition UK8SClient (c : ApiClient) : P unit := _ ← CreateCredential; mret tt.

(** The test on the error is the wrong way round: the branch that has no
    metadata reads it. *)
Definition LocalRegion : P string :=
  r ← attempt GetMeta;
  match r with
  | inl _ => mp ← gets proc_meta; meta ← deref mp; mret (md_Region meta)
  | inr _ => Getenv "UCLOUD_REGION_ID"
  end.

(** The first default interface of the metadata. *)
Definition default_iface (l : list MDNetworkInterface) : option MDNetworkInterface :=
  head (filter (λ i, md_Default i = true) l).

Definition NewClient : P ApiClient :=
  mp ← with_msg "cannot get uapi metadata information" GetMeta;
  meta ← deref mp;
  let project :=
    if HasPrefix (md_InstanceId meta) "uhost" then md_UHost_ProjectId meta
    else if HasPrefix (md_InstanceId meta) "upm" then md_UPHost_ProjectId meta
    else "" in
  envProject ← Getenv "UCLOUD_PROJECT_ID";
  envEndpoint ← Getenv "UCLOUD_API_ENDPOINT";
  envVpc ← Getenv "UCLOUD_VPC_ID";
  envSubnet ← Getenv "UCLOUD_SUBNET_ID";
  let project := if String.eqb project "" then envProject else project in
  let base := if String.eqb envEndpoint "" then uApiDefaultEndpoint else envEndpoint in
  let '(vpc, subnet) :=
    match default_iface (md_UHost_NetworkInterfaces meta) with
    | Some i => (md_VpcId i, md_SubnetId i)
    | None => ("", "")
    end in
  let '(vpc, subnet) :=
    if String.eqb vpc "" || String.eqb subnet "" then (envVpc, envSubnet) else (vpc, subnet) in
  mret (mkApiClient (md_InstanceId meta) (md_AvailabilityZone meta) vpc subnet
          (md_Region meta) project base).

Definition GetObjectIDForSecondaryIP : P string :=
  uapi ← NewClient;
  let instanceId := ac_instanceId uapi in
  if bool_decide (instanceType instanceId ≠ instanceTypeUHost) then mret instanceId else
  UHostClient uapi;;
  resp ← attempt (ext (ext_DescribeUHostInstance instanceId));
  match resp with
  | inl _ | inr [] => mret instanceId
  | inr (uhost :: _) =>
      match head (filter (λ s, us_Default s = "true" ∧ us_NetworkInterfaceId s ≠ "")
                    (uh_IPSet uhost)) with
      | Some s => mret (us_NetworkInterfaceId s)
      | None => mret instanceId
      end
  end.

(** *** ability.go *)

Record Ability : Type := mkAbility {
  ab_InstanceID : string; ab_SupportUNI : bool; ab_SecGroup : bool
}.

Definition GetAbility : P Ability :=
  client ← NewClient;
  let instanceID := ac_instanceId client in
  if negb (HasPrefix instanceID "uhost-") then mret (mkAbility instanceID false false) else
  UHostClient client;;
  resp ← with_msg "failed to call DescribeUHostInstance"
           (ext (ext_DescribeUHostInstance instanceID));
  match resp with
  | [] => throw (Errorf "cannot find uhost")
  | uhost :: _ =>
      mret (mkAbility instanceID
              (existsb (λ s, HasPrefix (us_NetworkInterfaceId s) "uni-") (uh_IPSet uhost))
              (EqualFold (uh_NetFeatureTag uhost) "SecGroup"))
  end.

End uapi.

(** ** Lemmas *)

Section uapi_safe.
Context {E : Type} `{!CloudApi E}.

Lemma safe_ext {A} (c : Call E A) : safe (ext c).
Proof. unfold ext. solve_safe. Qed.
Lemma safe_ext_total {A} (f : E → A * E) : safe (ext_total f).
Proof. apply safe_zoom. intros e. by destruct (f e). Qed.
#[local] Hint Resolve safe_ext safe_ext_total : safe.

Lemma safe_CreateCredential : safe CreateCredential.
Proof. unfold CreateCredential, Getenv. solve_safe. Qed.
#[local] Hint Resolve safe_CreateCredential : safe.
Lemma safe_VPCClient c : safe (VPCClient c).
Proof. unfold VPCClient. solve_safe. Qed.
Lemma safe_GetMeta : safe GetMeta.
Proof. unfold GetMeta. solve_safe. Qed.
End uapi_safe.
#[export] Hint Resolve safe_ext safe_ext_total safe_CreateCredential safe_VPCClient safe_GetMeta
  : safe.
