(* ===== verification/Arping.v ===== *)
(** [pkg/arping]: the ARP frames ([datagram.go]) and the detection of address
    conflicts of RFC 5227 ([arping.go]).

    A byte is a [Z] below 256, a hardware or protocol address the list of its
    bytes.  The exchange on the raw socket, with its two goroutines and timers,
    is [ext_ArpExchange]: it sends the probe and gives the reads of the receiving
    goroutine, in order, up to the moment the announce timer stops it. *)
From S2P Require Export Cloud GoNet.

(** ** datagram.go *)

Definition requestOper : Z := 1.
Definition responseOper : Z := 2.

Record arpDatagram : Type := mkArp {
  htype : Z; ptype : Z; hlen : Z; plen : Z; oper : Z;
  sha : list Z; spa : list Z; tha : list Z; tpa : list Z
}.

(** [ip.To4()] where nil is the empty address. *)
Definition to4 (ip : list Z) : list Z := default [] (To4 ip).

Definition newArpRequest (srcMac srcIP dstMac dstIP : list Z) : arpDatagram :=
  mkArp 1 2048 6 4 requestOper srcMac (to4 srcIP) dstMac (to4 dstIP).

(** [binary.Write] of a uint16 in big-endian order. *)
Definition u16_be (v : Z) : list Z := [v / 256; v mod 256].

Definition Marshal (d : arpDatagram) : list Z :=
  u16_be (htype d) ++ u16_be (ptype d) ++ [hlen d] ++ [plen d] ++ u16_be (oper d) ++
  sha d ++ spa d ++ tha d ++ tpa d.

Definition MarshalWithEthernetHeader (d : arpDatagram) : list Z :=
  tha d ++ sha d ++ [8; 6] ++ Marshal d.

Definition IsResponseOf (d request : arpDatagram) : bool :=
  bool_decide (oper d = responseOper ∧ spa request = tpa d ∧ tpa request = spa d).

(** [binary.Read] of a big-endian integer: a short buffer is consumed and leaves
    the zero value.  [Next n] takes what there is. *)
Definition read_u16 (b : list Z) : Z * list Z :=
  match b with h :: l :: r => (h * 256 + l, r) | _ => (0, []) end.
Definition read_u8 (b : list Z) : Z * list Z :=
  match b with h :: r => (h, r) | [] => (0, []) end.
Definition buf_next (n : Z) (b : list Z) : list Z * list Z :=
  (take (Z.to_nat n) b, drop (Z.to_nat n) b).

Definition parseArpDatagram (buffer : list Z) : arpDatagram :=
  let '(ht, b) := read_u16 buffer in
  let '(pt, b) := read_u16 b in
  let '(hl, b) := read_u8 b in
  let '(pl, b) := read_u8 b in
  let '(op, b) := read_u16 b in
  let '(sh, b) := buf_next hl b in
  let '(sp, b) := buf_next pl b in
  let '(th, b) := buf_next hl b in
  let '(tp, _) := buf_next pl b in
  mkArp ht pt hl pl op sh sp th tp.

(** ** arping.go *)

Definition MaxConflicts : nat := 10.

Section detect.
Context {E : Type} `{!CloudApi E}.
#[local] Abbreviation P := (M (Proc E)).

Definition validateIP (ip : list Z) : P unit :=
  if (length (to4 ip) =? 4)%nat then mret tt else throw (Errorf "not a valid v4 Address").

(** [LinuxSocket.receive] reads into 128 bytes and drops the Ethernet header;
    slicing a shorter frame panics. *)
Definition receive_frame (frame : list Z) : outcome arpDatagram :=
  let buf := take 128 frame in
  if (length buf <? 14)%nat then Panic "slice bounds out of range"
  else Ok (parseArpDatagram (drop 14 buf)).

(** The receiving goroutine: the first conclusive read decides; when there is
    none the announce timer ends the exchange without a conflict. *)
Fixpoint receive_loop (srcIP hw : list Z) (evs : list arp_event) : P bool :=
  match evs with
  | [] => mret false
  | ArpAgain :: evs' => receive_loop srcIP hw evs'
  | ArpError msg :: _ => throw (Wrap "fail to receive gratuitous arp response" (ExtErr msg))
  | ArpFrame frame :: evs' =>
      dg ← (λ p, (receive_frame frame, p));
      if bool_decide (spa dg = to4 srcIP) then
        if bool_decide (sha dg = hw) then receive_loop srcIP hw evs' else mret true
      else if bool_decide (tpa dg = to4 srcIP ∧ sha dg ≠ hw) then mret true
      else receive_loop srcIP hw evs'
  end.

(** The probe that [gratuitousArpOverIface] sends. *)
Definition gratuitousArp (srcIP : list Z) (iface : NetIface) : list Z :=
  MarshalWithEthernetHeader
    (newArpRequest (if_HardwareAddr iface) srcIP (replicate 6 255) srcIP).

Definition detectIpConflictWithGratuitousArp (srcIP : list Z) (ifaceName : string) : P bool :=
  with_wrap "fail to validate ip" (validateIP srcIP);;
  iface ← with_wrap "fail to get interface by name" (ext (ext_InterfaceByName ifaceName));
  with_wrap "fail to initialize interface" (ext (ext_ArpSocket iface));;
  evs ← ext_total (ext_ArpExchange (gratuitousArp srcIP iface) iface);
  receive_loop srcIP (if_HardwareAddr iface) evs.

(** The retry loop, with [n] attempts left and the result of the last one. *)
Fixpoint detect_attempts (n : nat) (srcIP : list Z) (ifaceName : string)
    (last : error + bool) : P bool :=
  match n with
  | O => match last with inl e => throw e | inr conflict => mret conflict end
  | S n' =>
      r ← attempt (detectIpConflictWithGratuitousArp srcIP ifaceName);
      match r with
      | inr false => mret false
      | _ => detect_attempts n' srcIP ifaceName r
      end
  end.

Definition DetectIpConflictWithGratuitousArp (srcIP : list Z) (ifaceName : string) : P bool :=
  detect_attempts MaxConflicts srcIP ifaceName (inr false).

End detect.

(** ** Theorems *)

(** A datagram whose numeric fields fit their width and whose addresses have the
    announced lengths. *)
Record arp_wf (d : arpDatagram) : Prop := {
  wf_htype : 0 ≤ htype d < 2 ^ 16;
  wf_ptype : 0 ≤ ptype d < 2 ^ 16;
  wf_oper : 0 ≤ oper d < 2 ^ 16;
  wf_sha : Z.of_nat (length (sha d)) = hlen d;
  wf_spa : Z.of_nat (length (spa d)) = plen d;
  wf_tha : Z.of_nat (length (tha d)) = hlen d;
  wf_tpa : Z.of_nat (length (tpa d)) = plen d
}.

Lemma read_u16_be v rest : 0 ≤ v < 2 ^ 16 → read_u16 (u16_be v ++ rest) = (v, rest).
Proof. intros H. simpl. f_equal. pose proof (Z.div_mod v 256). lia. Qed.

Lemma buf_next_app n a rest :
  Z.of_nat (length a) = n → buf_next n (a ++ rest) = (a, rest).
Proof.
  intros <-. unfold buf_next. rewrite Nat2Z.id. by rewrite take_app_length, drop_app_length.
Qed.

(** Parsing a marshalled ARP datagram gives the datagram back, whatever padding
    follows it. *)
Theorem parse_Marshal (d : arpDatagram) (padding : list Z) :
  arp_wf d → parseArpDatagram (Marshal d ++ padding) = d.
Proof.
  intros []. unfold parseArpDatagram, Marshal. rewrite <- !app_assoc.
  rewrite !read_u16_be by done. cbn [app read_u8].
  rewrite read_u16_be by done.
  rewrite !buf_next_app by done. by destruct d.
Qed.

Lemma parse_Marshal_witness :
  parseArpDatagram (Marshal (newArpRequest [82; 84; 0; 1; 2; 3] [10; 9; 0; 7] (replicate 6 255) [10; 9; 0; 7])
                    ++ replicate 18 0)
  = newArpRequest [82; 84; 0; 1; 2; 3] [10; 9; 0; 7] (replicate 6 255) [10; 9; 0; 7].
Proof. apply parse_Marshal. split; vm_compute; repeat split; congruence. Defined.
