(* ===== verification/Kube.v ===== *)
(** The Kubernetes API as the program uses it (client-go and the generated
    clientset), with [retry.RetryOnConflict].

    [KubeApi] has one call per use; its state [K] is abstract.  [KubeLaws] states
    what the API server promises on a ghost view of the objects that the program
    writes.  A write that returns an error may have been committed all the same
    (a timeout), unless the error is a definite rejection. *)
From S2P Require Export Prelude Types Cloud.

Class KubeApi (K : Type) : Type := {
  k_GetPod : string → string → Call K Pod;                  (* namespace, name *)
  k_PatchPodAnnotations : string → string → gmap string string → Call K unit;
  k_ListPodsOnNode : string → Call K (list Pod);
  k_ListPods : Call K (list Pod);
  k_GetNode : string → Call K Node;
  k_ListNodes : Call K (list Node);
  k_ListIpamds : Call K (list Ipamd);
  k_GetIpamd : string → Call K Ipamd;
  k_CreateIpamd : Ipamd → Call K unit;
  k_UpdateIpamd : Ipamd → Call K unit;
  k_DeleteIpamd : string → Call K unit;
  k_GetClaim : string → string → Call K VpcIpClaim;         (* namespace, name *)
  k_ListClaimsNamed : string → string → Call K unit;
  k_CreateClaim : VpcIpClaim → Call K VpcIpClaim;
  k_UpdateClaim : VpcIpClaim → Call K VpcIpClaim
}.

(** The errors with which the server says that it did not do the write. *)
Definition definite_rejection (e : error) : bool :=
  match ReasonForError e with
  | Some (NotFound | Forbidden | Unauthorized | Invalid | BadRequest | MethodNotSupported) => true
  | _ => false
  end.

Definition claim_key (c : VpcIpClaim) : string * string := (vip_Namespace c, vip_Name c).

(** [c] ends without having changed the view [v]. *)
Definition keeps {K A V} (v : K → V) (c : Call K A) : Prop := ∀ k, v (c k).2 = v k.
Lemma keeping_call {S X A} (f : S → X) (c : Call S A) : keeps f c → keeping f (call c).
Proof. intros Hc s. specialize (Hc s). unfold call. by destruct (c s) as [[] ?]. Qed.

Class KubeLaws (K : Type) `{!KubeApi K} : Type := {
  k_ipamds : K → gmap string Ipamd;
  k_nodes : K → gset string;
  k_claims : K → gmap (string * string) VpcIpClaim;
  k_ListIpamds_keeps : keeps k_ipamds k_ListIpamds;
  k_ListNodes_keeps : keeps k_ipamds k_ListNodes;
  k_ListIpamds_law k l k' :
    k_ListIpamds k = (inr l, k') → ((λ i, (ipamd_Name i, i)) <$> l) ≡ₚ map_to_list (k_ipamds k);
  k_ListNodes_law k l k' :
    k_ListNodes k = (inr l, k') → list_to_set (node_Name <$> l) = k_nodes k;
  k_ListIpamds_nodes : keeps k_nodes k_ListIpamds;
  k_ListIpamds_claims : keeps k_claims k_ListIpamds;
  k_GetNode_keeps n : keeps (λ k, (k_ipamds k, k_nodes k, k_claims k)) (k_GetNode n);
  k_GetNode_law n k x k' : k_GetNode n k = (inr x, k') → n ∈ k_nodes k;
  k_DeleteIpamd_law n k :
    (k_ipamds (k_DeleteIpamd n k).2 = delete n (k_ipamds k)) ∨
    (∃ e, (k_DeleteIpamd n k).1 = inl e ∧ k_ipamds (k_DeleteIpamd n k).2 = k_ipamds k);
  k_GetIpamd_keeps n : keeps k_ipamds (k_GetIpamd n);
  k_GetIpamd_law n k :
    match (k_GetIpamd n k).1 with
    | inr i => k_ipamds k !! n = Some i ∧ ipamd_Name i = n
    | inl e => k8serr_is NotFound e = true → k_ipamds k !! n = None
    end;
  k_CreateIpamd_law i k u k' :
    k_CreateIpamd i k = (inr u, k') → k_ipamds k' = <[ipamd_Name i := i]> (k_ipamds k);
  k_UpdateIpamd_law i k u k' :
    k_UpdateIpamd i k = (inr u, k') → k_ipamds k' = <[ipamd_Name i := i]> (k_ipamds k);
  k_GetPod_claims ns n : keeps k_claims (k_GetPod ns n);
  k_GetClaim_keeps ns n : keeps k_claims (k_GetClaim ns n);
  k_GetClaim_law ns n k c k' :
    k_GetClaim ns n k = (inr c, k') → k_claims k !! (ns, n) = Some c ∧ claim_key c = (ns, n);
  k_UpdateClaim_law c k c' k' :
    k_UpdateClaim c k = (inr c', k') → c' = c ∧ k_claims k' = <[claim_key c := c]> (k_claims k);
  k_CreateClaim_law c k c' k' :
    k_CreateClaim c k = (inr c', k') →
    c' = c ∧ k_claims k !! claim_key c = None ∧ k_claims k' = <[claim_key c := c]> (k_claims k);
  k_CreateClaim_rejected c k e k' :
    k_CreateClaim c k = (inl e, k') → definite_rejection e = true → k_claims k' = k_claims k
}.

(** ** retry.RetryOnConflict *)

(** Running [f] again while it fails with a conflict, at least once and a
    bounded number of times; the last result is returned. *)
Inductive retried {S} (f : M S unit) : S → outcome unit * S → Prop :=
| retried_last s : retried f s (f s)
| retried_again s e s' r :
    f s = (Err e, s') → k8serr_is Conflict e = true → retried f s' r → retried f s r.

Class RetryApi : Type := { RetryOnConflict : ∀ {S}, M S unit → M S unit }.
Class RetryLaws `{!RetryApi} : Prop := {
  RetryOnConflict_law S (f : M S unit) s : retried f s (RetryOnConflict f s)
}.

(** An invariant of the attempts that ended in a conflict. *)
Lemma wp_RetryOnConflict `{!RetryApi, !RetryLaws} {S} (f : M S unit) (I : S → Prop)
    (Q : outcome unit → S → Prop) s :
  I s →
  (∀ s, I s → wp f (λ o s', Q o s' ∧
      (∀ e, o = Err e → k8serr_is Conflict e = true → I s')) s) →
  wp (RetryOnConflict f) Q s.
Proof.
  intros HI Hf. unfold wp at 1. pose proof (RetryOnConflict_law S f s) as Hr.
  remember (RetryOnConflict f s) as r eqn:Er. clear Er. revert HI.
  induction Hr as [s|s e s' r Es He _ IH]; intros HI; [by apply Hf|].
  apply IH. specialize (Hf s HI). unfold wp in Hf. rewrite Es in Hf. by eapply Hf.
Qed.

Lemma keeping_RetryOnConflict `{!RetryApi, !RetryLaws} {S X} (f : S → X) (m : M S unit) :
  keeping f m → keeping f (RetryOnConflict m).
Proof.
  intros Hm s. apply (wp_RetryOnConflict m (λ s', f s' = f s) (λ _ s', f s' = f s)); [done|].
  intros s1 Hs1. unfold wp. rewrite !Hm. by split; [|intros].
Qed.

Lemma definite_rejection_not_conflict e :
  definite_rejection e = true → k8serr_is Conflict e = false.
Proof.
  unfold definite_rejection, k8serr_is. intros H. apply bool_decide_eq_false.
  by destruct (ReasonForError e) as [[]|].
Qed.
