(* ===== verification/Iputils.v ===== *)
(** [pkg/iputils/addr.go]: the addresses of the node's master interface. *)
From S2P Require Export Cloud GoNet.
From Stdlib Require Import Ascii.

(** ** Definitions *)

(** [net.HardwareAddr.String]. *)
Definition hex_byte (b : Z) : string :=
  String (digit_char (b / 16)) (String (digit_char (b mod 16)) "").
Definition HardwareAddr_String (mac : list Z) : string := Join (hex_byte <$> mac) ":".

Definition UHostMasterInterface : string := "eth0".
Definition UPHostMasterInterface : string := "eth2".

Section iputils.
Context {E : Type} `{!CloudApi E}.
#[local] Abbreviation P := (M (Proc E)).

Definition GetMasterInterface : P string :=
  list ← attempt (ext ext_Interfaces);
  match list with
  | inl _ => mret UHostMasterInterface
  | inr list =>
      r ← attempt GetMeta;
      match r with
      | inl _ => mret UHostMasterInterface
      | inr mp =>
          meta ← deref mp;
          match HasPrefix (md_InstanceId meta) "upm", md_UPHost_NetworkInterfaces meta with
          | true, nic :: _ =>
              let targetMac := ToLower (md_Mac nic) in
              match head (filter (λ i, HardwareAddr_String (if_HardwareAddr i) = targetMac) list) with
              | Some i => mret (if_Name i)
              | None => mret UPHostMasterInterface
              end
          | _, _ => mret UHostMasterInterface
          end
      end
  end.

Definition GetLinkByMac (mac : string) : P NetIface :=
  links ← ext ext_LinkList;
  match head (filter (λ l, EqualFold (HardwareAddr_String (if_HardwareAddr l)) mac = true) links) with
  | Some l => mret l
  | None => throw (Errorf ("cannot find interface of mac " +:+ mac))
  end.

(** [dev] with the default of the functions below. *)
Definition default_dev (dev : string) : P string :=
  if String.eqb dev "" then GetMasterInterface else mret dev.

Definition GetNodeIPAddress (dev : string) : P (list Z) :=
  dev ← default_dev dev;
  hface ← with_msg ("failed to lookup " +:+ dev) (ext (ext_LinkByName dev));
  hostAddrs ← with_msg "failed to get host ip addresses" (ext (ext_AddrListV4 hface));
  match hostAddrs with
  | [] => throw (Errorf "host ip addresses empty")
  | a :: _ => mret a
  end.

Definition GetNodeMacAddress (dev : string) : P string :=
  dev ← default_dev dev;
  iface ← ext (ext_InterfaceByName dev);
  mret (ToUpper (HardwareAddr_String (if_HardwareAddr iface))).

Definition GetNodeAddress (dev : string) : P (string * string) :=
  dev ← default_dev dev;
  iface ← ext (ext_InterfaceByName dev);
  let mac := ToUpper (HardwareAddr_String (if_HardwareAddr iface)) in
  ipaddr ← GetNodeIPAddress dev;
  mret (quad_string (default ipaddr (To4 ipaddr)), mac).

(** *** uapi/meta.go *)

(** The interfaces of the metadata by their MAC in upper case; a later one replaces an
    earlier one. *)
Definition iface_map (infos : list MDNetworkInterface) : gmap string MDNetworkInterface :=
  foldl (λ acc info, <[ToUpper (md_Mac info) := info]> acc) ∅ infos.
Definition iface_info (infos : gmap string MDNetworkInterface) (iface : NetIface)
    : option (MDNetworkInterface * string) :=
  info ← infos !! ToUpper (HardwareAddr_String (if_HardwareAddr iface)); Some (info, if_Name iface).

(** [NetworkInterface]: the entry of the metadata with the name of the device. *)
Definition GetNetworkInterfaces : P (list (MDNetworkInterface * string)) :=
  ifaces ← ext ext_Interfaces;
  mp ← GetMeta;
  meta ← deref mp;
  match md_UHost_NetworkInterfaces meta, md_UPHost_NetworkInterfaces meta with
  | [], [] => throw (Errorf "unsupported instance type")
  | [], infos => mret (omap (iface_info (iface_map infos)) ifaces)
  | infos, _ => mret (omap (iface_info (iface_map infos)) ifaces)
  end.

End iputils.

(** ** Lemmas *)

Lemma iface_map_sound infos k i : iface_map infos !! k = Some i → i ∈ infos ∧ ToUpper (md_Mac i) = k.
Proof.
  unfold iface_map. assert (∀ acc : gmap string MDNetworkInterface, (∀ k i, acc !! k = Some i → i ∈ infos ∧ ToUpper (md_Mac i) = k) →
    ∀ l, (∀ x, x ∈ l → x ∈ infos) → foldl (λ acc info, <[ToUpper (md_Mac info) := info]> acc) acc l !! k = Some i →
    i ∈ infos ∧ ToUpper (md_Mac i) = k) as H.
  { intros acc Hacc l. revert acc Hacc. induction l as [|x l IH]; intros acc Hacc Hl; simpl; [by apply Hacc|].
    apply IH; [|set_solver]. intros k' i' [[<- <-]|[_ ?]]%lookup_insert_Some; [|by apply Hacc]. split; [set_solver|done]. }
  apply H; [intros ? ? H0; by rewrite lookup_empty in H0|done].
Qed.

(** Every interface that is returned is a device of the host whose MAC the metadata
    have, in either case of its letters. *)
Lemma GetNetworkInterfaces_sound {E} `{!CloudApi E} (p : Proc E) :
  wp GetNetworkInterfaces (λ o p', ∀ l info dev, o = Ok l → (info, dev) ∈ l →
    ∃ meta iface, proc_meta p' = Some meta ∧
      info ∈ md_UHost_NetworkInterfaces meta ++ md_UPHost_NetworkInterfaces meta ∧
      if_Name iface = dev ∧ ToUpper (HardwareAddr_String (if_HardwareAddr iface)) = ToUpper (md_Mac info)) p.
Proof.
  unfold GetNetworkInterfaces. wp_step. apply run_wp. intros o p1 _. destruct o as [ifaces|e|w|]; cbn [kont]; [|done..].
  wp_step. apply (wp_mono _ (λ o p', ∀ mp, o = Ok mp → proc_meta p' = mp)).
  { unfold GetMeta. wp_step. apply wp_gets. cbn [kont]. destruct (proc_metaOnce p1); [apply wp_gets; by intros mp [= <-]|].
    do 2 wp_step. cbn [kont]. wp_step. apply run_wp. intros o p2 _. destruct o as [md|e|w|]; cbn [kont]; [|done..].
    do 2 wp_step. cbn [kont]. apply wp_gets. by intros mp [= <-]. }
  intros o p2 Hmp. destruct o as [mp|e|w|]; cbn [kont]; [|done..]. specialize (Hmp mp eq_refl).
  wp_step. destruct mp as [meta|]; [|done]. cbn [deref]. wp_step. cbn [kont].
  assert (∀ infos, (∀ i, i ∈ infos → i ∈ md_UHost_NetworkInterfaces meta ++ md_UPHost_NetworkInterfaces meta) →
    ∀ l info dev, Ok (omap (iface_info (iface_map infos)) ifaces) = Ok l → (info, dev) ∈ l →
    ∃ meta iface, proc_meta p2 = Some meta ∧
      info ∈ md_UHost_NetworkInterfaces meta ++ md_UPHost_NetworkInterfaces meta ∧
      if_Name iface = dev ∧ ToUpper (HardwareAddr_String (if_HardwareAddr iface)) = ToUpper (md_Mac info)) as Hin.
  { intros infos Hsub l info dev [= <-] (iface & Hi & Hsome)%list_elem_of_omap. unfold iface_info in Hsome.
    apply bind_Some in Hsome as (i & Hl & [= -> <-]). apply iface_map_sound in Hl as [Hl Hk].
    exists meta, iface. split_and!; auto. }
  destruct (md_UHost_NetworkInterfaces meta) as [|x xs], (md_UPHost_NetworkInterfaces meta) as [|y ys];
    wp_step; [done|apply (Hin (y :: ys))|apply (Hin (x :: xs))|apply (Hin (x :: xs))]; set_solver.
Qed.
