(* ===== verification/IpamdBase.v ===== *)
(** The state of the node daemon ([pkg/ipamd/svc.go], type [ipamServer]) and its
    calls of the VPC API ([pkg/ipamd/uapi.go]).

    A handler is a computation on [St]: the server's fields, the bolt file [D],
    the Kubernetes API [K] and the process [Proc E].  The mutexes serialise the
    calls that this sequential state passing already takes one after another. *)
From S2P Require Export Database Kube Cloud Arping Iputils GoTime.

(** ** Definitions *)

Record CooldownItem : Type := mkCooldown { cd_Network : PodNetwork; cd_CooldownOver : Z }.
#[global] Instance CooldownItem_eq_dec : EqDecision CooldownItem.
Proof. solve_decision. Defined.
#[global] Instance CooldownItem_countable : Countable CooldownItem.
Proof.
  refine (inj_countable' (λ c, (cd_Network c, cd_CooldownOver c)) (λ '(n, o), mkCooldown n o) _).
  by intros [].
Defined.

Definition NetworkDBName : string := "cni-vpc-network".
Definition PoolDBName : string := "cni-vpc-ip-pool".
Definition CooldownDBName : string := "cni-vpc-ip-cooldown".

(** The fields that the handlers read, with the command-line flags. *)
Record ipamServer (H : Type) : Type := mkServer {
  networkDB : H;
  poolDB : gmap string H;
  cooldownDB : H;
  nodeName : string;
  hostId : string;
  zoneId : string;
  masterMacAddress : string;
  tcpAddr : string;
  srv_uapi : ApiClient;
  AvailablePodIPLowWatermark : Z;
  AvailablePodIPHighWatermark : Z;
  CalicoPolicyFlag : bool;
  CooldownPeriodSeconds : Z
}.
Arguments mkServer {H} _ _ _ _ _ _ _ _ _ _ _ _ _.
Arguments networkDB {H} _.
Arguments poolDB {H} _.
Arguments cooldownDB {H} _.
Arguments nodeName {H} _.
Arguments hostId {H} _.
Arguments zoneId {H} _.
Arguments masterMacAddress {H} _.
Arguments tcpAddr {H} _.
Arguments srv_uapi {H} _.
Arguments AvailablePodIPLowWatermark {H} _.
Arguments AvailablePodIPHighWatermark {H} _.
Arguments CalicoPolicyFlag {H} _.
Arguments CooldownPeriodSeconds {H} _.

Definition set_poolDB {H} (p : gmap string H) (s : ipamServer H) : ipamServer H :=
  mkServer (networkDB s) p (cooldownDB s) (nodeName s) (hostId s) (zoneId s)
    (masterMacAddress s) (tcpAddr s) (srv_uapi s) (AvailablePodIPLowWatermark s)
    (AvailablePodIPHighWatermark s) (CalicoPolicyFlag s) (CooldownPeriodSeconds s).

Record St (H D K E : Type) : Type := mkSt {
  st_srv : ipamServer H; st_db : D; st_k8s : K; st_proc : Proc E
}.
Arguments mkSt {H D K E} _ _ _ _.
Arguments st_srv {H D K E} _.
Arguments st_db {H D K E} _.
Arguments st_k8s {H D K E} _.
Arguments st_proc {H D K E} _.

(** The key of the record of a pod's network. *)
Definition record_key (pn : PodNetwork) : string :=
  PodKey (pn_PodName pn) (pn_PodNS pn) (pn_SandboxID pn).

(** [resource.go]: how many interfaces the host can have. *)
Definition GetNodeUNILimits {E} `{!CloudApi E} : M (Proc E) Z :=
  cpu ← attempt (ext (ext_GetMetadata "/uhost/cpu"));
  match cpu with
  | inl _ => mret 1
  | inr cpu =>
      n ← gets (λ p, default (ext_NumCPU (proc_ext p)) (Atoi cpu));
      mret (if n >? 64 then 15 else if n >? 32 then 12 else if n >? 8 then 8
            else if n >? 4 then 4 else if n >? 2 then 3 else 2)
  end.

Definition UAPIErrorIPNotExst : Z := 58221.
Definition UAPIErrorSubnetNotEnough : Z := 57000.

Section state.
Context {H D K E : Type}.
#[local] Abbreviation state := (St H D K E).

Definition set_srv (v : ipamServer H) (s : state) : state :=
  mkSt v (st_db s) (st_k8s s) (st_proc s).
Definition set_db (v : D) (s : state) : state := mkSt (st_srv s) v (st_k8s s) (st_proc s).
Definition set_k8s (v : K) (s : state) : state := mkSt (st_srv s) (st_db s) v (st_proc s).
Definition set_proc (v : Proc E) (s : state) : state := mkSt (st_srv s) (st_db s) (st_k8s s) v.

Definition in_db {A} (m : M D A) : M state A := zoom st_db set_db m.
Definition in_k8s {A} (c : Call K A) : M state A := zoom st_k8s set_k8s (call c).
Definition in_proc {A} (m : M (Proc E) A) : M state A := zoom st_proc set_proc m.

(** A field of the server. *)
Definition srv {A} (f : ipamServer H → A) : M state A := gets (λ s, f (st_srv s)).
End state.

(** *** uapi.go *)

Section uapi_go.
Context {H D K E : Type} `{!CloudApi E}.
#[local] Abbreviation m := (M (St H D K E)).

Definition server_VPCClient : m unit :=
  c ← srv srv_uapi; in_proc (VPCClient c).

Definition uapiCheckSubnetRemainsIP (subnetId : string) : m unit :=
  server_VPCClient;;
  c ← srv srv_uapi;
  resp ← in_proc (ext (ext_DescribeSubnet (mkSubnetReq subnetId (ac_vpcId c))));
  match resp with
  | [] => throw (Errorf "subnet not found")
  | available :: _ => if available <=? 0 then throw ErrOutOfIP else mret tt
  end.

(** The object of a request: the given interface, the instance's own one, or the
    host id when that cannot be found. *)
Definition request_objectID (interfaceID : string) : m string :=
  if negb (String.eqb interfaceID "") then mret interfaceID else
  r ← attempt (in_proc GetObjectIDForSecondaryIP);
  match r with
  | inl _ => srv hostId
  | inr id => mret id
  end.

Definition uapiAllocateSecondaryIP (pnReq : AddPodNetworkRequest) : m IpInfo :=
  server_VPCClient;;
  uapiCheckSubnetRemainsIP (ar_SubnetID pnReq);;
  objectID ← request_objectID (ar_InterfaceID pnReq);
  zone ← srv zoneId;
  c ← srv srv_uapi;
  let req := mkSecReq (Some zone) (Some (ar_MacAddress pnReq)) None (Some objectID)
               (Some (ac_vpcId c)) (Some (ar_SubnetID pnReq)) in
  '(ipInfo, retCode, err) ← in_proc (ext_total (ext_AllocateSecondaryIp req));
  match err with
  | Some e => if retCode =? UAPIErrorSubnetNotEnough then throw ErrOutOfIP else throw e
  | None => mret ipInfo
  end.

Definition checkIPConflict (ip : string) : m unit :=
  dev ← in_proc GetMasterInterface;
  conflict ← with_msg ("failed to detect conflict for ip " +:+ ip)
    (in_proc (DetectIpConflictWithGratuitousArp (default [] (ParseIP ip)) dev));
  if conflict : bool
  then throw (Errorf ("ip " +:+ ip +:+ " is still in conflict after retrying"))
  else mret tt.

(** The error of the API is logged and the response's address returned. *)
Definition uapiAllocateSpecifiedSecondaryIp (ip : string) (pnReq : AddPodNetworkRequest)
    : m IpInfo :=
  server_VPCClient;;
  objectID ← request_objectID (ar_InterfaceID pnReq);
  zone ← srv zoneId;
  c ← srv srv_uapi;
  let req := mkSecReq (Some zone) (Some (ar_MacAddress pnReq)) (Some ip) (Some objectID)
               (Some (ac_vpcId c)) (Some (ar_SubnetID pnReq)) in
  '(ipInfo, retCode, err) ← in_proc (ext_total (ext_AllocateSecondaryIp req));
  mret ipInfo.

Definition uapiDescribeSecondaryIp (ip subnetId : string) : m (option IpInfo) :=
  server_VPCClient;;
  c ← srv srv_uapi;
  resp ← in_proc (ext (ext_DescribeSecondaryIp
           (mkSecReq None None (Some ip) None (Some (ac_vpcId c)) (Some subnetId))));
  mret (head resp).

Definition uapiMoveSecondaryIPMac (pn : PodNetwork) (targetMacAddress : string) : m unit :=
  server_VPCClient;;
  in_proc (ext (ext_MoveSecondaryIPMac
    (mkMoveReq (pn_VPCIP pn) targetMacAddress (pn_MacAddress pn) (pn_SubnetID pn)))).

(** The query with which the VPC is asked about the address of [pn]. *)
Definition exist_query (c : ApiClient) (pn : PodNetwork) : SecondaryIpRequest :=
  mkSecReq (Some (ac_zoneId c)) (Some (pn_MacAddress pn)) (Some (pn_VPCIP pn)) None
    (Some (ac_vpcId c)) (Some (pn_SubnetID pn)).

Definition checkSecondaryIpExist (pn : PodNetwork) : m bool :=
  server_VPCClient;;
  c ← srv srv_uapi;
  resp ← in_proc (ext (ext_DescribeSecondaryIp (exist_query c pn)));
  mret (existsb (λ data, String.eqb (ii_Ip data) (pn_VPCIP pn)) resp).

Definition uapiDeleteSecondaryIp (pn : PodNetwork) : m unit :=
  exist ← with_msg ("cannot find secondary ip " +:+ pn_VPCIP pn) (checkSecondaryIpExist pn);
  if negb exist then mret tt else
  server_VPCClient;;
  host ← srv hostId;
  zone ← srv zoneId;
  c ← srv srv_uapi;
  let objectID := if String.eqb (pn_InterfaceID pn) "" then host else pn_InterfaceID pn in
  let req := mkSecReq (Some zone) (Some (pn_MacAddress pn)) (Some (pn_VPCIP pn)) (Some objectID)
               (Some (ac_vpcId c)) (Some (pn_SubnetID pn)) in
  '(retCode, err) ← in_proc (ext_total (ext_DeleteSecondaryIp req));
  if retCode =? UAPIErrorIPNotExst then mret tt else
  match err with
  | Some e => throw e
  | None => mret tt
  end.

End uapi_go.

(** ** What a computation leaves alone *)

(** [only_proc m]: [m] changes nothing but the process. *)
Section frames.
Context {H D K E : Type}.
Implicit Types s : St H D K E.

Definition same_but_proc (s s' : St H D K E) : Prop :=
  st_srv s' = st_srv s ∧ st_db s' = st_db s ∧ st_k8s s' = st_k8s s.
Definition same_but_k8s (s s' : St H D K E) : Prop :=
  st_srv s' = st_srv s ∧ st_db s' = st_db s.

#[global] Instance same_but_proc_preorder : PreOrder same_but_proc.
Proof. split; [done|]. intros s1 s2 s3 (?&?&?) (?&?&?). unfold same_but_proc. split_and!; congruence. Qed.
#[global] Instance same_but_k8s_preorder : PreOrder same_but_k8s.
Proof. split; [done|]. intros s1 s2 s3 (?&?) (?&?). unfold same_but_k8s. split_and!; congruence. Qed.

Lemma same_proc_k8s s s' : same_but_proc s s' → same_but_k8s s s'.
Proof. intros (?&?&?). done. Qed.

(** A relation between the states before and after, whatever the outcome. *)
Definition leaves {A} (R : St H D K E → St H D K E → Prop) (m : M (St H D K E) A) : Prop :=
  ∀ s, R s (m s).2.

Section rules.
Context (R : St H D K E → St H D K E → Prop) `{!PreOrder R}.

Lemma leaves_ret {A} (a : A) : leaves R (mret a).
Proof. intros s. simpl. reflexivity. Qed.
Lemma leaves_throw {A} e : leaves R (throw e : M _ A).
Proof. intros s. simpl. reflexivity. Qed.
Lemma leaves_panic {A} e : leaves R (panic e : M _ A).
Proof. intros s. simpl. reflexivity. Qed.
Lemma leaves_gets {A} (f : _ → A) : leaves R (gets f).
Proof. intros s. simpl. reflexivity. Qed.
Lemma leaves_srv {A} (f : _ → A) : leaves R (srv f).
Proof. intros s. simpl. reflexivity. Qed.
Lemma leaves_bind {A B} (m : M _ A) (k : A → M _ B) :
  leaves R m → (∀ a, leaves R (k a)) → leaves R (x ← m; k x).
Proof.
  intros Hm Hk s. cbv [mbind M_bind]. specialize (Hm s).
  destruct (m s) as [[] s']; simpl in *; try done. etrans; [done|apply Hk].
Qed.
Lemma leaves_attempt {A} (m : M _ A) : leaves R m → leaves R (attempt m).
Proof. intros Hm s. specialize (Hm s). unfold attempt. by destruct (m s) as [[] s']. Qed.
Lemma leaves_with_msg {A} msg (m : M _ A) : leaves R m → leaves R (with_msg msg m).
Proof. intros Hm s. specialize (Hm s). unfold with_msg. by destruct (m s) as [[] s']. Qed.
Lemma leaves_with_wrap {A} msg (m : M _ A) : leaves R m → leaves R (with_wrap msg m).
Proof. intros Hm s. specialize (Hm s). unfold with_wrap. by destruct (m s) as [[] s']. Qed.
Lemma leaves_for_range {A} (l : list A) (f : A → M _ unit) :
  (∀ x, leaves R (f x)) → leaves R (for_range l f).
Proof. intros Hf. induction l; simpl; [apply leaves_ret|]. by apply leaves_bind. Qed.
End rules.

Lemma leaves_in_proc {A} (m : M (Proc E) A) : leaves same_but_proc (in_proc m).
Proof. intros s. unfold in_proc, zoom. by destruct (m (st_proc s)). Qed.
Lemma leaves_in_k8s {A} (c : Call K A) : leaves same_but_k8s (in_k8s c).
Proof. intros s. unfold in_k8s, zoom. by destruct (call c (st_k8s s)). Qed.
Lemma leaves_weaken {A} (m : M _ A) : leaves same_but_proc m → leaves same_but_k8s m.
Proof. intros Hm s. apply same_proc_k8s, Hm. Qed.

(** Use of a frame property in a wp proof: the result is arbitrary. *)
Lemma wp_leaves {A} R (m : M _ A) (Q : outcome A → St H D K E → Prop) s :
  leaves R m → (∀ o s', m s = (o, s') → R s s' → Q o s') → wp m Q s.
Proof. intros Hm HQ. apply HQ; [by destruct (m s)|apply Hm]. Qed.

Lemma wp_bind_leaves R {A B} (m : M _ A) (k : A → M _ B) (Q : outcome B → St H D K E → Prop) s :
  leaves R m →
  (∀ o s', R s s' → (∀ c, o ≠ Ok c) → Q o s') →
  (∀ x s', R s s' → wp (k x) Q s') →
  wp (x ← m; k x) Q s.
Proof.
  intros Hm Hfail Hk. apply wp_bind. apply (wp_leaves _ _ _ _ Hm). intros [] s' _ HR; simpl; auto;
    by apply Hfail.
Qed.

End frames.

Create HintDb leaves.
#[export] Hint Resolve leaves_ret leaves_throw leaves_panic leaves_gets leaves_srv leaves_bind
  leaves_attempt leaves_with_msg leaves_with_wrap leaves_for_range leaves_in_proc leaves_in_k8s
  : leaves.
#[export] Hint Extern 1 (PreOrder _) => typeclasses eauto : leaves.

(** Prove that a computation leaves something alone by walking through it. *)
Ltac solve_leaves :=
  intros; repeat first
  [ progress intros
  | apply leaves_ret; typeclasses eauto | apply leaves_throw; typeclasses eauto
  | apply leaves_panic; typeclasses eauto
  | apply leaves_gets; typeclasses eauto | apply leaves_srv; typeclasses eauto
  | apply leaves_in_proc | apply leaves_in_k8s
  | apply leaves_bind; [typeclasses eauto| |]
  | apply leaves_attempt | apply leaves_with_msg | apply leaves_with_wrap
  | apply leaves_for_range; [typeclasses eauto|]
  | solve [eauto with leaves nocore]
  | solve [apply leaves_weaken; eauto with leaves nocore]
  | apply leaves_weaken; apply leaves_in_proc
  | match goal with |- leaves _ (match ?x with _ => _ end) => destruct x end
  | match goal with |- leaves _ (if ?x then _ else _) => destruct x end
  | progress unfold ignore ].

Section uapi_frames.
Context {H D K E : Type} `{!CloudApi E}.
#[local] Abbreviation R := (@same_but_proc H D K E).

Lemma leaves_VPCClient : leaves R server_VPCClient.
Proof. unfold server_VPCClient. solve_leaves. Qed.
#[local] Hint Resolve leaves_VPCClient : leaves.
Lemma leaves_CheckSubnet n : leaves R (uapiCheckSubnetRemainsIP n).
Proof. unfold uapiCheckSubnetRemainsIP. solve_leaves. Qed.
Lemma leaves_objectID n : leaves R (request_objectID n).
Proof. unfold request_objectID. solve_leaves. Qed.
#[local] Hint Resolve leaves_CheckSubnet leaves_objectID : leaves.
Lemma leaves_Allocate r : leaves R (uapiAllocateSecondaryIP r).
Proof. unfold uapiAllocateSecondaryIP. solve_leaves. Qed.
Lemma leaves_checkIPConflict ip : leaves R (checkIPConflict ip).
Proof. unfold checkIPConflict. solve_leaves. Qed.
Lemma leaves_AllocateSpecified ip r : leaves R (uapiAllocateSpecifiedSecondaryIp ip r).
Proof. unfold uapiAllocateSpecifiedSecondaryIp. solve_leaves. Qed.
Lemma leaves_Describe ip n : leaves R (uapiDescribeSecondaryIp ip n).
Proof. unfold uapiDescribeSecondaryIp. solve_leaves. Qed.
Lemma leaves_Move pn mac : leaves R (uapiMoveSecondaryIPMac pn mac).
Proof. unfold uapiMoveSecondaryIPMac. solve_leaves. Qed.
Lemma leaves_checkExist pn : leaves R (checkSecondaryIpExist pn).
Proof. unfold checkSecondaryIpExist. solve_leaves. Qed.
#[local] Hint Resolve leaves_checkExist : leaves.
Lemma leaves_Delete pn : leaves R (uapiDeleteSecondaryIp pn).
Proof. unfold uapiDeleteSecondaryIp. solve_leaves. Qed.
End uapi_frames.

#[export] Hint Resolve leaves_VPCClient leaves_CheckSubnet leaves_objectID leaves_Allocate
  leaves_checkIPConflict leaves_AllocateSpecified leaves_Describe leaves_Move leaves_checkExist
  leaves_Delete : leaves.

(** Which of them always return. *)
Section uapi_safe.
Context {H D K E : Type} `{!CloudApi E}.
#[local] Abbreviation m := (M (St H D K E)).

Lemma safe_VPCClient' : safe (server_VPCClient : m unit).
Proof. unfold server_VPCClient, srv, in_proc. solve_safe. Qed.
#[local] Hint Resolve safe_VPCClient' : safe.
Lemma safe_Move pn mac : safe (uapiMoveSecondaryIPMac pn mac : m unit).
Proof. unfold uapiMoveSecondaryIPMac, srv, in_proc. solve_safe. Qed.
Lemma safe_Describe ip n : safe (uapiDescribeSecondaryIp ip n : m _).
Proof. unfold uapiDescribeSecondaryIp, srv, in_proc. solve_safe. Qed.
Lemma safe_checkExist pn : safe (checkSecondaryIpExist pn : m bool).
Proof. unfold checkSecondaryIpExist, srv, in_proc. solve_safe. Qed.
#[local] Hint Resolve safe_checkExist : safe.
Lemma safe_Delete pn : safe (uapiDeleteSecondaryIp pn : m unit).
Proof. unfold uapiDeleteSecondaryIp, srv, in_proc. solve_safe. Qed.
End uapi_safe.
#[export] Hint Resolve safe_VPCClient' safe_Move safe_Describe safe_checkExist safe_Delete : safe.

(** ** The addresses of the VPC *)

(** A secondary address as the VPC knows it: VPC, subnet, address, MAC. *)
Definition vpc_addr : Type := string * string * string * string.
Definition addr_of (c : ApiClient) (pn : PodNetwork) : vpc_addr :=
  (ac_vpcId c, pn_SubnetID pn, pn_VPCIP pn, pn_MacAddress pn).

(** The documented behaviour of the VPC service on a ghost view, the set of the
    secondary addresses: a query finds the address it names exactly if it exists;
    a deletion that succeeds, or that reports the address as non-existent, leaves
    it deleted; one that fails may or may not have been done; the other calls
    used between them change no address. *)
Class VpcLaws (E : Type) `{!CloudApi E} : Type := {
  vpc_addrs : E → gset vpc_addr;
  vpc_STS_keeps : keeps vpc_addrs ext_LoadSTSConfigV2;
  vpc_Describe_keeps r : keeps vpc_addrs (ext_DescribeSecondaryIp r);
  vpc_Describe_law z mac ip v sub e l e' :
    ext_DescribeSecondaryIp (mkSecReq z (Some mac) (Some ip) None (Some v) (Some sub)) e
      = (inr l, e') →
    (∃ i, i ∈ l ∧ ii_Ip i = ip) ↔ (v, sub, ip, mac) ∈ vpc_addrs e;
  vpc_Delete_law z mac ip oid v sub e code err e' :
    ext_DeleteSecondaryIp
      (mkSecReq z (Some mac) (Some ip) oid (Some v) (Some sub)) e = ((code, err), e') →
    vpc_addrs e' = vpc_addrs e ∖ {[(v, sub, ip, mac)]} ∨
    (vpc_addrs e' = vpc_addrs e ∧ err ≠ None ∧ code ≠ UAPIErrorIPNotExst);
  vpc_Meta_keeps : keeps vpc_addrs ext_GetInstanceIdentityDocument;
  vpc_Now_keeps e : vpc_addrs (ext_Now e).2 = vpc_addrs e;
  vpc_Interfaces_keeps : keeps vpc_addrs ext_Interfaces;
  vpc_InterfaceByName_keeps n : keeps vpc_addrs (ext_InterfaceByName n);
  vpc_ArpSocket_keeps i : keeps vpc_addrs (ext_ArpSocket i);
  vpc_ArpExchange_keeps b i e : vpc_addrs (ext_ArpExchange b i e).2 = vpc_addrs e;
  vpc_UHost_keeps id : keeps vpc_addrs (ext_DescribeUHostInstance id)
}.

Section vpc.
Context {H D K E : Type} `{!CloudApi E} `{!VpcLaws E}.
Implicit Types s : St H D K E.

Definition vpc_of s : gset vpc_addr := vpc_addrs (proc_ext (st_proc s)).
Definition vpc_same s s' : Prop := same_but_proc s s' ∧ vpc_of s' = vpc_of s.
#[global] Instance vpc_same_preorder : PreOrder vpc_same.
Proof.
  split; [done|]. intros s1 s2 s3 [? E1] [? E2]. split; [by etrans|]. by rewrite E2, E1.
Qed.

(** The same on the process alone. *)
Definition pkeeps {A} (m : M (Proc E) A) : Prop :=
  ∀ p, vpc_addrs (proc_ext (m p).2) = vpc_addrs (proc_ext p).

Lemma leaves_vpc_proc {A} (m : M (Proc E) A) :
  pkeeps m → leaves vpc_same (in_proc m : M (St H D K E) A).
Proof.
  intros Hm s. unfold in_proc, zoom. specialize (Hm (st_proc s)).
  by destruct (m (st_proc s)).
Qed.

Lemma pkeeps_ext {A} (c : Call E A) : keeps vpc_addrs c → pkeeps (ext c).
Proof.
  intros Hc p. unfold ext, zoom, call. specialize (Hc (proc_ext p)).
  by destruct (c (proc_ext p)) as [[] ?].
Qed.
Lemma pkeeps_ext_total {A} (f : E → A * E) :
  (∀ e, vpc_addrs (f e).2 = vpc_addrs e) → pkeeps (ext_total f).
Proof.
  intros Hf p. unfold ext_total, zoom. specialize (Hf (proc_ext p)). by destruct (f (proc_ext p)).
Qed.
Lemma pkeeps_ret {A} (a : A) : pkeeps (mret a).
Proof. done. Qed.
Lemma pkeeps_throw {A} e : pkeeps (throw e : M _ A).
Proof. done. Qed.
Lemma pkeeps_panic {A} e : pkeeps (panic e : M _ A).
Proof. done. Qed.
Lemma pkeeps_const {A} (o : outcome A) : pkeeps (λ p, (o, p)).
Proof. done. Qed.
Lemma pkeeps_gets {A} (f : _ → A) : pkeeps (gets f).
Proof. done. Qed.
Lemma pkeeps_bind {A B} (m : M _ A) (k : A → M _ B) :
  pkeeps m → (∀ a, pkeeps (k a)) → pkeeps (x ← m; k x).
Proof.
  intros Hm Hk p. cbv [mbind M_bind]. specialize (Hm p). destruct (m p) as [[] p']; try done.
  by rewrite Hk.
Qed.
Lemma pkeeps_attempt {A} (m : M _ A) : pkeeps m → pkeeps (attempt m).
Proof. intros Hm p. specialize (Hm p). unfold attempt. by destruct (m p) as [[] ?]. Qed.
Lemma pkeeps_with_msg {A} msg (m : M _ A) : pkeeps m → pkeeps (with_msg msg m).
Proof. intros Hm p. specialize (Hm p). unfold with_msg. destruct (m p) as [[] ?]; exact Hm. Qed.
Lemma pkeeps_with_wrap {A} msg (m : M _ A) : pkeeps m → pkeeps (with_wrap msg m).
Proof. intros Hm p. specialize (Hm p). unfold with_wrap. by destruct (m p) as [[] ?]. Qed.
End vpc.

Ltac solve_pkeeps :=
  intros; repeat first
  [ progress intros
  | solve [eauto with pkeeps nocore]
  | apply pkeeps_ret | apply pkeeps_throw | apply pkeeps_panic | apply pkeeps_const
  | apply pkeeps_gets | apply pkeeps_bind | apply pkeeps_attempt
  | apply pkeeps_with_wrap | apply pkeeps_with_msg
  | apply pkeeps_ext_total; intros; apply vpc_ArpExchange_keeps
  | apply pkeeps_ext; first [ apply vpc_STS_keeps | apply vpc_Describe_keeps | apply vpc_Meta_keeps
      | apply vpc_Interfaces_keeps | apply vpc_InterfaceByName_keeps | apply vpc_ArpSocket_keeps
      | apply vpc_UHost_keeps ]
  | match goal with |- pkeeps (match ?x with _ => _ end) => destruct x end
  | match goal with |- pkeeps (if ?x then _ else _) => destruct x end ].
Create HintDb pkeeps.

Section vpc_frames.
Context {H D K E : Type} `{!CloudApi E} `{!VpcLaws E}.
Implicit Types s : St H D K E.

Lemma pkeeps_VPCClient c : pkeeps (VPCClient c).
Proof. unfold VPCClient, CreateCredential, Getenv. solve_pkeeps. Qed.
Lemma pkeeps_GetMeta : pkeeps GetMeta.
Proof. unfold GetMeta. solve_pkeeps; intros p; done. Qed.
#[local] Hint Resolve pkeeps_GetMeta : pkeeps.
Lemma pkeeps_NewClient : pkeeps NewClient.
Proof. unfold NewClient, deref, Getenv. solve_pkeeps. Qed.
Lemma pkeeps_GetMasterInterface : pkeeps GetMasterInterface.
Proof. unfold GetMasterInterface, deref. solve_pkeeps. Qed.
Lemma pkeeps_receive srcIP hw evs : pkeeps (receive_loop srcIP hw evs).
Proof. induction evs as [|[]]; simpl; solve_pkeeps; done. Qed.
#[local] Hint Resolve pkeeps_receive : pkeeps.
Lemma pkeeps_detect_once ip n : pkeeps (detectIpConflictWithGratuitousArp ip n).
Proof. unfold detectIpConflictWithGratuitousArp, validateIP. solve_pkeeps. Qed.
#[local] Hint Resolve pkeeps_detect_once : pkeeps.
Lemma pkeeps_detect k ip n last : pkeeps (detect_attempts k ip n last).
Proof. revert last. induction k; simpl; solve_pkeeps; done. Qed.

Lemma vpc_VPCClient : leaves vpc_same (server_VPCClient : M (St H D K E) unit).
Proof.
  apply leaves_bind; [apply _|apply leaves_srv; apply _|]. intros c.
  apply leaves_vpc_proc, pkeeps_VPCClient.
Qed.
Lemma leaves_vpc_checkIPConflict ip : leaves vpc_same (checkIPConflict ip : M (St H D K E) unit).
Proof.
  unfold checkIPConflict. apply leaves_bind; [apply _|apply leaves_vpc_proc, pkeeps_GetMasterInterface|].
  intros dev. apply leaves_bind; [apply _|apply leaves_with_msg, leaves_vpc_proc, pkeeps_detect|].
  intros []; [apply leaves_throw; apply _|apply leaves_ret; apply _].
Qed.

(** The existence check answers for the state in which it is made. *)
Lemma checkSecondaryIpExist_spec pn s :
  wp (checkSecondaryIpExist pn) (λ o s', vpc_same s s' ∧
    match o with
    | Ok b => b = true ↔ addr_of (srv_uapi (st_srv s)) pn ∈ vpc_of s
    | Err _ => True
    | _ => False
    end) s.
Proof.
  unfold checkSecondaryIpExist. wp_step.
  apply (wp_leaves _ _ _ _ vpc_VPCClient). intros o s1 Em Hs1.
  destruct (safe_cases _ _ _ _ safe_VPCClient' Em) as [[[] ->]|[e ->]]; cbn [kont]; [|done].
  wp_step. unfold srv. wp_step. cbn [kont]. wp_step. unfold in_proc. wp_step. unfold ext. wp_step.
  destruct Hs1 as [(E1 & E2 & E3) Ev]. unfold vpc_of in *.
  apply wp_call; intros l e' Hc; cbn [kont];
    pose proof (vpc_Describe_keeps (exist_query (srv_uapi (st_srv s1)) pn) (proc_ext (st_proc s1))) as Hk;
    rewrite Hc in Hk; simpl in Hk; wp_steps; (split; [split; [done|]; unfold vpc_of; simpl; congruence|]); [|done].
  unfold exist_query in Hc. apply vpc_Describe_law in Hc. unfold addr_of. rewrite <- Ev, <- E1, <- Hc.
  rewrite <- Is_true_true, existb_True, Exists_exists.
  split; intros (i & Hi & Heq); exists i; (split; [done|]).
  - by apply String.eqb_eq, Is_true_true.
  - by apply Is_true_true, String.eqb_eq.
Qed.

(** Deleting: on success the address is gone, and no other address ever is. *)
Lemma uapiDeleteSecondaryIp_spec pn s :
  wp (uapiDeleteSecondaryIp pn) (λ o s', same_but_proc s s' ∧
    vpc_of s ∖ {[addr_of (srv_uapi (st_srv s)) pn]} ⊆ vpc_of s' ∧ vpc_of s' ⊆ vpc_of s ∧
    match o with
    | Ok _ => addr_of (srv_uapi (st_srv s)) pn ∉ vpc_of s'
    | Err _ => True
    | _ => False
    end) s.
Proof.
  unfold uapiDeleteSecondaryIp. do 2 wp_step.
  wp_use checkSecondaryIpExist_spec as ([Hp Hv] & Ho).
  destruct o as [b|e| |]; try done; cbn [kont].
  2:{ split; [done|]. rewrite Hv. set_solver. }
  destruct b; simpl; wp_steps.
  2:{ split; [done|]. rewrite Hv. naive_solver set_solver. }
  apply (wp_leaves _ _ _ _ vpc_VPCClient). intros o s2 Em [Hp2 Hv2].
  destruct (safe_cases _ _ _ _ safe_VPCClient' Em) as [[[] ->]|[e ->]]; cbn [kont].
  2:{ split; [by etrans|]. rewrite Hv2, Hv. set_solver. }
  assert (st_srv s2 = st_srv s) as Es2 by (destruct Hp2 as [-> _]; by destruct Hp as [-> _]).
  do 3 (wp_step; unfold srv at 1; wp_step; cbn [kont]). wp_step.
  unfold in_proc, ext_total. do 2 wp_step. unfold wp at 1.
  match goal with |- context [ext_DeleteSecondaryIp ?r ?e] =>
    destruct (ext_DeleteSecondaryIp r e) as [[code err] e'] eqn:Hd end.
  apply vpc_Delete_law in Hd. simpl. rewrite Es2 in Hd.
  change (vpc_addrs e' = vpc_of s2 ∖ {[addr_of (srv_uapi (st_srv s)) pn]} ∨
    (vpc_addrs e' = vpc_of s2 ∧ err ≠ None ∧ code ≠ UAPIErrorIPNotExst)) in Hd.
  rewrite Hv2, Hv in Hd.
  assert (same_but_proc s (set_proc (set_ext e' (st_proc s2)) s2)) as Hp3 by (by etrans; [|etrans]).
  pose proof (eq_refl : vpc_of (set_proc (set_ext e' (st_proc s2)) s2) = vpc_addrs e') as Ev.
  revert Hd. rewrite <- Ev. clear Ev. generalize dependent (set_proc (set_ext e' (st_proc s2)) s2).
  intros s3 Hp3 Hd. set (ad := addr_of _ pn) in *.
  destruct (Z.eqb_spec code UAPIErrorIPNotExst) as [|]; [|destruct err]; wp_steps;
    (split; [done|]); destruct Hd as [-> |(-> & ? & ?)]; try done; set_solver.
Qed.
End vpc_frames.
