(* ===== verification/World.v ===== *)
(** Concrete instances of the outside world for the witnesses: a small VPC, a
    small cluster, a runtime and a retry loop, each with a schedule of faults.
    They show that [KubeLaws], [RetryLaws] and [GoRuntimeLaws] can be satisfied. *)
From S2P Require Export Concrete Cloud Kube IpamdBase.

(** ** A VPC with one host *)

Record world : Type := mkWorld {
  w_now : Z;                      (* the clock, advanced by each reading *)
  w_env : gmap string string;
  w_meta : option Metadata;
  w_ips : list IpInfo;            (* the secondary addresses that exist *)
  w_free : list string;           (* the addresses left to allocate *)
  w_arp : list arp_event;         (* what the ARP socket receives *)
  w_peer : option PodNetwork;     (* what another node lends *)
  w_fail : list bool              (* which of the coming VPC calls fail *)
}.

Definition w_set_ips (ips : list IpInfo) (free : list string) (w : world) : world :=
  mkWorld (w_now w) (w_env w) (w_meta w) ips free (w_arp w) (w_peer w) (w_fail w).
Definition w_tick (w : world) : world :=
  mkWorld (w_now w + 1) (w_env w) (w_meta w) (w_ips w) (w_free w) (w_arp w) (w_peer w) (w_fail w).

(** Consume one entry of the fault schedule. *)
Definition w_call {A} (f : world → (error + A) * world) : Call world A := λ w,
  let w' := mkWorld (w_now w) (w_env w) (w_meta w) (w_ips w) (w_free w) (w_arp w) (w_peer w)
              (tail (w_fail w)) in
  if default false (head (w_fail w)) then (inl (ExtErr "vpc api error"), w') else f w'.

Definition w_ok {A} (a : A) (w : world) : (error + A) * world := (inr a, w).

(** A field of a request that is given must be equal. *)
Definition field_ok (f : option string) (v : string) : bool :=
  match f with Some x => String.eqb x v | None => true end.
Definition w_match (r : SecondaryIpRequest) (i : IpInfo) : bool :=
  field_ok (sr_VPCId r) (ii_VPCId i) && field_ok (sr_SubnetId r) (ii_SubnetId i) &&
  field_ok (sr_Ip r) (ii_Ip i) && field_ok (sr_Mac r) (ii_Mac i).

Definition w_describe (r : SecondaryIpRequest) : Call world (list IpInfo) :=
  w_call (λ w, (inr (filter (λ i, w_match r i = true) (w_ips w)), w)).

Definition w_allocate (r : SecondaryIpRequest) (w : world) : (IpInfo * Z * option error) * world :=
  let none := mkIpInfo "" "" "" "" "" "" in
  match w_call (λ w,
    match (match sr_Ip r with Some ip => [ip] | None => w_free w end) with
    | [] => (inl (ExtErr "subnet not enough"), w)
    | ip :: _ =>
        let i := mkIpInfo ip (default "" (sr_Mac r)) (default "" (sr_VPCId r))
                   (default "" (sr_SubnetId r)) "10.0.0.1" "255.255.255.0" in
        (inr i, w_set_ips (i :: w_ips w) (filter (λ x, x ≠ ip) (w_free w)) w)
    end) w with
  | (inr i, w') => ((i, 0, None), w')
  | (inl e, w') => ((none, if bool_decide (w_free w' = []) then 57000 else 1, Some e), w')
  end.

Definition w_delete (r : SecondaryIpRequest) (w : world) : (Z * option error) * world :=
  match w_call (λ w, (inr tt, w_set_ips (filter (λ i, w_match r i = false) (w_ips w))
                               (w_free w) w)) w with
  | (inr _, w') => ((0, None), w')
  | (inl e, w') => ((1, Some e), w')
  end.

Definition w_move (r : MoveSecondaryIPMacRequest) : Call world unit :=
  w_call (λ w, (inr tt, w_set_ips
    (map (λ i, if String.eqb (ii_Ip i) (mr_Ip r)
               then mkIpInfo (ii_Ip i) (mr_NewMac r) (ii_VPCId i) (ii_SubnetId i)
                      (ii_Gateway i) (ii_Mask i)
               else i) (w_ips w)) (w_free w) w)).

Definition w_iface : NetIface := mkIface "eth0" [82; 84; 0; 1; 2; 3] 1500.

#[global] Instance world_cloud : CloudApi world := {
  ext_Getenv k w := default "" (w_env w !! k);
  ext_Now w := (w_now w, w_tick w);
  ext_LoadSTSConfigV2 := w_ok (mkCredential "public" "private");
  ext_GetInstanceIdentityDocument w :=
    match w_meta w with Some md => (inr md, w) | None => (inl (ExtErr "no metadata"), w) end;
  ext_GetMetadata _ := w_ok "8";
  ext_NumCPU _ := 8;
  ext_DescribeUHostInstance _ := w_ok [];
  ext_AllocateSecondaryIp := w_allocate;
  ext_DescribeSecondaryIp := w_describe;
  ext_DeleteSecondaryIp := w_delete;
  ext_MoveSecondaryIPMac := w_move;
  ext_DescribeSubnet _ := w_call (λ w, (inr [Z.of_nat (length (w_free w))], w));
  ext_Interfaces := w_ok [w_iface];
  ext_InterfaceByName _ := w_ok w_iface;
  ext_LinkList := w_ok [w_iface];
  ext_LinkByName _ := w_ok w_iface;
  ext_AddrListV4 _ := w_ok [[10; 0; 0; 9]];
  ext_TZOffset _ _ := 28800;
  ext_ArpSocket _ := w_ok tt;
  ext_ArpExchange _ _ w := (w_arp w, w);
  ext_Dial _ := w_ok tt;
  ext_BorrowIP _ _ := w_call (λ w, (inr (w_peer w), w))
}.

Fixpoint insert_by {V} (less : V → V → bool) (x : V) (l : list V) : list V :=
  match l with
  | [] => [x]
  | y :: l' => if less y x then y :: insert_by less x l' else x :: l
  end.
#[global] Instance world_runtime : GoRuntime world := {
  rt_range V l w := (l, w);
  rt_sort V less := foldr (insert_by less) []
}.

(** ** A cluster *)

Record cluster : Type := mkCluster {
  c_pods : list Pod;
  c_nodes : list Node;
  c_ipamds : gmap string Ipamd;
  c_claims : gmap (string * string) VpcIpClaim;
  c_fail : list (option error)
}.

Definition c_call {A} (f : cluster → (error + A) * cluster) : Call cluster A := λ c,
  let c' := mkCluster (c_pods c) (c_nodes c) (c_ipamds c) (c_claims c) (tail (c_fail c)) in
  match head (c_fail c) with
  | Some (Some e) => (inl e, c')
  | _ => f c'
  end.
(** A read does not fail with a definite answer. *)
Definition c_get {A} (f : cluster → (error + A) * cluster) : Call cluster A := λ c,
  let c' := mkCluster (c_pods c) (c_nodes c) (c_ipamds c) (c_claims c) (tail (c_fail c)) in
  match head (c_fail c) with
  | Some (Some _) => (inl (K8sErr Timeout), c')
  | _ => f c'
  end.
Definition c_set_ipamds i c := mkCluster (c_pods c) (c_nodes c) i (c_claims c) (c_fail c).
Definition c_set_claims m c := mkCluster (c_pods c) (c_nodes c) (c_ipamds c) m (c_fail c).
Definition c_found {A} (o : option A) (c : cluster) : (error + A) * cluster :=
  match o with Some a => (inr a, c) | None => (inl (K8sErr NotFound), c) end.

Definition find_pod (ns n : string) (c : cluster) : option Pod :=
  head (filter (λ p, pod_Namespace p = ns ∧ pod_Name p = n) (c_pods c)).
(** The objects stored under their own name. *)
Definition ipamd_view (c : cluster) : gmap string Ipamd :=
  map_imap (λ n i, if String.eqb (ipamd_Name i) n then Some i else None) (c_ipamds c).
Definition claim_view (c : cluster) : gmap (string * string) VpcIpClaim :=
  map_imap (λ k v, if bool_decide (claim_key v = k) then Some v else None) (c_claims c).
#[global] Instance cluster_kube : KubeApi cluster := {
  k_GetPod ns n := c_get (λ c, c_found (find_pod ns n c) c);
  k_PatchPodAnnotations ns n pairs := c_call (λ c, (inr tt, c));
  k_ListPodsOnNode n := c_call (λ c, (inr (filter (λ p, pod_NodeName p = n) (c_pods c)), c));
  k_ListPods := c_call (λ c, (inr (c_pods c), c));
  k_GetNode n := c_call (λ c, c_found (head (filter (λ x, node_Name x = n) (c_nodes c))) c);
  k_ListNodes := c_call (λ c, (inr (c_nodes c), c));
  k_ListIpamds := c_call (λ c, (inr (map_to_list (ipamd_view c)).*2, c));
  k_GetIpamd n := c_get (λ c, c_found (ipamd_view c !! n) c);
  k_CreateIpamd i := c_call (λ c, (inr tt, c_set_ipamds (<[ipamd_Name i := i]> (c_ipamds c)) c));
  k_UpdateIpamd i := c_call (λ c, (inr tt, c_set_ipamds (<[ipamd_Name i := i]> (c_ipamds c)) c));
  k_DeleteIpamd n := c_call (λ c, (inr tt, c_set_ipamds (delete n (c_ipamds c)) c));
  k_GetClaim ns n := c_call (λ c, c_found (claim_view c !! (ns, n)) c);
  k_ListClaimsNamed ns n := c_call (λ c, (inr tt, c));
  k_CreateClaim v := c_call (λ c,
    match claim_view c !! claim_key v with
    | Some _ => (inl (K8sErr AlreadyExists), c)
    | None => (inr v, c_set_claims (<[claim_key v := v]> (c_claims c)) c)
    end);
  k_UpdateClaim v := c_call (λ c, (inr v, c_set_claims (<[claim_key v := v]> (c_claims c)) c))
}.

(** ** The default backoff of [RetryOnConflict]: five attempts *)

Fixpoint retry_steps (n : nat) {S} (f : M S unit) : M S unit := λ s,
  match n, f s with
  | Datatypes.S n', (Err e, s') => if k8serr_is Conflict e then retry_steps n' f s' else (Err e, s')
  | _, r => r
  end.
#[global] Instance retry_five : RetryApi := { RetryOnConflict S f := retry_steps 4 f }.
#[global] Instance retry_five_laws : RetryLaws.
Proof.
  split. intros S f s. change (retried f s (retry_steps 4 f s)). generalize 4%nat as n. intros n. revert s.
  induction n as [|n IH]; intros s.
  { simpl. apply retried_last. }
  simpl. destruct (f s) as [[a|e|w|] s'] eqn:E; try (rewrite <- E; apply retried_last).
  destruct (k8serr_is Conflict e) eqn:Hc; [|rewrite <- E; apply retried_last].
  by eapply retried_again.
Defined.

(** ** The laws hold *)

Lemma insert_by_perm {V} less (x : V) l : insert_by less x l ≡ₚ x :: l.
Proof.
  induction l as [|y l IH]; simpl; [done|]. destruct (less y x); [|done].
  rewrite IH. apply Permutation_swap.
Qed.

Lemma insert_by_sorted {V} (key : V → Z) x l :
  StronglySorted (λ a b, key b ≤ key a) l →
  StronglySorted (λ a b, key b ≤ key a) (insert_by (λ a b, key a >? key b) x l).
Proof.
  induction 1 as [|y l Hs IH Hall]; simpl; [by repeat constructor|].
  destruct (Z.gtb_spec (key y) (key x)).
  - constructor; [done|]. rewrite insert_by_perm. constructor; [lia|done].
  - constructor; [by constructor|]. constructor; [lia|].
    eapply Forall_impl; [done|]. simpl. lia.
Qed.

#[global] Instance world_runtime_laws : GoRuntimeLaws world.
Proof.
  split; simpl.
  - done.
  - intros V less l. induction l as [|x l IH]; simpl; [done|]. by rewrite insert_by_perm, IH.
  - intros V key l. induction l as [|x l IH]; simpl; [constructor|]. by apply insert_by_sorted.
Defined.

(** A call either fails on schedule or runs its body, the objects being equal to
    those of the cluster it was made on. *)
Lemma c_call_cases {A} (f : cluster → (error + A) * cluster) c :
  ∃ c', c_ipamds c' = c_ipamds c ∧ c_claims c' = c_claims c ∧ c_nodes c' = c_nodes c ∧
        (c_call f c = f c' ∨ ∃ e, c_call f c = (inl e, c')).
Proof.
  unfold c_call. eexists (mkCluster _ _ _ _ _). split_and!; [..|]; [| | |].
  4:{ destruct (head (c_fail c)) as [[e|]|]; [right; by eexists|left; reflexivity..]. }
  all: done.
Qed.

Lemma ipamd_view_eq c c' : c_ipamds c' = c_ipamds c → ipamd_view c' = ipamd_view c.
Proof. unfold ipamd_view. by intros ->. Qed.
Lemma claim_view_eq c c' : c_claims c' = c_claims c → claim_view c' = claim_view c.
Proof. unfold claim_view. by intros ->. Qed.

Lemma ipamd_view_lookup c n i : ipamd_view c !! n = Some i → ipamd_Name i = n.
Proof.
  unfold ipamd_view. rewrite map_lookup_imap. destruct (c_ipamds c !! n) as [x|]; simpl; [|done].
  destruct (String.eqb_spec (ipamd_Name x) n); congruence.
Qed.
Lemma claim_view_lookup c k v : claim_view c !! k = Some v → claim_key v = k.
Proof.
  unfold claim_view. rewrite map_lookup_imap. destruct (c_claims c !! k) as [x|]; simpl; [|done].
  case_bool_decide; congruence.
Qed.
Lemma ipamd_view_insert c i :
  ipamd_view (c_set_ipamds (<[ipamd_Name i := i]> (c_ipamds c)) c) = <[ipamd_Name i := i]> (ipamd_view c).
Proof.
  unfold ipamd_view. simpl. rewrite map_imap_insert. by rewrite String.eqb_refl.
Qed.
Lemma ipamd_view_delete c n :
  ipamd_view (c_set_ipamds (delete n (c_ipamds c)) c) = delete n (ipamd_view c).
Proof. unfold ipamd_view. simpl. apply map_imap_delete. Qed.
Lemma claim_view_insert c v :
  claim_view (c_set_claims (<[claim_key v := v]> (c_claims c)) c) = <[claim_key v := v]> (claim_view c).
Proof.
  unfold claim_view. simpl. rewrite map_imap_insert. by rewrite bool_decide_eq_true_2.
Qed.

Lemma c_get_cases {A} (f : cluster → (error + A) * cluster) c :
  ∃ c', c_ipamds c' = c_ipamds c ∧ c_claims c' = c_claims c ∧ c_nodes c' = c_nodes c ∧
        (c_get f c = f c' ∨ c_get f c = (inl (K8sErr Timeout), c')).
Proof.
  unfold c_get. eexists (mkCluster _ _ _ _ _). split_and!; [..|]; [| | |].
  4:{ destruct (head (c_fail c)) as [[e|]|]; [right; reflexivity|left; reflexivity..]. }
  all: done.
Qed.

Ltac c_cases :=
  first
  [ match goal with |- context [c_call ?f ?c] =>
      destruct (c_call_cases f c) as (?c' & ?Hi & ?Hv & ?Hn & [E|[?e E]]);
      rewrite ?E in * end
  | match goal with |- context [c_get ?f ?c] =>
      destruct (c_get_cases f c) as (?c' & ?Hi & ?Hv & ?Hn & [E|E]);
      rewrite ?E in * end ]; simpl in *.

#[global] Instance cluster_laws : KubeLaws cluster.
Proof.
  refine {| k_ipamds := ipamd_view; k_claims := claim_view;
            k_nodes c := list_to_set (node_Name <$> c_nodes c) |}; unfold keeps; simpl.
  all: intros.
  all: try match goal with H : c_call _ _ = _ |- _ =>
         revert H; c_cases; intros; simplify_eq end.
  all: try (c_cases; unfold c_found in * ).
  all: repeat match goal with
    | Hi : c_ipamds ?c' = c_ipamds ?k |- context [ipamd_view ?k] =>
        rewrite <- (ipamd_view_eq k c' Hi); clear Hi
    | Hv : c_claims ?c' = c_claims ?k |- context [claim_view ?k] =>
        rewrite <- (claim_view_eq k c' Hv); clear Hv
    | Hn : c_nodes ?c' = c_nodes ?k |- context [c_nodes ?k] => rewrite <- Hn; clear Hn
    end.
  all: unfold c_found in *.
  all: repeat match goal with
    | H : context [match ?o with Some _ => _ | None => _ end] |- _ => destruct o eqn:?; simplify_eq/=
    | |- context [match ?o with Some _ => _ | None => _ end] => destruct o eqn:?; simplify_eq/=
    end.
  all: rewrite ?ipamd_view_insert, ?ipamd_view_delete, ?claim_view_insert.
  all: try (by naive_solver eauto using ipamd_view_lookup, claim_view_lookup).
  - rewrite <- list_fmap_compose. apply Permutation_refl'.
    etrans; [|apply list_fmap_id]. apply list_fmap_ext. intros j [n i] Hj. simpl. f_equal.
    apply list_elem_of_lookup_2, elem_of_map_to_list in Hj. by apply ipamd_view_lookup in Hj.
  - match goal with H : head _ = Some _ |- _ => rename H into Hx end.
    apply elem_of_list_to_set. apply head_Some_elem_of in Hx. apply list_elem_of_filter in Hx as [<- Hx].
    by apply list_elem_of_fmap_2.
Defined.

Definition w_addr (i : IpInfo) : vpc_addr := (ii_VPCId i, ii_SubnetId i, ii_Ip i, ii_Mac i).

Lemma w_match_full z mac ip oid v sub i :
  w_match (mkSecReq z (Some mac) (Some ip) oid (Some v) (Some sub)) i = true ↔
  w_addr i = (v, sub, ip, mac).
Proof.
  unfold w_match, w_addr. simpl. rewrite !andb_true_iff, !String.eqb_eq. naive_solver.
Qed.

Lemma w_call_cases {A} (f : world → (error + A) * world) w :
  ∃ w', w_ips w' = w_ips w ∧ (w_call f w = f w' ∨ w_call f w = (inl (ExtErr "vpc api error"), w')).
Proof.
  unfold w_call. eexists (mkWorld _ _ _ _ _ _ _ _). split; [|].
  2:{ destruct (default false (head (w_fail w))); [right|left]; reflexivity. }
  done.
Qed.

#[global] Instance world_vpc : VpcLaws world.
Proof.
  refine {| vpc_addrs w := list_to_set (w_addr <$> w_ips w) |}; unfold keeps; simpl; try done.
  - intros r w. unfold w_describe.
    match goal with |- context [w_call ?f w] => destruct (w_call_cases f w) as (w' & Hw & [->| ->]) end;
      simpl; by rewrite Hw.
  - intros z mac ip v sub w l w'. unfold w_describe.
    match goal with |- context [w_call ?f w] => destruct (w_call_cases f w) as (w1 & Hw & [->| ->]) end;
      intros [= <- <-]. rewrite elem_of_list_to_set, list_elem_of_fmap, Hw. split.
    + intros (i & [Hi Hin]%list_elem_of_filter & <-). apply w_match_full in Hi. by exists i.
    + intros (i & Hi & Hin). exists i. rewrite list_elem_of_filter. split; [|by inversion Hi].
      split; [|done]. by apply w_match_full.
  - intros z mac ip oid v sub w code err w'. unfold w_delete.
    match goal with |- context [w_call ?f w] => destruct (w_call_cases f w) as (w1 & Hw & [->| ->]) end;
      intros [= <- <- <-]; simpl; rewrite Hw; [left|by right].
    apply set_eq. intros x.
    rewrite elem_of_difference, !elem_of_list_to_set, !list_elem_of_fmap, elem_of_singleton.
    setoid_rewrite list_elem_of_filter. setoid_rewrite <- not_true_iff_false.
    setoid_rewrite w_match_full. naive_solver.
  - intros w. by destruct (w_meta w).
Defined.
