(* ===== verification/IpPool.v ===== *)
(** The address pools of the node daemon ([pkg/ipamd/pool.go]): one bolt bucket
    per subnet, the cooldown set, lending an address to another node, shrinking a
    pool to its high watermark, and the migration of the old single pool
    ([svc.go]).

    The abstract state [Abs] has a finite map per pool; [rep] relates it to the
    server and the file.  Every operation is specified by its effect on [Abs]. *)
From S2P Require Export IpamdBase.

(** ** Definitions *)

Definition getReservedIPKey (pn : PodNetwork) : string :=
  pn_VPCID pn +:+ "-" +:+ pn_VPCIP pn.

(** [fmt.Sprintf("%s-%s", PoolDBName, subnetID)] *)
Definition pool_bucket (subnetID : string) : string := PoolDBName +:+ "-" +:+ subnetID.

Section pool_go.
Context {H D K E : Type} `{!Database PodNetwork H D} `{!Database CooldownItem H D}
  `{!CloudApi E}.
#[local] Abbreviation m := (M (St H D K E)).

Definition getPool (subnetID : string) (create : bool) : m H :=
  c ← srv srv_uapi;
  let subnetID := if String.eqb subnetID "" then ac_subnetId c else subnetID in
  let dbName := pool_bucket subnetID in
  pools ← srv poolDB;
  match pools !! dbName with
  | Some pool => mret pool
  | None =>
      if negb create then throw (Errorf "cannot find subnet in this node") else
      pool ← with_msg "failed to init vpc ip pool database" (in_db (db_New (T := PodNetwork) dbName));
      modify (λ s, set_srv (set_poolDB (<[dbName := pool]> (poolDB (st_srv s))) (st_srv s)) s);;
      mret pool
  end.

Definition getPoolSubnetID (c : ApiClient) (key : string) : string * bool :=
  let key := TrimPrefix key PoolDBName in
  if String.eqb key "" then (ac_subnetId c, true) else (TrimPrefix key "-", false).

Definition backupReleaseSecondaryIP (pn : PodNetwork) : m unit :=
  ignore (uapiDeleteSecondaryIp pn).

Definition backupPushSecondaryIP (pn : PodNetwork) : m unit :=
  pool ← attempt (getPool (pn_SubnetID pn) true);
  match pool with
  | inl _ => mret tt
  | inr pool => ignore (in_db (db_Put pool (getReservedIPKey pn) pn))
  end.

Definition putIpToPool (pn : PodNetwork) : m bool :=
  pool ← attempt (getPool (pn_SubnetID pn) true);
  match pool with
  | inl _ => backupReleaseSecondaryIP pn;; mret false
  | inr pool =>
      r ← attempt (in_db (db_Put pool (getReservedIPKey pn) pn));
      match r with
      | inl _ => backupReleaseSecondaryIP pn;; mret false
      | inr _ => mret true
      end
  end.

Definition putIpToCooldown (item : CooldownItem) : m bool :=
  db ← srv cooldownDB;
  r ← attempt (in_db (db_Put db (getReservedIPKey (cd_Network item)) item));
  match r with
  | inl _ => backupReleaseSecondaryIP (cd_Network item);; mret false
  | inr _ => mret true
  end.

(** The argument is updated in place and the updated value stored. *)
Definition cooldownIP (ip : PodNetwork) : m unit :=
  now ← in_proc Now;
  period ← srv CooldownPeriodSeconds;
  let over := now + period in
  now' ← in_proc Now;
  let ip := pn_set_Recycled true (pn_set_RecycleTime now' ip) in
  _ ← putIpToCooldown (mkCooldown ip over);
  mret tt.

(** The loop of [recycleCooldownIP]: a failed delete ends it. *)
Fixpoint recycle_items (now : Z) (kvs : list (KeyValue CooldownItem)) : m unit :=
  match kvs with
  | [] => mret tt
  | kv :: kvs' =>
      if cd_CooldownOver (kv_Value kv) <=? now then
        db ← srv cooldownDB;
        r ← attempt (in_db (db_Delete (T := CooldownItem) db (kv_Key kv)));
        match r with
        | inl _ => mret tt
        | inr _ => _ ← putIpToPool (cd_Network (kv_Value kv)); recycle_items now kvs'
        end
      else recycle_items now kvs'
  end.

Definition recycleCooldownIP : m unit :=
  db ← srv cooldownDB;
  kvs ← attempt (in_db (db_List (T := CooldownItem) db));
  match kvs with
  | inl _ => mret tt
  | inr kvs => now ← in_proc Now; recycle_items now kvs
  end.

(** [for i := 0; i < toRelease; i++], with [n] rounds left. *)
Fixpoint release_loop (n : nat) (pool : H) : m unit :=
  match n with
  | O => mret tt
  | S n' =>
      kv ← attempt (in_db (db_Pop pool));
      match kv with
      | inl _ => mret tt
      | inr kv =>
          let pn := kv_Value kv in
          r ← attempt (uapiDeleteSecondaryIp pn);
          match r with
          | inl _ => backupPushSecondaryIP pn
          | inr _ => release_loop n' pool
          end
      end
  end.

Definition releasePool (pool : H) (size : Z) : m unit :=
  high ← srv AvailablePodIPHighWatermark;
  release_loop (Z.to_nat (size - high)) pool.

Definition lendIP (req : BorrowIPRequest) : m PodNetwork :=
  pool ← with_msg "failed to get pool" (getPool (br_SubnetID req) false);
  kv ← attempt (in_db (db_Pop pool));
  match kv with
  | inl e =>
      if IsEOF e then throw (Errorf "ip pool is empty")
      else throw (Errorf "failed to pop ip from pool")
  | inr kv =>
      let pn := kv_Value kv in
      r ← attempt (uapiMoveSecondaryIPMac pn (br_MacAddress req));
      match r with
      | inl _ => _ ← putIpToPool pn; throw (Errorf "failed to call uapi to move ip")
      | inr _ => mret (pn_set_MacAddress (br_MacAddress req) pn)
      end
  end.

(** The endless loop of the migration, on [fuel] rounds. *)
Fixpoint migrate_loop (fuel : nat) (oldPool newPool : H) (subnet mac : string) : m unit :=
  match fuel with
  | O => diverge
  | S fuel' =>
      kv ← attempt (in_db (db_Pop oldPool));
      match kv with
      | inl e => if IsEOF e then mret tt else throw e
      | inr kv =>
          let pn := pn_set_MacAddress mac (pn_set_SubnetID subnet (kv_Value kv)) in
          with_msg "failed to put migrated pod network" (in_db (db_Put newPool (kv_Key kv) pn));;
          migrate_loop fuel' oldPool newPool subnet mac
      end
  end.

Definition migrateV1BoltDB (fuel : nat) : m unit :=
  oldPool ← with_msg "failed to open old pool database"
              (in_db (db_New (T := PodNetwork) PoolDBName));
  c ← srv srv_uapi;
  mac ← srv masterMacAddress;
  count ← in_db (db_Count (T := PodNetwork) oldPool);
  if count =? 0 then mret tt else
  newPool ← with_msg "failed to get new pool database" (getPool "" true);
  migrate_loop fuel oldPool newPool (ac_subnetId c) mac.

Definition convertIpToPodNetwork (ip : IpInfo) (ifaceID : string) : m PodNetwork :=
  now ← in_proc Now;
  mret (mkPodNetwork "" "" "" "" "" (ii_Ip ip) (ii_VPCId ip) (ii_SubnetId ip)
          (ii_Gateway ip) (ii_Mask ip) (ii_Mac ip) false ifaceID "" now 0 false).

End pool_go.

(** ** The abstract state *)

Record Abs (H K : Type) : Type := mkAbs {
  a_cfg : ipamServer H;                               (* the server less its pools *)
  a_k8s : K;
  a_pool : string → gmap string PodNetwork;           (* by subnet *)
  a_cool : gmap string CooldownItem;
  a_net : gmap string PodNetwork;
  a_old : gmap string PodNetwork                      (* the v1 pool *)
}.
Arguments mkAbs {H K} _ _ _ _ _ _.
Arguments a_cfg {H K} _.
Arguments a_k8s {H K} _.
Arguments a_pool {H K} _.
Arguments a_cool {H K} _.
Arguments a_net {H K} _.
Arguments a_old {H K} _.

Section abs.
Context {H K : Type}.
Implicit Types a : Abs H K.

Definition set_a_pool (sub : string) (p : gmap string PodNetwork) a : Abs H K :=
  mkAbs (a_cfg a) (a_k8s a) (<[sub := p]> (a_pool a)) (a_cool a) (a_net a) (a_old a).
Definition set_a_cool c a : Abs H K :=
  mkAbs (a_cfg a) (a_k8s a) (a_pool a) c (a_net a) (a_old a).
Definition set_a_net n a : Abs H K :=
  mkAbs (a_cfg a) (a_k8s a) (a_pool a) (a_cool a) n (a_old a).
Definition set_a_old o a : Abs H K :=
  mkAbs (a_cfg a) (a_k8s a) (a_pool a) (a_cool a) (a_net a) o.
Definition set_a_k8s k a : Abs H K :=
  mkAbs (a_cfg a) k (a_pool a) (a_cool a) (a_net a) (a_old a).

(** The subnet whose pool is meant: the empty one is the node's own. *)
Definition pool_of a (subnetID : string) : string :=
  if String.eqb subnetID "" then ac_subnetId (srv_uapi (a_cfg a)) else subnetID.

(** Putting an address where [putIpToPool] does. *)
Definition a_put (pn : PodNetwork) a : Abs H K :=
  let sub := pool_of a (pn_SubnetID pn) in
  set_a_pool sub (<[getReservedIPKey pn := pn]> (a_pool a sub)) a.
End abs.

Section rep.
Context {H D K E : Type} `{!Database PodNetwork H D} `{!Database CooldownItem H D}
  `{!StoreFrame H D} `{!DatabaseLaws PodNetwork H D} `{!DatabaseLaws CooldownItem H D}.
Implicit Types (s : St H D K E) (a : Abs H K).

(** The contents of a bucket that may not have been created yet. *)
Definition bucket_is (name : string) (d : D) (p : gmap string PodNetwork) : Prop :=
  (db_fresh (T := PodNetwork) (db_handle name) d ∧ p = ∅) ∨
  db_holds (db_handle name) d p.

Record rep (s : St H D K E) (a : Abs H K) : Prop := {
  rep_cfg : set_poolDB ∅ (st_srv s) = a_cfg a;
  rep_k8s : st_k8s s = a_k8s a;
  rep_net_handle : networkDB (a_cfg a) = db_handle NetworkDBName;
  rep_cool_handle : cooldownDB (a_cfg a) = db_handle CooldownDBName;
  rep_open name h : poolDB (st_srv s) !! name = Some h →
    ∃ sub, name = pool_bucket sub ∧ h = db_handle name ∧ db_holds h (st_db s) (a_pool a sub);
  rep_pool sub : bucket_is (pool_bucket sub) (st_db s) (a_pool a sub);
  rep_cool : db_holds (db_handle CooldownDBName) (st_db s) (a_cool a);
  rep_net : db_holds (db_handle NetworkDBName) (st_db s) (a_net a);
  rep_old : bucket_is PoolDBName (st_db s) (a_old a)
}.

(** Abstract states that agree pool by pool represent the same server. *)
#[global] Instance abs_equiv : Equiv (Abs H K) := λ a a',
  a_cfg a = a_cfg a' ∧ a_k8s a = a_k8s a' ∧ (∀ sub, a_pool a sub = a_pool a' sub) ∧
  a_cool a = a_cool a' ∧ a_net a = a_net a' ∧ a_old a = a_old a'.
#[global] Instance abs_equivalence : Equivalence (≡@{Abs H K}).
Proof.
  split.
  - done.
  - intros a a' (?&?&?&?&?&?). split_and!; done.
  - intros a1 a2 a3 (?&?&?&?&?&?) (?&?&?&?&?&?). split_and!; congruence.
Qed.

#[global] Instance rep_proper : Proper ((=) ==> (≡) ==> iff) rep.
Proof.
  assert (∀ s a a', a ≡ a' → rep s a → rep s a') as Himp.
  { intros s a a' (E1&E2&E3&E4&E5&E6) []. split; rewrite <- ?E1, <- ?E2, <- ?E4, <- ?E5, <- ?E6; try done.
    - intros name h (sub & -> & -> & Hh)%rep_open0. exists sub. by rewrite <- E3.
    - intros sub. by rewrite <- E3. }
  intros s s' <- a a' Ha. split; eauto. apply Himp. by symmetry.
Qed.

Lemma set_a_pool_id a sub : set_a_pool sub (a_pool a sub) a ≡ a.
Proof.
  split_and!; try done. intros x. simpl. destruct (decide (sub = x)) as [<-|].
  - apply fn_lookup_insert.
  - by apply fn_lookup_insert_ne.
Qed.

(** *** Updating one bucket *)

Lemma pool_bucket_inj sub sub' : pool_bucket sub = pool_bucket sub' → sub = sub'.
Proof. intros ?%str_app_inj_l. by simplify_eq/=. Qed.

Lemma rep_proc s s' a : same_but_proc s s' → rep s a → rep s' a.
Proof.
  intros (E1 & E2 & E3) []. split; rewrite ?E1, ?E2, ?E3; try done.
Qed.

Lemma bucket_is_frame h name d d' p :
  only_touches h d d' → h ≠ db_handle name → bucket_is name d p → bucket_is name d' p.
Proof.
  intros Ht Hne [[? ?]|?]; [left|right].
  - split; [|done]. by eapply db_fresh_frame.
  - by eapply db_holds_frame.
Qed.

Lemma handle_ne b b' : b ≠ b' → db_handle (H := H) (D := D) b ≠ db_handle b'.
Proof. intros Hne Heq. by apply db_handle_inj in Heq. Qed.

Lemma rep_set_pool_gen s a sub d' p :
  rep s a → only_touches (db_handle (pool_bucket sub)) (st_db s) d' →
  (is_Some (poolDB (st_srv s) !! pool_bucket sub) → db_holds (db_handle (pool_bucket sub)) d' p) →
  bucket_is (pool_bucket sub) d' p →
  rep (set_db d' s) (set_a_pool sub p a).
Proof.
  intros [] Ht Hopen Hb. split; simpl; try done.
  - intros name h Hn. destruct (rep_open0 _ _ Hn) as (sub' & -> & -> & Hh).
    exists sub'. split; [done|]. split; [done|].
    destruct (decide (sub' = sub)) as [->|Hne].
    + rewrite fn_lookup_insert. apply Hopen. by eexists.
    + rewrite fn_lookup_insert_ne by done.
      eapply db_holds_frame; [done| |done]. apply handle_ne. by intros ->%pool_bucket_inj.
  - intros sub'. destruct (decide (sub' = sub)) as [->|Hne].
    + by rewrite fn_lookup_insert.
    + rewrite fn_lookup_insert_ne by done.
      eapply bucket_is_frame; [done| |done]. apply handle_ne. by intros ->%pool_bucket_inj.
  - by eapply db_holds_frame; [|apply handle_ne|].
  - by eapply db_holds_frame; [|apply handle_ne|].
  - by eapply bucket_is_frame; [|apply handle_ne|].
Qed.

Lemma rep_set_pool s a sub d' p :
  rep s a → only_touches (db_handle (pool_bucket sub)) (st_db s) d' →
  db_holds (db_handle (pool_bucket sub)) d' p →
  rep (set_db d' s) (set_a_pool sub p a).
Proof. intros Hr Ht Hp. apply rep_set_pool_gen; try done. by right. Qed.

Lemma rep_same_pool s a sub d' :
  rep s a → only_touches (db_handle (pool_bucket sub)) (st_db s) d' →
  db_holds (db_handle (pool_bucket sub)) d' (a_pool a sub) → rep (set_db d' s) a.
Proof. intros. rewrite <- (set_a_pool_id a sub). by eapply rep_set_pool. Qed.

Lemma rep_set_cool s a d' c :
  rep s a → only_touches (db_handle CooldownDBName) (st_db s) d' →
  db_holds (db_handle CooldownDBName) d' c → rep (set_db d' s) (set_a_cool c a).
Proof.
  intros [] Ht Hb. split; simpl; try done.
  - intros name h Hn. destruct (rep_open0 _ _ Hn) as (sub' & -> & -> & Hh).
    exists sub'. split_and!; [done..|]. by eapply db_holds_frame; [|apply handle_ne|].
  - intros sub'. by eapply bucket_is_frame; [|apply handle_ne|].
  - by eapply db_holds_frame; [|apply handle_ne|].
  - by eapply bucket_is_frame; [|apply handle_ne|].
Qed.

Lemma rep_set_net s a d' c :
  rep s a → only_touches (db_handle NetworkDBName) (st_db s) d' →
  db_holds (db_handle NetworkDBName) d' c → rep (set_db d' s) (set_a_net c a).
Proof.
  intros [] Ht Hb. split; simpl; try done.
  - intros name h Hn. destruct (rep_open0 _ _ Hn) as (sub' & -> & -> & Hh).
    exists sub'. split_and!; [done..|]. by eapply db_holds_frame; [|apply handle_ne|].
  - intros sub'. by eapply bucket_is_frame; [|apply handle_ne|].
  - by eapply db_holds_frame; [|apply handle_ne|].
  - by eapply bucket_is_frame; [|apply handle_ne|].
Qed.

Lemma rep_set_old s a d' c :
  rep s a → only_touches (db_handle PoolDBName) (st_db s) d' →
  bucket_is PoolDBName d' c → rep (set_db d' s) (set_a_old c a).
Proof.
  intros [] Ht Hb. split; simpl; try done.
  - intros name h Hn. destruct (rep_open0 _ _ Hn) as (sub' & -> & -> & Hh).
    exists sub'. split_and!; [done..|]. by eapply db_holds_frame; [|apply handle_ne|].
  - intros sub'. by eapply bucket_is_frame; [|apply handle_ne|].
  - by eapply db_holds_frame; [|apply handle_ne|].
  - by eapply db_holds_frame; [|apply handle_ne|].
Qed.

(** Registering an existing bucket in [poolDB]. *)
Lemma rep_register s a sub :
  rep s a → db_holds (db_handle (pool_bucket sub)) (st_db s) (a_pool a sub) →
  rep (set_srv (set_poolDB (<[pool_bucket sub := db_handle (pool_bucket sub)]>
         (poolDB (st_srv s))) (st_srv s)) s) a.
Proof.
  intros [] Hh. split; simpl; try done.
  intros name h [[<- <-]|[Hne Hn]]%lookup_insert_Some; eauto.
Qed.
End rep.

(** ** The operations on the abstract state *)

Section specs.
Context {H D K E : Type} `{!Database PodNetwork H D} `{!Database CooldownItem H D}
  `{!StoreFrame H D} `{!DatabaseLaws PodNetwork H D} `{!DatabaseLaws CooldownItem H D}
  `{!CloudApi E}.
Implicit Types (s : St H D K E) (a : Abs H K).

(** The bucket of the pool exists and holds what the abstract state says. *)
Definition pool_open sub s a : Prop :=
  db_holds (db_handle (pool_bucket sub)) (st_db s) (a_pool a sub).

Lemma rep_uapi s a : rep s a → srv_uapi (st_srv s) = srv_uapi (a_cfg a).
Proof. intros []. by rewrite <- rep_cfg0. Qed.

(** A field other than the pools is that of the abstract configuration. *)
Lemma rep_field {A} (f : ipamServer H → A) s a :
  (∀ p v, f (set_poolDB p v) = f v) → rep s a → f (st_srv s) = f (a_cfg a).
Proof. intros Hf Hr. by rewrite <- (rep_cfg _ _ Hr), Hf. Qed.

Lemma wp_srv {A} (f : ipamServer H → A) (Q : outcome A → St H D K E → Prop) s :
  Q (Ok (f (st_srv s))) s → wp (srv f) Q s.
Proof. done. Qed.

Lemma wp_in_db {A} (m : M D A) (Q : outcome A → St H D K E → Prop) s :
  wp m (λ o d, Q o (set_db d s)) (st_db s) → wp (in_db m) Q s.
Proof. apply wp_zoom. Qed.

(** The same for a run that is at hand. *)
Lemma in_db_run {A} (m : M D A) (Q : outcome A → D → Prop) s o s' :
  wp m Q (st_db s) → in_db m s = (o, s') → ∃ d, s' = set_db d s ∧ Q o d.
Proof.
  intros Hm Hrun. apply (wp_run (in_db m) (λ o s', ∃ d, s' = set_db d s ∧ Q o d) s o s'); [|exact Hrun].
  apply wp_in_db. eapply wp_mono; [exact Hm|]. intros o' d Hd. by exists d.
Qed.

(** A computation that only changes the process and always returns. *)
Lemma wp_proc {A} (m : M _ A) (Q : outcome A → St H D K E → Prop) s a :
  leaves same_but_proc m → safe m → rep s a →
  (∀ x s', m s = (Ok x, s') → rep s' a → same_but_proc s s' → Q (Ok x) s') →
  (∀ e s', m s = (Err e, s') → rep s' a → same_but_proc s s' → Q (Err e) s') →
  wp m Q s.
Proof.
  intros Hl Hs Hr Hok Herr. apply (wp_leaves _ _ _ _ Hl). intros o s' Em HR.
  pose proof (rep_proc _ _ _ HR Hr).
  destruct (safe_cases _ _ _ _ Hs Em) as [[x ->]|[e ->]]; eauto.
Qed.

Lemma pool_open_proc sub s s' a : same_but_proc s s' → pool_open sub s a → pool_open sub s' a.
Proof. unfold pool_open. by intros (_ & -> & _). Qed.

Lemma getPool_spec subnet create s a :
  rep s a →
  wp (getPool subnet create) (λ o s',
    rep s' a ∧ st_proc s' = st_proc s ∧
    ((o = Ok (db_handle (pool_bucket (pool_of a subnet))) ∧ pool_open (pool_of a subnet) s' a) ∨
     (∃ e, o = Err (Errorf e)))) s.
Proof.
  intros Hr. unfold getPool. wp_step. apply wp_srv. cbn [kont].
  rewrite (rep_uapi _ _ Hr). fold (pool_of a subnet). set (sub := pool_of a subnet).
  wp_step. apply wp_srv. cbn [kont]. pose proof Hr as [].
  destruct (poolDB (st_srv s) !! pool_bucket sub) as [h|] eqn:Eh.
  { wp_steps. destruct (rep_open0 _ _ Eh) as (sub' & Es & -> & Hh).
    apply pool_bucket_inj in Es as <-. naive_solver. }
  destruct create; simpl; [|wp_steps; naive_solver].
  do 2 wp_step. apply wp_in_db.
  eapply wp_mono; [apply db_New_law|]. intros o d' (Ht & Hkeep & Hcase).
  assert (a_pool a sub = a_pool a sub) as _ by done.
  destruct Hcase as [[-> Hnew]|(e & -> & Hfail)]; wp_steps.
  - assert (db_holds (db_handle (pool_bucket sub)) d' (a_pool a sub)) as Hh.
    { destruct (rep_pool0 sub) as [[Hf ->]|?]; eauto. }
    assert (rep (set_db d' s) a) as Hr' by (by eapply rep_same_pool).
    split; [by apply (rep_register (set_db d' s))|]. split; [done|]. left. done.
  - split; [|naive_solver]. rewrite <- (set_a_pool_id a sub).
    eapply rep_set_pool_gen; [done|done|rewrite Eh; by intros []|].
    destruct (rep_pool0 sub) as [[Hf ?]|Hh]; [left|right]; eauto.
Qed.

(** The pool of [sub] after a change of its contents. *)
Lemma pool_open_set sub s a d' p :
  db_holds (db_handle (pool_bucket sub)) d' p → pool_open sub (set_db d' s) (set_a_pool sub p a).
Proof. unfold pool_open. simpl. by rewrite fn_lookup_insert. Qed.

Lemma pool_Pop_spec sub s a :
  rep s a → pool_open sub s a →
  wp (in_db (db_Pop (db_handle (pool_bucket sub)))) (λ o s',
    st_proc s' = st_proc s ∧
    ((∃ k pn, o = Ok (mkKV k pn) ∧ a_pool a sub !! k = Some pn ∧
        let a' := set_a_pool sub (delete k (a_pool a sub)) a in
        rep s' a' ∧ pool_open sub s' a') ∨
     (o = Err ErrEOF ∧ a_pool a sub = ∅ ∧ rep s' a) ∨
     (∃ e, o = Err e ∧ IsEOF e = false ∧ rep s' a))) s.
Proof.
  intros Hr Ho. apply wp_in_db. eapply wp_mono; [by apply db_Pop_law|].
  intros o d' [Ht Hc]. split; [done|].
  destruct Hc as [(k & v & -> & Hk & Hd)|[(-> & Hm & Hd)|(e & -> & He & Hd)]].
  - left. exists k, v. cbv zeta. split_and!; [done..| |by apply pool_open_set]. by apply rep_set_pool.
  - right. left. split_and!; [done..|]. by eapply rep_same_pool.
  - right. right. exists e. split_and!; [done..|]. by eapply rep_same_pool.
Qed.

Lemma pool_Put_spec sub k pn s a :
  rep s a → pool_open sub s a →
  wp (in_db (db_Put (db_handle (pool_bucket sub)) k pn)) (λ o s',
    st_proc s' = st_proc s ∧
    ((o = Ok tt ∧ let a' := set_a_pool sub (<[k := pn]> (a_pool a sub)) a in
        rep s' a' ∧ pool_open sub s' a') ∨
     (∃ e, o = Err e ∧ rep s' a ∧ pool_open sub s' a))) s.
Proof.
  intros Hr Ho. apply wp_in_db. eapply wp_mono; [by apply db_Put_law|].
  intros o d' [Ht [[-> Hd]|(e & -> & Hd)]]; (split; [done|]).
  - left. cbv zeta. split_and!; [done| |by apply pool_open_set]. by apply rep_set_pool.
  - right. exists e. split_and!; [done| |done]. by eapply rep_same_pool.
Qed.

(** Putting an address back where it was taken from. *)
Lemma a_put_back pn sub k a :
  a_pool a sub !! k = Some pn → k = getReservedIPKey pn → pool_of a (pn_SubnetID pn) = sub →
  a_put pn (set_a_pool sub (delete k (a_pool a sub)) a) ≡ a.
Proof.
  intros Hk -> Hs. unfold a_put. change (pool_of (set_a_pool sub _ a)) with (pool_of a).
  rewrite Hs. split_and!; try done. intros x. simpl.
  destruct (decide (sub = x)) as [<-|Hne].
  - rewrite !fn_lookup_insert. by rewrite insert_delete_eq, insert_id.
  - by rewrite !fn_lookup_insert_ne.
Qed.

Lemma backupRelease_spec pn s a :
  rep s a → wp (backupReleaseSecondaryIP pn) (λ o s', o = Ok tt ∧ rep s' a) s.
Proof.
  intros Hr. unfold backupReleaseSecondaryIP, ignore. wp_step. wp_step.
  eapply wp_proc; [apply leaves_Delete|apply safe_Delete|done|..]; intros; wp_steps; done.
Qed.

(** [putIpToPool] puts the address, or fails and leaves every pool alone. *)
Lemma putIpToPool_spec pn s a :
  rep s a →
  wp (putIpToPool pn) (λ o s',
    (o = Ok true ∧ rep s' (a_put pn a)) ∨ (o = Ok false ∧ rep s' a)) s.
Proof.
  intros Hr. unfold putIpToPool. do 2 wp_step. wp_use getPool_spec as (Hr' & _ & Hc); [done|].
  destruct Hc as [[-> Ho]|[e ->]]; wp_steps.
  - wp_use pool_Put_spec as (_ & [(-> & Hr2 & _)|(e & -> & Hr2 & _)]); [done|done|..]; wp_steps.
    + by left.
    + wp_use backupRelease_spec as (-> & ?); [done|]. wp_steps. by right.
  - wp_use backupRelease_spec as (-> & ?); [done|]. wp_steps. by right.
Qed.

Lemma backupPush_spec pn s a :
  rep s a →
  wp (backupPushSecondaryIP pn) (λ o s',
    o = Ok tt ∧ st_proc s' = st_proc s ∧ (rep s' (a_put pn a) ∨ rep s' a)) s.
Proof.
  intros Hr. unfold backupPushSecondaryIP. do 2 wp_step.
  wp_use getPool_spec as (Hr' & Ep & Hc); [done|]. rewrite <- Ep.
  destruct Hc as [[-> Ho]|[e ->]]; wp_steps; [|naive_solver].
  wp_use pool_Put_spec as (? & [(-> & Hr2 & _)|(e & -> & Hr2 & _)]); [done|done|..]; wp_steps;
    naive_solver.
Qed.

Lemma putIpToCooldown_spec item s a :
  rep s a →
  wp (putIpToCooldown item) (λ o s', ∃ d,
    let key := getReservedIPKey (cd_Network item) in
    (o = Ok true ∧ db_Put (db_handle CooldownDBName) key item (st_db s) = (Ok tt, d) ∧ s' = set_db d s ∧
       rep s' (set_a_cool (<[key := item]> (a_cool a)) a)) ∨
    (o = Ok false ∧ (∃ e, db_Put (db_handle CooldownDBName) key item (st_db s) = (Err e, d)) ∧ st_db s' = d ∧
       s' = (backupReleaseSecondaryIP (cd_Network item) (set_db d s)).2 ∧ rep s' a)) s.
Proof.
  intros Hr. unfold putIpToCooldown. wp_step. apply wp_srv. cbn [kont].
  assert (cooldownDB (st_srv s) = db_handle CooldownDBName) as ->.
  { destruct Hr. rewrite <- rep_cool_handle0. by rewrite <- rep_cfg0. }
  do 2 wp_step. apply wp_in_db, run_wp. intros o d' Eput.
  destruct (wp_run _ _ _ _ _ (db_Put_law _ _ _ _ _ (rep_cool _ _ Hr)) Eput) as [Ht [[-> Hd]|(e & -> & Hd)]]; wp_steps.
  - exists d'. left. split_and!; [done..|]. by apply rep_set_cool.
  - assert (rep (set_db d' s) a) as Hr2.
    { replace a with (set_a_cool (a_cool a) a) by (by destruct a). by apply rep_set_cool. }
    apply run_wp. intros o s2 Erel. destruct (wp_run _ _ _ _ _ (backupRelease_spec _ _ _ Hr2) Erel) as [-> Hr3].
    wp_steps. exists d'. right. split_and!; [done|by exists e| |by rewrite Erel|done].
    assert (leaves same_but_proc (backupReleaseSecondaryIP (cd_Network item) : M (St H D K E) unit)) as Hl
      by (unfold backupReleaseSecondaryIP, ignore; solve_leaves).
    specialize (Hl (set_db d' s)). rewrite Erel in Hl. by destruct Hl as (_ & ? & _).
Qed.
End specs.
