(* ===== verification/PoolProps.v ===== *)
(** Theorems on the pools of the node daemon ([IpPool]): lending, cooldown,
    shrinking, migration, and the consistency of the pools' keys. *)
From S2P Require Export IpPool World.

(** ** Definitions *)

Section defs.
Context {H D K E : Type} `{!Database PodNetwork H D} `{!Database CooldownItem H D}
  `{!StoreFrame H D} `{!DatabaseLaws PodNetwork H D} `{!DatabaseLaws CooldownItem H D}
  `{!CloudApi E} `{!VpcLaws E}.
Implicit Types (s : St H D K E) (a : Abs H K).

(** Every pool entry is stored under its own key in the pool of its own subnet. *)
Definition pool_consistent a : Prop :=
  ∀ sub k pn, a_pool a sub !! k = Some pn →
    k = getReservedIPKey pn ∧ pool_of a (pn_SubnetID pn) = sub.

(** The last that happened before [s]: [putIpToPool] could not put back an address that
    had been taken out of the pools (it then tried to release it in the VPC). *)
Definition put_failed (pn : PodNetwork) s : Prop :=
  ∃ s1, putIpToPool pn s1 = (Ok false, s).

(** The VPC was asked, from the process state [v], to move the address to the interface
    [mac], and answered [o]; an error can also be that no client could be made. *)
Definition moved (c : ApiClient) (pn : PodNetwork) (mac : string) (v : Proc E) (o : outcome unit) v' : Prop :=
  (∃ e, VPCClient c v = (Err e, v') ∧ o = Err e) ∨
  (∃ v1, VPCClient c v = (Ok tt, v1) ∧
     ext (ext_MoveSecondaryIPMac (mkMoveReq (pn_VPCIP pn) mac (pn_MacAddress pn) (pn_SubnetID pn))) v1 = (o, v')).

(** The transfer of [pn] failed, and then putting it back ended in [b]. *)
Definition refused (c : ApiClient) pn (mac : string) s (b : bool) s' : Prop :=
  ∃ e s1, moved c pn mac (st_proc s) (Err e) (st_proc s1) ∧ putIpToPool pn s1 = (Ok b, s').

(** The contract of [lendIP]: either one address of the wanted pool, accepted by the VPC,
    is handed over with the borrower's MAC, or nothing changes, or, after a failed transfer,
    the address could not be put back. *)
Definition lend_post a (req : BorrowIPRequest) s (o : outcome PodNetwork) s' : Prop :=
  let sub := pool_of a (br_SubnetID req) in
  let c := srv_uapi (a_cfg a) in
  let mac := br_MacAddress req in
  (∃ k pn, o = Ok (pn_set_MacAddress mac pn) ∧ a_pool a sub !! k = Some pn ∧
     moved c pn mac (st_proc s) (Ok tt) (st_proc s') ∧
     rep s' (set_a_pool sub (delete k (a_pool a sub)) a)) ∨
  (∃ e, o = Err e ∧ rep s' a ∧
     (st_proc s' = st_proc s ∨ ∃ k pn, a_pool a sub !! k = Some pn ∧ refused c pn mac s true s')) ∨
  (∃ e k pn, o = Err e ∧ a_pool a sub !! k = Some pn ∧ refused c pn mac s false s' ∧
     rep s' (set_a_pool sub (delete k (a_pool a sub)) a)).

(** A call of [recycleCooldownIP]. *)
Definition recycle_call s s' : Prop :=
  (∃ o, in_db (db_List (T := CooldownItem) (db_handle CooldownDBName)) s = (o, s')) ∨
  (∃ o, in_proc Now s = (o, s')) ∨
  (∃ k o, in_db (db_Delete (T := CooldownItem) (db_handle CooldownDBName) k) s = (o, s')) ∨
  (∃ pn o, putIpToPool pn s = (o, s')).
(** Between [s] and [s'] one of its calls failed to put the address into a pool. *)
Definition put_failed_in s s' (pn : PodNetwork) : Prop :=
  ∃ s1 s2, rtc recycle_call s s1 ∧ putIpToPool pn s1 = (Ok false, s2) ∧ rtc recycle_call s2 s'.
(** The last of its calls was a listing or a deletion of the store that failed. *)
Definition broken_off s s' : Prop :=
  ∃ s1 e, rtc recycle_call s s1 ∧
    ((∃ k, in_db (db_Delete (T := CooldownItem) (db_handle CooldownDBName) k) s1 = (Err e, s')) ∨
     in_db (db_List (T := CooldownItem) (db_handle CooldownDBName)) s1 = (Err e, s')).

(** The contract of [recycleCooldownIP] with the clock reading [now]. *)
Definition recycle_post a (now : Z) s (o : outcome unit) s' : Prop :=
  o = Ok tt ∧ ∃ a', rep s' a' ∧
    a_net a' = a_net a ∧ a_old a' = a_old a ∧ a_k8s a' = a_k8s a ∧ a_cfg a' = a_cfg a ∧
    a_cool a' ⊆ a_cool a ∧
    (∀ k item, a_cool a !! k = Some item → now < cd_CooldownOver item →
       a_cool a' !! k = Some item) ∧
    (∀ sub k pn, a_pool a' sub !! k = Some pn →
       a_pool a sub !! k = Some pn ∨
       ∃ k' item, a_cool a !! k' = Some item ∧ cd_CooldownOver item ≤ now ∧
         pn = cd_Network item ∧ k = getReservedIPKey pn ∧ sub = pool_of a (pn_SubnetID pn)) ∧
    (∀ sub k, is_Some (a_pool a sub !! k) → is_Some (a_pool a' sub !! k)) ∧
    (∀ k item, a_cool a !! k = Some item → a_cool a' !! k = None →
       is_Some (a_pool a' (pool_of a (pn_SubnetID (cd_Network item)))
                  !! getReservedIPKey (cd_Network item)) ∨
       put_failed_in s s' (cd_Network item)) ∧
    ((∀ k item, a_cool a !! k = Some item → cd_CooldownOver item ≤ now → a_cool a' !! k = None) ∨
     broken_off s s').

(** The contract of [releasePool] on the pool of [sub]: it only removes entries, not
    below the high watermark; a removed address no longer exists in the VPC, with at
    most one exception (a failed deletion whose push back failed too); no other
    address of the VPC is deleted. *)
Definition release_post sub a s (high : Z) (o : outcome unit) s' : Prop :=
  o = Ok tt ∧ ∃ a', rep s' a' ∧ a_cool a' = a_cool a ∧ a_net a' = a_net a ∧ a_cfg a' = a_cfg a ∧
    (∀ sub', sub' ≠ sub → a_pool a' sub' = a_pool a sub') ∧
    a_pool a' sub ⊆ a_pool a sub ∧
    Z.min high (Z.of_nat (size (a_pool a sub))) ≤ Z.of_nat (size (a_pool a' sub)) ∧
    vpc_of s' ⊆ vpc_of s ∧
    (∀ ad, ad ∈ vpc_of s → ad ∉ vpc_of s' →
       ∃ k pn, a_pool a sub !! k = Some pn ∧ ad = addr_of (srv_uapi (a_cfg a)) pn) ∧
    ∃ lost : gset string, (size lost ≤ 1)%nat ∧
      ∀ k pn, a_pool a sub !! k = Some pn → a_pool a' sub !! k = None →
        addr_of (srv_uapi (a_cfg a)) pn ∉ vpc_of s' ∨ k ∈ lost.

(** What the migration makes of an entry of the old pool. *)
Definition migrated a (pn : PodNetwork) : PodNetwork :=
  pn_set_MacAddress (masterMacAddress (a_cfg a))
    (pn_set_SubnetID (ac_subnetId (srv_uapi (a_cfg a))) pn).

End defs.

(** ** A concrete server for the witnesses *)

Definition enc_map {T} `{Countable T} (m : gmap string T) : gmap string string :=
  (λ v, pos_to_bits (encode v)) <$> m.

(** A bolt file with the given pools, cooldown set and records. *)
Definition file_of (pools : gmap string (gmap string PodNetwork))
    (cool : gmap string CooldownItem) (net : gmap string PodNetwork)
    (faults : list (option error)) : mem_bolt :=
  mkMemBolt (<[NetworkDBName := enc_map net]> (<[CooldownDBName := enc_map cool]>
    (kmap pool_bucket (enc_map <$> pools)))) faults.

Definition demo_client : ApiClient :=
  mkApiClient "uhost-1" "cn-bj2-02" "uvnet-1" "subnet-a" "cn-bj2" "org-1" "".
Definition demo_server : ipamServer Bolt :=
  mkServer (mkBolt NetworkDBName) ∅ (mkBolt CooldownDBName) "node-1" "uhost-1" "cn-bj2-02"
    "52:54:00:01:02:03" "10.0.0.9:7312" demo_client 3 20 false 30.
Definition demo_meta : Metadata :=
  mkMetadata "cn-bj2" "uhost-1" "cn-bj2-02" "org-1"
    [mkMDIface "uni-1" "52:54:00:01:02:03" "subnet-a" "uvnet-1" true] "" [].
Definition demo_info (ip : string) : IpInfo :=
  mkIpInfo ip "52:54:00:01:02:03" "uvnet-1" "subnet-a" "10.0.0.1" "255.255.255.0".
Definition demo_world : world :=
  mkWorld 1000 ∅ (Some demo_meta) [demo_info "10.0.0.50"; demo_info "10.0.0.51"] ["10.0.0.60"]
    [] None [].
Definition demo_pn (ip : string) : PodNetwork :=
  mkPodNetwork "" "" "" "" "" ip "uvnet-1" "subnet-a" "10.0.0.1" "255.255.255.0"
    "52:54:00:01:02:03" false "" "" 900 0 false.
Definition demo_pools : gmap string (gmap string PodNetwork) :=
  {["subnet-a" := {["uvnet-1-10.0.0.50" := demo_pn "10.0.0.50"]}]}.
Definition demo_cool : gmap string CooldownItem :=
  {["uvnet-1-10.0.0.51" := mkCooldown (demo_pn "10.0.0.51") 990]}.
Definition demo_net : gmap string PodNetwork := ∅.
Definition demo_cluster : cluster := mkCluster [] [] ∅ ∅ [].

Definition demo_st (s : ipamServer Bolt) (pools : gmap string (gmap string PodNetwork))
    (cool : gmap string CooldownItem) (net : gmap string PodNetwork) (k : cluster) (w : world)
    : St Bolt mem_bolt cluster world :=
  mkSt s (file_of pools cool net []) k (mkProc w None false).
Definition demo_abs (s : ipamServer Bolt) (pools : gmap string (gmap string PodNetwork))
    (cool : gmap string CooldownItem) (net : gmap string PodNetwork) (k : cluster)
    : Abs Bolt cluster :=
  mkAbs s k (λ sub, default ∅ (pools !! sub)) cool net ∅.

(** ** Lemmas *)

Lemma enc_map_holds {T} `{Countable T} b (m : gmap string T) (d : mem_bolt) :
  mb_buckets d !! b = Some (enc_map m) → m !! "" = None → bolt_holds (mkBolt b) d m.
Proof.
  intros Hb Hblank. assert (∀ v : T, json_decode (pos_to_bits (encode v)) = Some v) as Hdec.
  { intros v. eapply json_decode_marshal. done. }
  exists (enc_map m). simpl. unfold mb_view. rewrite lookup_fmap, Hb. simpl. split_and!.
  - f_equal. apply delete_id. unfold enc_map. by rewrite lookup_fmap, Hblank.
  - intros k s. unfold enc_map. rewrite lookup_fmap. intros (v & _ & ->)%fmap_Some.
    rewrite Hdec. by eexists.
  - unfold enc_map. apply map_eq. intros i. rewrite lookup_omap, lookup_fmap.
    destruct (m !! i); simpl; [|done]. by rewrite Hdec.
Qed.

Definition no_blank {T} (m : gmap string T) : bool :=
  match m !! "" with None => true | Some _ => false end.

(** The concrete server represents its abstract state. *)
Lemma demo_rep s pools cool net k w :
  networkDB s = mkBolt NetworkDBName → cooldownDB s = mkBolt CooldownDBName →
  poolDB s = ∅ →
  bool_decide (map_Forall (λ _ p, no_blank p = true) pools) = true → no_blank cool = true →
  no_blank net = true →
  rep (demo_st s pools cool net k w) (demo_abs s pools cool net k).
Proof.
  intros H1 H2 H3 Hp%bool_decide_eq_true Hc Hn. unfold no_blank in *.
  assert (∀ b (m : gmap string string) d, mb_buckets d !! b = None → mb_view d !! b = None) as Hfresh.
  { intros b m d E. unfold mb_view. by rewrite lookup_fmap, E. }
  split; simpl; try done.
  - by destruct s; simpl in *; subst.
  - intros name h. by rewrite H3.
  - intros sub. unfold bucket_is; simpl. destruct (pools !! sub) as [p|] eqn:Es; simpl.
    + right. apply enc_map_holds; simpl.
      * rewrite !lookup_insert_ne by done.
        rewrite lookup_kmap by (intros ???; by apply pool_bucket_inj).
        by rewrite lookup_fmap, Es.
      * specialize (Hp _ _ Es). simpl in Hp. by destruct (p !! "").
    + left. split; [|done]. apply Hfresh; [exact ∅|]. simpl.
      rewrite !lookup_insert_ne by done.
      rewrite lookup_kmap by (intros ???; by apply pool_bucket_inj).
      by rewrite lookup_fmap, Es.
  - apply enc_map_holds; simpl.
    + rewrite lookup_insert_ne by done. by rewrite lookup_insert_eq.
    + by destruct (cool !! "").
  - apply enc_map_holds; simpl; [by rewrite lookup_insert_eq|]. by destruct (net !! "").
  - left. split; [|done]. apply Hfresh; [exact ∅|]. simpl.
    rewrite !lookup_insert_ne by done. apply lookup_kmap_None.
    { intros ???; by apply pool_bucket_inj. }
    intros sub Hsub. exfalso. unfold pool_bucket in Hsub. done.
Qed.

(** The same server once the pool of [sub] has been opened. *)
Definition demo_open (sub : string) (t : St Bolt mem_bolt cluster world) :
    St Bolt mem_bolt cluster world :=
  set_srv (set_poolDB {[pool_bucket sub := mkBolt (pool_bucket sub)]} (st_srv t)) t.

Lemma demo_open_rep sub t a :
  poolDB (st_srv t) = ∅ → rep t a → pool_open sub t a → rep (demo_open sub t) a.
Proof.
  intros H0 Hr Ho. pose proof (rep_register _ _ _ Hr Ho) as Hr'.
  unfold demo_open. by rewrite H0 in Hr'.
Qed.

Lemma demo_pool_open s pools cool net k w sub p :
  pools !! sub = Some p → no_blank p = true →
  pool_open sub (demo_st s pools cool net k w) (demo_abs s pools cool net k).
Proof.
  intros Hs Hn. unfold pool_open. simpl. rewrite Hs. simpl.
  apply enc_map_holds; simpl; [|unfold no_blank in Hn; by destruct (p !! "")].
  rewrite !lookup_insert_ne by done. rewrite lookup_kmap by (intros ???; by apply pool_bucket_inj).
  by rewrite lookup_fmap, Hs.
Qed.

Lemma demo_consistent s pools cool net k :
  let a := demo_abs s pools cool net k in
  bool_decide (map_Forall (λ sub p, map_Forall (λ k pn,
    k = getReservedIPKey pn ∧ pool_of a (pn_SubnetID pn) = sub) p) pools) = true →
  pool_consistent a.
Proof.
  intros a Hall%bool_decide_eq_true sub k' pn. simpl.
  destruct (pools !! sub) as [p|] eqn:Es; simpl; [|done]. apply (Hall _ _ Es).
Qed.

(** The concrete server, its abstract state, and the server with an open pool. *)
Definition demo0 : St Bolt mem_bolt cluster world :=
  demo_st demo_server demo_pools demo_cool demo_net demo_cluster demo_world.
Definition demo0_abs : Abs Bolt cluster :=
  demo_abs demo_server demo_pools demo_cool demo_net demo_cluster.
Definition demo1 : St Bolt mem_bolt cluster world := demo_open "subnet-a" demo0.

Lemma demo0_rep : rep demo0 demo0_abs.
Proof. apply demo_rep; vm_compute; reflexivity. Qed.
Lemma demo1_rep : rep demo1 demo0_abs.
Proof.
  apply demo_open_rep; [reflexivity|apply demo0_rep|].
  by eapply demo_pool_open.
Qed.
Lemma demo0_consistent : pool_consistent demo0_abs.
Proof. apply demo_consistent. vm_compute. reflexivity. Qed.

(** ** Theorems *)

Section props.
Context {H D K E : Type} `{!Database PodNetwork H D} `{!Database CooldownItem H D}
  `{!StoreFrame H D} `{!DatabaseLaws PodNetwork H D} `{!DatabaseLaws CooldownItem H D}
  `{!CloudApi E} `{!VpcLaws E}.
Implicit Types (s : St H D K E) (a : Abs H K).

Lemma pool_consistent_delete sub k a :
  pool_consistent a → pool_consistent (set_a_pool sub (delete k (a_pool a sub)) a).
Proof.
  intros Hc sub' k' pn. simpl. destruct (decide (sub' = sub)) as [->|].
  - rewrite fn_lookup_insert. intros [_ Hk]%lookup_delete_Some. by apply Hc.
  - rewrite fn_lookup_insert_ne by done. apply Hc.
Qed.

Lemma Move_moved pn mac s o s' :
  uapiMoveSecondaryIPMac pn mac s = (o, s') → returns o = true →
  moved (srv_uapi (st_srv s)) pn mac (st_proc s) o (st_proc s').
Proof.
  unfold uapiMoveSecondaryIPMac, server_VPCClient, in_proc, srv, zoom, moved.
  cbv [mbind M_bind gets]. simpl.
  destruct (VPCClient (srv_uapi (st_srv s)) (st_proc s)) as [[[]|e|w|] v1]; simpl; [|intros [= <- <-] _; left; by exists e|by intros [= <- <-]..].
  destruct (ext _ v1) as [o' v2] eqn:E2. intros [= <- <-] _. right. by exists v1.
Qed.

Lemma lendIP_spec req s a :
  rep s a → pool_consistent a → wp (lendIP req) (lend_post a req s) s.
Proof.
  intros Hr Hc. unfold lendIP. do 2 wp_step.
  wp_use getPool_spec as (Hr1 & Ep1 & [[-> Ho]|[e ->]]); [done| |]; wp_steps.
  2:{ right. left. eexists. split_and!; [done..|by left]. }
  wp_use pool_Pop_spec as (Ep2 & Hcase); [done|done|].
  destruct Hcase as [(k & pn & -> & Hk & Hr2 & _)|[(-> & _ & Hr2)|(e & -> & He & Hr2)]]; wp_steps;
    try (right; left; eexists; split_and!; [reflexivity|assumption|left; congruence]).
  pose proof (rep_uapi _ _ Hr2) as Eu. change (a_cfg (set_a_pool _ _ a)) with (a_cfg a) in Eu.
  eapply wp_proc; [apply leaves_Move|apply safe_Move|done|..].
  - intros [] s3 Em Hr3 _. wp_steps. left. exists k, pn. split_and!; try done.
    apply Move_moved in Em; [|done]. by rewrite Eu, Ep2, Ep1 in Em.
  - intros e s3 Em Hr3 _. wp_steps. destruct (Hc _ _ _ Hk) as [Ek Es].
    apply run_wp. intros o s4 Erun. apply Move_moved in Em; [|done]. rewrite Eu, Ep2, Ep1 in Em.
    destruct (wp_run _ _ _ _ _ (putIpToPool_spec pn s3 _ Hr3) Erun) as [[-> Hr4]|[-> Hr4]]; wp_steps.
    + right. left. eexists. rewrite a_put_back in Hr4 by done. split_and!; [done..|]. right.
      exists k, pn. split; [done|]. by exists e, s3.
    + right. right. eexists _, k, pn. split_and!; try done. by exists e, s3.
Qed.

(** C10: lendIP hands over exactly one address of the wanted pool with the MAC of the
    borrower, and only after the VPC accepted the transfer of that address from its MAC
    to that MAC; otherwise it fails and leaves every database as it was, an address is
    lost only when its transfer was refused and putting it back failed too. *)
Theorem lendIP_correct req s a :
  rep s a → pool_consistent a → wp (lendIP req) (lend_post a req s) s.
Proof. apply lendIP_spec. Qed.

Lemma release_loop_spec n sub s a :
  rep s a → pool_open sub s a → pool_consistent a → (n ≤ size (a_pool a sub))%nat →
  wp (release_loop n (db_handle (pool_bucket sub)))
    (release_post sub a s (Z.of_nat (size (a_pool a sub) - n))) s.
Proof.
  revert s a. induction n as [|n IH]; intros s a Hr Ho Hc Hn; simpl.
  { wp_steps. split; [done|]. exists a. split_and!; try done; try lia; try set_solver.
    exists ∅. split; [by rewrite size_empty; lia|]. intros k pn E1 E2. congruence. }
  do 2 wp_step. wp_use pool_Pop_spec as (Ep & Hcase); [done|done|].
  assert (∀ s', st_proc s' = st_proc s → rep s' a → release_post sub a s
            (Z.of_nat (size (a_pool a sub) - S n)) (Ok tt) s') as Hstop.
  { intros s' Ep' Hr'. unfold release_post, vpc_of. rewrite Ep'. split; [done|]. exists a.
    split_and!; try done; try lia; try set_solver.
    exists ∅. split; [by rewrite size_empty; lia|]. intros k pn E1 E2. congruence. }
  destruct Hcase as [(k & pn & -> & Hk & Hr1 & Ho1)|[(-> & _ & Hr1)|(e & -> & He & Hr1)]]; wp_steps;
    [|by apply Hstop..].
  set (a1 := set_a_pool _ _ a) in *.
  assert (a_pool a1 sub = delete k (a_pool a sub)) as Ea1 by apply fn_lookup_insert.
  assert (size (a_pool a1 sub) = (size (a_pool a sub) - 1)%nat) as Hsz.
  { rewrite Ea1. rewrite map_size_delete, Hk; lia. }
  assert (∀ sub', sub' ≠ sub → a_pool a1 sub' = a_pool a sub') as Eo.
  { intros sub' Hne. by apply fn_lookup_insert_ne. }
  assert (vpc_of st = vpc_of s) as Ev by (unfold vpc_of; by rewrite Ep).
  eapply wp_mono; [apply uapiDeleteSecondaryIp_spec|]. intros o s2 (Hp2 & Hlow & Hup & Hdel).
  rewrite (rep_uapi _ _ Hr1) in Hlow, Hdel. change (a_cfg a1) with (a_cfg a) in Hlow, Hdel.
  assert (rep s2 a1) as Hr2 by (by eapply rep_proc).
  destruct o as [[]|e| |]; try done; wp_steps.
  - assert (pool_open sub s2 a1) as Ho2 by (by eapply pool_open_proc).
    eapply wp_mono; [apply IH; [done|done|by apply pool_consistent_delete|lia]|].
    intros o s3 (-> & a' & Hr3 & Hcool & Hnet & Hcfg & Hoth & Hsub & Hmin & Hvup & Hvlow & lost & Hl & Hlost).
    split; [done|]. exists a'. change (a_cfg a1) with (a_cfg a) in *.
    rewrite Ea1 in Hsub, Hlost, Hvlow.
    split_and!; try done.
    + intros sub' Hne. rewrite Hoth, Eo; done.
    + etrans; [apply Hsub|]. apply delete_subseteq.
    + rewrite Hsz in Hmin. lia.
    + rewrite <- Ev. by etrans.
    + intros ad Had Hnad. destruct (decide (ad ∈ vpc_of s2)) as [Hin|Hnin].
      * destruct (Hvlow ad Hin Hnad) as (k' & pn' & [_ ?]%lookup_delete_Some & ->). by exists k', pn'.
      * exists k, pn. split; [done|]. rewrite Ev in Hlow.
        destruct (decide (ad = addr_of (srv_uapi (a_cfg a)) pn)) as [|Hne]; [done|]. set_solver.
    + exists lost. split; [done|]. intros k' pn' Hk' Hk'n.
      destruct (decide (k' = k)) as [->|Hne].
      * simplify_eq. left. set_solver.
      * apply Hlost; [|done]. by rewrite lookup_delete_ne.
  - destruct (Hc _ _ _ Hk) as [Ek Es].
    wp_use backupPush_spec as (-> & Ep3 & Hcase); [done|].
    assert (vpc_of st0 = vpc_of s2) as Ev3 by (unfold vpc_of; by rewrite Ep3).
    split; [done|]. rewrite <- Ev in *.
    assert (∀ ad, ad ∈ vpc_of st → ad ∉ vpc_of st0 →
      ∃ k pn, a_pool a sub !! k = Some pn ∧ ad = addr_of (srv_uapi (a_cfg a)) pn) as Hdele.
    { intros ad Had Hnad. exists k, pn. split; [done|]. rewrite Ev3 in Hnad.
      destruct (decide (ad = addr_of (srv_uapi (a_cfg a)) pn)) as [|Hne]; [done|]. set_solver. }
    destruct Hcase as [Hr3|Hr3].
    + exists a. unfold a1 in Hr3. rewrite a_put_back in Hr3 by done.
      split_and!; try done; try lia; [by rewrite Ev3|]. exists ∅. split; [by rewrite size_empty; lia|].
      intros k' pn' E1 E2. congruence.
    + exists a1. split_and!; try done; try lia.
      * rewrite Ea1. apply delete_subseteq.
      * by rewrite Ev3.
      * exists {[k]}. split; [by rewrite size_singleton|]. intros k' pn' E1 E2. right.
        rewrite Ea1 in E2. apply lookup_delete_None in E2. set_solver.
Qed.

(** C11: releasePool never brings a pool below the smaller of its size and the high
    watermark, touches no other pool, cooldown item or record, deletes in the VPC only
    addresses of that pool, and every address that left the pool, one at most excepted,
    no longer exists in the VPC. *)
Theorem releasePool_correct sub size s a :
  rep s a → pool_open sub s a → pool_consistent a →
  size = Z.of_nat (base.size (a_pool a sub)) → 0 ≤ AvailablePodIPHighWatermark (a_cfg a) →
  wp (releasePool (db_handle (pool_bucket sub)) size)
    (release_post sub a s (AvailablePodIPHighWatermark (a_cfg a))) s.
Proof.
  intros Hr Ho Hc -> Hh. unfold releasePool. wp_step. apply wp_srv. cbn [kont].
  rewrite (rep_field AvailablePodIPHighWatermark s a) by done.
  set (high := AvailablePodIPHighWatermark (a_cfg a)) in *.
  eapply wp_mono; [apply release_loop_spec; [done..|lia]|].
  intros o s' (-> & a' & Hpost). split; [done|]. exists a'.
  destruct Hpost as (?&?&?&?&?&?&?&?&?&?). split_and!; first [assumption|lia].
Qed.

(** *** The cooldown set *)

Lemma rep_cooldownDB s a : rep s a → cooldownDB (st_srv s) = db_handle CooldownDBName.
Proof. intros Hr. rewrite (rep_field cooldownDB s a) by done. apply Hr. Qed.
Lemma rep_networkDB s a : rep s a → networkDB (st_srv s) = db_handle NetworkDBName.
Proof. intros Hr. rewrite (rep_field networkDB s a) by done. apply Hr. Qed.

Lemma rep_cool_id s a d' :
  rep s a → only_touches (db_handle CooldownDBName) (st_db s) d' →
  db_holds (db_handle CooldownDBName) d' (a_cool a) → rep (set_db d' s) a.
Proof.
  intros. replace a with (set_a_cool (a_cool a) a) by (by destruct a). by apply rep_set_cool.
Qed.

(** What one run over the listed items can do to the abstract state: an expired
    item leaves the cooldown set and goes to its pool, or is not put. *)
Inductive recycled (now : Z) (F : PodNetwork → Prop) : Abs H K → Abs H K → Prop :=
| recycled_done a : recycled now F a a
| recycled_put k item a a' :
    a_cool a !! k = Some item → cd_CooldownOver item ≤ now →
    recycled now F (a_put (cd_Network item) (set_a_cool (delete k (a_cool a)) a)) a' →
    recycled now F a a'
| recycled_failed k item a a' :
    a_cool a !! k = Some item → cd_CooldownOver item ≤ now → F (cd_Network item) →
    recycled now F (set_a_cool (delete k (a_cool a)) a) a' →
    recycled now F a a'.

Lemma recycled_mono now (F F' : PodNetwork → Prop) a a' :
  (∀ pn, F pn → F' pn) → recycled now F a a' → recycled now F' a a'.
Proof.
  intros HF. induction 1 as [a|k item a a' Hk Ho _ IH|k item a a' Hk Ho Hf _ IH].
  - apply recycled_done.
  - by eapply recycled_put.
  - eapply recycled_failed; eauto.
Qed.
Lemma recycled_cool now F a a' : recycled now F a a' → a_cool a' ⊆ a_cool a.
Proof.
  induction 1 as [a|k item a a' _ _ _ IH|k item a a' _ _ _ _ IH]; [done|..];
    (etrans; [exact IH|apply delete_subseteq]).
Qed.

(** What a run over items that began in [s] with [a] leaves. *)
Definition items_post (now : Z) (kvs : list (KeyValue CooldownItem)) s a s' : Prop :=
  rtc recycle_call s s' ∧ ∃ a', rep s' a' ∧ recycled now (put_failed_in s s') a a' ∧
    ((∀ kv, kv ∈ kvs → cd_CooldownOver (kv_Value kv) ≤ now → a_cool a' !! kv_Key kv = None) ∨ broken_off s s').

(** A first item that is over, deleted, and put or not. *)
Lemma items_post_step now kv kvs s s1 s2 s' a a2 b :
  (∃ o, in_db (db_Delete (T := CooldownItem) (db_handle CooldownDBName) (kv_Key kv)) s = (o, s1)) →
  putIpToPool (cd_Network (kv_Value kv)) s1 = (Ok b, s2) → a_cool a2 !! kv_Key kv = None →
  (∀ a', recycled now (put_failed_in s s') a2 a' → (b = true ∨ put_failed_in s s' (cd_Network (kv_Value kv))) →
     recycled now (put_failed_in s s') a a') →
  items_post now kvs s2 a2 s' → items_post now (kv :: kvs) s a s'.
Proof.
  intros [o Hd] Hp Hk Hrec (Hrun & a' & Hr & Ha & Hend).
  assert (rtc recycle_call s s1) as R1 by (apply rtc_once; right; right; left; by eexists _, _).
  assert (rtc recycle_call s s2) as R2.
  { eapply rtc_r; [exact R1|]. right. right. right. by eexists _, _. }
  split; [by etrans|]. exists a'. split; [done|]. split.
  - apply Hrec.
    + eapply recycled_mono; [|exact Ha]. intros pn (s3 & s4 & R3 & Ep & R4). exists s3, s4. split_and!; [by etrans|done..].
    + destruct b; [by left|right]. by exists s1, s2.
  - destruct Hend as [Hend|(s3 & e & R3 & Ep)]; [left|right; exists s3, e; split; [by etrans|done]].
    intros kv' [->|Hin]%elem_of_cons Hle; [|by apply Hend].
    destruct (a_cool a' !! kv_Key kv) eqn:Ek; [|done]. apply recycled_cool in Ha.
    pose proof (lookup_weaken _ _ _ _ Ek Ha). congruence.
Qed.

Lemma recycle_items_spec now kvs s a :
  rep s a → NoDup (kv_Key <$> kvs) →
  (∀ kv, kv ∈ kvs → a_cool a !! kv_Key kv = Some (kv_Value kv)) →
  wp (recycle_items now kvs) (λ o s', o = Ok tt ∧ items_post now kvs s a s') s.
Proof.
  revert s a. induction kvs as [|kv kvs IH]; intros s a Hr Hnd Hin; simpl.
  { wp_steps. split; [done|]. split; [done|]. exists a. split_and!; [done|apply recycled_done|left].
    by intros kv ?%elem_of_nil. }
  rewrite fmap_cons in Hnd. apply NoDup_cons in Hnd as [Hnin Hnd].
  assert (∀ kv', kv' ∈ kvs → a_cool a !! kv_Key kv' = Some (kv_Value kv')) as Hin'.
  { intros kv' ?. apply Hin. by apply list_elem_of_further. }
  destruct (Z.leb_spec (cd_CooldownOver (kv_Value kv)) now) as [Hle|Hlt].
  2:{ eapply wp_mono; [by apply IH|]. intros o s' (-> & Hrun & a' & Hr' & Ha & Hend). split; [done|].
      split; [done|]. exists a'. split_and!; [done..|]. destruct Hend as [Hend|]; [left|by right].
      intros kv' [->|?]%elem_of_cons ?; [lia|by apply Hend]. }
  specialize (Hin kv (list_elem_of_here _ _)).
  wp_step. apply wp_srv. cbn [kont]. rewrite (rep_cooldownDB _ _ Hr).
  do 2 wp_step. apply run_wp. intros o s1 Edel.
  destruct (in_db_run _ _ _ _ _ (db_Delete_law _ _ _ _ (rep_cool _ _ Hr)) Edel) as (d' & -> & Ht & [[-> Hd]|(e & -> & Hd)]);
    wp_steps.
  2:{ split; [done|]. split; [apply rtc_once; right; right; left; by eexists _, _|].
      exists a. split_and!; [by apply rep_cool_id|apply recycled_done|right]. exists s, e. split; [done|]. left. by eexists. }
  set (a1 := set_a_cool (delete (kv_Key kv) (a_cool a)) a).
  assert (rep (set_db d' s) a1) as Hr1 by (by apply rep_set_cool).
  assert (∀ kv', kv' ∈ kvs → a_cool a1 !! kv_Key kv' = Some (kv_Value kv')) as Hin1.
  { intros kv' Hkv'. simpl. rewrite lookup_delete_ne; [by apply Hin'|].
    intros Heq. apply Hnin. rewrite Heq. by apply list_elem_of_fmap_2. }
  apply run_wp. intros o s2 Erun.
  assert (a_cool a1 !! kv_Key kv = None) as Hgone by apply lookup_delete_eq.
  destruct (wp_run _ _ _ _ _ (putIpToPool_spec _ _ _ Hr1) Erun) as [[-> Hr2]|[-> Hr2]]; wp_steps;
    (eapply wp_mono; [by apply (IH _ _ Hr2)|]); intros o s3 [-> Hend]; (split; [done|]);
    (eapply items_post_step; [by eexists|exact Erun| | |exact Hend]; [exact Hgone|]); intros a' Hrec Hb.
  - by eapply recycled_put.
  - destruct Hb as [|Hb]; [done|]. by eapply recycled_failed.
Qed.

(** One put changes one entry of one pool. *)
Lemma a_put_lookup pn a sub k :
  a_pool (a_put pn a) sub !! k =
  if decide (sub = pool_of a (pn_SubnetID pn) ∧ k = getReservedIPKey pn) then Some pn
  else a_pool a sub !! k.
Proof.
  unfold a_put. simpl. set (sub0 := pool_of a (pn_SubnetID pn)).
  destruct (decide (sub0 = sub)) as [<-|Hne].
  - rewrite fn_lookup_insert, lookup_insert. repeat case_decide; naive_solver.
  - rewrite fn_lookup_insert_ne by done. case_decide; naive_solver.
Qed.

Lemma recycled_facts now F a a' :
  recycled now F a a' →
  a_net a' = a_net a ∧ a_old a' = a_old a ∧ a_k8s a' = a_k8s a ∧ a_cfg a' = a_cfg a ∧
  a_cool a' ⊆ a_cool a ∧
  (∀ k item, a_cool a !! k = Some item → now < cd_CooldownOver item →
     a_cool a' !! k = Some item) ∧
  (∀ sub k pn, a_pool a' sub !! k = Some pn →
     a_pool a sub !! k = Some pn ∨
     ∃ k' item, a_cool a !! k' = Some item ∧ cd_CooldownOver item ≤ now ∧
       pn = cd_Network item ∧ k = getReservedIPKey pn ∧ sub = pool_of a (pn_SubnetID pn)) ∧
  (∀ sub k, is_Some (a_pool a sub !! k) → is_Some (a_pool a' sub !! k)) ∧
  (∀ k item, a_cool a !! k = Some item → a_cool a' !! k = None →
     is_Some (a_pool a' (pool_of a (pn_SubnetID (cd_Network item)))
                !! getReservedIPKey (cd_Network item)) ∨ F (cd_Network item)).
Proof.
  induction 1 as [a|k item a a' Hk Hover Hrec IH|k item a a' Hk Hover Hf Hrec IH].
  - split_and!; try done; [by left|]. intros k item E1 E2. congruence.
  - destruct IH as (?&?&?&?& Hsub & Hkeep & Hnew & Hmono & Hgone). split_and!; try done.
    + etrans; [done|]. apply delete_subseteq.
    + intros k' item' Hk' Hlt. apply Hkeep; [|done]. simpl.
      rewrite lookup_delete_ne; [done|]. intros ->. simplify_eq. lia.
    + intros sub k' pn Hp. destruct (Hnew _ _ _ Hp) as [Hp'|(k2 & i2 & Hk2 & ?)].
      * rewrite a_put_lookup in Hp'. case_decide as Hd; [|by left]. simplify_eq.
        destruct Hd as [-> ->]. right. by exists k, item.
      * right. exists k2, i2. simpl in Hk2. apply lookup_delete_Some in Hk2 as [_ ?]. done.
    + intros sub k' Hp. apply Hmono. rewrite a_put_lookup. case_decide; [by eexists|done].
    + intros k' item' Hk' Hn. destruct (decide (k' = k)) as [->|Hne].
      * simplify_eq. left. apply Hmono. rewrite a_put_lookup.
        rewrite decide_True by done. by eexists.
      * apply (Hgone k'); [|done]. simpl. by rewrite lookup_delete_ne.
  - destruct IH as (?&?&?&?& Hsub & Hkeep & Hnew & Hmono & Hgone). split_and!; try done.
    + etrans; [done|]. apply delete_subseteq.
    + intros k' item' Hk' Hlt. apply Hkeep; [|done]. simpl.
      rewrite lookup_delete_ne; [done|]. intros ->. simplify_eq. lia.
    + intros sub k' pn Hp. destruct (Hnew _ _ _ Hp) as [Hp'|(k2 & i2 & Hk2 & ?)]; [by left|].
      right. exists k2, i2. simpl in Hk2. apply lookup_delete_Some in Hk2 as [_ ?]. done.
    + intros k' item' Hk' Hn. destruct (decide (k' = k)) as [->|Hne]; [simplify_eq; by right|].
      apply (Hgone k'); [|done]. simpl. by rewrite lookup_delete_ne.
Qed.

Lemma wp_Now (Q : outcome Z → St H D K E → Prop) s :
  (let '(now, e) := ext_Now (proc_ext (st_proc s)) in
   Q (Ok now) (set_proc (set_ext e (st_proc s)) s)) →
  wp (in_proc Now) Q s.
Proof.
  unfold wp, in_proc, Now, ext_total, zoom. by destruct (ext_Now (proc_ext (st_proc s))).
Qed.

Lemma recycleCooldownIP_spec s a :
  rep s a →
  wp recycleCooldownIP (λ o s', o = Ok tt ∧ ∃ a', rep s' a' ∧
    recycled (ext_Now (proc_ext (st_proc s))).1 (put_failed_in s s') a a' ∧
    ((∀ k item, a_cool a !! k = Some item → cd_CooldownOver item ≤ (ext_Now (proc_ext (st_proc s))).1 →
        a_cool a' !! k = None) ∨ broken_off s s')) s.
Proof.
  intros Hr. unfold recycleCooldownIP. wp_step. apply wp_srv. cbn [kont].
  rewrite (rep_cooldownDB _ _ Hr). do 2 wp_step. apply run_wp. intros o s1 El.
  destruct (in_db_run _ _ _ _ _ (db_List_law _ _ _ (rep_cool _ _ Hr)) El) as (d' & -> & Ht & Hd & Hcase).
  assert (rep (set_db d' s) a) as Hr1 by (by apply rep_cool_id).
  assert (rtc recycle_call s (set_db d' s)) as R1 by (apply rtc_once; left; by eexists).
  destruct Hcase as [(kvs & -> & Hp)|[e ->]]; wp_steps.
  2:{ split; [done|]. exists a. split_and!; [done|apply recycled_done|right]. exists s, e. split; [done|by right]. }
  apply run_wp. intros o s2 En. assert (∃ now e, ext_Now (proc_ext (st_proc s)) = (now, e) ∧ o = Ok now ∧
    s2 = set_proc (set_ext e (st_proc s)) (set_db d' s)) as (now & e & Enow & -> & ->).
  { revert En. unfold in_proc, Now, ext_total, zoom. simpl. destruct (ext_Now _) as [now e]. intros [= <- <-]. by eexists _, _. }
  cbn [kont]. rewrite Enow. simpl. set (s2 := set_proc _ _) in *.
  assert (rtc recycle_call s s2) as R2 by (eapply rtc_r; [exact R1|]; right; left; by eexists).
  assert (∀ kv, kv ∈ kvs ↔ a_cool a !! kv_Key kv = Some (kv_Value kv)) as Hin.
  { intros [k v]. rewrite <- elem_of_map_to_list, <- Hp, list_elem_of_fmap. split.
    - intros ?. by exists (mkKV k v).
    - intros ([k' v'] & [= -> ->] & ?). done. }
  eapply wp_mono; [apply (recycle_items_spec now kvs s2 a)|].
  - eapply rep_proc; [|exact Hr1]. done.
  - assert (kv_Key <$> kvs = ((λ kv, (kv_Key kv, kv_Value kv)) <$> kvs).*1) as ->
      by (by rewrite <- list_fmap_compose). rewrite Hp. apply NoDup_fst_map_to_list.
  - intros kv. apply Hin.
  - intros o s3 (-> & _ & a' & Hr3 & Hrec & Hend). split; [done|]. exists a'. split; [done|]. split.
    + eapply recycled_mono; [|exact Hrec]. intros pn (s4 & s5 & R3 & Ep & R4). exists s4, s5. split_and!; [by etrans|done..].
    + destruct Hend as [Hend|(s4 & e' & R3 & Ep)]; [left|right; exists s4, e'; split; [by etrans|done]].
      intros k item Hk Hle. by apply (Hend (mkKV k item)), Hle; apply Hin.
Qed.

(** C12: recycleCooldownIP keeps every cooldown item that is not over and takes every
    other one out of the cooldown set, unless a listing or deletion of the store broke
    it off; each address taken out is then in the pool of its subnet under its own key,
    unless this run failed to put it there; nothing else enters a pool and no pooled key
    is lost. *)
Theorem recycleCooldownIP_correct s a :
  rep s a →
  wp recycleCooldownIP (recycle_post a (ext_Now (proc_ext (st_proc s))).1 s) s.
Proof.
  intros Hr. eapply wp_mono; [by apply recycleCooldownIP_spec|].
  intros o s' (-> & a' & Hr' & Hrec & Hend). split; [done|]. exists a'. split; [done|].
  destruct (recycled_facts _ _ _ _ Hrec) as (?&?&?&?&?&?&?&?&?). split_and!; done.
Qed.

Lemma pool_consistent_put pn a : pool_consistent a → pool_consistent (a_put pn a).
Proof.
  intros Hc sub k pn'. rewrite a_put_lookup. case_decide as Hd; [|apply Hc].
  intros [= <-]. by destruct Hd as [-> ->].
Qed.

Lemma recycled_consistent now F a a' :
  recycled now F a a' → pool_consistent a →
  pool_consistent a' ∧ a_cfg a' = a_cfg a ∧ a_net a' = a_net a.
Proof.
  induction 1 as [|k item a a' _ _ _ IH|k item a a' _ _ _ _ IH]; intros Hc; [done| |by apply IH].
  apply IH. by apply pool_consistent_put.
Qed.

(** *** The migration of the v1 pool *)

Lemma pool_old_ne sub : db_handle (H := H) (D := D) PoolDBName ≠ db_handle (pool_bucket sub).
Proof. apply handle_ne. unfold pool_bucket. done. Qed.

Lemma migrate_loop_spec fuel s a :
  let sub := pool_of a "" in
  rep s a → pool_open sub s a → db_holds (db_handle PoolDBName) (st_db s) (a_old a) →
  (size (a_old a) < fuel)%nat →
  wp (migrate_loop fuel (db_handle PoolDBName) (db_handle (pool_bucket sub))
        (ac_subnetId (srv_uapi (a_cfg a))) (masterMacAddress (a_cfg a)))
    (λ o s',
      (o = Ok tt ∧ rep s' (set_a_old ∅ (set_a_pool sub ((migrated a <$> a_old a) ∪ a_pool a sub) a))) ∨
      (∃ e, o = Err e)) s.
Proof.
  intros sub. subst sub. revert s a.
  induction fuel as [|fuel IH]; intros s a Hr Ho Hold Hf; [lia|]. set (sub := pool_of a "") in *.
  simpl. do 2 wp_step. apply wp_in_db. eapply wp_mono; [by apply db_Pop_law|].
  intros o d' [Ht Hc].
  destruct Hc as [(k & v & -> & Hk & Hd)|[(-> & Hm & Hd)|(e & -> & He & Hd)]]; wp_steps.
  - assert (rep (set_db d' s) (set_a_old (delete k (a_old a)) a)) as Hr1
      by (apply rep_set_old; [done..|by right]).
    assert (pool_open sub (set_db d' s) (set_a_old (delete k (a_old a)) a)) as Ho1.
    { unfold pool_open. simpl. eapply db_holds_frame; [apply Ht|apply pool_old_ne|done]. }
    fold (migrated a v). apply wp_in_db. eapply wp_mono; [by apply db_Put_law|].
    intros o d2 [Ht2 [[-> Hd2]|(e & -> & _)]]; wp_steps; [|right; by eexists].
    set (a1 := set_a_old (delete k (a_old a)) a) in *.
    set (p2 := <[k := migrated a v]> (a_pool a1 sub)) in *.
    assert (rep (set_db d2 (set_db d' s)) (set_a_pool sub p2 a1)) as Hr2 by (by apply rep_set_pool).
    assert (db_holds (db_handle PoolDBName) d2 (delete k (a_old a))) as Hold2.
    { eapply db_holds_frame; [exact Ht2|symmetry; apply pool_old_ne|done]. }
    eapply wp_mono; [apply (IH _ _ Hr2); [by apply pool_open_set|done|]|].
    + simpl. rewrite map_size_delete, Hk. assert (size (a_old a) ≠ 0%nat); [|lia].
      intros E0%map_size_empty_inv. by rewrite E0 in Hk.
    + intros o s' [[-> Hr3]|?]; [left|by right]. split; [done|].
      eapply rep_proper; [reflexivity| |exact Hr3].
      split_and!; try done. intros x. simpl. change (pool_of (set_a_pool sub p2 a1) "") with sub.
      destruct (decide (sub = x)) as [<-|Hne]; [|by rewrite !fn_lookup_insert_ne].
      rewrite !fn_lookup_insert. subst p2. simpl.
      change (migrated (set_a_pool _ _ a1)) with (migrated a).
      rewrite fmap_delete. symmetry. apply map_eq. intros i.
      destruct (decide (i = k)) as [->|Hi].
      * by rewrite lookup_union, lookup_delete_eq, lookup_insert_eq, lookup_union, lookup_fmap, Hk;
          destruct (a_pool a sub !! k).
      * by rewrite !lookup_union, lookup_delete_ne, lookup_insert_ne by done.
  - left. split; [done|]. eapply rep_proper; [reflexivity| |eapply (rep_set_old _ _ _ ∅ Hr Ht)].
    + split_and!; try done. intros x. simpl. rewrite Hm, fmap_empty, (left_id_L ∅ (∪)).
      destruct (decide (sub = x)) as [<-|]; [by rewrite fn_lookup_insert|].
      by rewrite fn_lookup_insert_ne.
    + right. by rewrite Hm in Hd.
  - done.
  - congruence.
  - right. by eexists.
Qed.

Lemma migrateV1BoltDB_spec fuel s a :
  rep s a → (size (a_old a) < fuel)%nat →
  wp (migrateV1BoltDB fuel) (λ o s',
    (o = Ok tt ∧ rep s' (set_a_old ∅ (set_a_pool (pool_of a "")
       ((migrated a <$> a_old a) ∪ a_pool a (pool_of a "")) a))) ∨
    (∃ e, o = Err e)) s.
Proof.
  intros Hr Hf. unfold migrateV1BoltDB. do 2 wp_step. apply wp_in_db.
  eapply wp_mono; [apply db_New_law|]. intros o d' (Ht & Hkeep & Hcase).
  destruct Hcase as [[-> Hnew]|(e & -> & _)]; wp_steps; [|right; by eexists].
  assert (db_holds (db_handle PoolDBName) d' (a_old a)) as Hold.
  { destruct (rep_old _ _ Hr) as [[Hfr ->]|?]; eauto. }
  assert (rep (set_db d' s) a) as Hr1.
  { replace a with (set_a_old (a_old a) a) by (by destruct a). apply rep_set_old; [done..|by right]. }
  apply wp_srv. cbn [kont]. rewrite (rep_uapi _ _ Hr1). wp_step. apply wp_srv. cbn [kont].
  rewrite (rep_field masterMacAddress (set_db d' s) a) by done.
  wp_step. apply wp_in_db. eapply wp_mono; [by apply db_Count_law|].
  intros o d2 (Ht2 & Hd2 & [->|[e ->]]); cbn [kont]; [|right; by eexists].
  assert (rep (set_db d2 (set_db d' s)) a) as Hr2.
  { replace a with (set_a_old (a_old a) a) by (by destruct a). apply rep_set_old; [done..|by right]. }
  destruct (Z.eqb_spec (Z.of_nat (size (a_old a))) 0) as [Hz|Hz]; wp_steps.
  - left. split; [done|]. eapply rep_proper; [reflexivity| |exact Hr2].
    assert (a_old a = ∅) as -> by (apply map_size_empty_inv; lia).
    split_and!; try done; [|simpl; symmetry; apply map_size_empty_inv; lia].
    intros x. simpl. rewrite fmap_empty, (left_id_L ∅ (∪)).
    destruct (decide (pool_of a "" = x)) as [<-|]; [by rewrite fn_lookup_insert|].
    by rewrite fn_lookup_insert_ne.
  - apply run_wp. intros o s3 Erun.
    destruct (wp_run _ _ _ _ _ (getPool_spec "" true _ _ Hr2) Erun) as (Hr3 & _ & [[-> Ho]|[e ->]]);
      wp_steps; [|right; by eexists].
    eapply wp_mono; [apply migrate_loop_spec; [done|done| |done]|done].
    destruct (rep_old _ _ Hr3) as [[_ E0]|?]; [|done]. by rewrite E0, map_size_empty in Hz.
Qed.

(** C14: With more fuel than there are old addresses the migration of the v1 database
    comes to an end, either with an error or with the old database empty and every
    address of it in the pool of the default subnet, filled in with that subnet and the
    MAC of the node. *)
Theorem migrateV1BoltDB_correct fuel s a :
  rep s a → (size (a_old a) < fuel)%nat →
  wp (migrateV1BoltDB fuel) (λ o s',
    (o = Ok tt ∧ rep s' (set_a_old ∅ (set_a_pool (pool_of a "")
       ((migrated a <$> a_old a) ∪ a_pool a (pool_of a "")) a))) ∨
    (∃ e, o = Err e)) s.
Proof. apply migrateV1BoltDB_spec. Qed.
End props.

(** ** Witnesses *)

Definition demo_borrow : BorrowIPRequest := mkBorrowReq "52:54:00:FF:FF:FF" "subnet-a".

Lemma lendIP_witness :
  wp (lendIP demo_borrow) (lend_post demo0_abs demo_borrow demo1) demo1 ∧
  (lendIP demo_borrow demo1).1 = Ok (pn_set_MacAddress "52:54:00:FF:FF:FF" (demo_pn "10.0.0.50")).
Proof.
  split; [|vm_compute; reflexivity].
  apply (lendIP_correct demo_borrow demo1 demo0_abs); [apply demo1_rep|apply demo0_consistent].
Defined.

Lemma recycleCooldownIP_witness :
  wp recycleCooldownIP (recycle_post demo0_abs (ext_Now (proc_ext (st_proc demo0))).1 demo0) demo0 ∧
  (recycleCooldownIP demo0).1 = Ok tt ∧
  bolt_get (pool_bucket "subnet-a") "uvnet-1-10.0.0.51" (st_db (recycleCooldownIP demo0).2) ≠ None.
Proof.
  split; [|split; [vm_compute; reflexivity|vm_compute; discriminate]].
  apply (recycleCooldownIP_correct demo0 demo0_abs). apply demo0_rep.
Defined.

(** A server that is to keep no address in its pool. *)
Definition demo_low : St Bolt mem_bolt cluster world :=
  demo_open "subnet-a" (demo_st
    (mkServer (mkBolt NetworkDBName) ∅ (mkBolt CooldownDBName) "node-1" "uhost-1" "cn-bj2-02"
       "52:54:00:01:02:03" "10.0.0.9:7312" demo_client 0 0 false 30)
    demo_pools demo_cool demo_net demo_cluster demo_world).
Definition demo_low_abs : Abs Bolt cluster :=
  mkAbs (set_poolDB ∅ (st_srv demo_low)) demo_cluster (λ sub, default ∅ (demo_pools !! sub))
    demo_cool demo_net ∅.

Lemma demo_low_rep : rep demo_low demo_low_abs.
Proof.
  apply demo_open_rep; [reflexivity|apply demo_rep; vm_compute; reflexivity|].
  by eapply demo_pool_open.
Qed.

Lemma releasePool_witness :
  wp (releasePool (db_handle (pool_bucket "subnet-a")) 1)
    (release_post "subnet-a" demo_low_abs demo_low
       (AvailablePodIPHighWatermark (a_cfg demo_low_abs))) demo_low ∧
  bolt_keyN (pool_bucket "subnet-a")
    (st_db (releasePool (mkBolt (pool_bucket "subnet-a")) 1 demo_low).2) = 0.
Proof.
  split; [|vm_compute; reflexivity].
  apply (releasePool_correct "subnet-a" 1 demo_low demo_low_abs).
  - apply demo_low_rep.
  - by eapply demo_pool_open.
  - apply demo_consistent. vm_compute. reflexivity.
  - vm_compute. reflexivity.
  - vm_compute. discriminate.
Defined.

(** A server whose file still has the v1 pool. *)
Definition demo_old : gmap string PodNetwork :=
  {["uvnet-1-10.0.0.52" := pn_set_MacAddress "" (pn_set_SubnetID "" (demo_pn "10.0.0.52"))]}.
Definition demo_v1 : St Bolt mem_bolt cluster world :=
  set_db (mkMemBolt (<[PoolDBName := enc_map demo_old]> (mb_buckets (st_db demo0))) []) demo0.

Lemma demo_v1_rep : rep demo_v1 (set_a_old demo_old demo0_abs).
Proof.
  apply rep_set_old; [apply demo0_rep| |].
  - intros b Hb. unfold demo_v1. simpl. unfold mb_view. simpl in Hb.
    rewrite !lookup_fmap. simpl. by rewrite lookup_insert_ne.
  - right. apply enc_map_holds; [|reflexivity]. simpl. by rewrite lookup_insert_eq.
Qed.

Lemma migrateV1BoltDB_witness :
  (size demo_old < 2)%nat ∧
  (let a := set_a_old demo_old demo0_abs in
   wp (migrateV1BoltDB 2) (λ o s',
    (o = Ok tt ∧ rep s' (set_a_old ∅ (set_a_pool (pool_of a "")
       ((migrated a <$> a_old a) ∪ a_pool a (pool_of a "")) a))) ∨
    (∃ e, o = Err e)) demo_v1) ∧
  (migrateV1BoltDB 2 demo_v1).1 = Ok tt.
Proof.
  split_and!; [vm_compute; lia| |vm_compute; reflexivity].
  apply (migrateV1BoltDB_correct 2 demo_v1 (set_a_old demo_old demo0_abs)).
  - apply demo_v1_rep.
  - vm_compute. lia.
Defined.
