(* ===== verification/Ipamds.v ===== *)
(** The [Ipamd] custom resources of [pkg/ipamd/pool.go]: publishing the watermark
    of a pool, deleting the resources of vanished nodes, and borrowing an address
    from another node's daemon. *)
From S2P Require Export PoolProps.

(** ** Definitions *)

(** [ipamdPoolIdentity], used as a map key. *)
Definition ipamdPoolIdentity : Type := string * string.
Definition getIpamdPoolIdentity (i : Ipamd) : ipamdPoolIdentity :=
  (isp_Node (ipamd_Spec i), isp_Subnet (ipamd_Spec i)).
Definition getCanonicalIpamdName (identity : ipamdPoolIdentity) : string :=
  identity.1 +:+ "-" +:+ identity.2.

(** [m[key(x)] = append(m[key(x)], x)] over a list. *)
Definition group_by {K A} `{Countable K} (key : A → K) (l : list A) : gmap K (list A) :=
  foldl (λ m x, <[key x := default [] (m !! key x) ++ [x]]> m) ∅ l.

(** The candidate of one node: the canonical resource if there is one among
    several, else the first. *)
Definition select_candidate (nodeIpamds : list Ipamd) : option Ipamd :=
  match nodeIpamds with
  | [] => None
  | selected :: rest =>
      if negb (bool_decide (rest = [])) then
        let canonicalName := getCanonicalIpamdName (getIpamdPoolIdentity selected) in
        match head (filter (λ i, ipamd_Name i = canonicalName) nodeIpamds) with
        | Some i => Some i
        | None => Some selected
        end
      else Some selected
  end.

Definition classify (watermark low high : Z) : string :=
  if watermark <=? 0 then StatusDry
  else if watermark <? low then StatusHungry
  else if (low <=? watermark) && (watermark <? high) then StatusNormal
  else StatusOverflow.

#[global] Instance Ipamd_eq_dec : EqDecision Ipamd.
Proof.
  assert (EqDecision IpamdSpec) by solve_decision. solve_decision.
Defined.

Section ipamds.
Context {H D K E : Type} `{!Database PodNetwork H D} `{!KubeApi K} `{!CloudApi E} `{!GoRuntime E}.
#[local] Abbreviation m := (M (St H D K E)).

Definition filterBorrowCandidates (ipamds : list Ipamd) : m (list Ipamd) :=
  groups ← in_proc (ext_total (rt_range
    (map_to_list (group_by (λ i, isp_Node (ipamd_Spec i)) ipamds))));
  mret (omap (λ g, select_candidate g.2) groups).

Definition updateStatus (key : string) (pool : H) : m unit :=
  c ← srv srv_uapi;
  let '(subnetID, defaultSubnet) := getPoolSubnetID c key in
  watermark ← with_msg "count pool size error" (in_db (db_Count (T := PodNetwork) pool));
  low ← srv AvailablePodIPLowWatermark;
  high ← srv AvailablePodIPHighWatermark;
  let status := mkIpamdStatus watermark high low (classify watermark low high) in
  node ← srv nodeName;
  addr ← srv tcpAddr;
  let name := if defaultSubnet : bool then node else node +:+ "-" +:+ subnetID in
  ipamdInfo ← attempt (in_k8s (k_GetIpamd name));
  match ipamdInfo with
  | inl err =>
      if k8serr_is NotFound err then
        with_msg "faield to create ipamd resource"
          (in_k8s (k_CreateIpamd (mkIpamd name (mkIpamdSpec node addr subnetID) status)))
      else throw (Errorf "failed to get ipamd resource")
  | inr ipamdInfo =>
      if bool_decide (ipamd_Status ipamdInfo = status) then mret tt
      else with_msg "failed to update ipamd resource"
             (in_k8s (k_UpdateIpamd (mkIpamd (ipamd_Name ipamdInfo) (ipamd_Spec ipamdInfo) status)))
  end.

(** The two loops of [recycleStatus].  Errors of a deletion are logged. *)
Definition recycle_dead_nodes (nodeMap : gset string) (items : list Ipamd) : m unit :=
  for_range items (λ i,
    if bool_decide (isp_Node (ipamd_Spec i) ∈ nodeMap) then mret tt
    else ignore (in_k8s (k_DeleteIpamd (ipamd_Name i)))).

Definition recycle_aliases (groups : list (ipamdPoolIdentity * list Ipamd)) : m unit :=
  node ← srv nodeName;
  for_range groups (λ g,
    let '(identity, ipamds) := g in
    if negb (String.eqb identity.1 node) || (length ipamds <=? 1)%nat then mret tt else
    let canonicalName := getCanonicalIpamdName identity in
    if negb (existsb (λ i, String.eqb (ipamd_Name i) canonicalName) ipamds) then mret tt else
    for_range ipamds (λ i,
      if negb (String.eqb (ipamd_Name i) identity.1) then mret tt
      else ignore (in_k8s (k_DeleteIpamd (ipamd_Name i))))).

Definition recycleStatus : m unit :=
  ipamdList ← with_msg "list ipamd items error" (in_k8s k_ListIpamds);
  nodeList ← with_msg "list node items error" (in_k8s k_ListNodes);
  let nodeMap : gset string := list_to_set (node_Name <$> nodeList) in
  recycle_dead_nodes nodeMap ipamdList;;
  let alive := filter (λ i, isp_Node (ipamd_Spec i) ∈ nodeMap) ipamdList in
  groups ← in_proc (ext_total (rt_range (map_to_list (group_by getIpamdPoolIdentity alive))));
  recycle_aliases groups.

(** The filtering loop of [borrowIP]. *)
Fixpoint borrow_filter (node currentSubnet : string) (items : list Ipamd) : m (list Ipamd) :=
  match items with
  | [] => mret []
  | i :: items' =>
      if String.eqb (isp_Node (ipamd_Spec i)) node
         || String.eqb (is_Status (ipamd_Status i)) StatusDry
         || negb (String.eqb (isp_Subnet (ipamd_Spec i)) currentSubnet)
      then borrow_filter node currentSubnet items' else
      r ← attempt (in_k8s (k_GetNode (isp_Node (ipamd_Spec i))));
      match r with
      | inl err =>
          if k8serr_is NotFound err then borrow_filter node currentSubnet items'
          else throw (Errorf "call kube-client to get node")
      | inr _ => rest ← borrow_filter node currentSubnet items'; mret (i :: rest)
      end
  end.

(** The asking loop: the first daemon that lends an address ends it. *)
Fixpoint borrow_ask (req : AddPodNetworkRequest) (ipamds : list Ipamd) : m PodNetwork :=
  match ipamds with
  | [] => throw (Errorf "failed to borrow ip from other ipamd")
  | i :: ipamds' =>
      let addr := isp_Addr (ipamd_Spec i) in
      conn ← attempt (in_proc (ext (ext_Dial addr)));
      match conn with
      | inl _ => borrow_ask req ipamds'
      | inr _ =>
          resp ← attempt (in_proc (ext (ext_BorrowIP addr
                   (mkBorrowReq (ar_MacAddress req) (ar_SubnetID req)))));
          match resp with
          | inl _ | inr None => borrow_ask req ipamds'
          | inr (Some pn) => mret (pn_set_Recycled false pn)
          end
      end
  end.

Definition borrowIP (req : AddPodNetworkRequest) : m PodNetwork :=
  items ← with_msg "failed to list ipamd resources" (in_k8s k_ListIpamds);
  if (length items <=? 1)%nat then throw (Errorf "no other ipamd to borrow ip") else
  node ← srv nodeName;
  ipamds ← borrow_filter node (ar_SubnetID req) items;
  if bool_decide (ipamds = []) then throw (Errorf "no ipamd to borrow") else
  candidates ← filterBorrowCandidates ipamds;
  borrow_ask req (rt_sort (E := E)
    (λ i j, is_Current (ipamd_Status i) >? is_Current (ipamd_Status j)) candidates).

End ipamds.

(** ** Lemmas *)

(** What [group_by] collects under one key, in the order of the list. *)
Lemma group_by_lookup {K A} `{Countable K} (key : A → K) (l : list A) k :
  default [] (group_by key l !! k) = filter (λ x, key x = k) l.
Proof.
  assert (∀ m0 : gmap K (list A),
    default [] (foldl (λ m x, <[key x := default [] (m !! key x) ++ [x]]> m) m0 l !! k) =
    default [] (m0 !! k) ++ filter (λ x, key x = k) l) as G; [|apply G].
  induction l as [|x l IH]; intros m0; simpl; [by rewrite app_nil_r|].
  rewrite IH. rewrite filter_cons. destruct (decide (key x = k)) as [<-|Hne].
  - rewrite lookup_insert_eq. simpl. by rewrite <- app_assoc.
  - by rewrite lookup_insert_ne.
Qed.

Lemma group_by_group {K A} `{Countable K} (key : A → K) (l : list A) k g :
  group_by key l !! k = Some g → g = filter (λ x, key x = k) l ∧ g ≠ [].
Proof.
  intros E. split. { by rewrite <- group_by_lookup, E. }
  revert E. unfold group_by. assert ((∅ : gmap K (list A)) !! k ≠ Some []) as H0 by done.
  revert H0. assert (∀ m0 : gmap K (list A), m0 !! k ≠ Some [] →
    foldl (λ m x, <[key x := default [] (m !! key x) ++ [x]]> m) m0 l !! k = Some g → g ≠ []) as G.
  { induction l as [|x l IH]; intros m0 Hm; simpl; [congruence|]. apply IH.
    destruct (decide (key x = k)) as [<-|Hne]; [|by rewrite lookup_insert_ne].
    rewrite lookup_insert_eq. intros Habs%(inj Some). by apply app_nil in Habs as [_ ?]. }
  eauto.
Qed.

Lemma group_by_member {K A} `{Countable K} (key : A → K) (l : list A) x :
  x ∈ l → is_Some (group_by key l !! key x).
Proof.
  intros Hx. destruct (group_by key l !! key x) eqn:E; [by eexists|]. exfalso.
  pose proof (group_by_lookup key l (key x)) as Hg. rewrite E in Hg. simpl in Hg.
  assert (x ∈ filter (λ y, key y = key x) l) as Hin by (by apply list_elem_of_filter).
  rewrite <- Hg in Hin. by apply elem_of_nil in Hin.
Qed.

Lemma head_elem_of {A} (l : list A) x : head l = Some x → x ∈ l.
Proof. destruct l; [done|]. intros [= ->]. apply list_elem_of_here. Qed.

Lemma select_candidate_some g : g ≠ [] → ∃ i, select_candidate g = Some i ∧ i ∈ g.
Proof.
  destruct g as [|x g]; [done|]. intros _. cbn [select_candidate].
  destruct (negb _); [|exists x; split; [done|apply list_elem_of_here]].
  destruct (head _) as [i|] eqn:Eh.
  - exists i. split; [done|]. by apply head_elem_of, list_elem_of_filter in Eh as [_ ?].
  - exists x. split; [done|apply list_elem_of_here].
Qed.

(** *** The names of pools *)

Lemma getPoolSubnetID_bucket c sub : getPoolSubnetID c (pool_bucket sub) = (sub, false).
Proof.
  unfold getPoolSubnetID, pool_bucket. rewrite TrimPrefix_app.
  replace (String.eqb ("-" +:+ sub) "") with false by done. by rewrite TrimPrefix_app.
Qed.

Lemma canonical_ne node sub : getCanonicalIpamdName (node, sub) ≠ node.
Proof.
  unfold getCanonicalIpamdName. simpl. intros Heq%(f_equal String.length).
  rewrite !str_length_app in Heq. simpl in Heq. lia.
Qed.

Section props.
Context {H D K E : Type} `{!Database PodNetwork H D} `{!Database CooldownItem H D}
  `{!StoreFrame H D} `{!DatabaseLaws PodNetwork H D} `{!DatabaseLaws CooldownItem H D}
  `{!KubeApi K} `{!KubeLaws K} `{!CloudApi E} `{!GoRuntime E} `{!GoRuntimeLaws E}.
Implicit Types (s : St H D K E) (a : Abs H K).

Lemma wp_range {V} (l : list V) (Q : outcome (list V) → St H D K E → Prop) s :
  (∀ l' s', l' ≡ₚ l → same_but_proc s s' → Q (Ok l') s') →
  wp (in_proc (ext_total (rt_range l))) Q s.
Proof.
  intros HQ. unfold wp, in_proc, ext_total, zoom.
  pose proof (rt_range_perm V l (proc_ext (st_proc s))) as Hp.
  destruct (rt_range l (proc_ext (st_proc s))) as [l' e']. by apply HQ.
Qed.

(** filterBorrowCandidates returns exactly one of the given resources for every
    node that has one, and the one with the canonical name when the node has it. *)
Theorem filterBorrowCandidates_correct ipamds s :
  wp (filterBorrowCandidates ipamds) (λ o s', same_but_proc s s' ∧
    ∃ res, o = Ok res ∧
      NoDup ((λ i, isp_Node (ipamd_Spec i)) <$> res) ∧
      (∀ i, i ∈ res → i ∈ ipamds) ∧
      (∀ i, i ∈ ipamds → ∃ j, j ∈ res ∧ isp_Node (ipamd_Spec j) = isp_Node (ipamd_Spec i)) ∧
      (∀ i j sub, i ∈ res → j ∈ ipamds →
         (∀ k, k ∈ ipamds → isp_Subnet (ipamd_Spec k) = sub) →
         isp_Node (ipamd_Spec j) = isp_Node (ipamd_Spec i) →
         ipamd_Name j = getCanonicalIpamdName (isp_Node (ipamd_Spec j), sub) →
         ipamd_Name i = ipamd_Name j)) s.
Proof.
  unfold filterBorrowCandidates. wp_step. apply wp_range. intros l' s' Hp Hs. cbn [kont].
  wp_steps. split; [done|]. eexists. split; [done|].
  set (key := λ i, isp_Node (ipamd_Spec i)) in *.
  assert (∀ k g, (k, g) ∈ l' → g = filter (λ i, key i = k) ipamds ∧ g ≠ []) as Hg.
  { intros k g Hin. rewrite Hp in Hin. by apply elem_of_map_to_list, group_by_group in Hin. }
  assert (∀ k g i, (k, g) ∈ l' → select_candidate g = Some i → key i = k ∧ i ∈ ipamds) as Hsel.
  { intros k g i Hin Hi. destruct (Hg _ _ Hin) as [Eg Hne].
    destruct (select_candidate_some g Hne) as (i' & Hi' & Hin'). rewrite Hi in Hi'. simplify_eq.
    by apply list_elem_of_filter in Hin'. }
  split_and!.
  - assert (NoDup l'.*1) as Hnd by (rewrite Hp; apply NoDup_fst_map_to_list).
    clear Hp. revert Hnd. induction l' as [|[k g] l' IH]; intros Hnd; simpl; [constructor|].
    rewrite fmap_cons in Hnd. apply NoDup_cons in Hnd as [Hnin Hnd].
    assert (NoDup (key <$> omap (λ g, select_candidate g.2) l')) as IH'.
    { apply IH; [| |done].
      - intros k1 g1 ?. apply (Hg k1 g1). by apply list_elem_of_further.
      - intros k1 g1 i1 ? ?. apply (Hsel k1 g1 i1); [by apply list_elem_of_further|done]. }
    destruct (select_candidate g) as [i|] eqn:Ei; [|done]. rewrite fmap_cons.
    apply NoDup_cons. split; [|done]. intros (j & Ej & (g' & Hg' & Hj)%list_elem_of_omap)%list_elem_of_fmap.
    destruct g' as [k' g']. apply Hnin. apply list_elem_of_fmap. exists (k', g'). split; [|done].
    simpl in *. destruct (Hsel k g i) as [Eki _]; [apply list_elem_of_here|done|].
    destruct (Hsel k' g' j) as [Ekj _]; [by apply list_elem_of_further|done|]. congruence.
  - intros i ([k g] & Hin & Hi)%list_elem_of_omap. by eapply Hsel.
  - intros i Hi. destruct (group_by_member key ipamds i Hi) as [g Hgi].
    assert ((key i, g) ∈ l') as Hin by (rewrite Hp; by apply elem_of_map_to_list).
    destruct (Hg _ _ Hin) as [_ Hne]. destruct (select_candidate_some g Hne) as (j & Hj & _).
    exists j. split; [|by eapply Hsel]. apply list_elem_of_omap. by exists (key i, g).
  - intros i j sub ([k g] & Hin & Hi)%list_elem_of_omap Hj Hsub Hn Hname.
    destruct (Hsel _ _ _ Hin Hi) as [<- Hi'].
    destruct (Hg _ _ Hin) as [Eg Hne]. simpl in Hi.
    assert (j ∈ g) as Hjg by (rewrite Eg; by apply list_elem_of_filter).
    assert (∀ x, x ∈ g → key x = key i ∧ x ∈ ipamds) as Hx.
    { intros x Hx. rewrite Eg in Hx. by apply list_elem_of_filter in Hx. }
    destruct g as [|x g]; [done|]. cbn [select_candidate] in Hi.
    destruct (Hx x (list_elem_of_here _ _)) as [Ex Hxin].
    assert (getCanonicalIpamdName (getIpamdPoolIdentity x) = ipamd_Name j) as Ec.
    { rewrite Hname. unfold getIpamdPoolIdentity. rewrite (Hsub x Hxin). unfold key in *. congruence. }
    rewrite Ec in Hi.
    assert (∀ o : Ipamd, head (filter (λ y, ipamd_Name y = ipamd_Name j) (x :: g)) = Some o →
              ipamd_Name o = ipamd_Name j) as Hh.
    { intros o Ho%head_elem_of. by apply list_elem_of_filter in Ho as [? _]. }
    destruct (head (filter _ (x :: g))) as [y|] eqn:Eh.
    + destruct g as [|x' g]; simpl in Hi; simplify_eq.
      * apply list_elem_of_singleton in Hjg as ->. done.
      * by apply Hh.
    + exfalso. apply head_None in Eh.
      assert (j ∈ filter (λ y, ipamd_Name y = ipamd_Name j) (x :: g)) as Habs
        by (by apply list_elem_of_filter).
      rewrite Eh in Habs. by apply elem_of_nil in Habs.
Qed.

(** *** Rules for the calls of the API server *)

Lemma wp_in_k8s {A} (c : Call K A) (Q : outcome A → St H D K E → Prop) s :
  (∀ x k, c (st_k8s s) = (inr x, k) → Q (Ok x) (set_k8s k s)) →
  (∀ e k, c (st_k8s s) = (inl e, k) → Q (Err e) (set_k8s k s)) →
  wp (in_k8s c) Q s.
Proof. intros H1 H2. apply wp_zoom, wp_call; eauto. Qed.

Lemma rep_k8s_change s s' a :
  same_but_k8s s s' → rep s a → rep s' (set_a_k8s (st_k8s s') a).
Proof. intros (E1 & E2) []. split; simpl; rewrite ?E1, ?E2; done. Qed.

Definition ipamds_of s : gmap string Ipamd := k_ipamds (st_k8s s).

(** After a round without errors the resource of the pool shows its watermark. *)
Definition update_post sub a (o : outcome unit) s' : Prop :=
  let cfg := a_cfg a in
  let size := Z.of_nat (base.size (a_pool a sub)) in
  rep s' (set_a_k8s (st_k8s s') a) ∧
  match o with
  | Ok _ => ∃ i, ipamds_of s' !! (nodeName cfg +:+ "-" +:+ sub) = Some i ∧
      ipamd_Status i = mkIpamdStatus size (AvailablePodIPHighWatermark cfg)
        (AvailablePodIPLowWatermark cfg)
        (classify size (AvailablePodIPLowWatermark cfg) (AvailablePodIPHighWatermark cfg))
  | Err _ => True
  | _ => False
  end.

Lemma updateStatus_spec sub s a :
  rep s a → pool_open sub s a →
  wp (updateStatus (pool_bucket sub) (db_handle (pool_bucket sub))) (update_post sub a) s.
Proof.
  intros Hr Ho. unfold updateStatus, update_post. set (cfg := a_cfg a).
  set (sz := Z.of_nat (base.size (a_pool a sub))). cbv zeta. wp_step. apply wp_srv. cbn [kont].
  rewrite getPoolSubnetID_bucket. do 2 wp_step. apply wp_in_db.
  eapply wp_mono; [by apply db_Count_law|]. intros o d' (Ht & Hd & Hc).
  assert (rep (set_db d' s) a) as Hr1 by (by eapply rep_same_pool).
  assert (∀ s', same_but_k8s (set_db d' s) s' → rep s' (set_a_k8s (st_k8s s') a)) as Hrep.
  { intros s' Hs. by eapply rep_k8s_change. }
  destruct Hc as [->|[e ->]]; cbn [kont]; [|by split; [apply Hrep|]].
  fold sz.
  do 4 (wp_step; apply wp_srv; cbn [kont]). simpl.
  rewrite (rep_field AvailablePodIPLowWatermark s a), (rep_field AvailablePodIPHighWatermark s a),
    (rep_field nodeName s a), (rep_field tcpAddr s a) by done.
  fold cfg. set (st := mkIpamdStatus sz _ _ _). set (name := (_ +:+ _)%string).
  do 2 wp_step. apply wp_in_k8s; intros x k Hx; cbn [kont].
  - pose proof (k_GetIpamd_law name (st_k8s (set_db d' s))) as Hg. 
    pose proof (k_GetIpamd_keeps name (st_k8s (set_db d' s))) as Hk.
    rewrite Hx in Hg, Hk. simpl in Hg, Hk. destruct Hg as [Hg Hn].
    case_bool_decide as Hst; wp_steps.
    + split; [by apply Hrep|]. exists x. unfold ipamds_of. simpl. by rewrite Hk.
    + apply wp_in_k8s; intros u k2 Hu; (split; [by apply Hrep|]); [|done].
      apply k_UpdateIpamd_law in Hu. unfold ipamds_of. simpl. rewrite Hu. simpl.
      rewrite Hn, lookup_insert_eq. by eexists.
  - destruct (k8serr_is NotFound x); wp_steps; [|by split; [apply Hrep|]].
    apply wp_in_k8s; intros u k2 Hu; (split; [by apply Hrep|]); [|done].
    apply k_CreateIpamd_law in Hu. unfold ipamds_of. simpl. rewrite Hu. simpl.
    rewrite lookup_insert_eq. by eexists.
Qed.

(** After a successful updateStatus the resource of the node and subnet shows the
    size of the pool, both watermarks and their classification; the databases are
    untouched. *)
Theorem updateStatus_correct sub s a :
  rep s a → pool_open sub s a →
  wp (updateStatus (pool_bucket sub) (db_handle (pool_bucket sub))) (update_post sub a) s.
Proof. apply updateStatus_spec. Qed.

(** What [recycleStatus] may do to the resources [m0]: it only deletes, and only
    those of nodes that are gone and the old name of this node's pool where the
    canonical resource of the same pool is there and stays. *)
Definition recycle_ok (node : string) (nodes : gset string) (m0 m1 : gmap string Ipamd) : Prop :=
  m1 ⊆ m0 ∧
  ∀ n i, m0 !! n = Some i → m1 !! n = None →
    isp_Node (ipamd_Spec i) ∉ nodes ∨
    (n = node ∧ isp_Node (ipamd_Spec i) = node ∧
     ∃ j, m1 !! getCanonicalIpamdName (getIpamdPoolIdentity i) = Some j ∧
          getIpamdPoolIdentity j = getIpamdPoolIdentity i).

(** The invariant of its loops; the canonical resource is looked up in [m0]. *)
Definition recycle_inv (node : string) (nodes : gset string) (m0 m1 : gmap string Ipamd) : Prop :=
  m1 ⊆ m0 ∧
  ∀ n i, m0 !! n = Some i → m1 !! n = None →
    isp_Node (ipamd_Spec i) ∉ nodes ∨
    (n = node ∧ isp_Node (ipamd_Spec i) = node ∧ node ∈ nodes ∧
     ∃ j, m0 !! getCanonicalIpamdName (getIpamdPoolIdentity i) = Some j ∧
          getIpamdPoolIdentity j = getIpamdPoolIdentity i).

Lemma recycle_inv_ok node nodes m0 m1 : recycle_inv node nodes m0 m1 → recycle_ok node nodes m0 m1.
Proof.
  intros [Hsub Hinv]. split; [done|]. intros n i Hn Hn1.
  destruct (Hinv n i Hn Hn1) as [?|(-> & Hi & Hin & j & Hj & Hid)]; [by left|right].
  split_and!; try done. exists j. split; [|done].
  destruct (m1 !! getCanonicalIpamdName (getIpamdPoolIdentity i)) as [j'|] eqn:E1.
  { f_equal. eapply lookup_weaken in E1; [|done]. congruence. }
  exfalso. destruct (Hinv _ _ Hj E1) as [Hnot|(Hname & _)].
  - unfold getIpamdPoolIdentity in Hid. simplify_eq. congruence.
  - unfold getIpamdPoolIdentity in Hname. rewrite Hi in Hname. by apply canonical_ne in Hname.
Qed.

(** One logged deletion of a resource that may go. *)
Lemma recycle_delete node nodes m0 n i s :
  m0 !! n = Some i → recycle_inv node nodes m0 (ipamds_of s) →
  (isp_Node (ipamd_Spec i) ∉ nodes ∨
    (n = node ∧ isp_Node (ipamd_Spec i) = node ∧ node ∈ nodes ∧
     ∃ j, m0 !! getCanonicalIpamdName (getIpamdPoolIdentity i) = Some j ∧
          getIpamdPoolIdentity j = getIpamdPoolIdentity i)) →
  wp (ignore (in_k8s (k_DeleteIpamd n))) (λ o s', o = Ok tt ∧ same_but_k8s s s' ∧
    recycle_inv node nodes m0 (ipamds_of s')) s.
Proof.
  intros Hn [Hsub Hinv] Hmay. unfold ignore. do 2 wp_step.
  assert (recycle_inv node nodes m0 (delete n (ipamds_of s))) as Hdel.
  { split; [by etrans; [apply delete_subseteq|]|]. intros n' i' Hn' Hd.
    destruct (decide (n' = n)) as [->|]; [by simplify_eq|].
    rewrite lookup_delete_ne in Hd by done. eauto. }
  pose proof (k_DeleteIpamd_law n (st_k8s s)) as Hl.
  apply wp_in_k8s; intros x k Hx; rewrite Hx in Hl; simpl in Hl; wp_steps; (split; [done|]);
    (split; [done|]); unfold ipamds_of; simpl;
    destruct Hl as [-> |(e' & He & ->)]; done.
Qed.

Lemma recycle_dead_nodes_spec node nodes m0 items s :
  (∀ i, i ∈ items → m0 !! ipamd_Name i = Some i) →
  recycle_inv node nodes m0 (ipamds_of s) →
  wp (recycle_dead_nodes nodes items) (λ o s', o = Ok tt ∧ same_but_k8s s s' ∧
    recycle_inv node nodes m0 (ipamds_of s')) s.
Proof.
  intros Hitems Hinv. unfold recycle_dead_nodes.
  apply (wp_for_range _ _ (λ l s', (∀ i, i ∈ l → i ∈ items) ∧ same_but_k8s s s' ∧
    recycle_inv node nodes m0 (ipamds_of s'))); [done| |naive_solver].
  intros i l s' (Hl & Hs & Hi).
  assert (∀ j, j ∈ l → j ∈ items) as Hl' by (intros; apply Hl; by apply list_elem_of_further).
  case_bool_decide; [by wp_steps|].
  eapply wp_mono; [eapply recycle_delete; [apply Hitems, Hl, list_elem_of_here|done|by left]|].
  intros o s2 (-> & Hs2 & Hi2). split_and!; [done|by etrans|done].
Qed.

Lemma recycle_aliases_spec nodes m0 groups s :
  let node := nodeName (st_srv s) in
  (∀ id g i, (id, g) ∈ groups → i ∈ g →
     m0 !! ipamd_Name i = Some i ∧ getIpamdPoolIdentity i = id ∧ isp_Node (ipamd_Spec i) ∈ nodes) →
  recycle_inv node nodes m0 (ipamds_of s) →
  wp (recycle_aliases groups) (λ o s', o = Ok tt ∧ same_but_k8s s s' ∧
    recycle_inv node nodes m0 (ipamds_of s')) s.
Proof.
  intros node Hg Hinv. unfold recycle_aliases. wp_step. apply wp_srv. cbn [kont]. fold node.
  apply (wp_for_range _ _ (λ l s', (∀ g, g ∈ l → g ∈ groups) ∧ same_but_k8s s s' ∧
    recycle_inv node nodes m0 (ipamds_of s'))); [done| |naive_solver].
  intros [id g] l s' (Hl & Hs & Hi).
  assert (∀ x, x ∈ l → x ∈ groups) as Hl' by (intros; apply Hl; by apply list_elem_of_further).
  specialize (Hg id g). specialize (Hl (id, g) (list_elem_of_here _ _)).
  destruct (String.eqb_spec id.1 node) as [Hid|]; simpl; [|by wp_steps].
  destruct (length g <=? 1)%nat; [by wp_steps|].
  destruct (existsb _ g) eqn:Hex; simpl; [|by wp_steps].
  rewrite <- Is_true_true, existb_True, Exists_exists in Hex.
  destruct Hex as (c & Hc & Hcn%Is_true_true%String.eqb_eq).
  apply (wp_for_range _ _ (λ l2 s2, (∀ i, i ∈ l2 → i ∈ g) ∧ same_but_k8s s s2 ∧
    recycle_inv node nodes m0 (ipamds_of s2))); [done| |naive_solver].
  intros i l2 s2 (Hl2 & Hs2 & Hi2).
  assert (∀ x, x ∈ l2 → x ∈ g) as Hl2' by (intros; apply Hl2; by apply list_elem_of_further).
  destruct (String.eqb_spec (ipamd_Name i) id.1) as [Hname|]; simpl; [|by wp_steps].
  destruct (Hg i Hl (Hl2 _ (list_elem_of_here _ _))) as (Hi0 & Hiid & Hin).
  destruct (Hg c Hl Hc) as (Hc0 & Hcid & _).
  eapply wp_mono; [eapply recycle_delete; [exact Hi0|done|right]|].
  - rewrite <- Hiid in Hid. unfold getIpamdPoolIdentity in Hid. simpl in Hid.
    rewrite Hname, <- Hiid. simpl. split_and!; try done; [by rewrite <- Hid|].
    exists c. rewrite Hiid, <- Hcn. by rewrite Hcid.
  - intros o s3 (-> & Hs3 & Hi3). split_and!; [done|by etrans|done].
Qed.

Lemma recycleStatus_spec s :
  wp recycleStatus (λ o s', (o = Ok tt ∨ ∃ e, o = Err e) ∧ same_but_k8s s s' ∧
    recycle_ok (nodeName (st_srv s)) (k_nodes (st_k8s s)) (ipamds_of s) (ipamds_of s')) s.
Proof.
  unfold recycleStatus. set (node := nodeName (st_srv s)). set (m0 := ipamds_of s).
  assert (∀ nodes s', ipamds_of s' = m0 → recycle_inv node nodes m0 (ipamds_of s')) as Hstart.
  { intros nodes s' ->. split; [done|]. intros n i E1 E2. congruence. }
  do 2 wp_step. pose proof (k_ListIpamds_keeps (st_k8s s)) as Hk1.
  apply wp_in_k8s; intros items k1 E1; rewrite E1 in Hk1; simpl in Hk1; cbn [kont].
  2:{ split; [by right; eexists|]. split; [done|]. by apply recycle_inv_ok, Hstart. }
  assert (∀ i, i ∈ items → m0 !! ipamd_Name i = Some i) as Hitems.
  { intros i Hi. apply elem_of_map_to_list. unfold m0, ipamds_of.
    rewrite <- (k_ListIpamds_law _ _ _ E1). apply list_elem_of_fmap. by exists i. }
  pose proof (k_ListIpamds_nodes (st_k8s s)) as Hn1. rewrite E1 in Hn1. simpl in Hn1.
  do 2 wp_step. pose proof (k_ListNodes_keeps k1) as Hk2.
  apply wp_in_k8s; simpl; intros nl k2 E2; rewrite E2 in Hk2; simpl in Hk2; cbn [kont].
  2:{ split; [by right; eexists|]. split; [done|]. apply recycle_inv_ok, Hstart.
      unfold m0, ipamds_of. simpl. congruence. }
  rewrite (k_ListNodes_law _ _ _ E2), Hn1. set (nodes := k_nodes (st_k8s s)).
  wp_step. eapply wp_mono; [eapply (recycle_dead_nodes_spec node nodes m0); [done|]|].
  { apply Hstart. unfold m0, ipamds_of. simpl. congruence. }
  intros o s3 (-> & Hs3 & Hi3). cbn [kont].
  wp_step. apply wp_range. intros groups s4 Hp Hs4. cbn [kont].
  assert (same_but_k8s s s4) as Hs04.
  { etrans; [|apply same_proc_k8s, Hs4]. etrans; [|exact Hs3]. done. }
  assert (ipamds_of s4 = ipamds_of s3) as Ei4 by (unfold ipamds_of; by destruct Hs4 as (_ & _ & ->)).
  assert (nodeName (st_srv s4) = node) as En4 by (by destruct Hs04 as [-> _]).
  eapply wp_mono; [eapply (recycle_aliases_spec nodes m0)|].
  - intros id g i Hin Hi. rewrite Hp in Hin.
    apply elem_of_map_to_list, group_by_group in Hin as [-> _].
    apply list_elem_of_filter in Hi as [Hid Hi]. apply list_elem_of_filter in Hi as [Hn Hi]. auto.
  - by rewrite En4, Ei4.
  - intros o s5 (-> & Hs5 & Hi5). split; [by left|]. split; [by etrans|].
    rewrite En4 in Hi5. by apply recycle_inv_ok.
Qed.

(** C31: recycleStatus only deletes resources: of nodes that are not in the cluster any
    more, or its own v1 alias whose canonical resource for the same node and subnet
    stays. *)
Theorem recycleStatus_correct s :
  wp recycleStatus (λ o s', (o = Ok tt ∨ ∃ e, o = Err e) ∧ same_but_k8s s s' ∧
    recycle_ok (nodeName (st_srv s)) (k_nodes (st_k8s s)) (ipamds_of s) (ipamds_of s')) s.
Proof. apply recycleStatus_spec. Qed.

(** *** Borrowing *)

Definition may_lend (node subnet : string) (i : Ipamd) : Prop :=
  isp_Node (ipamd_Spec i) ≠ node ∧ is_Status (ipamd_Status i) ≠ StatusDry ∧
  isp_Subnet (ipamd_Spec i) = subnet.

(** The cluster, as far as the laws of its API show it: resources, nodes and claims. *)
Definition cluster_of s : gmap string Ipamd * gset string * gmap (string * string) VpcIpClaim :=
  (k_ipamds (st_k8s s), k_nodes (st_k8s s), k_claims (st_k8s s)).
Definition same_cluster s s' : Prop := same_but_k8s s s' ∧ cluster_of s' = cluster_of s.
#[local] Instance same_cluster_preorder : PreOrder same_cluster.
Proof.
  split; [by split|]. intros s1 s2 s3 [H1 E1] [H2 E2]. split; [by etrans|congruence].
Qed.

Lemma borrow_filter_spec node subnet items s :
  wp (borrow_filter node subnet items) (λ o s', same_cluster s s' ∧
    match o with
    | Ok l => ∀ i, i ∈ l → i ∈ items ∧ may_lend node subnet i ∧ isp_Node (ipamd_Spec i) ∈ k_nodes (st_k8s s)
    | Err _ => True
    | _ => False
    end) s.
Proof.
  revert s. induction items as [|i items IH]; intros s; cbn [borrow_filter].
  { wp_steps. split; [done|]. intros i Hi. by apply elem_of_nil in Hi. }
  assert (∀ s0, same_cluster s s0 → wp (borrow_filter node subnet items) (λ o s',
    same_cluster s s' ∧ match o with
      | Ok l => ∀ j, j ∈ l → j ∈ i :: items ∧ may_lend node subnet j ∧ isp_Node (ipamd_Spec j) ∈ k_nodes (st_k8s s)
      | Err _ => True | _ => False end) s0) as Hskip.
  { intros s0 Hs0. eapply wp_mono; [apply IH|]. intros o s' [Hs Ho]. split; [by etrans|].
    destruct Hs0 as [_ [= _ En _]]. rewrite En in Ho.
    destruct o; try done. intros j Hj. destruct (Ho j Hj). split; [by apply list_elem_of_further|done]. }
  destruct (String.eqb_spec (isp_Node (ipamd_Spec i)) node) as [|Hn]; [by apply Hskip|].
  destruct (String.eqb_spec (is_Status (ipamd_Status i)) StatusDry) as [|Hd]; [by apply Hskip|].
  destruct (String.eqb_spec (isp_Subnet (ipamd_Spec i)) subnet) as [Hsn|]; [|by apply Hskip].
  cbn [orb negb]. do 2 wp_step. apply wp_in_k8s; intros x k Hx; cbn [kont];
    pose proof (k_GetNode_keeps (isp_Node (ipamd_Spec i)) (st_k8s s)) as Hk; rewrite Hx in Hk;
    assert (same_cluster s (set_k8s k s)) as Hs1 by (by split).
  2:{ destruct (k8serr_is NotFound x); [by apply Hskip|by wp_steps]. }
  wp_step. eapply wp_mono; [by apply Hskip|]. intros o s' [Hs Ho].
  destruct o as [l| | |]; try done; wp_steps; (split; [done|]).
  intros j [->|Hj]%elem_of_cons; [|by apply Ho]. apply k_GetNode_law in Hx.
  split; [apply list_elem_of_here|by split].
Qed.

Lemma filterBorrowCandidates_sub ipamds s :
  wp (filterBorrowCandidates ipamds) (λ o s', same_but_proc s s' ∧
    ∃ res, o = Ok res ∧ ∀ i, i ∈ res → i ∈ ipamds) s.
Proof.
  unfold filterBorrowCandidates. wp_step. apply wp_range. intros l' s' Hp Hs. cbn [kont]. wp_steps.
  split; [done|]. eexists. split; [done|]. intros i ([k g] & Hin & Hi)%list_elem_of_omap.
  rewrite Hp in Hin. apply elem_of_map_to_list, group_by_group in Hin as [-> Hne].
  destruct (select_candidate_some _ Hne) as (j & Hj & Hin). simpl in Hi. rewrite Hi in Hj. simplify_eq.
  by apply list_elem_of_filter in Hin as [_ ?].
Qed.

(** The last that happened outside before [s] was the reply of the daemon that lent the
    address. *)
Definition lent_by (req : AddPodNetworkRequest) (i : Ipamd) (pn : PodNetwork) s : Prop :=
  ∃ (e : E) pn0,
    ext_BorrowIP (isp_Addr (ipamd_Spec i)) (mkBorrowReq (ar_MacAddress req) (ar_SubnetID req)) e
      = (inr (Some pn0), proc_ext (st_proc s)) ∧ pn = pn_set_Recycled false pn0.

Lemma borrow_ask_spec req l s :
  wp (borrow_ask req l) (λ o s', same_but_proc s s' ∧
    match o with
    | Ok pn => ∃ i, i ∈ l ∧ lent_by req i pn s'
    | Err _ => True
    | _ => False
    end) s.
Proof.
  revert s. induction l as [|i l IH]; intros s; cbn [borrow_ask]; [by wp_steps|].
  assert (∀ s0, same_but_proc s s0 → wp (borrow_ask req l) (λ o s', same_but_proc s s' ∧
    match o with Ok pn => ∃ j, j ∈ i :: l ∧ lent_by req j pn s' | Err _ => True | _ => False end) s0)
    as Hnext.
  { intros s0 Hs0. eapply wp_mono; [apply IH|]. intros o s' [Hs Ho]. split; [by etrans|].
    destruct o; try done. destruct Ho as (j & Hj & ?). exists j.
    split; [by apply list_elem_of_further|done]. }
  do 2 wp_step. unfold in_proc, ext. do 2 wp_step.
  apply wp_call; intros x e Hx; cbn [kont]; [|by apply Hnext].
  do 2 wp_step. do 2 wp_step. apply wp_call; intros y e2 Hy; cbn [kont]; [|by apply Hnext].
  destruct y as [pn|]; [|by apply Hnext]. wp_steps. split; [done|].
  exists i. split; [apply list_elem_of_here|]. by eexists _, pn.
Qed.

(** Server, databases and cluster stay as they are; the address comes from the daemon
    of a resource that may lend. *)
Definition borrow_post (req : AddPodNetworkRequest) s (o : outcome PodNetwork) s' : Prop :=
  same_cluster s s' ∧
  match o with
  | Ok pn => pn_Recycled pn = false ∧ ∃ i, ipamds_of s !! ipamd_Name i = Some i ∧
      may_lend (nodeName (st_srv s)) (ar_SubnetID req) i ∧ isp_Node (ipamd_Spec i) ∈ k_nodes (st_k8s s) ∧
      lent_by req i pn s'
  | Err _ => True
  | _ => False
  end.

Lemma borrowIP_spec req s : wp (borrowIP req) (borrow_post req s) s.
Proof.
  unfold borrowIP, borrow_post. do 2 wp_step. apply wp_in_k8s; intros items k1 E1; cbn [kont];
    pose proof (k_ListIpamds_keeps (st_k8s s)) as Hk1; pose proof (k_ListIpamds_nodes (st_k8s s)) as Hk2;
    pose proof (k_ListIpamds_claims (st_k8s s)) as Hk3; rewrite E1 in Hk1, Hk2, Hk3; simpl in Hk1, Hk2, Hk3;
    assert (same_cluster s (set_k8s k1 s)) as Hs01
      by (split; [done|]; unfold cluster_of; simpl; congruence); [|by split].
  assert (∀ i, i ∈ items → ipamds_of s !! ipamd_Name i = Some i) as Hitems.
  { intros i Hi. apply elem_of_map_to_list. unfold ipamds_of.
    rewrite <- (k_ListIpamds_law _ _ _ E1). apply list_elem_of_fmap. by exists i. }
  destruct (length items <=? 1)%nat; [by wp_steps|].
  wp_step. apply wp_srv. cbn [kont]. wp_step. eapply wp_mono; [apply borrow_filter_spec|].
  intros o s2 [Hs2 Hf]. simpl in Hf. assert (same_cluster s s2) as Hs02 by (by etrans).
  destruct o as [l|e| |]; try done; cbn [kont]. destruct (bool_decide (l = [])); [by wp_steps|].
  wp_step. eapply wp_mono; [apply filterBorrowCandidates_sub|].
  intros o s3 [Hs3 (res & -> & Hres)]. cbn [kont].
  eapply wp_mono; [apply borrow_ask_spec|]. intros o s4 [Hs4 Ho].
  split.
  { assert (same_but_proc s2 s4) as Hs24 by (by etrans). etrans; [exact Hs02|].
    split; [by apply same_proc_k8s|]. destruct Hs24 as (_ & _ & Ek). unfold cluster_of. by rewrite Ek. }
  destruct o as [pn|e| |]; try done. destruct Ho as (i & Hi & Hlent).
  rewrite rt_sort_perm in Hi. destruct (Hf i (Hres i Hi)) as (Hin & Hmay & Hnode). rewrite Hk2 in Hnode.
  split; [by destruct Hlent as (? & ? & _ & ->)|]. exists i. auto.
Qed.

(** C30: borrowIP changes neither the server, nor its databases, nor the resources,
    nodes and claims of the cluster; an address that it returns was lent by the daemon
    of another node that still exists and whose resource is listed with the same subnet
    and is not dry, and is marked as not recycled. *)
Theorem borrowIP_correct req s : wp (borrowIP req) (borrow_post req s) s.
Proof. apply borrowIP_spec. Qed.
End props.

(** ** Witnesses *)

Definition demo_ipamd (name node subnet : string) (cur : Z) (status : string) : Ipamd :=
  mkIpamd name (mkIpamdSpec node "10.0.0.8:7312" subnet) (mkIpamdStatus cur 20 3 status).
Definition demo_ipamds : gmap string Ipamd :=
  list_to_map ((λ i, (ipamd_Name i, i)) <$>
    [demo_ipamd "node-1" "node-1" "subnet-a" 1 StatusHungry;
     demo_ipamd "node-1-subnet-a" "node-1" "subnet-a" 1 StatusHungry;
     demo_ipamd "node-2" "node-2" "subnet-a" 5 StatusNormal;
     demo_ipamd "node-2-subnet-a" "node-2" "subnet-a" 5 StatusNormal;
     demo_ipamd "node-9-subnet-a" "node-9" "subnet-a" 5 StatusNormal]).
Definition demo_k2 : cluster :=
  mkCluster [] [mkNode "node-1" ∅; mkNode "node-2" ∅] demo_ipamds ∅ [].
Definition demo_lender : world :=
  mkWorld 1000 ∅ (Some demo_meta) [] [] [] (Some (demo_pn "10.0.0.70")) [].
Definition demo2 : St Bolt mem_bolt cluster world :=
  demo_open "subnet-a"
    (demo_st demo_server demo_pools demo_cool demo_net demo_k2 demo_lender).
Definition demo2_abs : Abs Bolt cluster :=
  demo_abs demo_server demo_pools demo_cool demo_net demo_k2.
Lemma demo2_rep : rep demo2 demo2_abs.
Proof.
  apply demo_open_rep; [reflexivity|apply demo_rep; vm_compute; reflexivity|].
  by eapply demo_pool_open.
Qed.

Definition demo_req : AddPodNetworkRequest :=
  mkAddReq "web-0" "default" "sandbox-1" "/proc/1/ns/net" "subnet-a" "52:54:00:01:02:03" "".

Lemma filterBorrowCandidates_witness :
  let l := [demo_ipamd "node-2" "node-2" "subnet-a" 5 StatusNormal;
            demo_ipamd "node-2-subnet-a" "node-2" "subnet-a" 5 StatusNormal] in
  (∃ res, (filterBorrowCandidates l demo2).1 = Ok res ∧
     NoDup ((λ i, isp_Node (ipamd_Spec i)) <$> res)) ∧
  (filterBorrowCandidates l demo2).1 = Ok [demo_ipamd "node-2-subnet-a" "node-2" "subnet-a" 5 StatusNormal].
Proof.
  split; [|vm_compute; reflexivity].
  destruct (filterBorrowCandidates_correct [demo_ipamd "node-2" "node-2" "subnet-a" 5 StatusNormal;
    demo_ipamd "node-2-subnet-a" "node-2" "subnet-a" 5 StatusNormal] demo2) as (_ & res & Hr & Hnd & _).
  exists res. split; assumption.
Defined.

Lemma updateStatus_witness :
  match (updateStatus (pool_bucket "subnet-a") (db_handle (pool_bucket "subnet-a")) demo2).1 with
  | Ok _ => True | _ => False end ∧
  ∃ i, ipamds_of (updateStatus (pool_bucket "subnet-a")
         (db_handle (pool_bucket "subnet-a")) demo2).2 !! "node-1-subnet-a" = Some i ∧
       ipamd_Status i = mkIpamdStatus 1 20 3 StatusHungry.
Proof.
  assert (pool_open "subnet-a" demo2 demo2_abs) as Ho by (by eapply demo_pool_open).
  pose proof (updateStatus_correct "subnet-a" demo2 demo2_abs demo2_rep Ho) as W.
  split; [vm_compute; exact I|].
  assert ((updateStatus (pool_bucket "subnet-a") (db_handle (pool_bucket "subnet-a")) demo2).1 = Ok tt)
    as E by (vm_compute; reflexivity).
  destruct W as [_ W]. rewrite E in W. exact W.
Defined.

Lemma recycleStatus_witness :
  recycle_ok "node-1" (k_nodes (st_k8s demo2)) demo_ipamds (ipamds_of (recycleStatus demo2).2) ∧
  ipamds_of (recycleStatus demo2).2 !! "node-9-subnet-a" = None ∧
  ipamds_of (recycleStatus demo2).2 !! "node-1" = None ∧
  ipamds_of (recycleStatus demo2).2 !! "node-2" ≠ None.
Proof.
  split; [|split; [|split]; vm_compute; try reflexivity; discriminate].
  destruct (recycleStatus_correct demo2) as (_ & _ & W). exact W.
Defined.

Lemma borrowIP_witness :
  (borrowIP demo_req demo2).1 = Ok (demo_pn "10.0.0.70") ∧
  ∃ i, may_lend "node-1" "subnet-a" i ∧ lent_by demo_req i (demo_pn "10.0.0.70") (borrowIP demo_req demo2).2.
Proof.
  assert ((borrowIP demo_req demo2).1 = Ok (demo_pn "10.0.0.70")) as E by (vm_compute; reflexivity).
  split; [exact E|].
  destruct (borrowIP_correct demo_req demo2) as [_ W]. rewrite E in W.
  destruct W as (_ & i & _ & Hm & _ & Hl). exists i. split; assumption.
Defined.
