(* ===== verification/VpcClaim.v ===== *)
(** The daemon's use of the Kubernetes API: pods and nodes ([pkg/ipamd/k8s.go]) and
    the claims of static addresses ([pkg/ipamd/vpcclaim.go]). *)
From S2P Require Export Ipamds.

(** ** Definitions *)

Definition AnnotationCalicoPolicyPodIP : string := "cni.projectcalico.org/podIP".
Definition STS_ENABLE_STATIC_IP : string :=
  "network.beta.kubernetes.io/ucloud-statefulset-static-ip".
Definition STS_STATIC_IP_RELEASE : string :=
  "network.beta.kubernetes.io/ucloud-statefulset-ip-claim-policy".

Definition getOwnerStatefulSetName (pod : Pod) : string :=
  match head (filter (λ o, or_Kind o = "StatefulSet") (pod_OwnerReferences pod)) with
  | Some o => or_Name o
  | None => ""
  end.

(** Owned by a StatefulSet and annotated. *)
Definition static_ip_enabled (pod : Pod) : bool :=
  if negb (existsb (λ o, String.eqb (or_Kind o) "StatefulSet") (pod_OwnerReferences pod)) then false
  else match pod_Annotations pod !! STS_ENABLE_STATIC_IP with
       | Some val => String.eqb (ToLower val) "true"
       | None => false
       end.

(** The updated claim of [markVPCIpClaimAttached]. *)
Definition attached_claim (mac zone sandboxId : string) (pod : option Pod) (vip : VpcIpClaim)
    : VpcIpClaim :=
  let release := match pod with
                 | Some p => default "Never" (pod_Annotations p !! STS_STATIC_IP_RELEASE)
                 | None => "Never"
                 end in
  mkClaim (vip_Name vip) (vip_Namespace vip) (<["attached" := "true"]> (vip_Labels vip))
    ["cni-vpc-ipamd"] (vip_Spec vip)
    (mkClaimStatus true zone (ct_LastDetachTime (vip_Status vip)) mac release sandboxId).

Section k8s_go.
Context {H D K E : Type} `{!Database PodNetwork H D} `{!Database CooldownItem H D}
  `{!KubeApi K} `{!CloudApi E} `{!RetryApi}.
#[local] Abbreviation m := (M (St H D K E)).

(** *** k8s.go *)

Definition setPodAnnotation (pod : Pod) (pairs : gmap string string) : m unit :=
  RetryOnConflict (in_k8s (k_PatchPodAnnotations (pod_Namespace pod) (pod_Name pod) pairs)).

Definition getLocalPods : m (list Pod) :=
  node ← in_proc (Getenv "KUBE_NODE_NAME");
  with_msg "failed to list pods from apiserver" (in_k8s (k_ListPodsOnNode node)).

Definition getKubeNode (node : string) : m Node := in_k8s (k_GetNode node).

Definition getKubeNodeLabel (node key : string) : m string :=
  n ← getKubeNode node;
  match node_Labels n !! key with
  | Some val => mret val
  | None => throw (Errorf "cannot find label for node")
  end.

Definition getPod (podName podNS : string) : m Pod := in_k8s (k_GetPod podNS podName).

Definition setAnnotationForCalicoPolicy (pod : Pod) (network : PodNetwork) : m unit :=
  flag ← srv CalicoPolicyFlag;
  if negb flag then mret tt else
  setPodAnnotation pod (<[AnnotationCalicoPolicyPodIP := pn_VPCIP network]> (pod_Annotations pod)).

Definition IsPodEnableStaticIP (podName podNS : string) : m (bool * Pod) :=
  pod ← in_k8s (k_GetPod podNS podName);
  mret (static_ip_enabled pod, pod).

Definition podEnableStaticIP (podName podNS : string) : m (bool * Pod) :=
  '(enabled, pod) ← IsPodEnableStaticIP podName podNS;
  if negb enabled then mret (enabled, pod) else
  with_wrap "static IP requires an available VpcIPClaim API"
    (in_k8s (k_ListClaimsNamed podNS podName));;
  mret (true, pod).

(** *** vpcclaim.go *)

Definition createVpcIpClaim (vip : VpcIpClaim) : m VpcIpClaim :=
  with_wrap "create Claim" (in_k8s (k_CreateClaim vip)).

Definition getVpcipClaim (podNS podName : string) : m VpcIpClaim := in_k8s (k_GetClaim podNS podName).

Definition staticIpPodExists (pn : PodNetwork) : m bool :=
  r ← attempt (getVpcipClaim (pn_PodNS pn) (pn_PodName pn));
  mret (match r with inl _ => false | inr _ => true end).

(** One attempt of the update. *)
Definition mark_attempt (req : AddPodNetworkRequest) (vip : VpcIpClaim) (sandboxId : string) : m unit :=
  vip ← in_k8s (k_GetClaim (vip_Namespace vip) (vip_Name vip));
  zone ← srv zoneId;
  pod ← attempt (getPod (vip_Name vip) (vip_Namespace vip));
  let pod := match pod with inl _ => None | inr p => Some p end in
  _ ← in_k8s (k_UpdateClaim (attached_claim (ar_MacAddress req) zone sandboxId pod vip));
  mret tt.

Definition markVPCIpClaimAttached (req : AddPodNetworkRequest) (vip : VpcIpClaim)
    (sandboxId : string) : m unit :=
  RetryOnConflict (mark_attempt req vip sandboxId).

Definition findStaticIp (podNS podName : string) : m (option VpcIpClaim) :=
  r ← attempt (getVpcipClaim podNS podName);
  match r with
  | inr vip => mret (Some vip)
  | inl err => if k8serr_is NotFound err then mret None else throw err
  end.

Definition localAttach (req : AddPodNetworkRequest) (vip : VpcIpClaim) (sandboxID : string)
    : m VpcIpClaim :=
  let spec := vip_Spec vip in
  r ← attempt (uapiDescribeSecondaryIp (cs_Ip spec) (cs_SubnetId spec));
  prevMac ← match r with
            | inl _ => mret (ct_Mac (vip_Status vip))
            | inr None =>
                ip ← with_msg "failed to allocate specify secondary ip"
                       (uapiAllocateSpecifiedSecondaryIp (cs_Ip spec) req);
                mret (ii_Mac ip)
            | inr (Some ip) => mret (ii_Mac ip)
            end;
  (if negb (String.eqb prevMac (ar_MacAddress req))
   then with_msg "failed to move secondary ip"
          (uapiMoveSecondaryIPMac
             (pn_set_SubnetID (cs_SubnetId spec) (pn_set_MacAddress prevMac
                (mkPodNetwork "" "" "" "" "" (cs_Ip spec) "" "" "" "" "" false "" "" 0 0 false)))
             (ar_MacAddress req))
   else mret tt);;
  markVPCIpClaimAttached req vip sandboxID;;
  getVpcipClaim (vip_Namespace vip) (vip_Name vip).

Definition VipToPodNetwork (vip : VpcIpClaim) : m PodNetwork :=
  now ← in_proc Now;
  let spec := vip_Spec vip in
  mret (mkPodNetwork (vip_Name vip) (vip_Namespace vip) "" "" "" (cs_Ip spec) (cs_VpcId spec)
          (cs_SubnetId spec) (cs_Gateway spec) (cs_Mask spec) (ct_Mac (vip_Status vip)) false
          "" "" now 0 false).

(** [time.Now().Format("2006-01-02 15:04:05")], in the local zone. *)
Definition NowFormat : m string :=
  now ← in_proc Now;
  offset ← in_proc (gets (λ p, ext_TZOffset now (proc_ext p)));
  mret (FormatDateTime offset now).

Definition PodNetworkToVip (pn : PodNetwork) : m VpcIpClaim :=
  t ← NowFormat;
  mret (mkClaim (pn_PodName pn) (pn_PodNS pn) ∅ ["cni-vpc-ipamd"]
          (mkClaimSpec (pn_VPCIP pn) (pn_Mask pn) (pn_Gateway pn) (pn_SubnetID pn) (pn_VPCID pn))
          (mkClaimStatus true "" t (pn_MacAddress pn) "Never" "")).

Definition createVpcIpClaimByPodNetwork (req : AddPodNetworkRequest) (pn : PodNetwork) (pod : Pod)
    : m VpcIpClaim :=
  vip ← PodNetworkToVip pn;
  let ownerSts := getOwnerStatefulSetName pod in
  let labels : gmap string string :=
    if String.eqb ownerSts "" then ∅ else {["owner-statefulset" := ownerSts]} in
  let vip := mkClaim (vip_Name vip) (vip_Namespace vip) labels (vip_Finalizers vip)
               (vip_Spec vip) (vip_Status vip) in
  r ← attempt (createVpcIpClaim vip);
  match r with
  | inl err => (if definite_rejection err then _ ← putIpToPool pn; mret tt else mret tt);; throw err
  | inr vpcclaim => localAttach req vpcclaim (pn_SandboxID pn)
  end.

End k8s_go.

(** ** Lemmas *)

Section props.
Context {H D K E : Type} `{!Database PodNetwork H D} `{!Database CooldownItem H D}
  `{!StoreFrame H D} `{!DatabaseLaws PodNetwork H D} `{!DatabaseLaws CooldownItem H D}
  `{!KubeApi K} `{!KubeLaws K} `{!CloudApi E} `{!RetryApi} `{!RetryLaws}.
Implicit Types (s : St H D K E) (a : Abs H K).

Definition claims_of s : gmap (string * string) VpcIpClaim := k_claims (st_k8s s).

Lemma leaves_retry (R : St H D K E → St H D K E → Prop) `{!PreOrder R} (f : M _ unit) :
  leaves R f → leaves R (RetryOnConflict f).
Proof.
  intros Hf s. apply (wp_RetryOnConflict f (R s) (λ _ s', R s s')); [done|].
  intros s1 Hs1. unfold wp. specialize (Hf s1). split; [by etrans|]. intros. by etrans.
Qed.

Lemma leaves_mark req vip sb : leaves same_but_k8s (mark_attempt req vip sb : M (St H D K E) unit).
Proof. unfold mark_attempt, getPod. solve_leaves. Qed.
Lemma leaves_markAttached req vip sb :
  leaves same_but_k8s (markVPCIpClaimAttached req vip sb : M (St H D K E) unit).
Proof. apply (leaves_retry _), leaves_mark. Qed.
#[local] Hint Resolve leaves_markAttached : leaves.
Lemma leaves_localAttach req vip sb :
  leaves same_but_k8s (localAttach req vip sb : M (St H D K E) VpcIpClaim).
Proof. unfold localAttach, getVpcipClaim. solve_leaves. Qed.

Lemma leaves_PodNetworkToVip pn : leaves same_but_proc (PodNetworkToVip pn : M (St H D K E) VpcIpClaim).
Proof. unfold PodNetworkToVip, NowFormat. solve_leaves. Qed.
Lemma safe_PodNetworkToVip pn : safe (PodNetworkToVip pn : M (St H D K E) VpcIpClaim).
Proof. unfold PodNetworkToVip, NowFormat, in_proc, Now. solve_safe. Qed.

(** What an attached claim says. *)
Definition claim_attached (mac zone sandboxId : string) (c : VpcIpClaim) : Prop :=
  ct_Attached (vip_Status c) = true ∧ ct_Mac (vip_Status c) = mac ∧ ct_Zone (vip_Status c) = zone ∧
  ct_SandboxId (vip_Status c) = sandboxId ∧ vip_Finalizers c = ["cni-vpc-ipamd"] ∧
  vip_Labels c !! "attached" = Some "true".

(** A stored claim becomes the attached version of itself. *)
Definition marked (m0 m1 : gmap (string * string) VpcIpClaim) (key : string * string)
    (mac zone sandboxId : string) : Prop :=
  ∃ c pod, m0 !! key = Some c ∧ m1 = <[key := attached_claim mac zone sandboxId pod c]> m0.

Lemma attached_claim_attached mac zone sb pod c :
  claim_attached mac zone sb (attached_claim mac zone sb pod c) ∧
  claim_key (attached_claim mac zone sb pod c) = claim_key c ∧
  vip_Spec (attached_claim mac zone sb pod c) = vip_Spec c.
Proof. unfold claim_attached; simpl. split_and!; try done. by rewrite lookup_insert_eq. Qed.

Lemma mark_attempt_spec req vip sb s :
  wp (mark_attempt req vip sb) (λ o s', same_but_k8s s s' ∧
    match o with
    | Ok _ => marked (claims_of s) (claims_of s') (claim_key vip) (ar_MacAddress req)
                (zoneId (st_srv s)) sb
    | Err _ => True
    | _ => False
    end) s.
Proof.
  unfold mark_attempt. wp_step. pose proof (k_GetClaim_keeps (vip_Namespace vip) (vip_Name vip) (st_k8s s)) as Hk1.
  apply wp_in_k8s; intros c k1 E1; rewrite E1 in Hk1; simpl in Hk1; cbn [kont]; [|done].
  apply k_GetClaim_law in E1 as [Hc Hkey]. wp_step. apply wp_srv. cbn [kont]. do 2 wp_step. unfold getPod.
  pose proof (k_GetPod_claims (vip_Namespace c) (vip_Name c) k1) as Hk2.
  apply wp_in_k8s; simpl; intros x k2 E2; rewrite E2 in Hk2; simpl in Hk2; cbn [kont];
    wp_step; apply wp_in_k8s; intros y k3 E3; cbn [kont]; wp_steps; try done;
    (split; [done|]); apply k_UpdateClaim_law in E3 as [-> E3];
    match type of E3 with _ = <[claim_key (attached_claim _ _ _ ?p _) := _]> _ => exists c, p end;
    unfold claims_of; simpl in *; (split; [done|]);
    rewrite E3, Hk2, Hk1; f_equal; by destruct c.
Qed.

Lemma markAttached_spec req vip sb s :
  wp (markVPCIpClaimAttached req vip sb) (λ o s', same_but_k8s s s' ∧
    match o with
    | Ok _ => ∃ s0, same_but_k8s s s0 ∧
        marked (claims_of s0) (claims_of s') (claim_key vip) (ar_MacAddress req)
          (zoneId (st_srv s)) sb
    | Err _ => True
    | _ => False
    end) s.
Proof.
  unfold markVPCIpClaimAttached. apply (wp_RetryOnConflict _ (same_but_k8s s)); [done|].
  intros s0 Hs0. eapply wp_mono; [apply mark_attempt_spec|]. intros o s' [Hs Ho].
  split; [|intros; by etrans]. split; [by etrans|]. destruct o; try done.
  exists s0. split; [done|]. by destruct Hs0 as [<- _].
Qed.

(** A claim that localAttach returns has the key of the given claim, is attached
    with the MAC, zone and sandbox of the request, and is what the API server now
    stores. *)
Theorem localAttach_correct req vip sb s :
  wp (localAttach req vip sb) (λ o s', same_but_k8s s s' ∧
    ∀ c, o = Ok c → claim_key c = claim_key vip ∧
      claim_attached (ar_MacAddress req) (zoneId (st_srv s)) sb c ∧
      claims_of s' !! claim_key vip = Some c) s.
Proof.
  unfold localAttach.
  assert (∀ (o : outcome VpcIpClaim) s', same_but_k8s s s' → (∀ c, o ≠ Ok c) →
    same_but_k8s s s' ∧ ∀ c, o = Ok c → claim_key c = claim_key vip ∧
      claim_attached (ar_MacAddress req) (zoneId (st_srv s)) sb c ∧
      claims_of s' !! claim_key vip = Some c) as Hfail.
  { intros o s' Hs Ho. split; [done|]. intros c Hc. by destruct (Ho c). }
  eapply (wp_bind_leaves same_but_k8s); [solve_leaves|by apply Hfail|].
  intros r s1 Hs1. eapply (wp_bind_leaves same_but_k8s); [solve_leaves|intros; apply Hfail; [by etrans|done]|].
  intros prevMac s2 Hs2. eapply (wp_bind_leaves same_but_k8s); [solve_leaves|intros; apply Hfail; [by do 2 (etrans; [done|])|done]|].
  intros [] s3 Hs3. assert (same_but_k8s s s3) as Hs03 by (by do 2 (etrans; [done|])).
  wp_step. eapply wp_mono; [apply markAttached_spec|]. intros o s4 [Hs4 Ho].
  assert (same_but_k8s s s4) as Hs04 by (by etrans).
  destruct o as [[]|e| |]; [cbn [kont]|by apply Hfail|done|done].
  destruct Ho as (s0 & Hs0 & c0 & pod & Hc0 & Hm).
  unfold getVpcipClaim.
  pose proof (k_GetClaim_keeps (vip_Namespace vip) (vip_Name vip) (st_k8s s4)) as Hk.
  apply wp_in_k8s; intros c k5 E5; rewrite E5 in Hk; simpl in Hk; [|by apply Hfail].
  split; [done|]. intros c' [= ->]. apply k_GetClaim_law in E5 as [Hc Hkey].
  change (claims_of s4 !! claim_key vip = Some c') in Hc.
  assert (claims_of s4 !! claim_key vip = Some (attached_claim (ar_MacAddress req) (zoneId (st_srv s3)) sb pod c0))
    as Hc2 by (by rewrite Hm, lookup_insert_eq).
  destruct (attached_claim_attached (ar_MacAddress req) (zoneId (st_srv s3)) sb pod c0) as (Ha & _ & _).
  assert (zoneId (st_srv s3) = zoneId (st_srv s)) as Hz by (by destruct Hs03 as [-> _]).
  rewrite Hz in *. rewrite Hc2 in Hc. injection Hc as <-. split_and!; try done.
  unfold claims_of in *. simpl. rewrite Hk. exact Hc2.
Qed.

(** The pools are as before, or the server definitely refused the claim, which
    was not stored, and the address is back in its pool. *)
Definition claim_post pn s a (o : outcome VpcIpClaim) s' : Prop :=
  rep s' (set_a_k8s (st_k8s s') a) ∨
  (∃ e, o = Err e ∧ definite_rejection e = true ∧ claims_of s' = claims_of s ∧
     rep s' (set_a_k8s (st_k8s s') (a_put pn a))).

Lemma createVpcIpClaim_spec req pn pod s a :
  rep s a → wp (createVpcIpClaimByPodNetwork req pn pod) (claim_post pn s a) s.
Proof.
  intros Hr. unfold createVpcIpClaimByPodNetwork, claim_post. wp_step.
  eapply wp_proc; [apply leaves_PodNetworkToVip|apply safe_PodNetworkToVip|done|..];
    intros v s1 _ Hr1 Hs1; cbn [kont].
  2:{ left. rewrite (rep_k8s _ _ Hr1). by destruct a. }
  do 2 wp_step. unfold createVpcIpClaim. wp_step.
  set (claim := mkClaim _ _ _ _ _ _).
  apply wp_in_k8s; intros x k E1; cbn [kont].
  - assert (rep (set_k8s k s1) (set_a_k8s k a)) as Hr2 by (by apply (rep_k8s_change s1)).
    apply (wp_leaves _ _ _ _ (leaves_localAttach _ _ _)). intros o s3 _ Hs3. left.
    by apply (rep_k8s_change _ _ _ Hs3) in Hr2.
  - assert (rep (set_k8s k s1) (set_a_k8s k a)) as Hr2 by (by apply (rep_k8s_change s1)).
    change (definite_rejection (Wrap "create Claim" x)) with (definite_rejection x).
    destruct (definite_rejection x) eqn:Hd; wp_steps.
    2:{ left. exact Hr2. }
    apply run_wp. intros o s3 E3.
    assert (st_k8s s3 = k) as Ek3.
    { destruct (wp_run _ _ _ _ _ (putIpToPool_spec pn _ _ Hr2) E3) as [[_ Hr3]|[_ Hr3]];
        apply rep_k8s in Hr3; done. }
    destruct (wp_run _ _ _ _ _ (putIpToPool_spec pn _ _ Hr2) E3) as [[-> Hr3]|[-> Hr3]]; wp_steps.
    + right. eexists. split; [done|]. split; [exact Hd|]. split.
      * unfold claims_of. rewrite Ek3. rewrite (k_CreateClaim_rejected _ _ _ _ E1 Hd).
        by destruct Hs1 as (_ & _ & ->).
      * rewrite Ek3. exact Hr3.
    + left. rewrite Ek3. exact Hr3.
Qed.

(** C29: When createVpcIpClaimByPodNetwork gives the allocated address back to its pool,
    it has failed with a definite rejection of the API server and no claim was changed;
    in every other case the databases are untouched. *)
Theorem createVpcIpClaim_rollback req pn pod s a :
  rep s a → wp (createVpcIpClaimByPodNetwork req pn pod) (claim_post pn s a) s.
Proof. apply createVpcIpClaim_spec. Qed.

(** Converting a pod network to a claim and back keeps the pod, the address and its
    VPC, subnet, gateway, mask and MAC, drops sandbox, interface and recycling fields
    and stamps the current time. *)
Theorem VipToPodNetwork_roundtrip pn s :
  wp (vip ← PodNetworkToVip pn; VipToPodNetwork vip) (λ o s', ∃ now,
    o = Ok (mkPodNetwork (pn_PodName pn) (pn_PodNS pn) "" "" "" (pn_VPCIP pn) (pn_VPCID pn)
      (pn_SubnetID pn) (pn_Gateway pn) (pn_Mask pn) (pn_MacAddress pn) false "" "" now 0 false)) s.
Proof.
  unfold wp, PodNetworkToVip, NowFormat, VipToPodNetwork, in_proc, Now, ext_total, zoom, gets.
  cbv [mbind M_bind mret M_ret].
  destruct (ext_Now (proc_ext (st_proc s))) as [now e]. simpl.
  destruct (ext_Now e) as [now2 e2]. simpl. by exists now2.
Qed.
End props.

(** ** Witnesses *)

Definition demo_pod : Pod :=
  mkPod "web-0" "default" "uid-1" "node-1" {[STS_ENABLE_STATIC_IP := "True"]}
    [mkOwner "StatefulSet" "web"] PodRunning.
Definition demo_claim : VpcIpClaim :=
  mkClaim "web-0" "default" ∅ ["cni-vpc-ipamd"]
    (mkClaimSpec "10.0.0.51" "255.255.255.0" "10.0.0.1" "subnet-a" "uvnet-1")
    (mkClaimStatus false "" "" "52:54:00:01:02:03" "Never" "").
Definition demo3 (faults : list (option error)) (claims : gmap (string * string) VpcIpClaim)
    : St Bolt mem_bolt cluster world :=
  demo_open "subnet-a" (demo_st demo_server demo_pools demo_cool demo_net
    (mkCluster [demo_pod] [mkNode "node-1" ∅] ∅ claims faults) demo_world).
Definition demo3_abs faults claims : Abs Bolt cluster :=
  demo_abs demo_server demo_pools demo_cool demo_net
    (mkCluster [demo_pod] [mkNode "node-1" ∅] ∅ claims faults).
Lemma demo3_rep faults claims : rep (demo3 faults claims) (demo3_abs faults claims).
Proof.
  apply demo_open_rep; [reflexivity|apply demo_rep; vm_compute; reflexivity|].
  by eapply demo_pool_open.
Qed.

(** The second update conflicts once before it succeeds. *)
Lemma localAttach_witness :
  let s := demo3 [None; None; Some (K8sErr Conflict)] {[("default", "web-0") := demo_claim]} in
  (∃ c, (localAttach demo_req demo_claim "sandbox-1" s).1 = Ok c ∧
     claim_attached "52:54:00:01:02:03" "cn-bj2-02" "sandbox-1" c).
Proof.
  intros s. destruct (localAttach_correct demo_req demo_claim "sandbox-1" s) as [_ W].
  destruct (localAttach demo_req demo_claim "sandbox-1" s).1 as [c|e|w|] eqn:E;
    try (exfalso; revert E; vm_compute; discriminate).
  exists c. split; [reflexivity|]. destruct (W c eq_refl) as (_ & Hc & _). exact Hc.
Defined.

(** The server forbids the claim: the address goes back to the pool. *)
Lemma createVpcIpClaim_rollback_witness :
  let s := demo3 [Some (K8sErr Forbidden)] ∅ in
  let pn := pn_set_Pod "web-0" "default" "sandbox-1" (demo_pn "10.0.0.51") in
  (createVpcIpClaimByPodNetwork demo_req pn demo_pod s).1 = Err (Wrap "create Claim" (K8sErr Forbidden)) ∧
  bolt_get (pool_bucket "subnet-a") "uvnet-1-10.0.0.51"
    (st_db (createVpcIpClaimByPodNetwork demo_req pn demo_pod s).2) ≠ None ∧
  (rep (createVpcIpClaimByPodNetwork demo_req pn demo_pod s).2
     (set_a_k8s (st_k8s (createVpcIpClaimByPodNetwork demo_req pn demo_pod s).2)
        (demo3_abs [Some (K8sErr Forbidden)] ∅)) ∨
   ∃ e, (createVpcIpClaimByPodNetwork demo_req pn demo_pod s).1 = Err e ∧
     definite_rejection e = true).
Proof.
  intros s pn. split; [vm_compute; reflexivity|]. split; [vm_compute; discriminate|].
  destruct (createVpcIpClaim_rollback demo_req pn demo_pod s (demo3_abs [Some (K8sErr Forbidden)] ∅))
    as [W|(e & W1 & W2 & _)]; [apply demo3_rep|left; exact W|right].
  exists e. split; [exact W1|exact W2].
Defined.
