(* ===== verification/PodIp.v ===== *)
(** Handing an address to a pod and taking it back ([pkg/ipamd/pool.go]): the
    assignment, the checks before an address is handed out, and the events of the
    manager loop [ipPoolWatermarkManager], which owns the pools. *)
From S2P Require Export VpcClaim.

(** ** Definitions *)

Section pod_ip.
Context {H D K E : Type} `{!Database PodNetwork H D} `{!Database CooldownItem H D}
  `{!KubeApi K} `{!CloudApi E} `{!GoRuntime E} `{!RetryApi}.
#[local] Abbreviation m := (M (St H D K E)).

Definition assignPodIP (req : AddPodNetworkRequest) : m PodNetwork :=
  pool ← with_msg "failed to get pool to assign ip" (getPool (ar_SubnetID req) true);
  kv ← attempt (in_db (db_Pop pool));
  match kv with
  | inr kv => mret (kv_Value kv)
  | inl err =>
      if IsEOF err then
        vpcIp ← attempt (uapiAllocateSecondaryIP req);
        match vpcIp with
        | inr ip => convertIpToPodNetwork ip (ar_InterfaceID req)
        | inl err =>
            if bool_decide (err = ErrOutOfIP)
            then with_msg "vpc out of ip, and failed to borrow from others" (borrowIP req)
            else throw err
        end
      else throw err
  end.

Definition assignStaticPodIP (pod : Pod) (sandboxID : string) (req : AddPodNetworkRequest)
    : m PodNetwork :=
  vip ← findStaticIp (pod_Namespace pod) (pod_Name pod);
  match vip with
  | Some vip => vip ← localAttach req vip sandboxID; VipToPodNetwork vip
  | None =>
      r ← attempt (assignPodIP req);
      match r with
      | inl _ => throw (Errorf "can not get static ip for pod")
      | inr nvip =>
          now ← in_proc Now;
          let nvip := pn_set_Pod (pod_Name pod) (pod_Namespace pod) sandboxID
                        (pn_set_CreateTime now nvip) in
          _ ← createVpcIpClaimByPodNetwork req nvip pod;
          mret nvip
      end
  end.

(** The checks on the address that was assigned. *)
Definition check_assigned (enableStatic : bool) (pn : PodNetwork) : m PodNetwork :=
  ok ← attempt (checkSecondaryIpExist pn);
  match ok with
  | inl err =>
      (if negb enableStatic then _ ← putIpToPool pn; mret tt else mret tt);;
      throw (Errorf "check ip status in vpc error")
  | inr false => throw (Errorf "ip does not exist on current node, we will try to use another one")
  | inr true =>
      if negb (pn_Recycled pn) && negb (String.eqb (pn_VPCIP pn) "") then
        r ← attempt (checkIPConflict (pn_VPCIP pn));
        match r with
        | inl err => ignore (uapiDeleteSecondaryIp pn);; throw err
        | inr _ => mret pn
        end
      else mret pn
  end.

Definition getPodIp (req : AddPodNetworkRequest) : m PodNetwork :=
  '(enableStatic, pod) ← podEnableStaticIP (ar_PodName req) (ar_PodNamespace req);
  pn ← (if enableStatic : bool then assignStaticPodIP pod (ar_SandboxID req) req else assignPodIP req);
  check_assigned enableStatic pn.

(** *** The manager loop *)

(** What the [select] receives. *)
Inductive pool_event : Type :=
| Tick                                        (* tk.C *)
| AddPodIP (req : AddPodNetworkRequest)       (* chanAddPodIP *)
| DelPodIP (pn : PodNetwork)                  (* chanDelPodIP *)
| CooldownTick                                (* cooldownTk.C *)
| RecycleStatusTick.                          (* recycleStatusTk.C *)

(** The message the sender of the event gets. *)
Inductive pool_reply : Type :=
| NoReply
| AddReply (r : error + PodNetwork)
| DelReply.

(** [for key, pool := range s.poolDB]: the entries present when the loop starts. *)
Definition range_pools (body : string → H → m unit) : m unit :=
  pools ← srv poolDB;
  entries ← in_proc (ext_total (rt_range (map_to_list pools)));
  for_range entries (λ kv, body kv.1 kv.2).

Definition tick_pool (key : string) (pool : H) : m unit :=
  size ← attempt (in_db (db_Count (T := PodNetwork) pool));
  match size with
  | inl _ => mret tt
  | inr size =>
      high ← srv AvailablePodIPHighWatermark;
      if size >? high then releasePool pool size else mret tt
  end.

(** The request with the defaults that the loop fills in. *)
Definition default_request (c : ApiClient) (mac : string) (r : AddPodNetworkRequest)
    : AddPodNetworkRequest :=
  mkAddReq (ar_PodName r) (ar_PodNamespace r) (ar_SandboxID r) (ar_Netns r)
    (if String.eqb (ar_SubnetID r) "" then ac_subnetId c else ar_SubnetID r)
    (if String.eqb (ar_MacAddress r) "" then mac else ar_MacAddress r)
    (ar_InterfaceID r).

(** The case of the [select], with true when it ends in [continue]. *)
Definition handle_event (ev : pool_event) : m (pool_reply * bool) :=
  match ev with
  | Tick => range_pools tick_pool;; mret (NoReply, false)
  | AddPodIP req =>
      c ← srv srv_uapi;
      mac ← srv masterMacAddress;
      r ← attempt (getPodIp (default_request c mac req));
      mret (AddReply r, false)
  | DelPodIP pn =>
      static ← staticIpPodExists pn;
      if static : bool then mret (DelReply, true) else
      cooldownIP pn;;
      mret (DelReply, false)
  | CooldownTick => recycleCooldownIP;; mret (NoReply, false)
  | RecycleStatusTick => ignore recycleStatus;; mret (NoReply, false)
  end.

(** One round of the loop. *)
Definition manager_round (ev : pool_event) : m pool_reply :=
  '(r, continue) ← handle_event ev;
  if continue : bool then mret r else
  range_pools (λ key pool, ignore (updateStatus key pool));;
  mret r.

End pod_ip.

(** ** The abstract effects *)

Section props.
Context {H D K E : Type} `{!Database PodNetwork H D} `{!Database CooldownItem H D}
  `{!StoreFrame H D} `{!DatabaseLaws PodNetwork H D} `{!DatabaseLaws CooldownItem H D}
  `{!KubeApi K} `{!KubeLaws K} `{!CloudApi E} `{!VpcLaws E} `{!GoRuntime E} `{!GoRuntimeLaws E}
  `{!RetryApi} `{!RetryLaws}.
Implicit Types (s : St H D K E) (a : Abs H K).

(** The contract of [assignPodIP]: an address of the subnet's pool, taken out of
    it, or, only when that pool is empty, one from the VPC or another node; in
    every other case the pools are as before. *)
Definition assign_post a (req : AddPodNetworkRequest) (o : outcome PodNetwork) s' : Prop :=
  let sub := pool_of a (ar_SubnetID req) in
  (∃ k pn, o = Ok pn ∧ a_pool a sub !! k = Some pn ∧
     rep s' (set_a_pool sub (delete k (a_pool a sub)) a)) ∨
  (rep s' (set_a_k8s (st_k8s s') a) ∧
   ∀ pn, o = Ok pn → a_pool a sub = ∅ ∧ pn_Recycled pn = false).

Lemma rep_set_k8s_same s a : rep s a → rep s (set_a_k8s (st_k8s s) a).
Proof. intros Hr. rewrite (rep_k8s _ _ Hr). by destruct a. Qed.

Lemma leaves_convert ip ifc : leaves same_but_proc (convertIpToPodNetwork ip ifc : M (St H D K E) _).
Proof. unfold convertIpToPodNetwork. solve_leaves. Qed.

Lemma assignPodIP_spec req s a : rep s a → wp (assignPodIP req) (assign_post a req) s.
Proof.
  intros Hr. unfold assignPodIP, assign_post. set (sub := pool_of a (ar_SubnetID req)).
  do 2 wp_step. wp_use getPool_spec as (Hr1 & _ & [[-> Ho]|[e ->]]); [done| |]; cbn [kont].
  2:{ right. split; [by apply rep_set_k8s_same|done]. }
  do 2 wp_step. wp_use pool_Pop_spec as (_ & Hcase); [done|done|].
  destruct Hcase as [(k & pn & -> & Hk & Hr2 & _)|[(-> & Hm & Hr2)|(e & -> & He & Hr2)]]; cbn [kont].
  - wp_steps. left. by exists k, pn.
  - change (IsEOF ErrEOF) with true. cbn iota. do 2 wp_step.
    apply (wp_leaves _ _ _ _ (leaves_Allocate _)). intros o s3 _ Hs3.
    pose proof (rep_proc _ _ _ Hs3 Hr2) as Hr3. pose proof (rep_set_k8s_same _ _ Hr3).
    destruct o as [ip|e|w|]; cbn [kont]; [|case_bool_decide|by right..].
    + apply (wp_leaves _ _ _ _ (leaves_convert _ _)). intros o s4 E4 Hs4. right.
      split; [by eapply rep_set_k8s_same, rep_proc|]. intros pn ->. split; [done|].
      revert E4. unfold convertIpToPodNetwork, in_proc, Now, ext_total, zoom.
      cbv [mbind M_bind mret M_ret]. destruct (ext_Now _). intros [= <- <-]. done.
    + apply wp_with_msg. eapply wp_mono; [apply borrowIP_spec|]. intros o s4 [[Hs4 _] Hb].
      assert (rep s4 (set_a_k8s (st_k8s s4) a)) by (by eapply rep_k8s_change).
      destruct o; right; (split; [done|]); intros; simplify_eq. by destruct Hb as [? _].
    + wp_steps. by right.
  - rewrite He. wp_steps. right. split; [by apply rep_set_k8s_same|done].
Qed.

(** C9: assignPodIP either takes one address out of the pool of the wanted subnet and
    returns exactly it, or leaves all databases alone; it allocates or borrows only when
    that pool is empty, and such an address is not marked recycled. *)
Theorem assignPodIP_correct req s a : rep s a → wp (assignPodIP req) (assign_post a req) s.
Proof. apply assignPodIP_spec. Qed.

(** The last that happened before [s]: the address failed the conflict probe, after
    which its deletion in the VPC was tried unless the probe panicked. *)
Definition conflict_found (pn : PodNetwork) s : Prop :=
  pn_Recycled pn = false ∧
  ∃ s1 s2 o, checkIPConflict (pn_VPCIP pn) s1 = (o, s2) ∧ o ≠ Ok tt ∧
    (returns o = true → s = (uapiDeleteSecondaryIp pn s2).2) ∧ (returns o = false → s = s2).
(** The last that happened before [s] was the probe, and it found nothing. *)
Definition conflict_free (pn : PodNetwork) s : Prop :=
  pn_Recycled pn = true ∨ pn_VPCIP pn = "" ∨
  ∃ s1, checkIPConflict (pn_VPCIP pn) s1 = (Ok tt, s).

(** The contract of the checks: what is handed out exists in the VPC and is free
    of conflicts; a dynamic address that is refused goes back to its pool, or is
    gone from the VPC, or was found in conflict, or could not be put back. *)
Definition check_post (static : bool) (c : ApiClient) (pn : PodNetwork) a
    (o : outcome PodNetwork) s' : Prop :=
  match o with
  | Ok pn' => pn' = pn ∧ rep s' a ∧ addr_of c pn ∈ vpc_of s' ∧ conflict_free pn s'
  | _ => (static = false ∧ rep s' (a_put pn a)) ∨
         (rep s' a ∧ (static = true ∨ addr_of c pn ∉ vpc_of s' ∨ conflict_found pn s' ∨ put_failed pn s'))
  end.

Lemma check_assigned_spec static pn s a :
  rep s a → wp (check_assigned static pn) (check_post static (srv_uapi (a_cfg a)) pn a) s.
Proof.
  intros Hr. unfold check_assigned, check_post. do 2 wp_step.
  eapply wp_mono; [apply checkSecondaryIpExist_spec|]. intros o s1 [[Hp Hv] Ho].
  rewrite (rep_uapi _ _ Hr) in Ho. pose proof (rep_proc _ _ _ Hp Hr) as Hr1.
  destruct o as [b|e| |]; try done; cbn [kont].
  - destruct b; cbn iota.
    2:{ wp_steps. right. split; [done|]. right. left. rewrite Hv. intros Hin%Ho. done. }
    assert (addr_of (srv_uapi (a_cfg a)) pn ∈ vpc_of s1) as Hin by (rewrite Hv; by apply Ho).
    destruct (pn_Recycled pn) eqn:Erec; cbn [negb andb].
    { wp_steps. split_and!; try done. by left. }
    destruct (String.eqb_spec (pn_VPCIP pn) ""); cbn [negb].
    { wp_steps. split_and!; try done. by right; left. }
    do 2 wp_step. apply (wp_leaves _ _ _ _ (leaves_vpc_checkIPConflict _)). intros o s2 E2 [Hp2 Hv2].
    pose proof (rep_proc _ _ _ Hp2 Hr1) as Hr2.
    destruct o as [[]|e|w|]; cbn [kont].
    + wp_steps. split_and!; try done; [by rewrite Hv2|]. right. right. by exists s1.
    + wp_step. unfold ignore. do 2 wp_step.
      eapply wp_proc; [apply leaves_Delete|apply safe_Delete|exact Hr2|..]; intros x s3 E3 Hr3 _; wp_steps;
        right; (split; [done|]); right; right; left; (split; [done|]);
        exists s1, s2, (Err e); split_and!; try done; by rewrite E3.
    + right. split; [done|]. right; right; left. split; [done|]. by exists s1, s2, (Panic w).
    + right. split; [done|]. right; right; left. split; [done|]. by exists s1, s2, Diverge.
  - destruct static; cbn [negb]; wp_steps. { right. by auto. }
    apply run_wp. intros o s2 E2.
    destruct (wp_run _ _ _ _ _ (putIpToPool_spec pn _ _ Hr1) E2) as [[-> Hr2]|[-> Hr2]]; wp_steps.
    + by left.
    + right. split; [done|]. right. right. right. by exists s1.
Qed.

Lemma leaves_podEnableStaticIP n ns :
  leaves same_but_k8s (podEnableStaticIP n ns : M (St H D K E) (bool * Pod)).
Proof. unfold podEnableStaticIP, IsPodEnableStaticIP. solve_leaves. Qed.
Lemma leaves_findStaticIp ns n :
  leaves same_but_k8s (findStaticIp ns n : M (St H D K E) (option VpcIpClaim)).
Proof. unfold findStaticIp, getVpcipClaim. solve_leaves. Qed.
Lemma leaves_VipToPodNetwork v : leaves same_but_proc (VipToPodNetwork v : M (St H D K E) PodNetwork).
Proof. unfold VipToPodNetwork. solve_leaves. Qed.

(** *** The configuration is never changed *)

(** Some abstract state with the configuration [c], consistent pools and records
    in [N]. *)
Section good_states.
Variable N : gmap string PodNetwork → Prop.

Definition ok_state (c : ipamServer H) s : Prop :=
  ∃ a, rep s a ∧ pool_consistent a ∧ a_cfg a = c ∧ N (a_net a).
Definition keeps_ok (c : ipamServer H) s s' : Prop := ok_state c s → ok_state c s'.
#[global] Instance keeps_ok_preorder c : PreOrder (keeps_ok c).
Proof. split; [by intros s ?|]. intros s1 s2 s3 H12 H23 Hs. auto. Qed.

Lemma pool_consistent_cool c a : pool_consistent a → pool_consistent (set_a_cool c a).
Proof. done. Qed.
Lemma pool_consistent_k8s k a : pool_consistent a → pool_consistent (set_a_k8s k a).
Proof. done. Qed.

Lemma same_k8s_ok c s s' : same_but_k8s s s' → keeps_ok c s s'.
Proof. intros Hs (a & Hr & Hc & Ha & Hn). eexists. split; [by eapply rep_k8s_change|done]. Qed.
Lemma leaves_k8s_ok c {A} (x : M (St H D K E) A) : leaves same_but_k8s x → leaves (keeps_ok c) x.
Proof. intros Hl s. apply same_k8s_ok, Hl. Qed.
Lemma leaves_proc_ok c {A} (x : M (St H D K E) A) : leaves same_but_proc x → leaves (keeps_ok c) x.
Proof. intros Hl. by apply leaves_k8s_ok, leaves_weaken. Qed.

(** A specification that ends in good states gives the frame property. *)
Lemma leaves_of_wp {A} c (x : M (St H D K E) A) :
  (∀ s a, rep s a → pool_consistent a → a_cfg a = c → N (a_net a) → wp x (λ _ s', ok_state c s') s) →
  leaves (keeps_ok c) x.
Proof. intros Hx s (a & Hr & Hc & Ha & Hn). by apply (Hx s a). Qed.

Lemma put_ok c pn : leaves (keeps_ok c) (putIpToPool pn : M (St H D K E) bool).
Proof.
  apply leaves_of_wp. intros s a Hr Hc Ha Hn. eapply wp_mono; [by apply putIpToPool_spec|].
  intros o s' [[_ ?]|[_ ?]]; eexists; (split; [done|]); split; try done. by apply pool_consistent_put.
Qed.
Lemma assign_ok c req : leaves (keeps_ok c) (assignPodIP req : M (St H D K E) PodNetwork).
Proof.
  apply leaves_of_wp. intros s a Hr Hc Ha Hn. eapply wp_mono; [by apply assignPodIP_spec|].
  intros o s' [(k & pn & _ & _ & ?)|[? _]]; eexists; (split; [done|]); split; try done.
  by apply pool_consistent_delete.
Qed.
Lemma claim_ok c req pn pod :
  leaves (keeps_ok c) (createVpcIpClaimByPodNetwork req pn pod : M (St H D K E) VpcIpClaim).
Proof.
  apply leaves_of_wp. intros s a Hr Hc Ha Hn. eapply wp_mono; [by apply createVpcIpClaim_spec|].
  intros o s' [?|(e & _ & _ & _ & ?)]; eexists; (split; [done|]); split; try done.
  by apply (pool_consistent_put pn a).
Qed.
Lemma check_ok c static pn : leaves (keeps_ok c) (check_assigned static pn : M (St H D K E) PodNetwork).
Proof.
  apply leaves_of_wp. intros s a Hr Hc Ha Hn. eapply wp_mono; [by apply check_assigned_spec|].
  intros o s' Hp. destruct o; simpl in Hp; [destruct Hp as (_ & Hr' & _); by exists a|..];
    (destruct Hp as [[_ Hr']|[Hr' _]]; eexists; (split; [done|]); split; try done;
     by apply pool_consistent_put).
Qed.
Lemma cooldown_ok c pn : leaves (keeps_ok c) (cooldownIP pn : M (St H D K E) unit).
Proof.
  unfold cooldownIP. apply leaves_bind; [apply _|apply leaves_proc_ok, leaves_in_proc|]. intros now.
  apply leaves_bind; [apply _|apply leaves_srv; apply _|]. intros period.
  apply leaves_bind; [apply _|apply leaves_proc_ok, leaves_in_proc|]. intros now'.
  apply leaves_bind; [apply _| |intros; apply leaves_ret; apply _].
  apply leaves_of_wp. intros s a Hr Hc Ha Hn. eapply wp_mono; [by apply putIpToCooldown_spec|].
  intros o s' (d & [(_ & _ & _ & ?)|(_ & _ & _ & _ & ?)]); by eexists.
Qed.
Lemma assignStatic_ok c pod sb req :
  leaves (keeps_ok c) (assignStaticPodIP pod sb req : M (St H D K E) PodNetwork).
Proof.
  unfold assignStaticPodIP.
  apply leaves_bind; [apply _|apply leaves_k8s_ok, leaves_findStaticIp|]. intros [v|].
  - apply leaves_bind; [apply _|apply leaves_k8s_ok, leaves_localAttach|]. intros v'.
    apply leaves_proc_ok, leaves_VipToPodNetwork.
  - apply leaves_bind; [apply _|apply leaves_attempt, assign_ok|].
    intros [e|pn]; [apply leaves_throw; apply _|].
    apply leaves_bind; [apply _|apply leaves_proc_ok, leaves_in_proc|]. intros now.
    apply leaves_bind; [apply _|apply claim_ok|]. intros v. apply leaves_ret; apply _.
Qed.
Lemma getPodIp_ok c req : leaves (keeps_ok c) (getPodIp req : M (St H D K E) PodNetwork).
Proof.
  unfold getPodIp. apply leaves_bind; [apply _|apply leaves_k8s_ok, leaves_podEnableStaticIP|].
  intros [[] pod]; (apply leaves_bind; [apply _| |intros; apply check_ok]).
  - apply assignStatic_ok.
  - apply assign_ok.
Qed.
End good_states.

(** C7: An address that getPodIp hands to a pod exists in the VPC for the node at that
    moment, and, unless it is a recycled or empty one, an ARP probe found no conflict on
    it. *)
Theorem getPodIp_safe req s a :
  rep s a → pool_consistent a →
  wp (getPodIp req) (λ o s', ∀ pn, o = Ok pn →
    addr_of (srv_uapi (a_cfg a)) pn ∈ vpc_of s' ∧ conflict_free pn s') s.
Proof.
  intros Hr Hc. unfold getPodIp.
  set (Q := λ (o : outcome PodNetwork) s', _).
  assert (ok_state (λ _, True) (a_cfg a) s) as Hs by (by exists a).
  assert (∀ static pn s', ok_state (λ _, True) (a_cfg a) s' → wp (check_assigned static pn) Q s') as Hcheck.
  { intros static pn s' (a' & Hr' & Hc' & Ha' & _).
    eapply wp_mono; [by apply check_assigned_spec|]. intros o s2 Hp pn' ->. rewrite Ha' in Hp.
    destruct Hp as (-> & _ & ? & ?). done. }
  assert (∀ o s', (∀ x, o ≠ Ok x) → Q o s') as Hfail by (intros o s' Ho pn ->; by destruct (Ho pn)).
  eapply (wp_bind_leaves (keeps_ok (λ _, True) (a_cfg a))); [apply leaves_k8s_ok, leaves_podEnableStaticIP|auto|].
  intros [static pod] s1 Hs1.
  eapply (wp_bind_leaves (keeps_ok (λ _, True) (a_cfg a))); [destruct static; [apply assignStatic_ok|apply assign_ok]|auto|].
  intros pn s2 Hs2. apply Hcheck. by apply Hs2, Hs1.
Qed.

(** The pod is not one that keeps its address. *)
Definition dynamic_pod (req : AddPodNetworkRequest) s : Prop :=
  ∀ pod k, k_GetPod (ar_PodNamespace req) (ar_PodName req) (st_k8s s) = (inr pod, k) →
    static_ip_enabled pod = false.

Lemma podEnable_dynamic req s :
  dynamic_pod req s →
  wp (podEnableStaticIP (ar_PodName req) (ar_PodNamespace req)) (λ o s', same_but_k8s s s' ∧
    ∀ b pod, o = Ok (b, pod) → b = false) s.
Proof.
  intros Hd. unfold podEnableStaticIP, IsPodEnableStaticIP. do 2 wp_step.
  apply wp_in_k8s; intros pod k E1; cbn [kont]; [|done]. apply Hd in E1. rewrite E1.
  wp_steps. split; [done|]. by intros ?? [= <- <-].
Qed.

(** The contract of a refused assignment to a dynamic pod. *)
Definition refused_post a (req : AddPodNetworkRequest) s' : Prop :=
  let sub := pool_of a (ar_SubnetID req) in
  ∃ a', rep s' a' ∧ a_cool a' = a_cool a ∧ a_net a' = a_net a ∧
  ((∀ x, a_pool a' x = a_pool a x) ∨
   (∃ k pn, a_pool a sub !! k = Some pn ∧
      (∀ x, a_pool a' x = if decide (x = sub) then delete k (a_pool a sub) else a_pool a x) ∧
      (addr_of (srv_uapi (a_cfg a)) pn ∉ vpc_of s' ∨ conflict_found pn s' ∨ put_failed pn s')) ∨
   (∃ pn, a_pool a sub = ∅ ∧ ∀ x, a_pool a' x = a_pool (a_put pn a) x)).

Lemma fn_insert_if (sub x : string) p (f : string → gmap string PodNetwork) :
  <[sub := p]> f x = if decide (x = sub) then p else f x.
Proof.
  case_decide as Hd; [subst; apply fn_lookup_insert|]. by apply fn_lookup_insert_ne.
Qed.

(** Putting back what was popped restores the pools. *)
Lemma put_popped_pool a sub k pn x :
  pool_consistent a → a_pool a sub !! k = Some pn →
  a_pool (a_put pn (set_a_pool sub (delete k (a_pool a sub)) a)) x = a_pool a x.
Proof.
  intros Hc Hk. destruct (Hc _ _ _ Hk) as [Ek Es].
  by destruct (a_put_back pn sub k a Hk Ek Es) as (_ & _ & Hp & _).
Qed.

(** C8: When getPodIp refuses a pod without a static address, cooldown set and records
    are unchanged and the pools are unchanged too, except for one address that is gone
    from the VPC, was found in conflict or could not be put back, or, when the pool was
    empty, one fresh address that was added. *)
Theorem getPodIp_no_loss req s a :
  rep s a → pool_consistent a → dynamic_pod req s →
  wp (getPodIp req) (λ o s', (∀ pn, o ≠ Ok pn) → refused_post a req s') s.
Proof.
  intros Hr Hc Hd. unfold getPodIp. set (sub := pool_of a (ar_SubnetID req)).
  assert (∀ s', rep s' (set_a_k8s (st_k8s s') a) → refused_post a req s') as Hsame.
  { intros s' Hr'. eexists. split_and!; [exact Hr'|done..|by left]. }
  wp_step. eapply wp_mono; [by apply podEnable_dynamic|]. intros o s1 [Hs1 Hb].
  assert (rep s1 (set_a_k8s (st_k8s s1) a)) as Hr1 by (by eapply rep_k8s_change).
  destruct o as [[static pod]|e|w|]; cbn [kont]; [|by intros _; apply Hsame..].
  rewrite (Hb _ _ eq_refl). set (a1 := set_a_k8s (st_k8s s1) a) in *.
  wp_step. eapply wp_mono; [by apply assignPodIP_spec|]. intros o s2 Hp.
  assert ((∀ x, o ≠ Ok x) → refused_post a req s2) as Hfail.
  { intros Ho. destruct Hp as [(k & pn & -> & _)|[Hr2 _]]; [by destruct (Ho pn)|by apply Hsame]. }
  destruct o as [pn|e|w|]; cbn [kont]; [|by intros _; apply Hfail..].
  destruct Hp as [(k & pn' & [= <-] & Hk & Hr2)|[Hr2 Hnew]].
  - eapply wp_mono; [by apply check_assigned_spec|]. intros o s3 Hcp Ho.
    change (a_cfg (set_a_pool _ _ a1)) with (a_cfg a) in Hcp.
    assert ((rep s3 (a_put pn (set_a_pool sub (delete k (a_pool a1 sub)) a1))) ∨
      (rep s3 (set_a_pool sub (delete k (a_pool a1 sub)) a1) ∧
       (addr_of (srv_uapi (a_cfg a)) pn ∉ vpc_of s3 ∨ conflict_found pn s3 ∨ put_failed pn s3))) as [Hr3|[Hr3 Hwhy]].
    { destruct o; [by destruct (Ho a0)|..]; destruct Hcp as [[_ ?]|[? [?|?]]]; auto; done. }
    + eexists. split_and!; [exact Hr3|done..|]. left. intros x.
      by apply (put_popped_pool a1 sub k pn x Hc Hk).
    + eexists. split_and!; [exact Hr3|done..|]. right. left. exists k, pn.
      split_and!; [done| |done]. intros x. simpl. apply fn_insert_if.
  - eapply wp_mono; [by apply check_assigned_spec|]. intros o s3 Hcp Ho.
    assert (rep s3 (a_put pn (set_a_k8s (st_k8s s2) a1)) ∨ rep s3 (set_a_k8s (st_k8s s2) a1)) as [Hr3|Hr3].
    { destruct o; [by destruct (Ho a0)|..]; destruct Hcp as [[_ ?]|[? _]]; auto. }
    + eexists. split_and!; [exact Hr3|done..|]. right. right. exists pn.
      destruct (Hnew _ eq_refl) as [He _]. done.
    + eexists. split_and!; [exact Hr3|done..|by left].
Qed.

(** *** The manager loop *)

(** Pools are only ever added to [poolDB]. *)
Definition pool_mono s s' : Prop := poolDB (st_srv s) ⊆ poolDB (st_srv s').
#[local] Instance pool_mono_preorder : PreOrder pool_mono.
Proof.
  split; [intros s; unfold pool_mono; reflexivity|].
  intros s1 s2 s3 H12 H23. unfold pool_mono in *. by etrans.
Qed.

Lemma mono_k8s {A} (x : M (St H D K E) A) : leaves same_but_k8s x → leaves pool_mono x.
Proof. intros Hl s. destruct (Hl s) as [Es _]. unfold pool_mono. by rewrite Es. Qed.
Lemma mono_proc {A} (x : M (St H D K E) A) : leaves same_but_proc x → leaves pool_mono x.
Proof. intros Hl. by apply mono_k8s, leaves_weaken. Qed.
Lemma mono_db {A} (x : M D A) : leaves pool_mono (in_db x : M (St H D K E) A).
Proof. intros s. unfold in_db, zoom, pool_mono. by destruct (x (st_db s)). Qed.
Lemma mono_getPool n c : leaves pool_mono (getPool n c : M (St H D K E) H).
Proof.
  intros s. unfold getPool, pool_mono, srv, gets, in_db, zoom, with_msg, modify, throw.
  cbv [mbind M_bind mret M_ret]. simpl.
  destruct (poolDB (st_srv s) !! _) as [h|] eqn:Eh; [done|]. destruct c; simpl; [|done].
  destruct (db_New _ _) as [[h|e|w|] d]; simpl; try done. by apply insert_subseteq.
Qed.

Ltac solve_mono :=
  repeat first
  [ progress intros | apply mono_db | apply mono_getPool
  | apply leaves_ret; apply _ | apply leaves_throw; apply _ | apply leaves_srv; apply _
  | apply leaves_bind; [apply _| |] | apply leaves_attempt | apply leaves_with_msg
  | solve [eauto with leaves nocore]
  | solve [apply mono_proc; eauto with leaves nocore]
  | solve [apply mono_k8s; eauto with leaves nocore]
  | apply mono_proc, leaves_in_proc | apply mono_k8s, leaves_in_k8s
  | match goal with |- leaves _ (match ?x with _ => _ end) => destruct x end
  | match goal with |- leaves _ (if ?x then _ else _) => destruct x end
  | progress unfold ignore ].

Lemma mono_release n h : leaves pool_mono (release_loop n h : M (St H D K E) unit).
Proof. induction n; simpl; unfold backupPushSecondaryIP; solve_mono; done. Qed.
Lemma mono_tick_pool key h : leaves pool_mono (tick_pool key h : M (St H D K E) unit).
Proof. unfold tick_pool, releasePool. solve_mono; apply mono_release. Qed.
Lemma mono_updateStatus key h : leaves pool_mono (ignore (updateStatus key h) : M (St H D K E) unit).
Proof. unfold updateStatus. solve_mono. Qed.

(** A pool of [poolDB] is open. *)
Lemma ok_open N c s key h :
  ok_state N c s → poolDB (st_srv s) !! key = Some h →
  ∃ sub a, key = pool_bucket sub ∧ h = db_handle key ∧ rep s a ∧ pool_open sub s a ∧
    pool_consistent a ∧ a_cfg a = c ∧ N (a_net a).
Proof.
  intros (a & Hr & Hc & Ha & Hn) Hk. destruct (rep_open _ _ Hr _ _ Hk) as (sub & -> & -> & Ho).
  by exists sub, a.
Qed.

(** A loop over the pools keeps the state good if its body does on an open pool. *)
Lemma range_pools_ok N c (body : string → H → M (St H D K E) unit) :
  (∀ key h, leaves pool_mono (body key h)) →
  (∀ sub s a, rep s a → pool_open sub s a → pool_consistent a → a_cfg a = c → N (a_net a) →
     wp (body (pool_bucket sub) (db_handle (pool_bucket sub))) (λ _ s', ok_state N c s') s) →
  leaves (keeps_ok N c) (range_pools body).
Proof.
  intros Hmono Hbody s Hs. unfold range_pools.
  change (wp (pools ← srv poolDB;
    entries ← in_proc (ext_total (rt_range (map_to_list pools)));
    for_range entries (λ kv, body kv.1 kv.2)) (λ _ s', ok_state N c s') s).
  wp_step. apply wp_srv. cbn [kont]. wp_step. apply wp_range. intros entries s1 Hp Hs1. cbn [kont].
  assert (ok_state N c s1) as Hok1 by (by eapply same_k8s_ok; [apply same_proc_k8s|]).
  assert (∀ kv, kv ∈ entries → poolDB (st_srv s1) !! kv.1 = Some kv.2) as Hin.
  { intros [k h] Hkv. rewrite Hp in Hkv. apply elem_of_map_to_list in Hkv. simpl.
    by destruct Hs1 as [-> _]. }
  clear Hp Hs1. revert s1 Hok1 Hin.
  induction entries as [|[key h] l IH]; intros s1 Hok1 Hin; simpl; [by wp_steps|].
  destruct (ok_open N c s1 key h Hok1) as (sub & a & -> & -> & Hr & Ho & Hc & Ha & Hn).
  { apply (Hin (key, h)). apply list_elem_of_here. }
  wp_step. pose proof (Hmono (pool_bucket sub) (db_handle (pool_bucket sub)) s1) as Hm.
  apply run_wp. intros o s2 E2. rewrite E2 in Hm. simpl in Hm.
  pose proof (wp_run _ _ _ _ _ (Hbody sub s1 a Hr Ho Hc Ha Hn) E2) as Hok2. simpl in Hok2.
  destruct o as [[]|e|w|]; cbn [kont]; try done.
  apply IH; [done|]. intros kv Hkv. eapply lookup_weaken; [|exact Hm].
  apply Hin. by apply list_elem_of_further.
Qed.

Lemma tick_pool_ok N c sub s a :
  0 ≤ AvailablePodIPHighWatermark c →
  rep s a → pool_open sub s a → pool_consistent a → a_cfg a = c → N (a_net a) →
  wp (tick_pool (pool_bucket sub) (db_handle (pool_bucket sub))) (λ _ s', ok_state N c s') s.
Proof.
  intros Hh Hr Ho Hc Ha Hn. unfold tick_pool. do 2 wp_step. apply wp_in_db.
  eapply wp_mono; [by apply db_Count_law|]. intros o d (Ht & Hd & Hcase).
  assert (rep (set_db d s) a) as Hr1 by (by eapply rep_same_pool).
  destruct Hcase as [->|[e ->]]; cbn [kont]; [|wp_steps; by exists a].
  wp_step. apply wp_srv. cbn [kont]. wp_steps; [|by exists a].
  unfold releasePool. wp_step. apply wp_srv. cbn [kont].
  eapply wp_mono; [apply (release_loop_spec _ sub _ a); [done..|]|].
  - rewrite (rep_field AvailablePodIPHighWatermark _ a (λ _ _, Logic.eq_refl) Hr1), Ha. lia.
  - intros o s' (_ & a' & Hr' & _ & Hnet & Hcfg & Hoth & Hsub & _). exists a'.
    split; [done|]. rewrite Hcfg, Hnet. split; [|done]. intros sub' k pn Hk. unfold pool_of. rewrite Hcfg.
    apply (Hc sub' k pn). destruct (decide (sub' = sub)) as [->|Hne]; [|by rewrite <- Hoth].
    by eapply lookup_weaken.
Qed.

Lemma manager_round_ok N c ev :
  0 ≤ AvailablePodIPHighWatermark c →
  leaves (keeps_ok N c) (manager_round ev : M (St H D K E) pool_reply).
Proof.
  intros Hh.
  assert (leaves (keeps_ok N c) (range_pools (λ key pool, ignore (updateStatus key pool))
    : M (St H D K E) unit)) as Hupd.
  { apply range_pools_ok; [intros; apply mono_updateStatus|]. intros sub s a Hr Ho Hc Ha Hn.
    unfold ignore. do 2 wp_step. eapply wp_mono; [by apply updateStatus_spec|].
    intros o s' [Hr' _]. destruct o; wp_steps; by eexists. }
  assert (leaves (keeps_ok N c) (handle_event ev : M (St H D K E) _)) as Hev.
  { destruct ev as [|req|pn| |]; simpl.
    - apply leaves_bind; [apply _| |intros; apply leaves_ret, _].
      apply range_pools_ok; [apply mono_tick_pool|]. intros sub s a. by apply tick_pool_ok.
    - do 2 (apply leaves_bind; [apply _|apply leaves_srv, _|intros]).
      apply leaves_bind; [apply _|apply leaves_attempt, getPodIp_ok|intros; apply leaves_ret, _].
    - apply leaves_bind; [apply _| |].
      + apply leaves_k8s_ok. unfold staticIpPodExists, getVpcipClaim. solve_leaves.
      + intros []; [apply leaves_ret, _|].
        apply leaves_bind; [apply _|apply cooldown_ok|intros; apply leaves_ret, _].
    - apply leaves_bind; [apply _| |intros; apply leaves_ret, _].
      apply leaves_of_wp. intros s a Hr Hc Ha Hn. eapply wp_mono; [by apply recycleCooldownIP_spec|].
      intros o s' (_ & a' & Hr' & Hrec & _). exists a'. split; [done|].
      destruct (recycled_consistent _ _ _ _ Hrec Hc) as (? & -> & ->). done.
    - apply leaves_bind; [apply _| |intros; apply leaves_ret, _].
      unfold ignore. apply leaves_bind; [apply _| |intros; apply leaves_ret, _].
      apply leaves_attempt. intros s. apply same_k8s_ok. by apply (recycleStatus_spec s). }
  unfold manager_round. apply leaves_bind; [apply _|done|]. intros [r []]; [apply leaves_ret, _|].
  apply leaves_bind; [apply _|done|intros; apply leaves_ret, _].
Qed.
End props.

(** ** Witnesses *)

Definition demo_dyn_pod : Pod :=
  mkPod "web-0" "default" "uid-1" "node-1" ∅ [mkOwner "ReplicaSet" "web"] PodPending.
Definition demo_k4 : cluster := mkCluster [demo_dyn_pod] [mkNode "node-1" ∅] ∅ ∅ [].
Definition demo4 (w : world) : St Bolt mem_bolt cluster world :=
  demo_open "subnet-a" (demo_st demo_server demo_pools demo_cool demo_net demo_k4 w).
Definition demo4_abs : Abs Bolt cluster :=
  demo_abs demo_server demo_pools demo_cool demo_net demo_k4.
Lemma demo4_rep w : rep (demo4 w) demo4_abs.
Proof.
  apply demo_open_rep; [reflexivity|apply demo_rep; vm_compute; reflexivity|].
  by eapply demo_pool_open.
Qed.
Lemma demo4_consistent : pool_consistent demo4_abs.
Proof. apply demo_consistent. vm_compute. reflexivity. Qed.

Lemma assignPodIP_witness :
  assign_post demo4_abs demo_req (Ok (demo_pn "10.0.0.50")) (assignPodIP demo_req (demo4 demo_world)).2 ∧
  (assignPodIP demo_req (demo4 demo_world)).1 = Ok (demo_pn "10.0.0.50").
Proof.
  assert ((assignPodIP demo_req (demo4 demo_world)).1 = Ok (demo_pn "10.0.0.50")) as E
    by (vm_compute; reflexivity).
  split; [|exact E].
  pose proof (assignPodIP_correct demo_req (demo4 demo_world) demo4_abs (demo4_rep _)) as W.
  unfold wp in W. rewrite E in W. exact W.
Defined.

Lemma getPodIp_safe_witness :
  (getPodIp demo_req (demo4 demo_world)).1 = Ok (demo_pn "10.0.0.50") ∧
  addr_of demo_client (demo_pn "10.0.0.50") ∈ vpc_of (getPodIp demo_req (demo4 demo_world)).2 ∧
  conflict_free (demo_pn "10.0.0.50") (getPodIp demo_req (demo4 demo_world)).2.
Proof.
  assert ((getPodIp demo_req (demo4 demo_world)).1 = Ok (demo_pn "10.0.0.50")) as E
    by (vm_compute; reflexivity).
  split; [exact E|].
  exact (getPodIp_safe demo_req (demo4 demo_world) demo4_abs (demo4_rep _) demo4_consistent _ E).
Defined.

(** The query of the VPC fails: the address is put back. *)
Definition demo_failing : world :=
  mkWorld 1000 ∅ (Some demo_meta) [demo_info "10.0.0.50"] [] [] None [true].

Lemma demo4_dynamic w : dynamic_pod demo_req (demo4 w).
Proof. intros pod k Ek. vm_compute in Ek. injection Ek as <- _. vm_compute. reflexivity. Qed.

Lemma getPodIp_no_loss_witness :
  (getPodIp demo_req (demo4 demo_failing)).1 = Err (Errorf "check ip status in vpc error") ∧
  refused_post demo4_abs demo_req (getPodIp demo_req (demo4 demo_failing)).2 ∧
  bolt_keyN (pool_bucket "subnet-a") (st_db (getPodIp demo_req (demo4 demo_failing)).2) = 1.
Proof.
  assert ((getPodIp demo_req (demo4 demo_failing)).1 = Err (Errorf "check ip status in vpc error")) as E
    by (vm_compute; reflexivity).
  split; [exact E|]. split; [|vm_compute; reflexivity].
  apply (getPodIp_no_loss demo_req (demo4 demo_failing) demo4_abs);
    [apply demo4_rep|apply demo4_consistent|apply demo4_dynamic|].
  intros pn Hp. rewrite E in Hp. discriminate.
Defined.
