(* ===== verification/IpamdRpc.v ===== *)
(** The gRPC service of the node daemon ([pkg/ipamd/rpc.go]) and the record
    reconciliation ([pkg/ipamd/resource.go]); the reachable states of the daemon. *)
From S2P Require Export PodIp.

(** ** Definitions *)

(** The status codes of [google.golang.org/grpc/codes] that the handlers return. *)
Inductive grpc_code : Type := CodeInternal | CodeInvalidArgument.

(** A response with the status error, nil on success. *)
Definition reply (A : Type) : Type := Response A * option grpc_code.
Definition reply_ok {A} (a : A) : reply A := (mkResp CNISuccess a, None).
Definition reply_err {A} (code : CNIErrorCode) (a : A) (st : grpc_code) : reply A :=
  (mkResp code a, Some st).

(** Whether the record of a pod's network is that of the running pod [p]. *)
Definition record_of_pod (p : Pod) (pn : PodNetwork) : bool :=
  String.eqb (pod_Name p) (pn_PodName pn) && String.eqb (pod_Namespace p) (pn_PodNS pn).

Section rpc.
Context {H D K E : Type} `{!Database PodNetwork H D} `{!Database CooldownItem H D}
  `{!KubeApi K} `{!CloudApi E} `{!GoRuntime E} `{!RetryApi}.
#[local] Abbreviation m := (M (St H D K E)).

(** The request goes to the manager loop over a channel; the handler waits for
    the answer. *)
Definition AddPodNetwork (req : AddPodNetworkRequest) : m (reply (option PodNetwork)) :=
  p ← attempt (getPod (ar_PodName req) (ar_PodNamespace req));
  match p with
  | inl _ => mret (reply_err CNIK8SAPIError None CodeInternal)
  | inr p =>
      r ← manager_round (AddPodIP req);
      match r with
      | AddReply (inr pn) =>
          anno ← attempt (setAnnotationForCalicoPolicy p pn);
          match anno with
          | inl _ =>
              backupReleaseSecondaryIP pn;;
              mret (reply_err CNIAllocateSecondaryIPFailure None CodeInternal)
          | inr _ =>
              let pn := pn_set_Pod (ar_PodName req) (ar_PodNamespace req) (ar_SandboxID req) pn in
              mret (reply_ok (Some (pn_set_NetNS (ar_Netns req) (pn_set_PodUID (pod_UID p) pn))))
          end
      | _ => mret (reply_err CNIAllocateSecondaryIPFailure None CodeInternal)
      end
  end.

(** The loop never answers a deletion with an error. *)
Definition DelPodNetwork (pn : option PodNetwork) : m (reply unit) :=
  match pn with
  | None => mret (reply_ok tt)
  | Some pn => _ ← manager_round (DelPodIP pn); mret (reply_ok tt)
  end.

Definition AddPodNetworkRecord (pn : option PodNetwork) : m (reply unit) :=
  pn ← deref pn;
  db ← srv networkDB;
  r ← attempt (in_db (db_Put db (PodKey (pn_PodName pn) (pn_PodNS pn) (pn_SandboxID pn)) pn));
  match r with
  | inr _ => mret (reply_ok tt)
  | inl _ => mret (reply_err CNIWriteDBError tt CodeInternal)
  end.

Definition DelPodNetworkRecord (podName podNS sandboxID : string) : m (reply unit) :=
  db ← srv networkDB;
  r ← attempt (in_db (db_Delete (T := PodNetwork) db (PodKey podName podNS sandboxID)));
  match r with
  | inr _ => mret (reply_ok tt)
  | inl _ => mret (reply_err CNIWriteDBError tt CodeInternal)
  end.

Definition GetPodNetworkRecord (podName podNS sandboxID : string) : m (reply (option PodNetwork)) :=
  db ← srv networkDB;
  r ← attempt (in_db (db_Get db (PodKey podName podNS sandboxID)));
  match r with
  | inr p => mret (reply_ok (Some p))
  | inl err =>
      if IsNotFound err then mret (reply_ok None)
      else mret (reply_err CNIReadDBError None CodeInternal)
  end.

Definition ListPodNetworkRecord : m (reply (list PodNetwork)) :=
  db ← srv networkDB;
  r ← attempt (in_db (db_List db));
  match r with
  | inl _ => mret (reply_err CNIReadDBError [] CodeInternal)
  | inr kvs => mret (reply_ok (Values kvs))
  end.

Definition BorrowIP (req : BorrowIPRequest) : m (reply (option PodNetwork)) :=
  if String.eqb (br_MacAddress req) "" then mret (reply_err CNIMissingParameters None CodeInvalidArgument)
  else if String.eqb (br_SubnetID req) "" then mret (reply_err CNIMissingParameters None CodeInvalidArgument)
  else
    ip ← attempt (lendIP req);
    match ip with
    | inl _ => mret (reply_err CNIBorrowIPFailure None CodeInternal)
    | inr ip => mret (reply_ok (Some ip))
    end.

Definition SupportMultiSubnet : m (reply bool) := mret (reply_ok true).

(** *** resource.go *)

(** The inner loop over the pods, at record [kv]: true when it is an orphan. *)
Fixpoint reconcile_record (db : H) (kv : KeyValue PodNetwork) (pods : list Pod) : m bool :=
  match pods with
  | [] => mret false
  | p :: pods' =>
      let pn := kv_Value kv in
      let last := bool_decide (pods' = []) in
      if record_of_pod p pn then
        if String.eqb (pod_UID p) (pn_PodUID pn) then mret false
        else if String.eqb (pn_PodUID pn) "" then
          ignore (in_db (db_Put db (kv_Key kv) (pn_set_PodUID (pod_UID p) pn)));; mret false
        else if last then mret true else reconcile_record db kv pods'
      else if last then mret true else reconcile_record db kv pods'
  end.

Fixpoint find_orphans (db : H) (pods : list Pod) (kvs : list (KeyValue PodNetwork))
    : m (list (KeyValue PodNetwork)) :=
  match kvs with
  | [] => mret []
  | kv :: kvs' =>
      orphan ← reconcile_record db kv pods;
      rest ← find_orphans db pods kvs';
      mret (if orphan : bool then kv :: rest else rest)
  end.

Definition doReconcile : m unit :=
  folks ← attempt getLocalPods;
  match folks with
  | inl _ => mret tt
  | inr pods =>
      db ← srv networkDB;
      kvs ← attempt (in_db (db_List db));
      match kvs with
      | inl _ => mret tt
      | inr kvs =>
          orphans ← find_orphans db pods kvs;
          for_range orphans (λ kv, ignore (in_db (db_Delete (T := PodNetwork) db (kv_Key kv))))
      end
  end.

(** *** The daemon as a transition system *)

(** What runs in the daemon: rounds of the manager loop, handlers that work on the
    databases directly, and the reconciliation.  Each is one step; [BoltProps]
    refines the steps of two concurrent poppers. *)
Inductive server_op : Type :=
| OpRound (ev : pool_event)
| OpBorrow (req : BorrowIPRequest)
| OpAddRecord (pn : option PodNetwork)
| OpDelRecord (podName podNS sandboxID : string)
| OpReconcile
| OpRelease (pn : PodNetwork).     (* the error path of AddPodNetwork *)

Definition run_op (op : server_op) : m unit :=
  match op with
  | OpRound ev => _ ← manager_round ev; mret tt
  | OpBorrow req => _ ← BorrowIP req; mret tt
  | OpAddRecord pn => _ ← AddPodNetworkRecord pn; mret tt
  | OpDelRecord n ns sb => _ ← DelPodNetworkRecord n ns sb; mret tt
  | OpReconcile => doReconcile
  | OpRelease pn => backupReleaseSecondaryIP pn
  end.

Inductive server_step : St H D K E → St H D K E → Prop :=
| server_step_op op s : server_step s (run_op op s).2.

End rpc.

(** ** Lemmas *)

Section props.
Context {H D K E : Type} `{!Database PodNetwork H D} `{!Database CooldownItem H D}
  `{!StoreFrame H D} `{!DatabaseLaws PodNetwork H D} `{!DatabaseLaws CooldownItem H D}
  `{!KubeApi K} `{!KubeLaws K} `{!CloudApi E} `{!VpcLaws E} `{!GoRuntime E} `{!GoRuntimeLaws E}
  `{!RetryApi} `{!RetryLaws}.
Implicit Types (s : St H D K E) (a : Abs H K).

Lemma rep_net_id s a d' :
  rep s a → only_touches (db_handle NetworkDBName) (st_db s) d' →
  db_holds (db_handle NetworkDBName) d' (a_net a) → rep (set_db d' s) a.
Proof.
  intros. replace a with (set_a_net (a_net a) a) by (by destruct a). by apply rep_set_net.
Qed.

(** *** The records *)

Lemma AddPodNetworkRecord_spec pn s a :
  rep s a →
  wp (AddPodNetworkRecord (Some pn)) (λ o s',
    (o = Ok (reply_ok tt) ∧ rep s' (set_a_net (<[record_key pn := pn]> (a_net a)) a)) ∨
    (o = Ok (reply_err CNIWriteDBError tt CodeInternal) ∧ rep s' a)) s.
Proof.
  intros Hr. unfold AddPodNetworkRecord, deref. wp_steps. apply wp_srv. cbn [kont].
  rewrite (rep_networkDB _ _ Hr). do 2 wp_step. apply wp_in_db.
  eapply wp_mono; [apply db_Put_law, Hr|].
  intros o d' [Ht [[-> Hd]|(e & -> & Hd)]]; wp_steps.
  - left. split; [done|]. by apply rep_set_net.
  - right. split; [done|]. by apply rep_net_id.
Qed.

Lemma DelPodNetworkRecord_spec n ns sb s a :
  rep s a →
  wp (DelPodNetworkRecord n ns sb) (λ o s',
    (o = Ok (reply_ok tt) ∧ rep s' (set_a_net (delete (PodKey n ns sb) (a_net a)) a)) ∨
    (o = Ok (reply_err CNIWriteDBError tt CodeInternal) ∧ rep s' a)) s.
Proof.
  intros Hr. unfold DelPodNetworkRecord. wp_step. apply wp_srv. cbn [kont].
  rewrite (rep_networkDB _ _ Hr). do 2 wp_step. apply wp_in_db.
  eapply wp_mono; [apply db_Delete_law, Hr|].
  intros o d' [Ht [[-> Hd]|(e & -> & Hd)]]; wp_steps.
  - left. split; [done|]. by apply rep_set_net.
  - right. split; [done|]. by apply rep_net_id.
Qed.

Lemma GetPodNetworkRecord_spec n ns sb s a :
  rep s a →
  wp (GetPodNetworkRecord n ns sb) (λ o s', rep s' a ∧
    (o = Ok (reply_ok (a_net a !! PodKey n ns sb)) ∨
     o = Ok (reply_err CNIReadDBError None CodeInternal))) s.
Proof.
  intros Hr. unfold GetPodNetworkRecord. wp_step. apply wp_srv. cbn [kont].
  rewrite (rep_networkDB _ _ Hr). do 2 wp_step. apply wp_in_db.
  eapply wp_mono; [apply db_Get_law, Hr|].
  intros o d' (Ht & Hd & Hcase). assert (rep (set_db d' s) a) by (by apply rep_net_id).
  destruct Hcase as [(v & -> & ->)|[[-> ->]|(e & -> & He)]]; cbn [kont].
  - wp_steps. split; [done|by left].
  - change (IsNotFound ErrNotFound) with true. wp_steps. split; [done|by left].
  - rewrite He. wp_steps. split; [done|by right].
Qed.

Lemma ListPodNetworkRecord_spec s a :
  rep s a →
  wp ListPodNetworkRecord (λ o s', rep s' a ∧
    ((∃ l, o = Ok (reply_ok l) ∧ l ≡ₚ (map_to_list (a_net a)).*2) ∨
     o = Ok (reply_err CNIReadDBError [] CodeInternal))) s.
Proof.
  intros Hr. unfold ListPodNetworkRecord. wp_step. apply wp_srv. cbn [kont].
  rewrite (rep_networkDB _ _ Hr). do 2 wp_step. apply wp_in_db.
  eapply wp_mono; [apply db_List_law, Hr|]. intros o d' (Ht & Hd & Hcase).
  assert (rep (set_db d' s) a) as Hr' by (by apply rep_net_id).
  destruct Hcase as [(kvs & -> & Hp)|[e ->]]; cbn [kont]; wp_steps; (split; [done|]); [left|by right].
  exists (Values kvs). split; [done|]. by apply Values_perm.
Qed.

(** A record that AddPodNetworkRecord stored without an error is what
    GetPodNetworkRecord returns for its pod and sandbox; pools and cooldown set are not
    touched. *)
Theorem record_add_get pn s a :
  rep s a →
  wp (r ← AddPodNetworkRecord (Some pn);
      g ← GetPodNetworkRecord (pn_PodName pn) (pn_PodNS pn) (pn_SandboxID pn); mret (r, g))
    (λ o s', ∃ r g, o = Ok (r, g) ∧
      (r.2 = None → g.2 = None → resp_payload g.1 = Some pn) ∧
      (∃ a', rep s' a' ∧ a_cool a' = a_cool a ∧ ∀ sub, a_pool a' sub = a_pool a sub)) s.
Proof.
  intros Hr. wp_step. eapply wp_mono; [by apply AddPodNetworkRecord_spec|].
  intros o s1 [[-> Hr1]|[-> Hr1]]; cbn [kont]; wp_step;
    (eapply wp_mono; [by apply GetPodNetworkRecord_spec|]);
    intros o s2 [Hr2 [-> | ->]]; wp_steps; eexists _, _; (split; [done|]); simpl;
    (split; [|eexists; split_and!; [exact Hr2|done..]]); try done.
  intros _ _. unfold record_key. by rewrite lookup_insert_eq.
Qed.

(** After DelPodNetworkRecord without an error GetPodNetworkRecord finds no record
    of that pod and sandbox; the records of all other keys stay. *)
Theorem record_del_get n ns sb s a :
  rep s a →
  wp (r ← DelPodNetworkRecord n ns sb; g ← GetPodNetworkRecord n ns sb; mret (r, g))
    (λ o s', ∃ r g, o = Ok (r, g) ∧
      (r.2 = None → g.2 = None → resp_payload g.1 = None) ∧
      (∀ k pn, k ≠ PodKey n ns sb → a_net a !! k = Some pn →
         ∃ a', rep s' a' ∧ a_net a' !! k = Some pn)) s.
Proof.
  intros Hr. wp_step. eapply wp_mono; [by apply DelPodNetworkRecord_spec|].
  intros o s1 [[-> Hr1]|[-> Hr1]]; cbn [kont]; wp_step;
    (eapply wp_mono; [by apply GetPodNetworkRecord_spec|]);
    intros o s2 [Hr2 [-> | ->]]; wp_steps; eexists _, _; (split; [done|]); simpl;
    (split; [|intros k pn Hne Hk; eexists; split; [exact Hr2|]]); simpl; try done;
    try (by rewrite lookup_delete_ne).
  intros _ _. by rewrite lookup_delete_eq.
Qed.

(** *** Reconciliation *)

(** Some pod of the list owns the record. *)
Definition owned (pods : list Pod) (pn : PodNetwork) : Prop :=
  ∃ p, p ∈ pods ∧ record_of_pod p pn = true ∧ (pod_UID p = pn_PodUID pn ∨ pn_PodUID pn = "").

(** What may have become of the records [n0]. *)
Definition reconciled (pods : list Pod) (n0 n1 : gmap string PodNetwork) : Prop :=
  dom n1 ⊆ dom n0 ∧
  ∀ k pn, n0 !! k = Some pn →
    n1 !! k = Some pn ∨
    (∃ p, p ∈ pods ∧ record_of_pod p pn = true ∧ pn_PodUID pn = "" ∧
       n1 !! k = Some (pn_set_PodUID (pod_UID p) pn)) ∨
    (n1 !! k = None ∧ pods ≠ [] ∧ ¬ owned pods pn).

Lemma reconcile_record_spec kv (pods0 pods : list Pod) s a :
  rep s a → (∀ p, p ∈ pods → p ∈ pods0) →
  wp (reconcile_record (db_handle NetworkDBName) kv pods) (λ o s', ∃ b a',
    o = Ok b ∧ rep s' a' ∧
    (b = true → a' = a ∧ pods ≠ [] ∧ ¬ owned pods (kv_Value kv)) ∧
    (a' = a ∨ (∃ p, p ∈ pods0 ∧ record_of_pod p (kv_Value kv) = true ∧
       pn_PodUID (kv_Value kv) = "" ∧
       a' = set_a_net (<[kv_Key kv := pn_set_PodUID (pod_UID p) (kv_Value kv)]> (a_net a)) a))) s.
Proof.
  intros Hr. revert s Hr. induction pods as [|p pods IH]; intros s Hr Hin; cbn [reconcile_record].
  { wp_steps. exists false, a. split_and!; auto; done. }
  assert (∀ q, q ∈ pods → q ∈ pods0) as Hin' by (intros; apply Hin; by apply list_elem_of_further).
  assert ((record_of_pod p (kv_Value kv) = true →
      pod_UID p ≠ pn_PodUID (kv_Value kv) ∧ pn_PodUID (kv_Value kv) ≠ "") →
    wp (if bool_decide (pods = []) then mret true
        else reconcile_record (db_handle NetworkDBName) kv pods) (λ o s', ∃ b a',
    o = Ok b ∧ rep s' a' ∧
    (b = true → a' = a ∧ p :: pods ≠ [] ∧ ¬ owned (p :: pods) (kv_Value kv)) ∧
    (a' = a ∨ (∃ p, p ∈ pods0 ∧ record_of_pod p (kv_Value kv) = true ∧
       pn_PodUID (kv_Value kv) = "" ∧
       a' = set_a_net (<[kv_Key kv := pn_set_PodUID (pod_UID p) (kv_Value kv)]> (a_net a)) a))) s)
    as Hnext.
  { intros Hp. case_bool_decide as Hlast.
    - wp_steps. exists true, a. split_and!; auto. intros _. split_and!; try done.
      intros (q & Hq & Hrq & Hu). rewrite Hlast in Hq. apply list_elem_of_singleton in Hq as ->.
      destruct (Hp Hrq). by destruct Hu.
    - eapply wp_mono; [by apply IH|]. intros o s' (b & a' & -> & Hr' & Hb & Ha').
      exists b, a'. split_and!; auto. intros ->. destruct (Hb eq_refl) as (-> & _ & Hno).
      split_and!; try done. intros (q & [->|Hq]%elem_of_cons & Hrq & Hu).
      + destruct (Hp Hrq). by destruct Hu.
      + apply Hno. by exists q. }
  destruct (record_of_pod p (kv_Value kv)) eqn:Hrec; [|by apply Hnext].
  destruct (String.eqb_spec (pod_UID p) (pn_PodUID (kv_Value kv))) as [|Hu].
  { wp_steps. exists false, a. split_and!; auto; done. }
  destruct (String.eqb_spec (pn_PodUID (kv_Value kv)) "") as [Hempty|Hne]; [|by apply Hnext].
  clear Hnext. wp_step. unfold ignore. do 2 wp_step. apply wp_in_db.
  eapply wp_mono; [apply db_Put_law, Hr|]. intros o d' [Ht [[-> Hd]|(e & -> & Hd)]]; wp_steps.
  - eexists false, _. split_and!; [done|by apply rep_set_net|done|]. right.
    exists p. split_and!; try done. apply Hin, list_elem_of_here.
  - exists false, a. split_and!; [done|by apply rep_net_id|done|by left].
Qed.

(** What a list of the entries of [n] gives. *)
Lemma listed_keys (n : gmap string PodNetwork) kvs :
  (λ kv, (kv_Key kv, kv_Value kv)) <$> kvs ≡ₚ map_to_list n →
  NoDup (kv_Key <$> kvs) ∧ ∀ k pn, mkKV k pn ∈ kvs ↔ n !! k = Some pn.
Proof.
  intros Hp. split.
  - assert (kv_Key <$> kvs = ((λ kv, (kv_Key kv, kv_Value kv)) <$> kvs).*1) as ->
      by (by rewrite <- list_fmap_compose). rewrite Hp. apply NoDup_fst_map_to_list.
  - intros k pn. rewrite <- elem_of_map_to_list, <- Hp, list_elem_of_fmap. split.
    + intros Hin. by exists (mkKV k pn).
    + by intros ([k' v'] & [= -> ->] & ?).
Qed.

(** One record after the first loop: as before, or its empty UID filled in. *)
Definition kept_or_completed (pods : list Pod) (pn : PodNetwork) (v : option PodNetwork) : Prop :=
  v = Some pn ∨
  ∃ p, p ∈ pods ∧ record_of_pod p pn = true ∧ pn_PodUID pn = "" ∧
       v = Some (pn_set_PodUID (pod_UID p) pn).

Lemma find_orphans_spec (pods : list Pod) kvs s a :
  rep s a → NoDup (kv_Key <$> kvs) →
  (∀ kv, kv ∈ kvs → a_net a !! kv_Key kv = Some (kv_Value kv)) →
  wp (find_orphans (db_handle NetworkDBName) pods kvs) (λ o s', ∃ orphans n,
    o = Ok orphans ∧ rep s' (set_a_net n a) ∧
    (∀ kv, kv ∈ orphans → kv ∈ kvs ∧ pods ≠ [] ∧ ¬ owned pods (kv_Value kv)) ∧
    (∀ k, k ∉ kv_Key <$> kvs → n !! k = a_net a !! k) ∧
    (∀ kv, kv ∈ kvs → kept_or_completed pods (kv_Value kv) (n !! kv_Key kv))) s.
Proof.
  revert s a. induction kvs as [|kv kvs IH]; intros s a Hr Hnd Hin; cbn [find_orphans].
  { wp_steps. exists [], (a_net a). split_and!; try done; [by destruct a|..];
      intros kv Hkv; by apply elem_of_nil in Hkv. }
  rewrite fmap_cons in Hnd. apply NoDup_cons in Hnd as [Hnin Hnd].
  wp_step. eapply wp_mono.
  { by apply (reconcile_record_spec kv pods pods s a). }
  intros o s1 (b & a1 & -> & Hr1 & Hb & Ha1). cbn [kont].
  assert (∃ n1, a1 = set_a_net n1 a ∧ (∀ k, k ≠ kv_Key kv → n1 !! k = a_net a !! k) ∧
    kept_or_completed pods (kv_Value kv) (n1 !! kv_Key kv)) as (n1 & -> & Hn1 & Hkv1).
  { destruct Ha1 as [->|(p & Hp & Hrp & Hu & ->)].
    - exists (a_net a). split_and!; [by destruct a|done|left; apply Hin, list_elem_of_here].
    - eexists. split_and!; [done|intros; by rewrite lookup_insert_ne|].
      right. exists p. rewrite lookup_insert_eq. done. }
  wp_step. eapply wp_mono; [apply (IH _ _ Hr1 Hnd)|].
  { intros kv' Hkv'. simpl. rewrite Hn1; [apply Hin; by apply list_elem_of_further|].
    intros Heq. apply Hnin. rewrite <- Heq. by apply list_elem_of_fmap_2. }
  intros o s2 (orphans & n & -> & Hr2 & Ho & Hout & Hkeep). wp_steps. simpl in Hr2, Hout.
  eexists _, n. split; [done|]. split; [exact Hr2|]. split_and!.
  - intros kv' Hkv'. assert (kv' ∈ orphans ∨ (b = true ∧ kv' = kv)) as [Ho'|[Hbt ->]].
    { destruct b; [|by left]. apply elem_of_cons in Hkv' as [->|?]; auto. }
    + destruct (Ho _ Ho') as (? & ? & ?). split_and!; try done. by apply list_elem_of_further.
    + destruct (Hb Hbt) as (_ & ? & ?). split_and!; try done. apply list_elem_of_here.
  - intros k Hk. rewrite fmap_cons, not_elem_of_cons in Hk. destruct Hk as [Hk1 Hk2].
    by rewrite Hout, Hn1.
  - intros kv' [->|Hkv']%elem_of_cons; [by rewrite Hout|by apply Hkeep].
Qed.

Lemma delete_orphans_spec (orphans : list (KeyValue PodNetwork)) s a :
  rep s a →
  wp (for_range orphans (λ kv, ignore (in_db (db_Delete (T := PodNetwork)
        (db_handle NetworkDBName) (kv_Key kv))))) (λ o s', o = Ok tt ∧ ∃ n,
    rep s' (set_a_net n a) ∧
    ∀ k, n !! k = a_net a !! k ∨ (n !! k = None ∧ k ∈ kv_Key <$> orphans)) s.
Proof.
  intros Hr. apply (wp_for_range _ _ (λ l s', (∀ kv, kv ∈ l → kv ∈ orphans) ∧ ∃ n,
    rep s' (set_a_net n a) ∧
    ∀ k, n !! k = a_net a !! k ∨ (n !! k = None ∧ k ∈ kv_Key <$> orphans))).
  - split; [done|]. exists (a_net a). split; [by destruct a|]. by left.
  - intros kv l s1 (Hl & n & Hr1 & Hn). unfold ignore. do 2 wp_step. apply wp_in_db.
    assert (∀ x, x ∈ l → x ∈ orphans) by (intros; apply Hl; by apply list_elem_of_further).
    eapply wp_mono; [apply db_Delete_law, Hr1|].
    intros o d' [Ht [[-> Hd]|(e & -> & Hd)]]; wp_steps; (split; [done|]); simpl in Hd.
    + exists (delete (kv_Key kv) n). split.
      { exact (rep_set_net _ _ _ _ Hr1 Ht Hd). }
      intros k. destruct (decide (k = kv_Key kv)) as [->|Hne].
      * right. rewrite lookup_delete_eq. split; [done|]. apply list_elem_of_fmap_2, Hl, list_elem_of_here.
      * by rewrite lookup_delete_ne.
    + exists n. split; [|done]. by apply rep_net_id.
  - intros s1 (_ & n & Hr1 & Hn). split; [done|]. by exists n.
Qed.

Lemma leaves_getLocalPods : leaves same_but_k8s (getLocalPods : M (St H D K E) (list Pod)).
Proof. unfold getLocalPods. solve_leaves. Qed.

Lemma safe_getLocalPods : safe (getLocalPods : M (St H D K E) (list Pod)).
Proof. unfold getLocalPods, in_proc, in_k8s, Getenv. solve_safe. Qed.

(** The pods that the API server lists for this node. *)
Definition local_pods s : option (list Pod) :=
  match (getLocalPods s).1 with Ok pods => Some pods | _ => None end.

(** The records only change as reconciliation allows; the pools and the cooldown
    set do not change. *)
Definition reconcile_post s a (o : outcome unit) s' : Prop :=
  o = Ok tt ∧ ∃ n, rep s' (set_a_k8s (st_k8s s') (set_a_net n a)) ∧
    (n = a_net a ∨ ∃ pods, local_pods s = Some pods ∧ reconciled pods (a_net a) n).

Lemma doReconcile_spec s a : rep s a → wp doReconcile (reconcile_post s a) s.
Proof.
  intros Hr. unfold doReconcile, reconcile_post, local_pods. do 2 wp_step.
  apply (wp_leaves _ _ _ _ leaves_getLocalPods). intros o s1 E1 Hs1. rewrite E1. simpl.
  assert (rep s1 (set_a_k8s (st_k8s s1) a)) as Hr1 by (by eapply rep_k8s_change).
  assert (returns o = true) as Hret.
  { pose proof (safe_getLocalPods s) as Hsafe. by rewrite E1 in Hsafe. }
  destruct o as [pods|e|w|]; try done; cbn [kont].
  2:{ wp_steps. split; [done|]. exists (a_net a). split; [exact Hr1|by left]. }
  wp_step. apply wp_srv. cbn [kont]. rewrite (rep_networkDB _ _ Hr1). do 2 wp_step. apply wp_in_db.
  eapply wp_mono; [apply db_List_law, Hr1|]. intros o d' (Ht & Hd & Hcase).
  assert (rep (set_db d' s1) (set_a_k8s (st_k8s s1) a)) as Hr2 by (by apply rep_net_id).
  destruct Hcase as [(kvs & -> & Hp)|[e ->]]; cbn [kont].
  2:{ wp_steps. split; [done|]. exists (a_net a). split; [exact Hr2|by left]. }
  simpl in Hp. destruct (listed_keys _ _ Hp) as [Hnd Hkv].
  wp_step. eapply wp_mono; [eapply (find_orphans_spec pods kvs _ _ Hr2 Hnd)|].
  { intros [k pn] Hin. by apply Hkv. }
  intros o s3 (orphans & n & -> & Hr3 & Ho & Hout & Hkeep). cbn [kont].
  eapply wp_mono; [apply (delete_orphans_spec _ _ _ Hr3)|].
  intros o s4 (-> & n' & Hr4 & Hn'). split; [done|]. exists n'.
  split. { rewrite (rep_k8s _ _ Hr4). exact Hr4. }
  right. exists pods. split; [done|]. simpl in *.
  split.
  - intros k [x Hx]%elem_of_dom. apply elem_of_dom. destruct (a_net a !! k) eqn:Ek; [by eexists|].
    exfalso. destruct (Hn' k) as [Hk|[Hk _]]; [|congruence]. rewrite Hout in Hk; [congruence|].
    intros ([k' pn'] & -> & Hin%Hkv)%list_elem_of_fmap. simpl in *. congruence.
  - intros k pn Hk. specialize (Hkeep _ (proj2 (Hkv _ _) Hk)). simpl in Hkeep.
    destruct (Hn' k) as [->|[Hk' ([k' pn'] & -> & Hin)%list_elem_of_fmap]].
    + destruct Hkeep as [?|(p & ?)]; [by left|]. right. left. by exists p.
    + right. right. destruct (Ho _ Hin) as (Hin2%Hkv & Hne & Hno). simpl in *. by simplify_eq.
Qed.


(** doReconcile removes a record only when the node has pods and none of them owns
    it by name, namespace and uid; a record without uid is completed with the uid of its
    pod, and all other records, the pools and the cooldown set are unchanged. *)
Theorem doReconcile_correct s a : rep s a → wp doReconcile (reconcile_post s a) s.
Proof. apply doReconcile_spec. Qed.

(** *** Giving an address back *)

(** The item that an address becomes: the clock is read twice. *)
Definition cooled (period : Z) pn s : CooldownItem :=
  let '(now, e) := ext_Now (proc_ext (st_proc s)) in
  mkCooldown (pn_set_Recycled true (pn_set_RecycleTime (ext_Now e).1 pn)) (now + period).

(** The item is stored under the key of the address, or the store refused it and then
    the release of its address was tried. *)
Definition cooled_down a pn s s' : Prop :=
  let key := getReservedIPKey pn in
  let item := cooled (CooldownPeriodSeconds (a_cfg a)) pn s in
  ∃ d, st_db s' = d ∧
    ((db_Put (db_handle CooldownDBName) key item (st_db s) = (Ok tt, d) ∧
      rep s' (set_a_k8s (st_k8s s') (set_a_cool (<[key := item]> (a_cool a)) a))) ∨
     ((∃ e, db_Put (db_handle CooldownDBName) key item (st_db s) = (Err e, d)) ∧
      (∃ s1, st_db s1 = d ∧ s' = (backupReleaseSecondaryIP (cd_Network item) s1).2) ∧
      rep s' (set_a_k8s (st_k8s s') a))).

Lemma cooldownIP_spec pn s a :
  rep s a → wp (cooldownIP pn) (λ o s', o = Ok tt ∧ cooled_down a pn s s') s.
Proof.
  intros Hr. unfold cooldownIP, cooled_down, cooled. wp_step. apply wp_Now.
  destruct (ext_Now (proc_ext (st_proc s))) as [now e]. cbn [kont].
  assert (rep (set_proc (set_ext e (st_proc s)) s) a) as Hr1 by (by eapply rep_proc; [|exact Hr]).
  wp_step. apply wp_srv. cbn [kont].
  rewrite (rep_field CooldownPeriodSeconds _ a (λ _ _, Logic.eq_refl) Hr1).
  wp_step. apply wp_Now. simpl. destruct (ext_Now e) as [now2 e2]. cbn [kont].
  set (s2 := set_proc _ _). assert (rep s2 a) as Hr2 by (by eapply rep_proc; [|exact Hr1]).
  wp_step. eapply wp_mono; [by apply putIpToCooldown_spec|].
  assert (∀ x s', rep s' x → rep s' (set_a_k8s (st_k8s s') x)) as Hk8s.
  { intros x s' Hx. rewrite (rep_k8s _ _ Hx). by destruct x. }
  intros o s3 (d & [(-> & Hput & -> & Hr3)|(-> & Hput & Hd & Hrel & Hr3)]); wp_steps; (split; [done|]);
    exists d; (split; [done|]); [left|right].
  - split; [exact Hput|]. by apply Hk8s.
  - split_and!; [exact Hput|by eexists (set_db d s2)|by apply Hk8s].
Qed.

(** The contract of a deletion: a pod with a claim keeps its address; otherwise,
    also when the claim could not be read, the address goes to the cooldown set
    for the cooldown period (or could not be stored there). *)
Definition del_post pn s a (o : outcome (pool_reply * bool)) s' : Prop :=
  let key := (pn_PodNS pn, pn_PodName pn) in
  (o = Ok (DelReply, true) ∧ is_Some (claims_of s !! key) ∧ rep s' (set_a_k8s (st_k8s s') a)) ∨
  (o = Ok (DelReply, false) ∧
   (∃ e, (k_GetClaim (pn_PodNS pn) (pn_PodName pn) (st_k8s s)).1 = inl e) ∧
   cooled_down a pn s s').

(** C15: The manager answers a deletion either by leaving all databases alone, when a
    claim for the pod is found, or, when the lookup of the claim failed, by putting the
    address into the cooldown set under its key, marked recycled, until the current time
    plus the cooldown period; only when the store refuses just that entry the databases
    stay unchanged, and then the release of the address in the VPC is tried. *)
Theorem DelPodIP_correct pn s a :
  rep s a → wp (handle_event (DelPodIP pn)) (del_post pn s a) s.
Proof.
  intros Hr. unfold handle_event, staticIpPodExists, getVpcipClaim, del_post. do 3 wp_step.
  apply wp_in_k8s; intros x k E1; cbn [kont]; wp_steps;
    assert (rep (set_k8s k s) (set_a_k8s k a)) as Hr1 by (by apply (rep_k8s_change s)).
  - left. split; [done|]. split; [|exact Hr1]. apply k_GetClaim_law in E1 as [Hc _]. by eexists.
  - eapply wp_mono; [by apply cooldownIP_spec|]. intros o s2 [-> Hcase]. wp_steps. right.
    split; [done|]. split; [exists x; by rewrite E1|exact Hcase].
Qed.

(** *** The reachable states *)

(** An operation that does not work on the records. *)
Definition pool_op (op : server_op) : Prop :=
  match op with OpRound _ | OpBorrow _ | OpRelease _ => True | _ => False end.

Lemma pool_op_ok N c op :
  0 ≤ AvailablePodIPHighWatermark c → pool_op op →
  leaves (keeps_ok N c) (run_op op : M (St H D K E) unit).
Proof.
  intros Hh Hop. destruct op as [ev|req|pn|n ns sb| |pn]; try done; simpl.
  - apply leaves_bind; [apply keeps_ok_preorder|by apply manager_round_ok|].
    intros; apply leaves_ret, keeps_ok_preorder.
  - apply leaves_of_wp. intros s a Hr Hc Ha Hn. wp_step. unfold BorrowIP.
    wp_steps; try (by exists a). eapply wp_mono; [by apply lendIP_spec|].
    intros o s' [(k & pn & -> & _ & _ & Hr')|[(e & -> & Hr' & _)|(e & k & pn & -> & _ & _ & Hr')]]; wp_steps;
      eexists; (split; [done|]); split; try done; by apply pool_consistent_delete.
  - apply leaves_of_wp. intros s a Hr Hc Ha Hn.
    eapply wp_mono; [by apply backupRelease_spec|]. intros o s' [_ Hr']. by eexists.
Qed.

Lemma run_op_ok c op :
  0 ≤ AvailablePodIPHighWatermark c → leaves (keeps_ok (λ _, True) c) (run_op op : M (St H D K E) unit).
Proof.
  intros Hh. destruct op as [ev|req|pn|n ns sb| |pn]; try (by apply pool_op_ok); simpl.
  - apply leaves_of_wp. intros s a Hr Hc Ha _. wp_step. destruct pn as [pn|]; [|by exists a].
    eapply wp_mono; [by apply AddPodNetworkRecord_spec|].
    intros o s' [[-> ?]|[-> ?]]; wp_steps; by eexists.
  - apply leaves_of_wp. intros s a Hr Hc Ha _. wp_step.
    eapply wp_mono; [by apply DelPodNetworkRecord_spec|].
    intros o s' [[-> ?]|[-> ?]]; wp_steps; by eexists.
  - apply leaves_of_wp. intros s a Hr Hc Ha _.
    eapply wp_mono; [by apply doReconcile_spec|]. intros o s' (_ & n & Hr' & _). by eexists.
Qed.

(** The invariant along the steps of the daemon. *)
Lemma server_steps_ok s s' a :
  rep s a → pool_consistent a → 0 ≤ AvailablePodIPHighWatermark (a_cfg a) →
  rtc server_step s s' →
  ∃ a', rep s' a' ∧ pool_consistent a' ∧ a_cfg a' = a_cfg a.
Proof.
  intros Hr Hc Hh Hsteps. assert (ok_state (λ _, True) (a_cfg a) s) as Hok by (by exists a).
  clear Hr Hc. induction Hsteps as [s|s s1 s2 [op s0] _ IH].
  { destruct Hok as (a' & ? & ? & ? & _). by exists a'. }
  apply IH. by apply run_op_ok.
Qed.

(** C1: Whatever sequence of operations the daemon runs (rounds of the pool manager,
    lending, record handlers, reconciliation, releases), its databases keep representing
    pools, cooldown set and records, every pooled address stays under its own key in the
    pool of its own subnet, and the configuration does not change. *)
Theorem server_invariant s s' a :
  rep s a → pool_consistent a → 0 ≤ AvailablePodIPHighWatermark (a_cfg a) →
  rtc server_step s s' →
  ∃ a', rep s' a' ∧ pool_consistent a' ∧ a_cfg a' = a_cfg a.
Proof. apply server_steps_ok. Qed.
End props.

(** ** Witnesses *)

Definition demo_recorded : PodNetwork :=
  pn_set_NetNS "/proc/1/ns/net" (pn_set_PodUID "uid-1"
    (pn_set_Pod "web-0" "default" "sandbox-1" (demo_pn "10.0.0.50"))).
Definition demo_orphan : PodNetwork :=
  pn_set_PodUID "uid-0" (pn_set_Pod "old-0" "default" "sandbox-0" (demo_pn "10.0.0.49")).
Definition demo_records : gmap string PodNetwork :=
  {["web-0-default-sandbox-1" := demo_recorded; "old-0-default-sandbox-0" := demo_orphan]}.
Definition demo_env : world :=
  mkWorld 1000 {["KUBE_NODE_NAME" := "node-1"]} (Some demo_meta) [] [] [] None [].
Definition demo5 : St Bolt mem_bolt cluster world :=
  demo_st demo_server demo_pools demo_cool demo_records demo_k4 demo_env.
Definition demo5_abs : Abs Bolt cluster :=
  demo_abs demo_server demo_pools demo_cool demo_records demo_k4.
Lemma demo5_rep : rep demo5 demo5_abs.
Proof. apply demo_rep; vm_compute; reflexivity. Qed.

Definition demo_add_get : M (St Bolt mem_bolt cluster world) (reply unit * reply (option PodNetwork)) :=
  r ← AddPodNetworkRecord (Some demo_recorded);
  g ← GetPodNetworkRecord "web-0" "default" "sandbox-1"; mret (r, g).

Lemma record_add_get_witness :
  (demo_add_get demo0).1 = Ok (reply_ok tt, reply_ok (Some demo_recorded)) ∧
  ∃ r g, (demo_add_get demo0).1 = Ok (r, g) ∧
    (r.2 = None → g.2 = None → resp_payload g.1 = Some demo_recorded).
Proof.
  split; [vm_compute; reflexivity|].
  destruct (record_add_get demo_recorded demo0 demo0_abs demo0_rep) as (r & g & Er & W & _).
  exists r, g. split; [exact Er|exact W].
Defined.

Definition demo_del_get : M (St Bolt mem_bolt cluster world) (reply unit * reply (option PodNetwork)) :=
  r ← DelPodNetworkRecord "web-0" "default" "sandbox-1";
  g ← GetPodNetworkRecord "web-0" "default" "sandbox-1"; mret (r, g).

Lemma record_del_get_witness :
  (demo_del_get demo5).1 = Ok (reply_ok tt, reply_ok None) ∧
  ∃ r g, (demo_del_get demo5).1 = Ok (r, g) ∧
    (r.2 = None → g.2 = None → resp_payload g.1 = None).
Proof.
  split; [vm_compute; reflexivity|].
  destruct (record_del_get "web-0" "default" "sandbox-1" demo5 demo5_abs demo5_rep)
    as (r & g & Er & W & _).
  exists r, g. split; [exact Er|exact W].
Defined.

Lemma doReconcile_witness :
  reconcile_post demo5 demo5_abs (doReconcile demo5).1 (doReconcile demo5).2 ∧
  local_pods demo5 = Some [demo_dyn_pod] ∧
  bolt_get NetworkDBName "old-0-default-sandbox-0" (st_db (doReconcile demo5).2) = None ∧
  bolt_get NetworkDBName "web-0-default-sandbox-1" (st_db (doReconcile demo5).2) ≠ None.
Proof.
  split; [exact (doReconcile_correct demo5 demo5_abs demo5_rep)|].
  split; [vm_compute; reflexivity|]. split; [vm_compute; reflexivity|vm_compute; discriminate].
Defined.

Lemma DelPodIP_witness :
  del_post demo_recorded demo5 demo5_abs
    (handle_event (DelPodIP demo_recorded) demo5).1 (handle_event (DelPodIP demo_recorded) demo5).2 ∧
  (handle_event (DelPodIP demo_recorded) demo5).1 = Ok (DelReply, false) ∧
  bolt_get CooldownDBName "uvnet-1-10.0.0.50"
    (st_db (handle_event (DelPodIP demo_recorded) demo5).2) ≠ None.
Proof.
  split; [exact (DelPodIP_correct demo_recorded demo5 demo5_abs demo5_rep)|].
  split; [vm_compute; reflexivity|vm_compute; discriminate].
Defined.

(** Two steps of the daemon: an assignment and a deletion. *)
Lemma server_invariant_witness :
  let s2 := (run_op (OpRound (DelPodIP demo_recorded))
               (run_op (OpRound (AddPodIP demo_req)) (demo4 demo_world)).2).2 in
  rtc server_step (demo4 demo_world) s2 ∧
  ∃ a', rep s2 a' ∧ pool_consistent a' ∧ a_cfg a' = a_cfg demo4_abs.
Proof.
  intros s2.
  assert (rtc server_step (demo4 demo_world) s2) as Hsteps.
  { eapply rtc_l; [apply (server_step_op (OpRound (AddPodIP demo_req)))|].
    eapply rtc_l; [apply (server_step_op (OpRound (DelPodIP demo_recorded)))|]. apply rtc_refl. }
  split; [exact Hsteps|].
  apply (server_invariant (demo4 demo_world) s2 demo4_abs);
    [apply demo4_rep|apply demo4_consistent|vm_compute; discriminate|exact Hsteps].
Defined.
