(* ===== verification/Reconcile.v ===== *)
(** The reconciliation of the records ([doReconcile] of [pkg/ipamd/resource.go]) beside
    the handlers.

    It runs in a goroutine of its own and takes no lock: record handlers run between
    any two of its calls.  [rec_action] is the body of [doReconcile] cut at its calls;
    its local variables [folks], [kvs] and [orphans] are fields of the machine. *)
From S2P Require Export IpamdRpc.

(** ** Definitions *)

(** Where the function is: before the list of the pods, before the list of the records,
    in the loop over the records [todo], in the loop over the orphans [todo], or back
    (with the outcome of the call that ended it, if that was not the last one). *)
Inductive rec_pc : Type :=
| RecPods
| RecList
| RecScan (todo : list (KeyValue PodNetwork))
| RecClean (todo : list (KeyValue PodNetwork))
| RecEnd (o : outcome unit).

(** The local variables. *)
Record rec_vars : Type := mkVars {
  rv_folks : list Pod;
  rv_kvs : list (KeyValue PodNetwork);
  rv_orphans : list (KeyValue PodNetwork)
}.

Section machine.
Context {H D K E : Type} `{!Database PodNetwork H D} `{!Database CooldownItem H D}
  `{!KubeApi K} `{!CloudApi E} `{!GoRuntime E} `{!RetryApi}.
#[local] Abbreviation m := (M (St H D K E)).

(** One call, and where the function goes from there. *)
Definition rec_action (pc : rec_pc) (v : rec_vars) : m (rec_pc * rec_vars) :=
  match pc with
  | RecPods =>
      folks ← attempt getLocalPods;
      match folks with
      | inl _ => mret (RecEnd (Ok tt), v)
      | inr pods => mret (RecList, mkVars pods (rv_kvs v) (rv_orphans v))
      end
  | RecList =>
      db ← srv networkDB;
      kvs ← attempt (in_db (db_List db));
      match kvs with
      | inl _ => mret (RecEnd (Ok tt), v)
      | inr kvs => mret (RecScan kvs, mkVars (rv_folks v) kvs (rv_orphans v))
      end
  | RecScan [] => mret (RecClean (rv_orphans v), v)
  | RecScan (kv :: todo) =>
      db ← srv networkDB;
      orphan ← reconcile_record db kv (rv_folks v);
      mret (RecScan todo, mkVars (rv_folks v) (rv_kvs v)
              (if orphan : bool then rv_orphans v ++ [kv] else rv_orphans v))
  | RecClean [] => mret (RecEnd (Ok tt), v)
  | RecClean (kv :: todo) =>
      db ← srv networkDB;
      ignore (in_db (db_Delete (T := PodNetwork) db (kv_Key kv)));;
      mret (RecClean todo, v)
  | RecEnd _ => mret (pc, v)
  end.

(** A panic ends the process. *)
Definition rec_step (pc : rec_pc) (v : rec_vars) (s : St H D K E) : rec_pc * rec_vars * St H D K E :=
  match rec_action pc v s with
  | (Ok (pc', v'), s') => (pc', v', s')
  | (Err e, s') => (RecEnd (Err e), v, s')
  | (Panic w, s') => (RecEnd (Panic w), v, s')
  | (Diverge, s') => (RecEnd Diverge, v, s')
  end.

(** The machine on its own. *)
Fixpoint rec_exec (fuel : nat) (pc : rec_pc) (v : rec_vars) (s : St H D K E) : outcome unit * St H D K E :=
  match pc, fuel with
  | RecEnd o, _ => (o, s)
  | _, O => (Diverge, s)
  | _, S fuel => let '(pc', v', s') := rec_step pc v s in rec_exec fuel pc' v' s'
  end.

Definition rec_start : rec_vars := mkVars [] [] [].
End machine.
(** ** The machine on its own is the function *)

Section alone.
Context {H D K E : Type} `{!Database PodNetwork H D} `{!Database CooldownItem H D}
  `{!KubeApi K} `{!CloudApi E} `{!GoRuntime E} `{!RetryApi}.
Implicit Types s : St H D K E.

(** With enough fuel the machine from [pc] runs as [c]. *)
Definition runs_as (pc : rec_pc) (v : rec_vars) s (r : outcome unit * St H D K E) : Prop :=
  ∃ n, ∀ fuel, (n ≤ fuel)%nat → rec_exec fuel pc v s = r.

Lemma runs_end o v s : runs_as (RecEnd o) v s (o, s).
Proof. exists O. intros [|fuel] _; done. Qed.

Lemma runs_step pc v s r :
  (∀ o, pc ≠ RecEnd o) →
  (let '(pc', v', s') := rec_step pc v s in runs_as pc' v' s' r) → runs_as pc v s r.
Proof.
  intros Hpc Hr. destruct (rec_step pc v s) as [[pc' v'] s'] eqn:Hs. destruct Hr as [n Hn].
  exists (S n). intros [|fuel] Hf; [lia|].
  destruct pc; simpl; try rewrite Hs; try (apply Hn; lia). by destruct (Hpc o).
Qed.

Lemma keeping_in_db {A} (c : M D A) : keeping st_srv (in_db c : M (St H D K E) A).
Proof. by apply keeping_zoom. Qed.
#[local] Hint Resolve keeping_in_db : keep.
Lemma keeping_reconcile db kv pods : keeping st_srv (reconcile_record db kv pods : M (St H D K E) bool).
Proof.
  induction pods as [|p pods IH]; cbn [reconcile_record]; [apply keeping_ret|].
  solve_keeping.
Qed.

Definition delete_all (db : H) (orphans : list (KeyValue PodNetwork)) : M (St H D K E) unit :=
  for_range orphans (λ kv, ignore (in_db (db_Delete (T := PodNetwork) db (kv_Key kv)))).

Lemma clean_runs todo v s : runs_as (RecClean todo) v s (delete_all (networkDB (st_srv s)) todo s).
Proof.
  revert s. induction todo as [|kv todo IH]; intros s; (apply runs_step; [done|]); [apply runs_end|].
  unfold rec_step, delete_all. cbn [rec_action for_range]. unfold srv, gets, mbind, M_bind.
  pose proof (keeping_ignore _ _ (keeping_in_db (db_Delete (T := PodNetwork) (networkDB (st_srv s)) (kv_Key kv))) s) as Hs.
  destruct (ignore _ s) as [[[]|e|w|] s1]; simpl; try apply runs_end.
  simpl in Hs. rewrite <- Hs. apply IH.
Qed.

Lemma scan_runs todo v s :
  runs_as (RecScan todo) v s
    ((rest ← find_orphans (networkDB (st_srv s)) (rv_folks v) todo;
      delete_all (networkDB (st_srv s)) (rv_orphans v ++ rest)) s).
Proof.
  revert v s. induction todo as [|kv todo IH]; intros v s; (apply runs_step; [done|]).
  - unfold rec_step. simpl. unfold mbind, M_bind. simpl. rewrite app_nil_r. apply clean_runs.
  - unfold rec_step. cbn [rec_action find_orphans]. unfold srv, gets. unfold mbind, M_bind. cbn beta iota.
    pose proof (keeping_reconcile (networkDB (st_srv s)) kv (rv_folks v) s) as Hs.
    destruct (reconcile_record _ kv (rv_folks v) s) as [[b|e|w|] s1]; simpl in *; try apply runs_end.
    specialize (IH (mkVars (rv_folks v) (rv_kvs v) (if b then rv_orphans v ++ [kv] else rv_orphans v)) s1).
    unfold mbind, M_bind in IH. simpl in IH. rewrite Hs in IH.
    destruct (find_orphans _ _ todo s1) as [[rest|e|w|] s2]; try exact IH. simpl.
    destruct b; [|exact IH]. by rewrite <- app_assoc in IH.
Qed.

(** Left alone, doReconcile cut at its calls does what doReconcile does: with
    enough fuel it comes to its end, with the same outcome and in the same state,
    whatever the state and also when a call panics. *)
Theorem reconcile_steps_equiv s :
  ∃ n, ∀ fuel, (n ≤ fuel)%nat → rec_exec fuel RecPods rec_start s = doReconcile s.
Proof.
  change (runs_as RecPods rec_start s (doReconcile s)). apply runs_step; [done|].
  unfold rec_step, doReconcile. cbn [rec_action]. unfold mbind, M_bind, attempt.
  destruct (getLocalPods s) as [[pods|e|w|] s1]; cbn; try apply runs_end.
  apply runs_step; [done|]. unfold rec_step. cbn [rec_action]. unfold mbind, M_bind, srv, gets, attempt. cbn.
  pose proof (keeping_in_db (db_List (T := PodNetwork) (networkDB (st_srv s1))) s1) as Hl.
  destruct (in_db _ s1) as [[kvs|e|w|] s2]; cbn in *; try apply runs_end.
  rewrite <- Hl. apply scan_runs.
Qed.
End alone.

(** ** The machine among the handlers *)

(** What the handlers did to the records, in their order. *)
Inductive rec_event : Type :=
| EvAdd (k : string) (pn : PodNetwork)
| EvDel (k : string).
Definition apply_event (n : gmap string PodNetwork) (ev : rec_event) : gmap string PodNetwork :=
  match ev with EvAdd k pn => <[k := pn]> n | EvDel k => delete k n end.
(** The records if there were only the handlers. *)
Definition replay (h : list rec_event) (n : gmap string PodNetwork) : gmap string PodNetwork :=
  foldl apply_event n h.
Definition event_key (ev : rec_event) : string := match ev with EvAdd k _ => k | EvDel k => k end.

Record rec_sys (H D K E : Type) : Type := mkSys {
  ry_pc : rec_pc;
  ry_vars : rec_vars;
  ry_st : St H D K E;
  ry_hist : list rec_event
}.
Arguments mkSys {H D K E} _ _ _ _.
Arguments ry_pc {H D K E} _.
Arguments ry_vars {H D K E} _.
Arguments ry_st {H D K E} _.
Arguments ry_hist {H D K E} _.

(** The effect of a handler that answers without an error. *)
Definition logged (r : outcome (reply unit)) (ev : rec_event) : list rec_event :=
  match r with Ok (_, None) => [ev] | _ => [] end.

Section interleaved.
Context {H D K E : Type} `{!Database PodNetwork H D} `{!Database CooldownItem H D}
  `{!StoreFrame H D} `{!DatabaseLaws PodNetwork H D} `{!DatabaseLaws CooldownItem H D}
  `{!KubeApi K} `{!KubeLaws K} `{!CloudApi E} `{!VpcLaws E} `{!GoRuntime E} `{!GoRuntimeLaws E}
  `{!RetryApi} `{!RetryLaws}.
Implicit Types (s : St H D K E) (a : Abs H K) (c : rec_sys H D K E).

(** A call of the machine, a record handler, or any other operation of the daemon. *)
Inductive sys_step : rec_sys H D K E → rec_sys H D K E → Prop :=
| sys_machine pc v s h pc' v' s' :
    rec_step pc v s = (pc', v', s') → sys_step (mkSys pc v s h) (mkSys pc' v' s' h)
| sys_add pc v s h pn r s' :
    AddPodNetworkRecord (Some pn) s = (r, s') →
    sys_step (mkSys pc v s h) (mkSys pc v s' (h ++ logged r (EvAdd (record_key pn) pn)))
| sys_del pc v s h n ns sb r s' :
    DelPodNetworkRecord n ns sb s = (r, s') →
    sys_step (mkSys pc v s h) (mkSys pc v s' (h ++ logged r (EvDel (PodKey n ns sb))))
| sys_other pc v s h op :
    pool_op op →
    sys_step (mkSys pc v s h) (mkSys pc v (run_op op s).2 h).

Definition sys_start s : rec_sys H D K E := mkSys RecPods rec_start s [].

(** The record under a key: as the handlers left it; gone, because it was listed and no
    listed pod owned it; or completed, because it was listed without a uid. *)
Definition as_left (v : rec_vars) (left n : gmap string PodNetwork) (k : string) : Prop :=
  n !! k = left !! k ∨
  ∃ pn, mkKV k pn ∈ rv_kvs v ∧
    (n !! k = None ∧ ¬ owned (rv_folks v) pn ∨
     pn_PodUID pn = "" ∧ ∃ p, p ∈ rv_folks v ∧ record_of_pod p pn = true ∧
       n !! k = Some (pn_set_PodUID (pod_UID p) pn)).

Definition listed_ok (v : rec_vars) (h : list rec_event) (n0 : gmap string PodNetwork) : Prop :=
  ∀ kv, kv ∈ rv_kvs v → ∃ h1 h2, h = h1 ++ h2 ∧ replay h1 n0 !! kv_Key kv = Some (kv_Value kv).
Definition orphans_ok (v : rec_vars) : Prop :=
  ∀ kv, kv ∈ rv_orphans v → kv ∈ rv_kvs v ∧ ¬ owned (rv_folks v) (kv_Value kv).
Definition pc_ok (pc : rec_pc) (v : rec_vars) : Prop :=
  match pc with
  | RecPods | RecList => rv_kvs v = [] ∧ rv_orphans v = []
  | RecScan todo => (∀ kv, kv ∈ todo → kv ∈ rv_kvs v) ∧ orphans_ok v
  | RecClean todo => (∀ kv, kv ∈ todo → kv ∈ rv_orphans v) ∧ orphans_ok v
  | RecEnd o => o = Ok tt
  end.

Definition records_ok (v : rec_vars) (left n : gmap string PodNetwork) : Prop := ∀ k, as_left v left n k.

(** The invariant, from the records [n0] and with the configuration [cfg]. *)
Definition sys_ok (n0 : gmap string PodNetwork) (cfg : ipamServer H) c : Prop :=
  ok_state (records_ok (ry_vars c) (replay (ry_hist c) n0)) cfg (ry_st c) ∧
  pc_ok (ry_pc c) (ry_vars c) ∧ listed_ok (ry_vars c) (ry_hist c) n0.

(** *** The handlers *)

Lemma replay_snoc h ev n : replay (h ++ [ev]) n = apply_event (replay h n) ev.
Proof. unfold replay. by rewrite foldl_app. Qed.

Lemma as_left_event v left n ev k : as_left v left n k → as_left v (apply_event left ev) (apply_event n ev) k.
Proof.
  intros Hk. destruct (decide (k = event_key ev)) as [->|Hne].
  - left. destruct ev; simpl; by rewrite ?lookup_insert_eq, ?lookup_delete_eq.
  - assert (∀ m : gmap string PodNetwork, apply_event m ev !! k = m !! k) as Hm.
    { intros m. destruct ev; simpl in *; by rewrite ?lookup_insert_ne, ?lookup_delete_ne. }
    unfold as_left. by rewrite !Hm.
Qed.

Lemma listed_ok_more v h h' n0 : listed_ok v h n0 → listed_ok v (h ++ h') n0.
Proof.
  intros Hl kv Hkv. destruct (Hl kv Hkv) as (h1 & h2 & -> & Hr). exists h1, (h2 ++ h').
  by rewrite <- app_assoc.
Qed.

Lemma sys_ok_add n0 cfg pc v s h pn r s' :
  sys_ok n0 cfg (mkSys pc v s h) → AddPodNetworkRecord (Some pn) s = (r, s') →
  sys_ok n0 cfg (mkSys pc v s' (h ++ logged r (EvAdd (record_key pn) pn))).
Proof.
  intros ((a & Hr & Hc & Ha & Hn) & Hpc & Hl) Hrun. cbn in *.
  split; [|split; [done|by apply listed_ok_more]]. cbn.
  destruct (wp_run _ _ _ _ _ (AddPodNetworkRecord_spec pn s a Hr) Hrun) as [[-> Hr']|[-> Hr']].
  - eexists. split; [exact Hr'|]. split; [done|]. split; [done|]. intros k.
    change (as_left v (replay (h ++ [EvAdd (record_key pn) pn]) n0) (apply_event (a_net a) (EvAdd (record_key pn) pn)) k).
    rewrite replay_snoc. apply as_left_event, Hn.
  - exists a. cbn. by rewrite app_nil_r.
Qed.

Lemma sys_ok_del n0 cfg pc v s h n ns sb r s' :
  sys_ok n0 cfg (mkSys pc v s h) → DelPodNetworkRecord n ns sb s = (r, s') →
  sys_ok n0 cfg (mkSys pc v s' (h ++ logged r (EvDel (PodKey n ns sb)))).
Proof.
  intros ((a & Hr & Hc & Ha & Hn) & Hpc & Hl) Hrun. cbn in *.
  split; [|split; [done|by apply listed_ok_more]]. cbn.
  destruct (wp_run _ _ _ _ _ (DelPodNetworkRecord_spec n ns sb s a Hr) Hrun) as [[-> Hr']|[-> Hr']].
  - eexists. split; [exact Hr'|]. split; [done|]. split; [done|]. intros k.
    change (as_left v (replay (h ++ [EvDel (PodKey n ns sb)]) n0) (apply_event (a_net a) (EvDel (PodKey n ns sb))) k).
    rewrite replay_snoc. apply as_left_event, Hn.
  - exists a. cbn. by rewrite app_nil_r.
Qed.

(** *** The calls of the machine *)

Lemma orphans_snoc v kv b :
  orphans_ok v → kv ∈ rv_kvs v → (b = true → ¬ owned (rv_folks v) (kv_Value kv)) →
  orphans_ok (mkVars (rv_folks v) (rv_kvs v) (if b : bool then rv_orphans v ++ [kv] else rv_orphans v)).
Proof.
  intros Ho Hin Hb kv' Hkv'. destruct b; [|by apply Ho].
  apply elem_of_app in Hkv' as [?|E']; [by apply Ho|]. apply list_elem_of_singleton in E' as ->.
  split; [done|]. by apply Hb.
Qed.

Lemma records_insert v left n kv p :
  records_ok v left n → kv ∈ rv_kvs v → pn_PodUID (kv_Value kv) = "" → p ∈ rv_folks v →
  record_of_pod p (kv_Value kv) = true →
  records_ok v left (<[kv_Key kv := pn_set_PodUID (pod_UID p) (kv_Value kv)]> n).
Proof.
  intros Hn Hkv Hu Hp Hrec k. destruct (decide (k = kv_Key kv)) as [->|Hne].
  - right. exists (kv_Value kv). rewrite lookup_insert_eq. split; [by destruct kv|]. right.
    split; [done|]. by exists p.
  - destruct (Hn k) as [E'|(pn & Hin & Hc)]; [left|right; exists pn]; by rewrite lookup_insert_ne.
Qed.

Lemma records_delete v left n kv :
  records_ok v left n → kv ∈ rv_kvs v → ¬ owned (rv_folks v) (kv_Value kv) →
  records_ok v left (delete (kv_Key kv) n).
Proof.
  intros Hn Hkv Hno k. destruct (decide (k = kv_Key kv)) as [->|Hne].
  - right. exists (kv_Value kv). rewrite lookup_delete_eq. split; [by destruct kv|]. by left.
  - destruct (Hn k) as [E'|(pn & Hin & Hc)]; [left|right; exists pn]; by rewrite lookup_delete_ne.
Qed.

(** The invariant without its history part, which only the list of the records needs. *)
Definition core_ok (left : gmap string PodNetwork) (cfg : ipamServer H) (pc : rec_pc) (v : rec_vars) s : Prop :=
  ok_state (records_ok v left) cfg s ∧ pc_ok pc v.

(** One call of the machine: it keeps the invariant, and what it lists is stored. *)
Definition call_ok (left : gmap string PodNetwork) (cfg : ipamServer H) (v : rec_vars) s
    (o : outcome (rec_pc * rec_vars)) s' : Prop :=
  ∃ pc' v', o = Ok (pc', v') ∧ core_ok left cfg pc' v' s' ∧
    (rv_kvs v' = rv_kvs v ∨ ∀ kv, kv ∈ rv_kvs v' → left !! kv_Key kv = Some (kv_Value kv)) ∧
    (rv_folks v' = rv_folks v ∨ local_pods s = Some (rv_folks v')).

Lemma pods_call left cfg v s :
  core_ok left cfg RecPods v s → wp (rec_action RecPods v) (call_ok left cfg v s) s.
Proof.
  intros [(a & Hr & Hc & Ha & Hn) [Hkvs Hor]]. cbn [rec_action]. wp_step. wp_step.
  apply (wp_leaves _ _ _ _ leaves_getLocalPods). intros o s1 E1 Hs1.
  assert (∀ v', rv_kvs v' = [] → ok_state (records_ok v' left) cfg s1) as Hok.
  { intros v' Hv'. exists (set_a_k8s (st_k8s s1) a). split; [by eapply rep_k8s_change|].
    split; [by apply pool_consistent_k8s|]. split; [done|]. intros k. destruct (Hn k) as [?|(pn & Hin & _)]; [by left|].
    rewrite Hkvs in Hin. by apply elem_of_nil in Hin. }
  pose proof (safe_getLocalPods s) as Hsafe. rewrite E1 in Hsafe.
  destruct o as [pods|e|w|]; try done; cbn [kont]; wp_steps; eexists _, _; (split; [done|]).
  - split; [split; [by apply Hok|done]|]. split; [by left|]. right. unfold local_pods. by rewrite E1.
  - split; [split; [by apply Hok|done]|]. auto.
Qed.

Lemma list_call left cfg v s :
  core_ok left cfg RecList v s → wp (rec_action RecList v) (call_ok left cfg v s) s.
Proof.
  intros [(a & Hr & Hc & Ha & Hn) [Hkvs Hor]]. cbn [rec_action]. wp_step. apply wp_srv. cbn [kont].
  rewrite (rep_networkDB _ _ Hr). do 2 wp_step. apply wp_in_db.
  eapply wp_mono; [apply db_List_law, Hr|]. intros o d' (Ht & Hd & Hcase).
  assert (rep (set_db d' s) a) as Hr' by (by apply rep_net_id).
  assert (∀ k, a_net a !! k = left !! k) as Hleft.
  { intros k. destruct (Hn k) as [?|(pn & Hin & _)]; [done|]. rewrite Hkvs in Hin. by apply elem_of_nil in Hin. }
  assert (∀ v', ok_state (records_ok v' left) cfg (set_db d' s)) as Hok.
  { intros v'. exists a. split_and!; try done. intros k. by left. }
  destruct Hcase as [(kvs & -> & Hp)|[e ->]]; cbn [kont]; wp_steps; eexists _, _; (split; [done|]).
  - destruct (listed_keys _ _ Hp) as [_ Hkv]. split; [split; [by apply Hok|]|].
    + split; [done|]. intros kv. cbn. rewrite Hor. by intros ?%elem_of_nil.
    + split; [|by left]. right. intros [k pn] Hin%Hkv. cbn. by rewrite <- Hleft.
  - split; [split; [by apply Hok|done]|]. auto.
Qed.

Lemma scan_call left cfg v s todo :
  core_ok left cfg (RecScan todo) v s → wp (rec_action (RecScan todo) v) (call_ok left cfg v s) s.
Proof.
  intros [(a & Hr & Hc & Ha & Hn) [Htodo Hor]]. destruct todo as [|kv todo]; cbn [rec_action].
  { wp_step. eexists _, _. split; [done|]. split; [|auto]. by split; [exists a|]. }
  assert (kv ∈ rv_kvs v) as Hin by apply Htodo, list_elem_of_here.
  wp_step. apply wp_srv. cbn [kont]. rewrite (rep_networkDB _ _ Hr). wp_step.
  eapply wp_mono; [by apply (reconcile_record_spec kv (rv_folks v))|].
  intros o s1 (b & a1 & -> & Hr1 & Hb & Ha1). cbn [kont]. wp_step. eexists _, _. split; [done|].
  split; [|auto]. split.
  - exists a1. split; [done|].
    destruct Ha1 as [->|(p & Hp & Hrp & Hu & ->)]; (split; [done|]); (split; [done|]); [exact Hn|].
    exact (records_insert _ _ _ _ _ Hn Hin Hu Hp Hrp).
  - split; [intros x Hx; by apply Htodo, list_elem_of_further|]. apply orphans_snoc; [done|done|].
    intros Hbt. by destruct (Hb Hbt) as (_ & _ & ?).
Qed.

Lemma clean_call left cfg v s todo :
  core_ok left cfg (RecClean todo) v s → wp (rec_action (RecClean todo) v) (call_ok left cfg v s) s.
Proof.
  intros [(a & Hr & Hc & Ha & Hn) [Htodo Hor]]. destruct todo as [|kv todo]; cbn [rec_action].
  { wp_step. eexists _, _. split; [done|]. split; [|auto]. by split; [exists a|]. }
  destruct (Hor kv) as [Hin Hno]; [apply Htodo, list_elem_of_here|].
  assert (pc_ok (RecClean todo) v) as Hpc by (split; [intros x Hx; by apply Htodo, list_elem_of_further|done]).
  wp_step. apply wp_srv. cbn [kont]. rewrite (rep_networkDB _ _ Hr). unfold ignore. do 3 wp_step.
  apply wp_in_db. eapply wp_mono; [apply db_Delete_law, Hr|].
  intros o d' [Ht [[-> Hd]|(e & -> & Hd)]]; wp_steps; eexists _, _; (split; [done|]); (split; [|auto]);
    (split; [|done]).
  - eexists. split; [exact (rep_set_net _ _ _ _ Hr Ht Hd)|]. split; [done|]. split; [done|].
    exact (records_delete _ _ _ _ Hn Hin Hno).
  - exists a. split; [by apply rep_net_id|done].
Qed.

Lemma action_ok left cfg pc v s :
  core_ok left cfg pc v s → wp (rec_action pc v) (call_ok left cfg v s) s.
Proof.
  intros Hok. destruct pc as [| |todo|todo|o];
    [by apply pods_call|by apply list_call|by apply scan_call|by apply clean_call|].
  cbn [rec_action]. wp_step. eexists _, _. split; [done|]. auto.
Qed.
(** *** Runs *)

Lemma sys_ok_step n0 cfg c c' :
  0 ≤ AvailablePodIPHighWatermark cfg → sys_step c c' → sys_ok n0 cfg c → sys_ok n0 cfg c'.
Proof.
  intros Hh Hstep Hok. destruct Hstep as [pc v s h pc' v' s' Hs|pc v s h pn r s' Hrun|pc v s h n ns sb r s' Hrun|pc v s h op Hop].
  - destruct Hok as (Hst & Hpc & Hl). cbn in *. unfold rec_step in Hs.
    destruct (rec_action pc v s) as [o s1] eqn:Hrun.
    destruct (wp_run _ _ _ _ _ (action_ok _ cfg pc v s (conj Hst Hpc)) Hrun)
      as (pc1 & v1 & -> & [Hst' Hpc'] & Hkvs & _).
    injection Hs as <- <- <-. split; [exact Hst'|]. split; [done|]. cbn.
    destruct Hkvs as [Hkvs|Hnew]; intros kv Hkv; [apply Hl; by rewrite <- Hkvs|].
    exists h, []. rewrite app_nil_r. split; [done|]. by apply Hnew.
  - by eapply sys_ok_add.
  - by eapply sys_ok_del.
  - destruct Hok as (Hst & Hpc & Hl). split; [|done]. cbn. by apply (pool_op_ok _ cfg op).
Qed.

Lemma sys_ok_start s a :
  rep s a → pool_consistent a → sys_ok (a_net a) (a_cfg a) (sys_start s).
Proof.
  intros Hr Hc. split; [|split; [done|by intros kv ?%elem_of_nil]].
  exists a. split_and!; try done. intros k. by left.
Qed.

Lemma sys_ok_run n0 cfg c c' :
  0 ≤ AvailablePodIPHighWatermark cfg → rtc sys_step c c' → sys_ok n0 cfg c → sys_ok n0 cfg c'.
Proof. intros Hh Hr. induction Hr as [|c c1 c2 Hs _ IH]; [done|]. intros Hok. by apply IH, (sys_ok_step _ _ c). Qed.

(** The pods are those that the API server listed in some state of the run. *)
Lemma folks_listed n0 cfg c c' :
  0 ≤ AvailablePodIPHighWatermark cfg → sys_ok n0 cfg c → rtc sys_step c c' →
  rv_folks (ry_vars c') = rv_folks (ry_vars c) ∨
  ∃ c1, rtc sys_step c c1 ∧ rtc sys_step c1 c' ∧ local_pods (ry_st c1) = Some (rv_folks (ry_vars c')).
Proof.
  intros Hh Hok Hr. induction Hr as [c|c c1 c2 Hs Hr IH]; [by left|].
  destruct IH as [Hf|(c3 & R1 & R2 & R3)].
  - by apply (sys_ok_step _ _ c).
  - assert (rv_folks (ry_vars c1) = rv_folks (ry_vars c) ∨ local_pods (ry_st c) = Some (rv_folks (ry_vars c1))) as [Hv|Hv].
    { destruct Hs as [pc v s h pc' v' s' Hs| | |]; try (by left). unfold rec_step in Hs.
      destruct (rec_action pc v s) as [o s1] eqn:Hrun. destruct Hok as (Hst & Hpc & _).
      destruct (wp_run _ _ _ _ _ (action_ok _ cfg pc v s (conj Hst Hpc)) Hrun)
        as (pc1 & v1 & -> & _ & _ & Hf'). by injection Hs as <- <- <-. }
    + left. congruence.
    + right. exists c. split; [apply rtc_refl|]. split; [by eapply rtc_l|]. congruence.
  - right. exists c3. split; [by eapply rtc_l|]. done.
Qed.

Lemma replay_untouched h n k : Forall (λ ev, event_key ev ≠ k) h → replay h n !! k = n !! k.
Proof.
  revert n. induction h as [|ev h IH]; intros n Hh; [done|]. apply Forall_cons in Hh as [He Hh].
  unfold replay in *. simpl. rewrite IH by done.
  destruct ev; simpl in *; by rewrite ?lookup_insert_ne, ?lookup_delete_ne.
Qed.

(** C16: However record handlers, lendings, releases and rounds of the pool manager run
    between the calls of doReconcile, every record is as the handlers left it, but for
    those that it listed: one that no listed pod owned may be gone, one without uid may
    have got the uid of its pod. Each listed record was stored at some moment of the
    run, and the pods are those that the API server listed in it; so a record whose pod
    was listed with its uid stays unless a handler changes it. The function never
    panics. *)
Theorem reconcile_interleaved s0 a0 c :
  rep s0 a0 → pool_consistent a0 → 0 ≤ AvailablePodIPHighWatermark (a_cfg a0) →
  rtc sys_step (sys_start s0) c →
  (∃ a, rep (ry_st c) a ∧ records_ok (ry_vars c) (replay (ry_hist c) (a_net a0)) (a_net a) ∧
     ∀ k pn, a_net a0 !! k = Some pn → Forall (λ ev, event_key ev ≠ k) (ry_hist c) →
       owned (rv_folks (ry_vars c)) pn → pn_PodUID pn ≠ "" → a_net a !! k = Some pn) ∧
  listed_ok (ry_vars c) (ry_hist c) (a_net a0) ∧
  (rv_folks (ry_vars c) = [] ∨ ∃ c1, rtc sys_step (sys_start s0) c1 ∧ rtc sys_step c1 c ∧
     local_pods (ry_st c1) = Some (rv_folks (ry_vars c))) ∧
  (∀ o, ry_pc c = RecEnd o → o = Ok tt).
Proof.
  intros Hr Hc Hh Hrun. pose proof (sys_ok_start _ _ Hr Hc) as Hs.
  pose proof (sys_ok_run _ _ _ _ Hh Hrun Hs) as ((a & Hra & _ & _ & Hn) & Hpc & Hl).
  split; [|split; [exact Hl|split; [exact (folks_listed _ _ _ _ Hh Hs Hrun)|]]].
  - exists a. split; [done|]. split; [exact Hn|]. intros k pn Hk Hev Ho Hu.
    destruct (Hn k) as [->|(pn' & Hin & Hcase)]; [by rewrite replay_untouched|].
    destruct (Hl _ Hin) as (h1 & h2 & Hh12 & Hst). rewrite Hh12 in Hev. apply Forall_app in Hev as [Hev1 _].
    simpl in Hst. rewrite replay_untouched, Hk in Hst by done. injection Hst as <-.
    destruct Hcase as [[_ Hno]|[Hu' _]]; done.
  - intros o Ho. by rewrite Ho in Hpc.
Qed.
End interleaved.

(** ** A node *)

(** The pods are listed first, from the cache of the API server; a pod that is added
    after that, whose record is stored before the records are listed, has its record
    taken for an orphan's. *)
Definition demo_late : PodNetwork :=
  pn_set_PodUID "uid-9" (pn_set_Pod "api-0" "default" "sandbox-9" (demo_pn "10.0.0.51")).
Example reconcile_race :
  let '(pc, v, s1) := rec_step RecPods rec_start demo5 in
  let '(r, s2) := AddPodNetworkRecord (Some demo_late) s1 in
  let '(o, s3) := rec_exec 20 pc v s2 in
  let stored s := bool_decide (is_Some (bolt_get NetworkDBName "api-0-default-sandbox-9" (st_db s))) in
  (r, o, stored s2, stored s3) = (Ok (reply_ok tt), Ok tt, true, false).
Proof. vm_compute. reflexivity. Qed.

(** A record that is removed while a uid is looked up for it comes back. *)
Definition demo_legacy : St Bolt mem_bolt cluster world :=
  demo_st demo_server demo_pools demo_cool
    {["web-0-default-sandbox-1" := pn_set_PodUID "" demo_recorded]} demo_k4 demo_env.
Example reconcile_resurrects :
  let '(pc, v, s1) := rec_step RecPods rec_start demo_legacy in
  let '(pc, v, s2) := rec_step pc v s1 in
  let '(r, s3) := DelPodNetworkRecord "web-0" "default" "sandbox-1" s2 in
  let '(o, s4) := rec_exec 20 pc v s3 in
  let stored s := bool_decide (is_Some (bolt_get NetworkDBName "web-0-default-sandbox-1" (st_db s))) in
  (r, o, stored s3, stored s4) = (Ok (reply_ok tt), Ok tt, false, true).
Proof. vm_compute. reflexivity. Qed.

(** A whole run, in which a record is added after the pods were listed. *)
#[local] Abbreviation demo_sys := (rec_sys Bolt mem_bolt cluster world).
Definition machine_step (c : demo_sys) : demo_sys :=
  let '(pc, v, s) := rec_step (ry_pc c) (ry_vars c) (ry_st c) in mkSys pc v s (ry_hist c).
Definition add_handler (pn : PodNetwork) (c : demo_sys) : demo_sys :=
  let '(r, s) := AddPodNetworkRecord (Some pn) (ry_st c) in
  mkSys (ry_pc c) (ry_vars c) s (ry_hist c ++ logged r (EvAdd (record_key pn) pn)).
Definition demo_run : demo_sys :=
  Nat.iter 9 machine_step (add_handler demo_late (machine_step (sys_start demo5))).

Lemma machine_steps n (c : demo_sys) : rtc sys_step c (Nat.iter n machine_step c).
Proof.
  induction n as [|n IH]; [apply rtc_refl|]. eapply rtc_r; [exact IH|]. simpl.
  destruct (Nat.iter n machine_step c) as [pc v s h]. unfold machine_step. cbn.
  destruct (rec_step pc v s) as [[pc' v'] s'] eqn:Hs. by apply sys_machine.
Qed.
Lemma demo_run_steps : rtc sys_step (sys_start demo5) demo_run.
Proof.
  etrans; [apply (machine_steps 1)|]. eapply rtc_l; [|apply machine_steps]. simpl.
  destruct (machine_step (sys_start demo5)) as [pc v s h]. unfold add_handler. cbn [ry_pc ry_vars ry_st ry_hist].
  destruct (AddPodNetworkRecord (Some demo_late) s) as [r s'] eqn:Hs. by apply sys_add.
Qed.

Lemma reconcile_interleaved_witness :
  ry_pc demo_run = RecEnd (Ok tt) ∧
  ∃ a, rep (ry_st demo_run) a ∧ a_net a !! "web-0-default-sandbox-1" = Some demo_recorded.
Proof.
  split; [vm_compute; reflexivity|].
  destruct (reconcile_interleaved demo5 demo5_abs demo_run) as [(a & Hr & _ & Hk) _].
  - exact demo5_rep.
  - apply demo_consistent. vm_compute. reflexivity.
  - vm_compute. discriminate.
  - exact demo_run_steps.
  - exists a. split; [exact Hr|]. apply Hk; [vm_compute; reflexivity| | |discriminate].
    + apply Forall_forall. intros ev Hev.
      assert (ry_hist demo_run = [EvAdd (record_key demo_late) demo_late]) as Eh by (vm_compute; reflexivity).
      rewrite Eh in Hev. apply list_elem_of_singleton in Hev as ->. vm_compute. discriminate.
    + exists demo_dyn_pod.
      assert (rv_folks (ry_vars demo_run) = [demo_dyn_pod]) as Ef by (vm_compute; reflexivity).
      rewrite Ef. split; [apply list_elem_of_here|]. split; [vm_compute; reflexivity|]. left. vm_compute. reflexivity.
Defined.
