(* ===== verification/LogTail.v ===== *)
(** The HTTP side of the node daemon: the start of a log tail
    ([pkg/ipamd/log_tail.go]) and the version string ([version_server.go]).

    A byte is a [Z]; 10 is the newline. *)
From S2P Require Export Prelude GoStrings.

(** ** Definitions *)

Definition defaultTailLines : Z := 100.
Definition tailBlockSize : Z := 1024.
Definition newline : Z := 10.

(** [strconv.ParseInt(value, 10, 64)] accepts what [Atoi] does. *)
Definition parseTailLines (value : string) : error + Z :=
  if String.eqb value "" then inr defaultTailLines else
  match Atoi value with
  | None => inl (Wrap "ipamd.parseTailLines parse lines" (ExtErr "invalid syntax"))
  | Some lines =>
      if lines <? 0 then inl (Errorf "ipamd.parseTailLines lines must be non-negative")
      else inr lines
  end.

Definition count_newlines (b : list Z) : Z := Z.of_nat (length (filter (λ x, x = newline) b)).

(** [bytes.IndexByte(buffer, '\n')], -1 when there is none. *)
Fixpoint index_newline (b : list Z) : Z :=
  match b with
  | [] => -1
  | x :: b' =>
      if x =? newline then 0
      else let i := index_newline b' in if i <? 0 then -1 else i + 1
  end.

Section tail.
(** The file: its end, and reading [n] bytes at an offset ([Seek], [ReadFull]). *)
Variable seek_end : error + Z.
Variable read_block : Z → Z → error + list Z.

(** The loop that reads blocks backwards: offset, buffer and count at its end. *)
Fixpoint tail_blocks (fuel : nat) (lines endp : Z) (offset : Z) (buffer : list Z) (count : Z)
    : outcome (Z * list Z * Z) :=
  if (endp >? 0) && (count <=? lines) then
    match fuel with
    | O => Diverge
    | S fuel' =>
        let offset := Z.max 0 (endp - tailBlockSize) in
        match read_block offset (endp - offset) with
        | inl e => Err (Wrap "ipamd.tailStartOffset read block" e)
        | inr buffer => tail_blocks fuel' lines offset offset buffer (count + count_newlines buffer)
        end
    end
  else Ok (offset, buffer, count).

(** The loop that drops the lines that are too many. *)
Fixpoint tail_skip (fuel : nat) (lines : Z) (offset : Z) (buffer : list Z) (count : Z) : outcome Z :=
  if count >? lines then
    match fuel with
    | O => Diverge
    | S fuel' =>
        let index := index_newline buffer + 1 in
        tail_skip fuel' lines (offset + index) (drop (Z.to_nat index) buffer) (count - 1)
    end
  else Ok offset.

Definition tailStartOffset (fuel : nat) (lines : Z) : outcome Z :=
  match seek_end with
  | inl e => Err (Wrap "ipamd.tailStartOffset seek end" e)
  | inr endp =>
      if lines =? 0 then Ok endp else
      match tail_blocks fuel lines endp 0 [] 0 with
      | Ok (offset, buffer, count) => tail_skip fuel lines offset buffer count
      | Err e => Err e
      | Panic w => Panic w
      | Diverge => Diverge
      end
  end.
End tail.

(** A file with the given bytes. *)
Definition bytes_end (content : list Z) : error + Z := inr (Z.of_nat (length content)).
Definition bytes_read (content : list Z) (off n : Z) : error + list Z :=
  inr (take (Z.to_nat n) (drop (Z.to_nat off) content)).

(** *** version_server.go *)

Definition cniVersionPrefix : string := "ucloud-uk8s-cnivpc version ".

Definition parseCNIVersion (output : string) : error + string :=
  let output := TrimSpace output in
  if negb (HasPrefix output cniVersionPrefix) then
    inl (Errorf "ipamd.parseCNIVersion unexpected output")
  else
    let version := TrimPrefix output cniVersionPrefix in
    if String.eqb (TrimSpace version) "" then inl (Errorf "ipamd.parseCNIVersion unexpected output")
    else inr (TrimSpace version).

Example tail_two : tailStartOffset (bytes_end [97; 10; 98; 10; 99; 10]) (bytes_read [97; 10; 98; 10; 99; 10]) 10 2 = Ok 2.
Proof. reflexivity. Qed.
Example version_ok : parseCNIVersion "ucloud-uk8s-cnivpc version 1.4.1  " = inr "1.4.1".
Proof. reflexivity. Qed.

(** ** Lemmas *)

Lemma count_newlines_app a b : count_newlines (a ++ b) = count_newlines a + count_newlines b.
Proof. unfold count_newlines. rewrite filter_app, length_app. lia. Qed.
Lemma count_newlines_nonneg b : 0 ≤ count_newlines b.
Proof. unfold count_newlines. lia. Qed.

Lemma count_newlines_cons x b :
  count_newlines (x :: b) = (if x =? newline then 1 else 0) + count_newlines b.
Proof.
  unfold count_newlines. rewrite filter_cons. destruct (Z.eqb_spec x newline); case_decide; try done.
  rewrite length_cons. lia.
Qed.

Lemma count_newlines_le b : count_newlines b ≤ Z.of_nat (length b).
Proof. unfold count_newlines. pose proof (length_filter (λ x, x = newline) b). lia. Qed.

Lemma index_newline_none b : index_newline b < 0 → count_newlines b = 0.
Proof.
  induction b as [|x b IH]; [done|]. simpl. rewrite count_newlines_cons.
  destruct (Z.eqb_spec x newline); [lia|]. destruct (Z.ltb_spec (index_newline b) 0); [|lia].
  intros _. rewrite IH; lia.
Qed.

(** The first newline, when there is one. *)
Lemma index_newline_some b :
  0 < count_newlines b →
  let i := index_newline b in
  0 ≤ i < Z.of_nat (length b) ∧
  count_newlines (drop (Z.to_nat (i + 1)) b) = count_newlines b - 1 ∧
  b !! Z.to_nat i = Some newline.
Proof.
  induction b as [|x b IH]; [done|]. simpl. rewrite count_newlines_cons.
  destruct (Z.eqb_spec x newline) as [->|Hx]; intros Hc.
  - split_and!; try lia; [|done]. simpl. rewrite drop_0. lia.
  - specialize (IH ltac:(lia)). cbv zeta in IH. destruct IH as (H1 & H2 & H3).
    destruct (Z.ltb_spec (index_newline b) 0); [lia|]. split_and!; try lia.
    + replace (Z.to_nat (index_newline b + 1 + 1)) with (S (Z.to_nat (index_newline b + 1))) by lia.
      simpl. lia.
    + replace (Z.to_nat (index_newline b + 1)) with (S (Z.to_nat (index_newline b))) by lia. done.
Qed.

Section correct.
Variable content : list Z.
Let size : Z := Z.of_nat (length content).

Lemma bytes_read_split off n :
  0 ≤ off → 0 ≤ n → off + n ≤ size →
  ∃ b, bytes_read content off n = inr b ∧
    drop (Z.to_nat off) content = b ++ drop (Z.to_nat (off + n)) content.
Proof.
  intros Ho Hn Hs. eexists. split; [done|].
  rewrite <- (take_drop (Z.to_nat n) (drop (Z.to_nat off) content)) at 1. f_equal.
  rewrite drop_drop. f_equal. lia.
Qed.

(** The state of the block loop: the buffer begins at [offset], and [count] is the
    number of newlines from there to the end of the file. *)
Definition block_inv (offset : Z) (buffer : list Z) (count : Z) : Prop :=
  0 ≤ offset ≤ size ∧ count = count_newlines (drop (Z.to_nat offset) content) ∧
  ∃ rest, drop (Z.to_nat offset) content = buffer ++ rest.

Lemma block_inv_end : block_inv size [] 0.
Proof.
  split; [unfold size; lia|]. unfold size. rewrite Nat2Z.id, drop_all. split; [done|]. by exists [].
Qed.

Lemma tail_blocks_correct fuel lines endp buffer count :
  (Z.to_nat endp < fuel)%nat → 0 ≤ endp ≤ size →
  block_inv endp buffer count → count - count_newlines buffer ≤ lines → ∀ offset0,
  (endp = offset0 ∨ 0 < endp ∧ count ≤ lines) →
  ∃ offset b c, tail_blocks (bytes_read content) fuel lines endp offset0 buffer count = Ok (offset, b, c) ∧
    block_inv offset b c ∧ c - count_newlines b ≤ lines ∧ (offset = 0 ∨ lines < c).
Proof.
  revert endp buffer count. induction fuel as [|fuel IH];
    intros endp buffer count Hf He Hinv Hb offset0 Ho; [lia|].
  cbn [tail_blocks]. destruct (Z.gtb_spec endp 0) as [Hpos|]; cbn [andb].
  2:{ destruct Ho as [<-|]; [|lia]. exists endp, buffer, count. split_and!; try done. left. lia. }
  destruct (Z.leb_spec count lines) as [Hle|Hgt].
  2:{ destruct Ho as [<-|]; [|lia]. exists endp, buffer, count. split_and!; try done. by right. }
  set (off := Z.max 0 (endp - tailBlockSize)). assert (0 ≤ off < endp) as Hoff by (unfold off, tailBlockSize; lia).
  destruct (bytes_read_split off (endp - off)) as (b & -> & Hsplit); [lia..|].
  replace (off + (endp - off)) with endp in Hsplit by lia.
  destruct Hinv as (_ & Hc & _).
  assert (count_newlines (drop (Z.to_nat off) content) = count_newlines b + count) as Hcnt.
  { by rewrite Hsplit, count_newlines_app, <- Hc. }
  apply IH; [lia|lia| |lia|by left].
  split; [lia|]. split; [lia|]. by eexists.
Qed.

Lemma tail_skip_correct fuel lines offset buffer count :
  (Z.to_nat (count - lines) < fuel)%nat → block_inv offset buffer count →
  count - count_newlines buffer ≤ lines →
  0 ≤ lines → (offset = 0 ∨ content !! Z.to_nat (offset - 1) = Some newline ∨ lines < count) →
  ∃ off, tail_skip fuel lines offset buffer count = Ok off ∧ 0 ≤ off ≤ size ∧
    count_newlines (drop (Z.to_nat off) content) = Z.min count lines ∧
    (off = 0 ∨ content !! Z.to_nat (off - 1) = Some newline).
Proof.
  revert offset buffer count. induction fuel as [|fuel IH]; intros offset buffer count Hf Hinv Hb Hl Hstart;
    [lia|]. cbn [tail_skip]. destruct Hinv as (Ho & Hc & rest & Hrest).
  destruct (Z.gtb_spec count lines) as [Hgt|Hle].
  2:{ exists offset. split_and!; try done; lia || (destruct Hstart as [?|[?|?]]; auto; lia). }
  destruct (index_newline_some buffer) as (Hi & Hcd & Hat); [lia|].
  set (i := index_newline buffer) in *.
  assert (Z.of_nat (length buffer) ≤ size - offset) as Hlen.
  { apply (f_equal length) in Hrest. rewrite length_drop, length_app in Hrest. unfold size. lia. }
  assert (drop (Z.to_nat (offset + (i + 1))) content = drop (Z.to_nat (i + 1)) buffer ++ rest) as Hdrop.
  { replace (Z.to_nat (offset + (i + 1))) with (Z.to_nat offset + Z.to_nat (i + 1))%nat by lia.
    rewrite <- drop_drop, Hrest. apply drop_app_le. lia. }
  assert (count_newlines (drop (Z.to_nat offset) content) =
    count_newlines (drop (Z.to_nat (offset + (i + 1))) content) + 1) as Hcn.
  { rewrite Hdrop, Hrest, !count_newlines_app, Hcd. lia. }
  destruct (IH (offset + (i + 1)) (drop (Z.to_nat (i + 1)) buffer) (count - 1)) as (off & E & Hoff & Hcount & Hnl).
  - lia.
  - split; [lia|]. split; [lia|]. by exists rest.
  - lia.
  - done.
  - right. left. replace (Z.to_nat (offset + (i + 1) - 1)) with (Z.to_nat offset + Z.to_nat i)%nat by lia.
    rewrite <- lookup_drop, Hrest. by apply lookup_app_l_Some.
  - exists off. split_and!; try done; lia.
Qed.

(** For a positive count the block-wise backward scan ends with an offset that is
    the start of a line, after which there are exactly the wanted number of newlines, or
    all of the file when it has no more. *)
Theorem tailStartOffset_correct fuel lines :
  (length content < fuel)%nat → 0 < lines →
  ∃ off, tailStartOffset (bytes_end content) (bytes_read content) fuel lines = Ok off ∧
    0 ≤ off ≤ size ∧
    count_newlines (drop (Z.to_nat off) content) = Z.min (count_newlines content) lines ∧
    (off = 0 ∨ content !! Z.to_nat (off - 1) = Some newline) ∧
    (count_newlines content ≤ lines → off = 0).
Proof.
  intros Hf Hl. unfold tailStartOffset, bytes_end.
  destruct (Z.eqb_spec lines 0) as [->|_]; [lia|].
  destruct (tail_blocks_correct fuel lines size [] 0) with (offset0 := 0)
    as (o & b & c & E & Hinv & Hb & Hstop).
  { unfold size. lia. } { unfold size. lia. } { exact block_inv_end. } { change (count_newlines []) with 0. lia. }
  { destruct (decide (size = 0)); [by left|right]. unfold size in *. lia. }
  fold size. rewrite E. pose proof Hinv as (Ho & Hc & rest & Hrest).
  assert (count_newlines content = count_newlines (take (Z.to_nat o) content) + c) as Htot.
  { by rewrite Hc, <- count_newlines_app, take_drop. }
  pose proof (count_newlines_nonneg (take (Z.to_nat o) content)) as Hnn.
  assert (c ≤ Z.of_nat (length content)) as Hcl.
  { rewrite <- (take_drop (Z.to_nat o) content), length_app. rewrite Hc.
    pose proof (count_newlines_le (drop (Z.to_nat o) content)). lia. }
  destruct (tail_skip_correct fuel lines o b c) as (off & E2 & Hoff & Hcount & Hnl); [lia|exact Hinv|exact Hb|lia| |].
  { destruct Hstop; auto. }
  assert (lines < c ∨ o = 0 ∧ c = count_newlines content) as Hcase.
  { destruct Hstop as [->|?]; [right|by left]. split; [done|]. rewrite Hc. by rewrite drop_0. }
  exists off. split_and!; try done; try lia.
  intros Hle. destruct Hcase as [?|[-> ->]]; [lia|].
  destruct fuel; [lia|]. cbn [tail_skip] in E2. destruct (Z.gtb_spec (count_newlines content) lines); [lia|].
  congruence.
Qed.
End correct.

Lemma tailStartOffset_witness :
  ∃ off, tailStartOffset (bytes_end [97; 10; 98; 10; 99; 10]) (bytes_read [97; 10; 98; 10; 99; 10]) 10 2 = Ok off ∧
    0 ≤ off ≤ 6 ∧
    count_newlines (drop (Z.to_nat off) [97; 10; 98; 10; 99; 10])
      = Z.min (count_newlines [97; 10; 98; 10; 99; 10]) 2 ∧
    (off = 0 ∨ [97; 10; 98; 10; 99; 10] !! Z.to_nat (off - 1) = Some newline) ∧
    (count_newlines [97; 10; 98; 10; 99; 10] ≤ 2 → off = 0).
Proof. apply (tailStartOffset_correct [97; 10; 98; 10; 99; 10] 10 2); simpl; lia. Defined.
