(* ===== verification/Rps.v ===== *)
(** Receive packet steering of a host device ([cmd/cnivpc/rps.go]): the CPU mask
    text, its normal form, and the loop over the queues of a device.

    The files under [/sys/class/net] belong to the kernel: a [rps_cpus] file
    holds a CPU mask, which it prints in its own format, so a client may rely on
    the value that is read back, not on the text.  [SysfsLaws] says that. *)
From S2P Require Export Cloud GoNet.
From Stdlib Require Import Ascii.

(** ** Definitions *)

Definition full_group : string := "ffffffff".

Definition rps_groups (cpuCount : Z) : list string :=
  let remainder := cpuCount mod 32 in
  (if remainder =? 0 then [] else [FormatUint16 (Z.shiftl 1 remainder - 1)]) ++
  replicate (Z.to_nat (cpuCount / 32)) full_group.

(** The mask, or [None] for the [false] of the source. *)
Definition rpsCPUMask (cpuCount : Z) : option string :=
  if cpuCount <=? 0 then None else Some (Join (rps_groups cpuCount) ",").

Definition clean_mask (mask : string) : string := str_remove ","%char (ToLower (TrimSpace mask)).

Definition normalizeRPSMask (mask : string) : string :=
  let mask := trim_left (λ a, Ascii.eqb a "0"%char) (clean_mask mask) in
  if String.eqb mask "" then "0" else mask.

(** The file system calls. *)
Class SysfsApi (E : Type) := {
  os_Glob : string → Call E (list string);
  os_ReadFile : string → Call E string;
  os_WriteFile : string → string → Call E unit;
}.

Section ops.
Context {E : Type} `{SysfsApi E}.

Definition rps_one (mask rpsFile : string) : M E unit :=
  currentMask ← with_wrap ("cnivpc.ensureLinkRPS read " +:+ rpsFile) (call (os_ReadFile rpsFile));
  if String.eqb (normalizeRPSMask currentMask) (normalizeRPSMask mask) then mret tt
  else with_wrap ("cnivpc.ensureLinkRPS write " +:+ rpsFile) (call (os_WriteFile rpsFile mask)).

Definition ensureLinkRPSWithCPUCount (linkName netClassPath : string) (cpuCount : Z) : M E unit :=
  match rpsCPUMask cpuCount with
  | None => throw (Errorf "cnivpc.ensureLinkRPS invalid CPU count")
  | Some mask =>
      let pattern := netClassPath +:+ "/" +:+ linkName +:+ "/queues/rx-*/rps_cpus" in
      rpsFiles ← with_wrap ("cnivpc.ensureLinkRPS glob " +:+ pattern) (call (os_Glob pattern));
      if (length rpsFiles =? 0)%nat then throw (Errorf "cnivpc.ensureLinkRPS no RX queues")
      else for_range rpsFiles (rps_one mask)
  end.
End ops.

(** The value of a mask text: hexadecimal digits, most significant first, with
    commas between groups. *)
Fixpoint hex_digits (s : string) : option (list Z) :=
  match s with
  | EmptyString => Some []
  | String a s' => v ← hex_val a; l ← hex_digits s'; Some (v :: l)
  end.
Definition digits_value (l : list Z) : Z := foldl (λ acc d, acc * 16 + d) 0 l.
Definition mask_value (s : string) : option Z :=
  match hex_digits (clean_mask s) with
  | Some (d :: l) => Some (digits_value (d :: l))
  | _ => None
  end.

(** What the kernel promises of the queue files: a file that can be read shows a
    text of its mask, a successful write of a mask text sets the mask, and no
    other file changes; a failed write changes nothing. *)
Class SysfsLaws (E : Type) `{SysfsApi E} := {
  cpumask : E → string → option Z;
  Glob_keeps p e : cpumask (os_Glob p e).2 = cpumask e;
  ReadFile_keeps f e : cpumask (os_ReadFile f e).2 = cpumask e;
  ReadFile_value f e c : (os_ReadFile f e).1 = inr c → ∃ v, mask_value c = Some v ∧ cpumask e f = Some v;
  WriteFile_value f c v e :
    (os_WriteFile f c e).1 = inr tt → mask_value c = Some v →
    cpumask (os_WriteFile f c e).2 f = Some v;
  WriteFile_other f c e g : g ≠ f → cpumask (os_WriteFile f c e).2 g = cpumask e g;
  WriteFile_failed f c e err :
    (os_WriteFile f c e).1 = inl err → cpumask (os_WriteFile f c e).2 = cpumask e;
}.

Example mask_40 : rpsCPUMask 40 = Some "ff,ffffffff".
Proof. reflexivity. Qed.
Example mask_64 : rpsCPUMask 64 = Some "ffffffff,ffffffff".
Proof. reflexivity. Qed.
Example normalize_ex : normalizeRPSMask "00000000,000000FF " = "ff".
Proof. reflexivity. Qed.

(** ** Lemmas: digits *)

Lemma hex_val_range a v : hex_val a = Some v → 0 ≤ v < 16.
Proof.
  unfold hex_val. intros Hv.
  repeat match type of Hv with (if ?b then _ else _) = _ => destruct b eqn:? end; simplify_eq; lia.
Qed.

Definition lower_digit_ok (a : ascii) : bool :=
  match hex_val (ascii_lower a) with
  | Some v => Ascii.eqb (ascii_lower a) (digit_char v)
  | None => true
  end.

Lemma lower_digit_all a : lower_digit_ok a = true.
Proof.
  assert (forallb (λ n, lower_digit_ok (ascii_of_nat n)) (seq 0 256) = true) as Hall by reflexivity.
  rewrite List.forallb_forall in Hall. rewrite <- (ascii_nat_embedding a). apply Hall.
  apply List.in_seq. pose proof (nat_ascii_bounded a). lia.
Qed.

Lemma hex_val_lower a v : hex_val (ascii_lower a) = Some v → ascii_lower a = digit_char v.
Proof.
  intros Hv. pose proof (lower_digit_all a) as Hok. unfold lower_digit_ok in Hok.
  rewrite Hv in Hok. by apply Ascii.eqb_eq.
Qed.

Fixpoint str_of_digits (l : list Z) : string :=
  match l with [] => "" | d :: l' => String (digit_char d) (str_of_digits l') end.

Lemma hex_digits_of_lower s l :
  hex_digits (str_remove ","%char (ToLower s)) = Some l →
  str_remove ","%char (ToLower s) = str_of_digits l ∧ Forall (λ d, 0 ≤ d < 16) l.
Proof.
  revert l. induction s as [|a s IH]; intros l.
  - intros [= <-]. split; [done|constructor].
  - cbn [ToLower str_map str_remove]. fold (ToLower s).
    destruct (Ascii.eqb (ascii_lower a) ",") eqn:Hc; [apply IH|].
    cbn [hex_digits]. intros Hl. apply bind_Some in Hl as (v & Hv & Hl).
    apply bind_Some in Hl as (l' & Hl' & [= <-]). destruct (IH _ Hl') as [Hs HF].
    split; [|constructor; eauto using hex_val_range]. cbn [str_of_digits].
    by rewrite Hs, (hex_val_lower _ _ Hv).
Qed.

Lemma hex_val_digit d : 0 ≤ d < 16 → hex_val (digit_char d) = Some d.
Proof.
  intros Hd.
  assert (forallb (λ d, bool_decide (hex_val (digit_char d) = Some d)) (seqZ 0 16) = true) as Hall
    by reflexivity.
  rewrite List.forallb_forall in Hall. apply (bool_decide_eq_true_1 _), Hall, list_elem_of_In, elem_of_seqZ. lia.
Qed.

Lemma digit_char_inj a b : 0 ≤ a < 16 → 0 ≤ b < 16 → digit_char a = digit_char b → a = b.
Proof.
  intros Ha Hb Hab. apply (f_equal hex_val) in Hab.
  rewrite !hex_val_digit in Hab by done. congruence.
Qed.

Lemma str_of_digits_inj a b :
  Forall (λ d, 0 ≤ d < 16) a → Forall (λ d, 0 ≤ d < 16) b →
  str_of_digits a = str_of_digits b → a = b.
Proof.
  intros Ha. revert b. induction Ha as [|x a Hx Ha IH]; intros b Hb; destruct Hb as [|y b Hy Hb];
    simpl; intros Heq; try done. injection Heq as Hxy Heq.
  f_equal; [by apply digit_char_inj|auto].
Qed.

Lemma digits_value_snoc l d : digits_value (l ++ [d]) = digits_value l * 16 + d.
Proof. unfold digits_value. by rewrite foldl_app. Qed.

Lemma digits_value_app a b :
  digits_value (a ++ b) = digits_value a * 16 ^ Z.of_nat (length b) + digits_value b.
Proof.
  induction b as [|d b IH] using rev_ind.
  - rewrite app_nil_r. simpl. change (digits_value []) with 0. lia.
  - rewrite app_assoc, !digits_value_snoc, IH, length_app. simpl length.
    rewrite Nat2Z.inj_add, Z.pow_add_r by lia. change (16 ^ Z.of_nat 1) with 16. ring.
Qed.

Lemma digits_value_bound l :
  Forall (λ d, 0 ≤ d < 16) l → 0 ≤ digits_value l < 16 ^ Z.of_nat (length l).
Proof.
  induction l as [|d l IH] using rev_ind; [by intros _; change (digits_value []) with 0|].
  intros [Hl Hd]%Forall_app. inversion_clear Hd. specialize (IH Hl).
  rewrite digits_value_snoc, length_app. simpl length.
  rewrite Nat2Z.inj_add, Z.pow_add_r by lia. change (16 ^ Z.of_nat 1) with 16. lia.
Qed.

Lemma digits_value_inj a b :
  Forall (λ d, 0 ≤ d < 16) a → Forall (λ d, 0 ≤ d < 16) b → length a = length b →
  digits_value a = digits_value b → a = b.
Proof.
  revert b. induction a as [|x a IH] using rev_ind; intros b Ha Hb Hlen Hv.
  - by destruct b.
  - destruct b as [|y b _] using rev_ind; [rewrite length_app in Hlen; simpl in Hlen; lia|].
    apply Forall_app in Ha as [Ha Hx], Hb as [Hb Hy]. inversion_clear Hx. inversion_clear Hy.
    rewrite !digits_value_snoc in Hv. rewrite !length_app in Hlen. simpl in Hlen.
    assert (x = y ∧ digits_value a = digits_value b) as [-> ?] by lia.
    f_equal. apply IH; auto. lia.
Qed.

(** Dropping the leading zeros. *)
Fixpoint drop_zeros (l : list Z) : list Z :=
  match l with d :: l' => if d =? 0 then drop_zeros l' else l | [] => [] end.

Lemma drop_zeros_range l : Forall (λ d, 0 ≤ d < 16) l → Forall (λ d, 0 ≤ d < 16) (drop_zeros l).
Proof. induction 1; simpl; [constructor|]. destruct (_ =? _); auto. Qed.

Lemma drop_zeros_value l : digits_value (drop_zeros l) = digits_value l.
Proof.
  induction l as [|d l IH]; simpl; [done|]. destruct (Z.eqb_spec d 0) as [->|]; [|done]. exact IH.
Qed.

Lemma drop_zeros_head l d r : drop_zeros l = d :: r → d ≠ 0.
Proof.
  induction l as [|x l IH]; simpl; [done|].
  destruct (Z.eqb_spec x 0); [auto|]. by intros [= -> _].
Qed.

Lemma pow16_lt_inv x (n : nat) : 16 ^ x < 16 ^ Z.of_nat n → x < Z.of_nat n.
Proof. intros Hlt. apply (Z.pow_lt_mono_r_iff 16); lia. Qed.

(** The digits without leading zeros are fixed by the value. *)
Lemma drop_zeros_unique a b :
  Forall (λ d, 0 ≤ d < 16) a → Forall (λ d, 0 ≤ d < 16) b →
  digits_value a = digits_value b → drop_zeros a = drop_zeros b.
Proof.
  intros Ha%drop_zeros_range Hb%drop_zeros_range Hv.
  rewrite <- (drop_zeros_value a), <- (drop_zeros_value b) in Hv.
  assert (∀ l, drop_zeros l = [] ∨ Forall (λ d, 0 ≤ d < 16) (drop_zeros l) →
    drop_zeros l ≠ [] → 16 ^ (Z.of_nat (length (drop_zeros l)) - 1) ≤ digits_value (drop_zeros l)) as Hlow.
  { intros l Hl Hne. destruct (drop_zeros l) as [|d r] eqn:Hd; [done|]. destruct Hl as [?|HF]; [done|].
    pose proof (drop_zeros_head _ _ _ Hd). inversion_clear HF as [|?? Hdr Hr].
    change (d :: r) with ([d] ++ r). rewrite digits_value_app.
    pose proof (digits_value_bound r Hr). change (digits_value [d]) with d. simpl length.
    replace (Z.of_nat (S (length r)) - 1) with (Z.of_nat (length r)) by lia. nia. }
  apply digits_value_inj; auto.
  pose proof (digits_value_bound _ Ha) as Hba. pose proof (digits_value_bound _ Hb) as Hbb.
  pose proof (Hlow a (or_intror Ha)) as Hla. pose proof (Hlow b (or_intror Hb)) as Hlb.
  rewrite Hv in Hba, Hla.
  destruct (decide (drop_zeros a = [])) as [Ea|Ea], (decide (drop_zeros b = [])) as [Eb|Eb].
  - by rewrite Ea, Eb.
  - rewrite Ea in Hba. specialize (Hlb Eb). simpl in Hba.
    assert (0 < 16 ^ (Z.of_nat (length (drop_zeros b)) - 1)); [|lia].
    destruct (drop_zeros b); [done|]. simpl length. apply Z.pow_pos_nonneg; lia.
  - rewrite Eb in Hbb. specialize (Hla Ea). rewrite Eb in Hla. simpl in Hbb, Hla.
    assert (0 < 16 ^ (Z.of_nat (length (drop_zeros a)) - 1)); [|lia].
    destruct (drop_zeros a); [done|]. simpl length. apply Z.pow_pos_nonneg; lia.
  - specialize (Hla Ea). specialize (Hlb Eb).
    assert (16 ^ (Z.of_nat (length (drop_zeros a)) - 1) < 16 ^ Z.of_nat (length (drop_zeros b)))
      as Hab%pow16_lt_inv by lia.
    assert (16 ^ (Z.of_nat (length (drop_zeros b)) - 1) < 16 ^ Z.of_nat (length (drop_zeros a)))
      as Hba'%pow16_lt_inv by lia.
    clear -Hab Hba'. lia.
Qed.

(** ** Lemmas: the text *)

Lemma trim_left_zeros l :
  Forall (λ d, 0 ≤ d < 16) l →
  trim_left (λ a, Ascii.eqb a "0"%char) (str_of_digits l) = str_of_digits (drop_zeros l).
Proof.
  induction 1 as [|d l Hd Hl IH]; [done|]. simpl.
  destruct (Z.eqb_spec d 0) as [->|Hne]; [exact IH|].
  destruct (Ascii.eqb_spec (digit_char d) "0") as [Hc|]; [|done].
  exfalso. apply Hne, digit_char_inj; [lia..|done].
Qed.

(** The normal form in terms of the digits. *)
Lemma normalize_digits mask l :
  hex_digits (clean_mask mask) = Some l →
  normalizeRPSMask mask =
    match drop_zeros l with [] => "0" | l' => str_of_digits l' end ∧
  Forall (λ d, 0 ≤ d < 16) l.
Proof.
  intros Hl. destruct (hex_digits_of_lower _ _ Hl) as [Hs HF]. split; [|done].
  unfold normalizeRPSMask, clean_mask. rewrite Hs, trim_left_zeros by done.
  by destruct (drop_zeros l).
Qed.

Lemma mask_value_digits mask v :
  mask_value mask = Some v →
  ∃ l, hex_digits (clean_mask mask) = Some l ∧ digits_value l = v.
Proof.
  unfold mask_value. destruct (hex_digits _) as [[|d l]|]; try done. intros [= <-]. eauto.
Qed.

(** Normal forms decide equality of masks. *)
Lemma normalize_spec a b v w :
  mask_value a = Some v → mask_value b = Some w →
  normalizeRPSMask a = normalizeRPSMask b ↔ v = w.
Proof.
  intros (la & Hla & <-)%mask_value_digits (lb & Hlb & <-)%mask_value_digits.
  destruct (normalize_digits _ _ Hla) as [-> Ha], (normalize_digits _ _ Hlb) as [-> Hb].
  split.
  - intros Heq. rewrite <- (drop_zeros_value la), <- (drop_zeros_value lb). f_equal.
    pose proof (drop_zeros_range _ Ha) as Ha'. pose proof (drop_zeros_range _ Hb) as Hb'.
    pose proof (drop_zeros_head la) as Hda. pose proof (drop_zeros_head lb) as Hdb.
    assert (Forall (λ d, 0 ≤ d < 16) [0]) by (repeat constructor; lia).
    destruct (drop_zeros la) as [|x ra], (drop_zeros lb) as [|y rb]; [done|..].
    + exfalso. change "0" with (str_of_digits [0]) in Heq.
      apply str_of_digits_inj in Heq; [|done..]. injection Heq as <- _. by eapply Hdb.
    + exfalso. change "0" with (str_of_digits [0]) in Heq.
      apply str_of_digits_inj in Heq; [|done..]. injection Heq as -> _. by eapply Hda.
    + by apply str_of_digits_inj in Heq.
  - intros Hv. by rewrite (drop_zeros_unique la lb).
Qed.

(** Text that has no space is not changed by trimming. *)
Fixpoint str_all (p : ascii → bool) (s : string) : bool :=
  match s with EmptyString => true | String a s' => p a && str_all p s' end.

Lemma str_all_app p a b : str_all p (a +:+ b) = str_all p a && str_all p b.
Proof. induction a as [|x a IH]; simpl; [done|]. by rewrite IH, andb_assoc. Qed.

Lemma trim_left_none p s : str_all (λ a, negb (p a)) s = true → trim_left p s = s.
Proof. destruct s as [|a s]; simpl; [done|]. by destruct (p a). Qed.

Lemma str_rev_involutive s : str_rev (str_rev s) = s.
Proof.
  unfold str_rev. rewrite String.list_ascii_of_string_of_list_ascii, reverse_involutive.
  apply String.string_of_list_ascii_of_string.
Qed.

Lemma str_all_list p s : str_all p s = forallb p (String.list_ascii_of_string s).
Proof. induction s as [|a s IH]; simpl; [done|]. by rewrite IH. Qed.

Lemma str_all_rev p s : str_all p s = true → str_all p (str_rev s) = true.
Proof.
  rewrite !str_all_list. unfold str_rev. rewrite String.list_ascii_of_string_of_list_ascii.
  rewrite !List.forallb_forall. intros Hp x Hx. apply Hp.
  rewrite <- (reverse_involutive (String.list_ascii_of_string s)).
  by rewrite <- list_elem_of_In, elem_of_reverse, list_elem_of_In.
Qed.

Lemma TrimSpace_none s : str_all (λ a, negb (is_space a)) s = true → TrimSpace s = s.
Proof.
  intros Hs. unfold TrimSpace, trim_right. rewrite (trim_left_none _ s) by done.
  rewrite trim_left_none by (by apply str_all_rev). apply str_rev_involutive.
Qed.

(** The mask of [n] CPUs. *)
Definition mask_char (a : ascii) : bool :=
  negb (is_space a) && Ascii.eqb (ascii_lower a) a && negb (Ascii.eqb a ","%char).
Definition mask_digits (s : string) : bool := str_all mask_char s.

Lemma str_remove_app c a b : str_remove c (a +:+ b) = str_remove c a +:+ str_remove c b.
Proof. induction a as [|x a IH]; simpl; [done|]. destruct (Ascii.eqb x c); simpl; by rewrite IH. Qed.

Lemma str_map_app f a b : str_map f (a +:+ b) = str_map f a +:+ str_map f b.
Proof. induction a as [|x a IH]; simpl; [done|]. by rewrite IH. Qed.

Lemma mask_digits_clean s :
  mask_digits s = true → ToLower s = s ∧ str_remove ","%char s = s.
Proof.
  induction s as [|a s IH]; [done|].
  cbn [mask_digits str_all ToLower str_map str_remove]. unfold mask_char at 1.
  intros [[[_ ->%Ascii.eqb_eq]%andb_prop Hc]%andb_prop Hs]%andb_prop.
  destruct (IH Hs) as [Hl Hr]. fold (ToLower s). apply negb_true_iff in Hc.
  by rewrite Hc, Hl, Hr.
Qed.

Lemma Join_clean gs :
  Forall (λ g, mask_digits g = true) gs →
  str_all (λ a, negb (is_space a)) (GoStrings.Join gs ",") = true ∧
  str_remove ","%char (ToLower (GoStrings.Join gs ",")) = foldr String.append "" gs.
Proof.
  assert (∀ g, mask_digits g = true → str_all (λ a, negb (is_space a)) g = true) as Hns.
  { induction g as [|a g IH]; [done|]. cbn [mask_digits str_all]. unfold mask_char at 1.
    intros [[[-> _]%andb_prop _]%andb_prop Hg]%andb_prop. simpl. auto. }
  induction 1 as [|g gs Hg Hgs [IH1 IH2]]; [done|].
  destruct (mask_digits_clean _ Hg) as [Hl Hr].
  destruct gs as [|g' gs].
  - simpl. rewrite Hl, Hr, str_app_nil_r. auto.
  - change (GoStrings.Join (g :: g' :: gs) ",") with (g +:+ "," +:+ GoStrings.Join (g' :: gs) ",").
    rewrite !str_all_app, Hns, IH1 by done. split; [done|].
    unfold ToLower in *. rewrite !str_map_app, !str_remove_app, Hl, Hr, IH2. done.
Qed.

Lemma hex_digits_app a b la lb :
  hex_digits a = Some la → hex_digits b = Some lb → hex_digits (a +:+ b) = Some (la ++ lb).
Proof.
  revert la. induction a as [|x a IH]; simpl; intros la.
  - by intros [= <-].
  - intros (v & -> & Hl)%bind_Some Hb. apply bind_Some in Hl as (l & Hl & [= <-]).
    simpl. by rewrite (IH _ Hl Hb).
Qed.

(** Each short group, computed. *)
Definition group_ok (r : Z) : bool :=
  let g := FormatUint16 (Z.shiftl 1 r - 1) in
  mask_digits g &&
  bool_decide (digits_value <$> hex_digits g = Some (2 ^ r - 1)) && negb (String.eqb g "").

Lemma group_all r : 0 < r < 32 → group_ok r = true.
Proof.
  intros Hr. assert (forallb group_ok (seqZ 1 31) = true) as Hall by reflexivity.
  rewrite List.forallb_forall in Hall. apply Hall, list_elem_of_In, elem_of_seqZ. lia.
Qed.

Lemma full_groups_digits k :
  ∃ l, hex_digits (foldr String.append "" (replicate k full_group)) = Some l ∧
    length l = (8 * k)%nat ∧ digits_value l = 16 ^ Z.of_nat (8 * k) - 1.
Proof.
  induction k as [|k (l & Hl & Hlen & Hv)]; [by exists []|].
  exists (replicate 8 15 ++ l). cbn [replicate foldr].
  split_and!.
  - by apply hex_digits_app.
  - rewrite length_app. simpl. lia.
  - rewrite digits_value_app, Hv, Hlen. replace (8 * S k)%nat with (8 + 8 * k)%nat by lia.
    rewrite Nat2Z.inj_add, Z.pow_add_r by lia.
    change (digits_value [15; 15; 15; 15; 15; 15; 15; 15]) with (16 ^ Z.of_nat 8 - 1). ring.
Qed.

Lemma rps_groups_value n :
  0 < n →
  Forall (λ g, mask_digits g = true) (rps_groups n) ∧
  ∃ d l, hex_digits (foldr String.append "" (rps_groups n)) = Some (d :: l) ∧
    digits_value (d :: l) = 2 ^ n - 1.
Proof.
  intros Hn. unfold rps_groups.
  pose proof (Z.div_mod n 32 ltac:(lia)) as Hdm. pose proof (Z.mod_pos_bound n 32 ltac:(lia)) as Hr.
  pose proof (Z.div_pos n 32 ltac:(lia) ltac:(lia)) as Hq.
  set (k := Z.to_nat (n / 32)). assert (n / 32 = Z.of_nat k) as Hk by (unfold k; lia).
  destruct (full_groups_digits k) as (l & Hl & Hlen & Hv).
  assert (Forall (λ g, mask_digits g = true) (replicate k full_group)) as Hfull.
  { apply Forall_replicate. reflexivity. }
  assert (∀ r, 2 ^ r * 16 ^ Z.of_nat (8 * k) = 2 ^ (r + 32 * Z.of_nat k) ∨ r < 0) as Hpow.
  { intros r. destruct (Z.ltb_spec r 0); [by right|left].
    change 16 with (2 ^ 4). rewrite <- Z.pow_mul_r, <- Z.pow_add_r by lia. f_equal. lia. }
  destruct (Z.eqb_spec (n mod 32) 0) as [H0|Hne].
  - split; [done|]. cbn [app]. rewrite Hl. destruct l as [|d l]; [simpl in Hlen; lia|].
    exists d, l. split; [done|]. rewrite Hv. destruct (Hpow 0) as [Hp|]; [|lia].
    rewrite Z.mul_1_l in Hp. rewrite Hp. do 2 f_equal. lia.
  - pose proof (group_all (n mod 32) ltac:(lia)) as Hg. unfold group_ok in Hg.
    apply andb_prop in Hg as [[Hd Hgv]%andb_prop Hg0].
    apply bool_decide_eq_true_1, fmap_Some in Hgv as (lg & Hlg & Hgv).
    split; [by constructor|]. cbn [app foldr].
    rewrite (hex_digits_app _ _ _ _ Hlg Hl).
    destruct lg as [|d lg].
    { exfalso. change (digits_value []) with 0 in Hgv.
      assert (2 ^ (n mod 32) ≠ 1); [|lia]. intros Hp.
      apply (Z.pow_inj_r 2 _ 0) in Hp; lia. }
    exists d, (lg ++ l). split; [done|]. change (d :: lg ++ l) with ((d :: lg) ++ l).
    rewrite digits_value_app, <- Hgv, Hv, Hlen. destruct (Hpow (n mod 32)) as [Hp|]; [|lia].
    replace n with (n mod 32 + 32 * Z.of_nat k) at 2 by lia. lia.
Qed.

Lemma rpsCPUMask_value n mask : rpsCPUMask n = Some mask → 0 < n ∧ mask_value mask = Some (2 ^ n - 1).
Proof.
  unfold rpsCPUMask. destruct (Z.leb_spec n 0); [done|]. intros [= <-]. split; [lia|].
  destruct (rps_groups_value n) as (HF & d & l & Hl & Hv); [lia|].
  destruct (Join_clean _ HF) as [Hns Hclean].
  unfold mask_value, clean_mask. rewrite TrimSpace_none by done. by rewrite Hclean, Hl, Hv.
Qed.

(** ** Properties *)

Section correct.
Context {E : Type} `{HS : SysfsApi E, !SysfsLaws E}.

(** Each queue file holds its old mask or the wanted one. *)
Definition queue_step (want : Z) (e e' : E) : Prop :=
  ∀ f, cpumask e' f = cpumask e f ∨ cpumask e' f = Some want.

Lemma rps_one_spec mask want f e :
  mask_value mask = Some want →
  wp (rps_one mask f) (λ o e', returns o = true ∧
    (∀ g, g ≠ f → cpumask e' g = cpumask e g) ∧
    (cpumask e' f = cpumask e f ∨ cpumask e' f = Some want) ∧
    (o = Ok tt → cpumask e' f = Some want)) e.
Proof.
  intros Hm. unfold rps_one. wp_step. wp_step. apply wp_call.
  2:{ intros err e' Hc. cbn [kont]. pose proof (ReadFile_keeps f e) as Hk. rewrite Hc in Hk. simpl in Hk.
      rewrite Hk. by split_and!; auto. }
  intros cur e' Hc. cbn [kont]. pose proof (ReadFile_keeps f e) as Hk. rewrite Hc in Hk. simpl in Hk.
  destruct (ReadFile_value f e cur) as (v & Hv & Hf); [by rewrite Hc|].
  destruct (String.eqb_spec (normalizeRPSMask cur) (normalizeRPSMask mask)) as [Heq|Hne].
  - apply (normalize_spec _ _ _ _ Hv Hm) in Heq as ->. wp_step. rewrite Hk. by split_and!; auto.
  - wp_step. apply wp_call; intros a e'' Hw.
    + destruct a. split_and!; [done|..].
      * intros g Hg. pose proof (WriteFile_other f mask e' g Hg) as Ho. rewrite Hw in Ho. simpl in Ho.
        by rewrite Ho, Hk.
      * right. pose proof (WriteFile_value f mask want e') as Ho. rewrite Hw in Ho. by apply Ho.
      * intros _. pose proof (WriteFile_value f mask want e') as Ho. rewrite Hw in Ho. by apply Ho.
    + pose proof (WriteFile_failed f mask e' a) as Ho. rewrite Hw in Ho. simpl in Ho.
      rewrite Ho, Hk by done. by split_and!; auto.
Qed.

Lemma rps_loop_spec mask want files e :
  mask_value mask = Some want →
  wp (for_range files (rps_one mask)) (λ o e', returns o = true ∧ queue_step want e e' ∧
    (∀ g, g ∉ files → cpumask e' g = cpumask e g) ∧
    (o = Ok tt → ∀ f, f ∈ files → cpumask e' f = Some want)) e.
Proof.
  intros Hm. revert e. induction files as [|f files IH]; intros e; cbn [for_range].
  - wp_step. split_and!; try done; [by left|]. intros _ f Hf. by apply elem_of_nil in Hf.
  - wp_step. wp_use (rps_one_spec _ want) as (Hr & Hoth & Hf & Hok); [done|].
    assert (queue_step want e st) as Hq1.
    { intros g. destruct (decide (g = f)) as [->|]; [done|]. left. auto. }
    destruct o as [[]|err| |]; try done; cbn [kont].
    2:{ split_and!; try done. intros g Hg. apply Hoth. intros ->. apply Hg, list_elem_of_here. }
    eapply wp_mono; [apply IH|]. intros o e' (Hr' & Hq & Hoth' & Hok'). split_and!; try done.
    + intros g. destruct (Hq g) as [->|]; [apply Hq1|by right].
    + intros g Hg. rewrite not_elem_of_cons in Hg. destruct Hg as [Hg1 Hg2].
      rewrite Hoth' by done. by apply Hoth.
    + intros -> g Hg. apply elem_of_cons in Hg as [->|Hg]; [|by apply Hok'].
      specialize (Hok eq_refl). destruct (Hq f) as [->|]; done.
Qed.

(** C40: ensureLinkRPSWithCPUCount rejects a count below one without touching a file;
    after success there was at least one queue, every queue of the link has the mask of
    all CPUs and no other queue has changed. *)
Theorem ensureLinkRPS_correct linkName netClassPath cpuCount e :
  let pattern := netClassPath +:+ "/" +:+ linkName +:+ "/queues/rx-*/rps_cpus" in
  let '(o, e') := ensureLinkRPSWithCPUCount linkName netClassPath cpuCount e in
  returns o = true ∧
  (cpuCount ≤ 0 → o = Err (Errorf "cnivpc.ensureLinkRPS invalid CPU count") ∧ e' = e) ∧
  queue_step (2 ^ cpuCount - 1) e e' ∧
  (o = Ok tt → ∃ files, (os_Glob pattern e).1 = inr files ∧ files ≠ [] ∧
     (∀ f, f ∈ files → cpumask e' f = Some (2 ^ cpuCount - 1)) ∧
     (∀ f, f ∉ files → cpumask e' f = cpumask e f)).
Proof.
  cbv zeta. destruct (ensureLinkRPSWithCPUCount linkName netClassPath cpuCount e) as [o e'] eqn:Hrun.
  pattern o, e'. refine (wp_run _ _ _ _ _ _ Hrun). clear o e' Hrun. cbv beta. unfold ensureLinkRPSWithCPUCount. cbv zeta.
  destruct (rpsCPUMask cpuCount) as [mask|] eqn:Hmask.
  2:{ wp_step. split_and!; try done. by left. }
  destruct (rpsCPUMask_value _ _ Hmask) as [Hn Hv].
  set (pattern := netClassPath +:+ _). wp_step. wp_step. apply wp_call.
  2:{ intros err e1 Hg. cbn [kont]. split_and!; try done; [lia|].
      pose proof (Glob_keeps pattern e) as Hk. rewrite Hg in Hk. simpl in Hk. intros f. left. by rewrite Hk. }
  intros files e1 Hg. cbn [kont]. pose proof (Glob_keeps pattern e) as Hk. rewrite Hg in Hk. simpl in Hk.
  destruct (Nat.eqb_spec (length files) 0) as [|Hne].
  { wp_step. split_and!; try done; [lia|]. intros f. rewrite Hk. by left. }
  eapply wp_mono; [by apply rps_loop_spec|].
  intros o1 e2 (Hr & Hq & Hoth & Hok). split_and!; try done; [lia|..].
  - intros f. rewrite <- Hk. apply Hq.
  - intros ->. exists files. rewrite Hg. split_and!; try done.
    + by intros ->.
    + by apply Hok.
    + intros f Hf. by rewrite Hoth, Hk.
Qed.

(** Two mask texts have the same normal form exactly when they denote the same
    number, and the mask made for n CPUs denotes 2^n - 1. *)
Theorem normalizeRPSMask_correct a b v w :
  mask_value a = Some v → mask_value b = Some w →
  (normalizeRPSMask a = normalizeRPSMask b ↔ v = w) ∧
  (∀ n m, rpsCPUMask n = Some m → 0 < n ∧ mask_value m = Some (2 ^ n - 1) ∧
     (normalizeRPSMask a = normalizeRPSMask m ↔ v = 2 ^ n - 1)).
Proof.
  intros Ha Hb. split; [by apply normalize_spec|]. intros n m Hm.
  destruct (rpsCPUMask_value _ _ Hm) as [Hn Hv]. split_and!; [done..|]. by apply normalize_spec.
Qed.

End correct.

Lemma normalizeRPSMask_witness :
  (normalizeRPSMask "00000000,000000ff" = normalizeRPSMask "FF " ↔ 255 = 255) ∧
  (∀ n m, rpsCPUMask n = Some m → 0 < n ∧ mask_value m = Some (2 ^ n - 1) ∧
     (normalizeRPSMask "00000000,000000ff" = normalizeRPSMask m ↔ 255 = 2 ^ n - 1)).
Proof. apply (normalizeRPSMask_correct "00000000,000000ff" "FF " 255 255); reflexivity. Defined.

(** ** A concrete file system *)

Abbreviation mask_files := (gmap string string).

#[global] Instance mask_files_api : SysfsApi mask_files := {
  os_Glob _ e := (inr (map_to_list e).*1, e);
  os_ReadFile f e :=
    (match e !! f with
     | Some c => match mask_value c with Some _ => inr c | None => inl (ExtErr "EIO") end
     | None => inl (ExtErr "ENOENT")
     end, e);
  os_WriteFile f c e :=
    match mask_value c with
    | Some _ => (inr tt, <[f := c]> e)
    | None => (inl (ExtErr "EINVAL"), e)
    end
}.

#[global] Program Instance mask_files_laws : SysfsLaws mask_files := {
  cpumask e f := e !! f ≫= mask_value
}.
Next Obligation. done. Qed.
Next Obligation. done. Qed.
Next Obligation.
  intros f e c. simpl. destruct (e !! f) as [c'|]; [|done]. destruct (mask_value c') eqn:?; [|done].
  intros [= <-]. eauto.
Qed.
Next Obligation.
  intros f c v e. simpl. destruct (mask_value c) eqn:Hc; [|done]. intros _ [= <-].
  cbn [snd]. by rewrite lookup_insert_eq.
Qed.
Next Obligation.
  intros f c e g Hg. simpl. destruct (mask_value c); [|done]. cbn [snd]. by rewrite lookup_insert_ne.
Qed.
Next Obligation. intros f c e err. simpl. by destruct (mask_value c). Qed.

Definition demo_queues : mask_files :=
  {["/sys/class/net/eth1/queues/rx-0/rps_cpus" := "0"; "/sys/class/net/eth1/queues/rx-1/rps_cpus" := "000000ff"]}.

Lemma ensureLinkRPS_witness :
  let pattern := "/sys/class/net/eth1/queues/rx-*/rps_cpus" in
  let '(o, e') := ensureLinkRPSWithCPUCount "eth1" "/sys/class/net" 8 demo_queues in
  o = Ok tt ∧ ∃ files, (os_Glob pattern demo_queues).1 = inr files ∧ files ≠ [] ∧
     (∀ f, f ∈ files → cpumask e' f = Some 255) ∧
     (∀ f, f ∉ files → cpumask e' f = cpumask demo_queues f).
Proof.
  pose proof (ensureLinkRPS_correct "eth1" "/sys/class/net" 8 demo_queues) as H.
  cbv zeta in *. assert ((ensureLinkRPSWithCPUCount "eth1" "/sys/class/net" 8 demo_queues).1 = Ok tt) as Ho.
  { vm_compute. reflexivity. }
  destruct (ensureLinkRPSWithCPUCount "eth1" "/sys/class/net" 8 demo_queues) as [o e'].
  simpl in Ho. subst o. split; [reflexivity|]. apply H. reflexivity.
Defined.
