(* ===== verification/DnsConfig.v ===== *)
(** The resolver configuration that is returned to the runtime
    ([cmd/cnivpc/dnsconfig.go]).

    A file is the string of its bytes, or the error of [os.Open].  [int] is 64
    bits wide; [dtoi] stays below [big]. *)
From S2P Require Export Prelude GoNet.
From Stdlib Require Import Ascii.

(** ** Definitions *)

Definition defaultNS : list string := ["127.0.0.1"; "::1"].
Definition big : Z := 16777215.

Record DnsConfig : Type := mkDnsConfig {
  Servers : list string;
  Search_ : list string;
  Ndots : Z;
  Timeout_ : Z;
  Attempts : Z;
  Rotate : bool;
  UnknownOpt : bool;
  Lookup_ : list string;
  ErrOpen : option error
}.

Definition set_Servers v c := mkDnsConfig v (Search_ c) (Ndots c) (Timeout_ c) (Attempts c) (Rotate c) (UnknownOpt c) (Lookup_ c) (ErrOpen c).
Definition set_Search v c := mkDnsConfig (Servers c) v (Ndots c) (Timeout_ c) (Attempts c) (Rotate c) (UnknownOpt c) (Lookup_ c) (ErrOpen c).
Definition set_Ndots v c := mkDnsConfig (Servers c) (Search_ c) v (Timeout_ c) (Attempts c) (Rotate c) (UnknownOpt c) (Lookup_ c) (ErrOpen c).
Definition set_Timeout v c := mkDnsConfig (Servers c) (Search_ c) (Ndots c) v (Attempts c) (Rotate c) (UnknownOpt c) (Lookup_ c) (ErrOpen c).
Definition set_Attempts v c := mkDnsConfig (Servers c) (Search_ c) (Ndots c) (Timeout_ c) v (Rotate c) (UnknownOpt c) (Lookup_ c) (ErrOpen c).
Definition set_Rotate v c := mkDnsConfig (Servers c) (Search_ c) (Ndots c) (Timeout_ c) (Attempts c) v (UnknownOpt c) (Lookup_ c) (ErrOpen c).
Definition set_UnknownOpt v c := mkDnsConfig (Servers c) (Search_ c) (Ndots c) (Timeout_ c) (Attempts c) (Rotate c) v (Lookup_ c) (ErrOpen c).
Definition set_Lookup v c := mkDnsConfig (Servers c) (Search_ c) (Ndots c) (Timeout_ c) (Attempts c) (Rotate c) (UnknownOpt c) v (ErrOpen c).

(** The loop of [dtoi] on the bytes that are left, [s[i:]]. *)
Fixpoint dtoi_loop (s : string) (n i i0 : Z) : Z * Z * bool :=
  match s with
  | String a s' =>
      if is_digit a then
        let n := n * 10 + (Z.of_N (N_of_ascii a) - 48) in
        if big <=? n then (0, i, false) else dtoi_loop s' n (i + 1) i0
      else if i =? i0 then (0, i, false) else (n, i, true)
  | EmptyString => if i =? i0 then (0, i, false) else (n, i, true)
  end.

Definition dtoi (s : string) (i0 : nat) : Z * Z * bool :=
  dtoi_loop (str_drop i0 s) 0 (Z.of_nat i0) (Z.of_nat i0).

Definition dtoi_at_least_one (s : string) (i0 : nat) : Z :=
  let '(n, _, _) := dtoi s i0 in if n <? 1 then 1 else n.

Definition dns_option (conf : DnsConfig) (s : string) : DnsConfig :=
  if HasPrefix s "ndots:" then set_Ndots (dtoi_at_least_one s 6) conf
  else if HasPrefix s "timeout:" then set_Timeout (dtoi_at_least_one s 8) conf
  else if HasPrefix s "attempts:" then set_Attempts (dtoi_at_least_one s 9) conf
  else if String.eqb s "rotate" then set_Rotate true conf
  else set_UnknownOpt true conf.

(** The body of the scan loop. *)
Definition dns_line (conf : DnsConfig) (line : string) : DnsConfig :=
  if match line with String c _ => Ascii.eqb c ";" || Ascii.eqb c "#" | _ => false end then conf else
  match Fields line with
  | [] => conf
  | f0 :: args =>
      if String.eqb f0 "nameserver" then
        match args with
        | a :: _ =>
            if (length (Servers conf) <? 3)%nat
            then match ParseIP a with
                 | Some _ => set_Servers (Servers conf ++ [a]) conf
                 | None => conf
                 end
            else conf
        | [] => conf
        end
      else if String.eqb f0 "domain" then
        match args with a :: _ => set_Search [a] conf | [] => conf end
      else if String.eqb f0 "search" then set_Search args conf
      else if String.eqb f0 "options" then foldl dns_option conf args
      else if String.eqb f0 "lookup" then set_Lookup args conf
      else set_UnknownOpt true conf
  end.

Definition drop_cr (line : string) : string :=
  if HasSuffix line (String "013" "") then
    String.string_of_list_ascii (take (String.length line - 1) (String.list_ascii_of_string line))
  else line.

(** [bufio.ScanLines]: the lines without their end, no empty line after the last
    newline; a line that does not fit the 64 KiB buffer ends the scan with an
    error, [false]. *)
Definition maxTokenSize : Z := 65536.
Fixpoint scan_lines (l : list string) : list string * bool :=
  match l with
  | [] => ([], true)
  | x :: l' =>
      if maxTokenSize <=? Z.of_nat (String.length x) then ([], false)
      else if match l' with [] => String.eqb x "" | _ => false end then ([], true)
      else let '(ls, ok) := scan_lines l' in (drop_cr x :: ls, ok)
  end.

Definition initial_config : DnsConfig := mkDnsConfig [] [] 1 5 2 false false [] None.
Definition default_servers (c : DnsConfig) : DnsConfig :=
  match Servers c with [] => set_Servers defaultNS c | _ => c end.

Definition dnsReadConfig (file : error + string) : outcome DnsConfig :=
  match file with
  | inl e => Ok (mkDnsConfig defaultNS [] 1 5 2 false false [] (Some e))
  | inr content =>
      let '(lines, ok) := scan_lines (Split content "010"%char) in
      let conf := foldl dns_line initial_config lines in
      if ok then Ok (default_servers conf) else Panic "os.Exit(1)"
  end.

Definition nl : string := String "010" "".
Example dns_ex :
  dnsReadConfig (inr ("# c" +:+ nl +:+ "nameserver 10.0.0.1" +:+ nl +:+ "search a b" +:+ nl
    +:+ "options ndots:5 timeout:x rotate" +:+ nl))
  = Ok (mkDnsConfig ["10.0.0.1"] ["a"; "b"] 5 1 2 true false [] None).
Proof. reflexivity. Qed.
Example dtoi_ex : dtoi "ndots:15x" 6 = (15, 8, true).
Proof. reflexivity. Qed.
Example dtoi_big : dtoi "99999999" 0 = (0, 7, false).
Proof. reflexivity. Qed.

(** The maximal run of digits at the head, and its value. *)
Fixpoint digit_run (s : string) : string :=
  match s with
  | String a s' => if is_digit a then String a (digit_run s') else ""
  | EmptyString => ""
  end.
Definition run_value (acc : Z) (s : string) : Z := default 0 (digits_val s acc).

(** The name servers that a file lists: the arguments of [nameserver] lines that
    are addresses. *)
Definition line_nameserver (line : string) : option string :=
  if match line with String c _ => Ascii.eqb c ";" || Ascii.eqb c "#" | _ => false end then None else
  match Fields line with
  | f0 :: a :: _ =>
      if String.eqb f0 "nameserver" then match ParseIP a with Some _ => Some a | None => None end
      else None
  | _ => None
  end.

Definition in_range (n : Z) : Prop := 1 ≤ n < big.

(** ** Lemmas *)

Lemma is_digit_range a : is_digit a = true → 0 ≤ Z.of_N (N_of_ascii a) - 48 ≤ 9.
Proof. unfold is_digit. intros [H1 H2]%andb_prop. apply N.leb_le in H1, H2. lia. Qed.

Lemma run_value_mono s acc : 0 ≤ acc → acc ≤ run_value acc (digit_run s).
Proof.
  revert acc. induction s as [|a s IH]; intros acc Hacc; cbn [digit_run]; [done|].
  destruct (is_digit a) eqn:Ha; [|done].
  unfold run_value. cbn [digits_val]. rewrite Ha. pose proof (is_digit_range a Ha).
  fold (run_value (acc * 10 + (Z.of_N (N_of_ascii a) - 48)) (digit_run s)).
  specialize (IH (acc * 10 + (Z.of_N (N_of_ascii a) - 48)) ltac:(lia)). lia.
Qed.

Lemma dtoi_loop_spec s n i i0 :
  0 ≤ n < big → i0 ≤ i →
  let '(v, j, ok) := dtoi_loop s n i i0 in
  if ok then digits_val (digit_run s) n = Some v ∧ v < big ∧ 0 ≤ v ∧ (i = i0 → digit_run s ≠ "")
       ∧ j = i + Z.of_nat (String.length (digit_run s))
  else v = 0 ∧ (i = i0 ∧ digit_run s = "" ∨ big ≤ run_value n (digit_run s)).
Proof.
  revert n i. induction s as [|a s IH]; intros n i Hn Hi; cbn [dtoi_loop digit_run].
  - destruct (Z.eqb_spec i i0); [auto|]. split_and!; simpl; try done; lia.
  - destruct (is_digit a) eqn:Ha.
    2:{ destruct (Z.eqb_spec i i0); [auto|]. split_and!; simpl; try done; lia. }
    pose proof (is_digit_range a Ha) as Hr. cbv zeta.
    set (m := n * 10 + (Z.of_N (N_of_ascii a) - 48)) in *.
    assert (∀ t, run_value n (String a t) = run_value m t) as Hrv.
    { intros t. unfold run_value. cbn [digits_val]. by rewrite Ha. }
    destruct (Z.leb_spec big m) as [Hbig|Hsmall].
    + split; [done|]. right. rewrite Hrv. pose proof (run_value_mono s m). lia.
    + specialize (IH m (i + 1) ltac:(lia) ltac:(lia)).
      destruct (dtoi_loop s m (i + 1) i0) as [[v j] ok]. destruct ok.
      * destruct IH as (H1 & H2 & H3 & _ & H4). cbn [digits_val String.length]. rewrite Ha.
        split_and!; try done. lia.
      * destruct IH as [-> [[? _]|H1]]; [lia|]. rewrite Hrv. auto.
Qed.

Lemma dtoi_range s i0 : in_range (dtoi_at_least_one s i0).
Proof.
  unfold dtoi_at_least_one, dtoi, in_range.
  pose proof (dtoi_loop_spec (str_drop i0 s) 0 (Z.of_nat i0) (Z.of_nat i0)) as H.
  unfold big in *. destruct (dtoi_loop _ _ _ _) as [[v j] ok]. specialize (H ltac:(lia) ltac:(lia)).
  destruct (Z.ltb_spec v 1); [lia|]. destruct ok; lia.
Qed.

Definition numbers_ok (c : DnsConfig) : Prop :=
  in_range (Ndots c) ∧ in_range (Timeout_ c) ∧ in_range (Attempts c).

Lemma dns_options_spec c l :
  numbers_ok c → numbers_ok (foldl dns_option c l) ∧
  Servers (foldl dns_option c l) = Servers c ∧ ErrOpen (foldl dns_option c l) = ErrOpen c.
Proof.
  revert c. induction l as [|s l IH]; intros c Hc; [done|]. cbn [foldl].
  assert (numbers_ok (dns_option c s) ∧ Servers (dns_option c s) = Servers c ∧ ErrOpen (dns_option c s) = ErrOpen c)
    as (H1 & H2 & H3).
  { unfold dns_option. destruct Hc as (? & ? & ?).
    repeat case_match; (split; [|done]); repeat split; simpl; try apply dtoi_range; auto;
      unfold in_range in *; lia. }
  destruct (IH _ H1) as (? & -> & ->). done.
Qed.

(** One line: the numbers stay in range, a listed server is appended while there
    are fewer than three. *)
Lemma dns_line_spec c line :
  numbers_ok c →
  numbers_ok (dns_line c line) ∧ ErrOpen (dns_line c line) = ErrOpen c ∧
  Servers (dns_line c line) =
    match line_nameserver line with
    | Some a => if (length (Servers c) <? 3)%nat then Servers c ++ [a] else Servers c
    | None => Servers c
    end.
Proof.
  intros Hc. unfold dns_line, line_nameserver.
  destruct (match line with String c0 _ => _ | _ => _ end); [done|].
  destruct (Fields line) as [|f0 args]; [done|].
  destruct (String.eqb_spec f0 "nameserver") as [->|Hne].
  { destruct args as [|a args]; [done|]. rewrite ?String.eqb_refl; destruct (ParseIP a), (length (Servers c) <? 3)%nat; done. }
  destruct args as [|a args];
    repeat match goal with |- context [if String.eqb ?a ?b then _ else _] => destruct (String.eqb a b) end;
    try done; by destruct (dns_options_spec c (a :: args) Hc) as (? & ? & ?).
Qed.

Lemma dns_lines_spec lines c :
  numbers_ok c → (length (Servers c) ≤ 3)%nat →
  let c' := foldl dns_line c lines in
  numbers_ok c' ∧ ErrOpen c' = ErrOpen c ∧ Servers c' = take 3 (Servers c ++ omap line_nameserver lines).
Proof.
  cbv zeta. revert c. induction lines as [|line lines IH]; intros c Hc Hlen; cbn [foldl omap list_omap].
  - rewrite app_nil_r, take_ge by lia. done.
  - destruct (dns_line_spec c line Hc) as (H1 & H2 & H3).
    assert (length (Servers (dns_line c line)) ≤ 3)%nat as Hlen'.
    { rewrite H3. destruct (line_nameserver line); [|done].
      destruct (Nat.ltb_spec (length (Servers c)) 3); [|done]. rewrite length_app. simpl. lia. }
    destruct (IH _ H1 Hlen') as (H4 & H5 & H6). split_and!; [done|by rewrite H5|].
    rewrite H6, H3. destruct (line_nameserver line) as [a|]; [|done].
    destruct (Nat.ltb_spec (length (Servers c)) 3); [by rewrite <- app_assoc|].
    rewrite !take_app_le by lia. done.
Qed.

Lemma nameservers_valid (lines : list string) a : a ∈ omap line_nameserver lines → is_Some (ParseIP a).
Proof.
  intros (line & _ & Hl)%list_elem_of_omap. unfold line_nameserver in Hl.
  repeat case_match; simplify_eq; eauto.
Qed.

(** ** Properties *)

(** [dtoi] *)
Theorem dtoi_correct s i0 :
  let ds := digit_run (str_drop i0 s) in
  let '(n, i, ok) := dtoi s i0 in
  0 ≤ n < big ∧
  (ok = true ↔ ds ≠ "" ∧ run_value 0 ds < big) ∧
  (ok = true → n = run_value 0 ds ∧ i = Z.of_nat i0 + Z.of_nat (String.length ds)) ∧
  (ok = false → n = 0).
Proof.
  cbv zeta. unfold dtoi. pose proof (dtoi_loop_spec (str_drop i0 s) 0 (Z.of_nat i0) (Z.of_nat i0)) as H.
  destruct (dtoi_loop _ _ _ _) as [[n i] ok]. specialize (H ltac:(unfold big; lia) ltac:(lia)).
  destruct ok.
  - destruct H as (Hv & Hlt & Hge & Hne & ->).
    assert (run_value 0 (digit_run (str_drop i0 s)) = n) as Hrv by (unfold run_value; by rewrite Hv).
    rewrite Hrv. split_and!; try done. by split; auto.
  - destruct H as [-> Hor]. split_and!; try done. split; [done|].
    intros [Hne Hlt]. destruct Hor as [[_ ?]|?]; [done|lia].
Qed.

(** The reader of resolv.conf returns one to three servers, all of them addresses:
    the first three of the file or the defaults, the defaults with the error when it
    cannot be opened; all numbers are within their bounds, and it stops the process
    exactly when a line does not fit the buffer. *)
Theorem dnsReadConfig_correct file :
  match dnsReadConfig file with
  | Ok c =>
      numbers_ok c ∧ Servers c ≠ [] ∧ (length (Servers c) ≤ 3)%nat ∧
      (∀ a, a ∈ Servers c → is_Some (ParseIP a)) ∧
      (∀ content lines, file = inr content → scan_lines (Split content "010"%char) = (lines, true) →
         ErrOpen c = None ∧
         Servers c = match omap line_nameserver lines with [] => defaultNS | l => take 3 l end) ∧
      (∀ e, file = inl e → ErrOpen c = Some e ∧ Servers c = defaultNS)
  | Panic _ => ∃ content lines, file = inr content ∧ scan_lines (Split content "010"%char) = (lines, false)
  | _ => False
  end.
Proof.
  assert (numbers_ok initial_config) as Hinit by (unfold numbers_ok, in_range, big; simpl; lia).
  assert (∀ a, a ∈ defaultNS → is_Some (ParseIP a)) as Hdef.
  { apply Forall_forall. unfold defaultNS. repeat constructor; vm_compute; eauto. }
  destruct file as [e|content]; simpl.
  { split_and!; try done; [simpl; lia|]. intros e' [= ->]. done. }
  destruct (scan_lines _) as [lines ok] eqn:Hscan. destruct ok; [|by eauto].
  pose proof (dns_lines_spec lines initial_config Hinit ltac:(simpl; lia)) as (H1 & H2 & H3).
  cbn [Servers initial_config app] in H3. set (c := foldl dns_line initial_config lines) in *.
  pose proof (nameservers_valid lines) as Hval.
  assert (Servers (default_servers c) = match omap line_nameserver lines with [] => defaultNS | l => take 3 l end
    ∧ numbers_ok (default_servers c) ∧ ErrOpen (default_servers c) = None) as (HS & HN & HE).
  { unfold default_servers. rewrite H3. destruct (omap line_nameserver lines) as [|a l]; [done|].
    cbn [take]. by rewrite H3. }
  split_and!; try done.
  - rewrite HS. by destruct (omap line_nameserver lines).
  - rewrite HS. destruct (omap line_nameserver lines); [simpl; lia|]. rewrite length_take. lia.
  - intros a. rewrite HS. destruct (omap line_nameserver lines) as [|b l] eqn:Hl; [apply Hdef|].
    intros Ha. apply Hval. rewrite <- (take_drop 3 (b :: l)). apply elem_of_app. by left.
  - intros content' lines' [= <-]. rewrite Hscan. by intros [= <-].
Qed.
