(* ===== verification/Chain.v ===== *)
(** An iptables chain with the rules that point to it ([pkg/portmap/chain.go]).

    [IptApi] is iptables as the program drives it, through go-iptables and the
    CNI plugins' utilities; the flag selects ip6tables.  [IptLaws] states what
    these tools promise on the rule set; a rule is kept there in the form in
    which iptables prints it, [canon]. *)
From S2P Require Export Cloud.
From Stdlib Require Import Ascii.

(** ** Definitions *)

Abbreviation Rule := (list string).

Class IptApi (T : Type) : Type := {
  ipt_New : bool → Call T unit;
  ipt_List : bool → string → string → Call T (list string);
  ipt_Exists : bool → string → string → Rule → Call T bool;
  ipt_Insert1 : bool → string → string → Rule → Call T unit;      (* at position 1 *)
  ipt_Append : bool → string → string → Rule → Call T unit;
  utils_EnsureChain : bool → string → string → Call T unit;
  utils_ClearChain : bool → string → string → Call T unit;
  utils_DeleteChain : bool → string → string → Call T unit;
  utils_DeleteRule : bool → string → string → Rule → Call T unit;
  utils_ChainExists : bool → string → string → Call T bool;
  shellwords_Parse : string → error + list string;
  MustFormatChainNameWithPrefix : string → string → string → string
}.

Record chain : Type := mkChain {
  ch_table : string;
  ch_name : string;
  ch_entryChains : list string;
  ch_entryRules : list Rule;
  ch_rules : list Rule;
  ch_prependEntry : bool
}.

Section ops.
Context {T : Type} `{!IptApi T}.

Definition insertUnique (ipt : bool) (table chain : string) (prepend : bool) (rule : Rule) : M T unit :=
  exists_ ← call (ipt_Exists ipt table chain rule);
  if exists_ : bool then mret tt
  else if prepend then call (ipt_Insert1 ipt table chain rule)
  else call (ipt_Append ipt table chain rule).

Definition entry_rule (c : chain) (rule : Rule) : Rule := rule ++ ["-j"; ch_name c].

Definition setup (c : chain) (ipt : bool) : M T unit :=
  call (utils_EnsureChain ipt (ch_table c) (ch_name c));;
  for_range (ch_rules c) (λ rule, insertUnique ipt (ch_table c) (ch_name c) false rule);;
  for_range (ch_entryChains c) (λ entryChain,
    for_range (ch_entryRules c) (λ rule,
      insertUnique ipt (ch_table c) entryChain (ch_prependEntry c) (entry_rule c rule))).

(** The body of the loop over the listed rules of an entry chain. *)
Definition teardown_rule (c : chain) (ipt : bool) (entryChain entryChainRule : string) : M T unit :=
  if HasSuffix entryChainRule ("-j " +:+ ch_name c) then
    match shellwords_Parse entryChainRule with
    | inl _ => throw (Errorf "error parsing iptables rule")
    | inr (_ :: _ :: chainParts) => call (utils_DeleteRule ipt (ch_table c) entryChain chainParts)
    | inr _ => panic "slice bounds out of range"
    end
  else mret tt.

Definition teardown_entry (c : chain) (ipt : bool) (entryChain : string) : M T unit :=
  r ← attempt (call (ipt_List ipt (ch_table c) entryChain));
  match r with
  | inl _ | inr [] => mret tt
  | inr (_ :: entryChainRules) => for_range entryChainRules (teardown_rule c ipt entryChain)
  end.

Definition teardown (c : chain) (ipt : bool) : M T unit :=
  call (utils_ClearChain ipt (ch_table c) (ch_name c));;
  for_range (ch_entryChains c) (teardown_entry c ipt);;
  call (utils_DeleteChain ipt (ch_table c) (ch_name c)).

Definition checkRule (ipt : bool) (table chain : string) (rule : Rule) : M T bool :=
  r ← attempt (call (ipt_Exists ipt table chain rule));
  match r with inl _ => mret false | inr b => mret b end.

Definition check (c : chain) (ipt : bool) : M T unit :=
  exists_ ← call (utils_ChainExists ipt (ch_table c) (ch_name c));
  if negb exists_ then throw (Errorf "chain not found in iptables table") else
  for_range (reverse (ch_rules c)) (λ rule,
    m ← checkRule ipt (ch_table c) (ch_name c) rule;
    if negb m then throw (Errorf "rule in chain not found in table") else mret tt);;
  for_range (ch_entryChains c) (λ entryChain,
    for_range (reverse (ch_entryRules c)) (λ rule,
      m ← checkRule ipt (ch_table c) entryChain (entry_rule c rule);
      if negb m then throw (Errorf "rule in chain not found in table") else mret tt)).
End ops.

(** ** The rule set *)

(** Keys: the family, the table and the chain. *)
Abbreviation Tables := (gmap (bool * string * string) (list Rule)).

Fixpoint remove1 (r : Rule) (l : list Rule) : list Rule :=
  match l with
  | [] => []
  | x :: l' => if bool_decide (x = r) then l' else x :: remove1 r l'
  end.

(** A name that needs no quoting. *)
Definition plain_name (n : string) : bool := negb (str_elem " "%char n) && negb (str_elem "\"%char n).

Class IptLaws (T : Type) `{!IptApi T} : Type := {
  tables : T → Tables;
  canon : Rule → Rule;
  rule_text : string → Rule → string;
  canon_idemp r : canon (canon r) = canon r;
  canon_target r n : ∃ r', canon (r ++ ["-j"; n]) = r' ++ ["-j"; n];
  rule_text_target ch r n :
    plain_name n = true → HasSuffix (rule_text ch (r ++ ["-j"; n])) ("-j " +:+ n) = true;
  rule_text_parse ch r :
    canon r = r → shellwords_Parse (rule_text ch r) = inr (["-A"; ch] ++ r);
  tables_canon t k rs r : tables t !! k = Some rs → r ∈ rs → canon r = r;
  FormatChainName_prefix a b p : HasPrefix (MustFormatChainNameWithPrefix a b p) ("CNI-" +:+ p) = true;
  FormatChainName_plain a b p : plain_name p = true → plain_name (MustFormatChainNameWithPrefix a b p) = true;
  ipt_New_law v t : tables (ipt_New v t).2 = tables t;
  ipt_List_keeps v tb ch t : tables (ipt_List v tb ch t).2 = tables t;
  ipt_List_law v tb ch t l :
    (ipt_List v tb ch t).1 = inr l →
    ∃ rs head, tables t !! (v, tb, ch) = Some rs ∧ l = head :: (rule_text ch <$> rs);
  ipt_Exists_keeps v tb ch r t : tables (ipt_Exists v tb ch r t).2 = tables t;
  ipt_Exists_law v tb ch r t b :
    (ipt_Exists v tb ch r t).1 = inr b →
    b = bool_decide (canon r ∈ default [] (tables t !! (v, tb, ch)));
  ipt_Insert1_law v tb ch r t :
    (∃ e, (ipt_Insert1 v tb ch r t).1 = inl e ∧ tables (ipt_Insert1 v tb ch r t).2 = tables t) ∨
    (∃ rs, (ipt_Insert1 v tb ch r t).1 = inr tt ∧ tables t !! (v, tb, ch) = Some rs ∧
       tables (ipt_Insert1 v tb ch r t).2 = <[(v, tb, ch) := canon r :: rs]> (tables t));
  ipt_Append_law v tb ch r t :
    (∃ e, (ipt_Append v tb ch r t).1 = inl e ∧ tables (ipt_Append v tb ch r t).2 = tables t) ∨
    (∃ rs, (ipt_Append v tb ch r t).1 = inr tt ∧ tables t !! (v, tb, ch) = Some rs ∧
       tables (ipt_Append v tb ch r t).2 = <[(v, tb, ch) := rs ++ [canon r]]> (tables t));
  utils_EnsureChain_law v tb ch t :
    (∃ e, (utils_EnsureChain v tb ch t).1 = inl e ∧ tables (utils_EnsureChain v tb ch t).2 = tables t) ∨
    ((utils_EnsureChain v tb ch t).1 = inr tt ∧
       tables (utils_EnsureChain v tb ch t).2 =
         <[(v, tb, ch) := default [] (tables t !! (v, tb, ch))]> (tables t));
  utils_ClearChain_law v tb ch t :
    (∃ e, (utils_ClearChain v tb ch t).1 = inl e ∧ tables (utils_ClearChain v tb ch t).2 = tables t) ∨
    ((utils_ClearChain v tb ch t).1 = inr tt ∧
       tables (utils_ClearChain v tb ch t).2 = <[(v, tb, ch) := []]> (tables t));
  utils_DeleteRule_law v tb ch r t :
    (∃ e, (utils_DeleteRule v tb ch r t).1 = inl e ∧ tables (utils_DeleteRule v tb ch r t).2 = tables t) ∨
    ((utils_DeleteRule v tb ch r t).1 = inr tt ∧
       tables (utils_DeleteRule v tb ch r t).2 = alter (remove1 (canon r)) (v, tb, ch) (tables t));
  (* a chain that is referred to cannot be deleted *)
  utils_DeleteChain_law v tb ch t :
    (∃ e, (utils_DeleteChain v tb ch t).1 = inl e ∧ tables (utils_DeleteChain v tb ch t).2 = tables t) ∨
    ((utils_DeleteChain v tb ch t).1 = inr tt ∧
       (∀ c rs r, is_Some (tables t !! (v, tb, ch)) → tables t !! (v, tb, c) = Some rs → r ++ ["-j"; ch] ∉ rs) ∧
       tables (utils_DeleteChain v tb ch t).2 = delete (v, tb, ch) (tables t));
  utils_ChainExists_keeps v tb ch t : tables (utils_ChainExists v tb ch t).2 = tables t;
  utils_ChainExists_law v tb ch t b :
    (utils_ChainExists v tb ch t).1 = inr b → b = bool_decide (is_Some (tables t !! (v, tb, ch)))
}.

(** ** What setting up and tearing down mean on the rule set *)

Section spec.
Context {T : Type} `{!IptApi T, !IptLaws T}.

Definition add_unique (prepend : bool) (k : bool * string * string) (r : Rule) (v : Tables) : Tables :=
  match v !! k with
  | Some rs =>
      if bool_decide (canon r ∈ rs) then v
      else <[k := if prepend then canon r :: rs else rs ++ [canon r]]> v
  | None => v
  end.

(** The rules that a chain wants, in the order in which they are added, each with
    the chain it goes to. *)
Definition wanted (c : chain) (ipt : bool) : list (bool * (bool * string * string) * Rule) :=
  ((λ r, (false, (ipt, ch_table c, ch_name c), r)) <$> ch_rules c) ++
  (ec ← ch_entryChains c; (λ r, (ch_prependEntry c, (ipt, ch_table c, ec), entry_rule c r)) <$> ch_entryRules c).

Definition add_wanted (v : Tables) (w : bool * (bool * string * string) * Rule) : Tables :=
  add_unique w.1.1 w.1.2 w.2 v.

Definition ensure (k : bool * string * string) (v : Tables) : Tables := <[k := default [] (v !! k)]> v.

Definition setup_view (c : chain) (ipt : bool) (v : Tables) : Tables :=
  foldl add_wanted (ensure (ipt, ch_table c, ch_name c) v) (wanted c ipt).

(** The rule is in its chain. *)
Definition present (v : Tables) (w : bool * (bool * string * string) * Rule) : Prop :=
  ∃ rs, v !! w.1.2 = Some rs ∧ canon w.2 ∈ rs.

(** Nothing that was there is lost or reordered. *)
Definition extends (v v' : Tables) : Prop :=
  ∀ k rs, v !! k = Some rs → ∃ rs', v' !! k = Some rs' ∧ rs `sublist_of` rs'.

#[global] Instance extends_preorder : PreOrder extends.
Proof.
  split.
  - intros v k rs Hk. eauto.
  - intros u v w Huv Hvw k rs Hk. destruct (Huv _ _ Hk) as (rs1 & Hk1 & Hs1).
    destruct (Hvw _ _ Hk1) as (rs2 & Hk2 & Hs2). exists rs2. split; [done|]. by transitivity rs1.
Qed.

Lemma extends_insert v k rs rs' :
  v !! k = Some rs → rs `sublist_of` rs' → extends v (<[k := rs']> v).
Proof.
  intros Hk Hs k' l Hl. destruct (decide (k' = k)) as [->|Hne].
  - rewrite lookup_insert_eq. simplify_eq. eauto.
  - rewrite lookup_insert_ne by done. eauto.
Qed.

Lemma extends_ensure k v : extends v (ensure k v).
Proof.
  intros k' l Hl. unfold ensure. destruct (decide (k' = k)) as [->|Hne].
  - rewrite lookup_insert_eq, Hl. eauto.
  - rewrite lookup_insert_ne by done. eauto.
Qed.

Lemma add_unique_extends p k r v : extends v (add_unique p k r v).
Proof.
  unfold add_unique. destruct (v !! k) as [rs|] eqn:Hk; [|done].
  case_bool_decide; [done|]. apply (extends_insert _ _ rs); [done|].
  destruct p; [by apply sublist_cons|by apply sublist_inserts_r].
Qed.

Lemma add_unique_present p k r v :
  is_Some (v !! k) → present (add_unique p k r v) (p, k, r).
Proof.
  intros [rs Hk]. unfold add_unique, present. rewrite Hk. simpl.
  case_bool_decide; [by eauto|]. rewrite lookup_insert_eq. eexists. split; [done|].
  destruct p; [apply list_elem_of_here|]. apply elem_of_app. right. by apply list_elem_of_singleton.
Qed.

Lemma add_unique_noop p k r v : present v (p, k, r) → add_unique p k r v = v.
Proof.
  intros (rs & Hk & Hr). simpl in *. unfold add_unique. rewrite Hk. by rewrite bool_decide_eq_true_2.
Qed.

Lemma present_extends v v' w : extends v v' → present v w → present v' w.
Proof.
  intros Hv (rs & Hk & Hr). destruct (Hv _ _ Hk) as (rs' & Hk' & Hs). exists rs'. split; [done|].
  by eapply sublist_subseteq, Hr.
Qed.

Lemma add_wanted_extends l v : extends v (foldl add_wanted v l).
Proof.
  revert v. induction l as [|w l IH]; intros v; [done|]. cbn [foldl].
  transitivity (add_wanted v w); [apply add_unique_extends|apply IH].
Qed.

Lemma add_wanted_noop l v : Forall (present v) l → foldl add_wanted v l = v.
Proof.
  induction 1 as [|[[p k] r] l Hw Hl IH]; [done|]. cbn [foldl]. unfold add_wanted at 2.
  by rewrite add_unique_noop.
Qed.

Lemma ensure_noop k v : is_Some (v !! k) → ensure k v = v.
Proof. intros [rs Hk]. unfold ensure. rewrite Hk. by apply insert_id. Qed.

(** *** insertUnique and setup *)

Lemma insertUnique_spec ipt tb ch p r t :
  wp (insertUnique ipt tb ch p r) (λ o t', returns o = true ∧
    match o with
    | Ok _ => tables t' = add_unique p (ipt, tb, ch) r (tables t) ∧
              present (tables t') (p, (ipt, tb, ch), r)
    | _ => tables t' = tables t
    end) t.
Proof.
  unfold insertUnique. wp_step. apply wp_call.
  2:{ intros err t' Hc. cbn [kont]. pose proof (ipt_Exists_keeps ipt tb ch r t) as Hk. by rewrite Hc in Hk. }
  intros b t' Hc. cbn [kont].
  pose proof (ipt_Exists_keeps ipt tb ch r t) as Hk. rewrite Hc in Hk. simpl in Hk.
  pose proof (ipt_Exists_law ipt tb ch r t b) as Hb. rewrite Hc in Hb. specialize (Hb eq_refl).
  destruct b.
  - wp_step. split; [done|]. symmetry in Hb. apply bool_decide_eq_true_1 in Hb.
    destruct (tables t !! (ipt, tb, ch)) as [rs|] eqn:Hrs; [|by apply elem_of_nil in Hb].
    assert (present (tables t) (p, (ipt, tb, ch), r)) by (by exists rs).
    rewrite Hk. split; [|done]. by rewrite add_unique_noop.
  - symmetry in Hb. apply bool_decide_eq_false_1 in Hb. rewrite <- Hk in Hb |- *.
    assert (∀ rs, tables t' !! (ipt, tb, ch) = Some rs → canon r ∉ rs) as Hn.
    { intros rs Hrs. by rewrite Hrs in Hb. }
    assert (∀ rs t1, tables t' !! (ipt, tb, ch) = Some rs →
      tables t1 = <[(ipt, tb, ch) := if p then canon r :: rs else rs ++ [canon r]]> (tables t') →
      tables t1 = add_unique p (ipt, tb, ch) r (tables t') ∧ present (tables t1) (p, (ipt, tb, ch), r)) as Hdone.
    { intros rs t1 Hrs Ht1.
      assert (tables t1 = add_unique p (ipt, tb, ch) r (tables t')) as Ha.
      { unfold add_unique. rewrite Hrs, bool_decide_eq_false_2; auto. }
      split; [done|]. rewrite Ha. by apply add_unique_present. }
    destruct p; apply wp_call; intros a t1 Hc1.
    + pose proof (ipt_Insert1_law ipt tb ch r t') as [(e & He & _)|(rs & _ & Hrs & Ht)];
        rewrite Hc1 in *; [done|]. split; [done|]. by eapply Hdone.
    + pose proof (ipt_Insert1_law ipt tb ch r t') as [(e & He & Ht)|(rs & He & _)];
        rewrite Hc1 in *; [|done]. done.
    + pose proof (ipt_Append_law ipt tb ch r t') as [(e & He & _)|(rs & _ & Hrs & Ht)];
        rewrite Hc1 in *; [done|]. split; [done|]. by eapply Hdone.
    + pose proof (ipt_Append_law ipt tb ch r t') as [(e & He & Ht)|(rs & He & _)];
        rewrite Hc1 in *; [|done]. done.
Qed.

(** A loop of insertions is the fold of [add_wanted]. *)
Lemma insert_loop_spec {A} (l : list A) (body : A → M T unit)
    (ws : A → list (bool * (bool * string * string) * Rule)) t :
  (∀ x t, wp (body x) (λ o t', returns o = true ∧ extends (tables t) (tables t') ∧
     (o = Ok tt → tables t' = foldl add_wanted (tables t) (ws x) ∧ Forall (present (tables t')) (ws x))) t) →
  wp (for_range l body) (λ o t', returns o = true ∧ extends (tables t) (tables t') ∧
     (o = Ok tt → tables t' = foldl add_wanted (tables t) (l ≫= ws) ∧
        Forall (present (tables t')) (l ≫= ws))) t.
Proof.
  intros Hbody. revert t. induction l as [|x l IH]; intros t; cbn [for_range].
  - wp_step. by split_and!.
  - wp_step. wp_use Hbody as (Hr & He & Hok). destruct o as [[]|err| |]; try done.
    cbn [kont]. destruct (Hok eq_refl) as [Ht Hp]. eapply wp_mono; [apply IH|].
    intros o t2 (Hr2 & He2 & Hok2). split_and!; [done|by etrans|].
    intros ->. destruct (Hok2 eq_refl) as [Ht2 Hp2].
    change ((x :: l) ≫= ws) with (ws x ++ (l ≫= ws)). rewrite foldl_app, <- Ht. split; [done|].
    apply Forall_app. split; [|done]. eapply Forall_impl; [exact Hp|]. intros w. by apply present_extends.
Qed.

Lemma insert_one_spec ipt tb ch p r t :
  wp (insertUnique ipt tb ch p r) (λ o t', returns o = true ∧ extends (tables t) (tables t') ∧
     (o = Ok tt → tables t' = foldl add_wanted (tables t) [(p, (ipt, tb, ch), r)] ∧
        Forall (present (tables t')) [(p, (ipt, tb, ch), r)])) t.
Proof.
  wp_use insertUnique_spec as (Hr & Ho). split; [done|]. destruct o as [[]|err| |]; try done.
  - destruct Ho as [Ht Hp]. split.
    + rewrite Ht. apply add_unique_extends.
    + intros _. split; [exact Ht|]. by repeat constructor.
  - rewrite Ho. by split.
Qed.

Lemma setup_spec c ipt t :
  wp (setup c ipt) (λ o t', returns o = true ∧ extends (tables t) (tables t') ∧
    (o = Ok tt → tables t' = setup_view c ipt (tables t) ∧
       Forall (present (tables t')) (wanted c ipt) ∧
       is_Some (tables t' !! (ipt, ch_table c, ch_name c)))) t.
Proof.
  unfold setup. wp_step. apply wp_call; intros a t1 Hc.
  2:{ cbn [kont]. pose proof (utils_EnsureChain_law ipt (ch_table c) (ch_name c) t) as [(e & _ & Ht)|(He & _)];
      rewrite Hc in *; [|done]. simpl in Ht. rewrite Ht. by split_and!. }
  cbn [kont]. pose proof (utils_EnsureChain_law ipt (ch_table c) (ch_name c) t) as [(e & He & _)|(_ & Ht1)];
    rewrite Hc in *; [done|]. simpl in Ht1. fold (ensure (ipt, ch_table c, ch_name c) (tables t)) in Ht1.
  pose proof (extends_ensure (ipt, ch_table c, ch_name c) (tables t)) as He1. rewrite <- Ht1 in He1.
  assert (is_Some (tables t1 !! (ipt, ch_table c, ch_name c))) as Hsome.
  { rewrite Ht1. unfold ensure. rewrite lookup_insert_eq. eauto. }
  wp_step. eapply wp_mono.
  { apply (insert_loop_spec (ch_rules c) _ (λ r, [(false, (ipt, ch_table c, ch_name c), r)])).
    intros r t'. apply insert_one_spec. }
  intros o t2 (Hr2 & He2 & Hok2). destruct o as [[]|err| |]; try done; cbn [kont].
  2:{ split_and!; try done. by etrans. }
  destruct (Hok2 eq_refl) as [Ht2 Hp2].
  eapply wp_mono.
  { apply (insert_loop_spec (ch_entryChains c) _
      (λ ec, ch_entryRules c ≫= λ r, [(ch_prependEntry c, (ipt, ch_table c, ec), entry_rule c r)])).
    intros ec t'. apply (insert_loop_spec (ch_entryRules c) _
      (λ r, [(ch_prependEntry c, (ipt, ch_table c, ec), entry_rule c r)])).
    intros r t''. apply insert_one_spec. }
  intros o t3 (Hr3 & He3 & Hok3).
  assert (extends (tables t) (tables t3)) as He by (etrans; [exact He1|]; by etrans).
  split_and!; [done|done|]. intros ->. destruct (Hok3 eq_refl) as [Ht3 Hp3].
  assert (∀ A B (f : A → B) l, (l ≫= λ x, [f x]) = f <$> l) as Hsingle.
  { clear. intros A B f l. induction l as [|x l IH]; [done|].
    change ((x :: l) ≫= (λ x, [f x])) with (f x :: (l ≫= λ x, [f x])). by rewrite IH, fmap_cons. }
  assert (wanted c ipt = (ch_rules c ≫= λ r, [(false, (ipt, ch_table c, ch_name c), r)]) ++
    (ch_entryChains c ≫= λ ec, ch_entryRules c ≫= λ r, [(ch_prependEntry c, (ipt, ch_table c, ec), entry_rule c r)]))
    as Hw.
  { unfold wanted. rewrite Hsingle. f_equal. }
  split_and!.
  - unfold setup_view. rewrite Hw, foldl_app, <- Ht1, <- Ht2. done.
  - rewrite Hw. apply Forall_app. split; [|done]. eapply Forall_impl; [exact Hp2|].
    intros w. by apply present_extends.
  - destruct Hsome as [rs Hrs]. assert (extends (tables t1) (tables t3)) as He13 by (by etrans).
    destruct (He13 _ _ Hrs) as (rs' & -> & _). eauto.
Qed.

(** *** teardown *)

(** The text of the rule ends in the jump to [n]. *)
Definition text_jumps (ch n : string) (r : Rule) : bool := HasSuffix (rule_text ch r) ("-j " +:+ n).

Lemma remove1_skip pre r l : r ∉ pre → remove1 r (pre ++ r :: l) = pre ++ l.
Proof.
  induction pre as [|x pre IH]; intros Hr; simpl.
  - by rewrite bool_decide_eq_true_2.
  - rewrite not_elem_of_cons in Hr. destruct Hr as [Hx Hr].
    rewrite bool_decide_eq_false_2 by done. by rewrite IH.
Qed.

(** What a table becomes when some rules of an entry chain were deleted. *)
Definition less_rules (k : bool * string * string) (v v' : Tables) : Prop :=
  ∀ k', v' !! k' = v !! k' ∨ k' = k ∧ ∃ rs rs', v !! k = Some rs ∧ v' !! k = Some rs' ∧ rs' `sublist_of` rs.

Lemma less_rules_refl k v : less_rules k v v.
Proof. by left. Qed.

(** The loop over the listing, from the middle: the rules of [pre] were kept. *)
Lemma teardown_rules_spec c ipt ec pre rest t :
  let k := (ipt, ch_table c, ec) in
  tables t !! k = Some (pre ++ rest) →
  Forall (λ r, text_jumps ec (ch_name c) r = false) pre →
  wp (for_range (rule_text ec <$> rest) (teardown_rule c ipt ec)) (λ o t', returns o = true ∧
    (∀ k', k' ≠ k → tables t' !! k' = tables t !! k') ∧ is_Some (tables t' !! k) ∧
    (o = Ok tt → tables t' !! k =
       Some (pre ++ filter (λ r, text_jumps ec (ch_name c) r = false) rest))) t.
Proof.
  cbv zeta. revert pre t. induction rest as [|r rest IH]; intros pre t Hk Hpre.
  { change (for_range _ _) with (mret tt : M T unit). wp_step. split_and!; eauto. }
  rewrite fmap_cons. cbn [for_range]. wp_step. unfold teardown_rule at 1.
  assert (canon r = r) as Hcanon.
  { eapply tables_canon; [exact Hk|]. apply elem_of_app. right. apply list_elem_of_here. }
  fold (text_jumps ec (ch_name c) r). destruct (text_jumps ec (ch_name c) r) eqn:Hj.
  - rewrite rule_text_parse by done. cbn [app]. apply wp_call; intros a t1 Hc.
    + pose proof (utils_DeleteRule_law ipt (ch_table c) ec r t) as [(e & He & _)|(_ & Ht)];
        rewrite Hc in *; [done|]. simpl in Ht. cbn [kont].
      assert (r ∉ pre) as Hr. { intros Hin. rewrite Forall_forall in Hpre. by rewrite Hpre in Hj. }
      assert (tables t1 !! (ipt, ch_table c, ec) = Some (pre ++ rest)) as Hk1.
      { rewrite Ht, lookup_alter_eq, Hk, Hcanon. simpl. by rewrite remove1_skip. }
      eapply wp_mono; [by apply IH|]. intros o t2 (Hr2 & Hoth & Hsome & Hok).
      split_and!; [done| |done|].
      * intros k' Hne. rewrite Hoth by done. by rewrite Ht, lookup_alter_ne.
      * intros ->. rewrite Hok by done. rewrite filter_cons, decide_False by congruence. done.
    + pose proof (utils_DeleteRule_law ipt (ch_table c) ec r t) as [(e & _ & Ht)|(He & _)];
        rewrite Hc in *; [|done]. simpl in Ht. cbn [kont]. rewrite Ht, Hk. by split_and!.
  - wp_step. wp_step.
    assert (tables t !! (ipt, ch_table c, ec) = Some ((pre ++ [r]) ++ rest)) as Hk1 by by rewrite <- app_assoc.
    eapply wp_mono; [apply IH; [exact Hk1|]|].
    { apply Forall_app. split; [done|]. by repeat constructor. }
    intros o t2 (Hr2 & Hoth & Hsome & Hok). split_and!; [done..|].
    intros ->. rewrite Hok by done. rewrite filter_cons, decide_True by done. by rewrite <- app_assoc.
Qed.

Definition keep_rules (ec n : string) (rs : list Rule) : list Rule :=
  filter (λ r, text_jumps ec n r = false) rs.

(** Nothing at all happened, or the jumps to the chain were deleted from [ec]. *)
Definition cleaned (c : chain) (ipt : bool) (ecs : list string) (v v' : Tables) : Prop :=
  ∀ k, v' !! k = v !! k ∨
    ∃ ec, ec ∈ ecs ∧ k = (ipt, ch_table c, ec) ∧ v' !! k = keep_rules ec (ch_name c) <$> v !! k.

Lemma teardown_entry_spec c ipt ec t :
  wp (teardown_entry c ipt ec) (λ o t', returns o = true ∧
    (∀ k', k' ≠ (ipt, ch_table c, ec) → tables t' !! k' = tables t !! k') ∧
    (o = Ok tt → cleaned c ipt [ec] (tables t) (tables t'))) t.
Proof.
  unfold teardown_entry. wp_step. wp_step. apply wp_call; intros a t1 Hc;
    pose proof (ipt_List_keeps ipt (ch_table c) ec t) as Hk; rewrite Hc in Hk; simpl in Hk; cbn [kont].
  2:{ wp_step. rewrite Hk. split_and!; try done. intros _ k. by left. }
  destruct (ipt_List_law ipt (ch_table c) ec t a) as (rs & head & Hrs & ->); [by rewrite Hc|].
  rewrite <- Hk in Hrs. eapply wp_mono; [apply (teardown_rules_spec c ipt ec [] rs); [done|constructor]|].
  intros o t2 (Hr & Hoth & Hsome & Hok). rewrite <- Hk. split_and!; [done..|].
  intros -> k. destruct (decide (k = (ipt, ch_table c, ec))) as [->|Hne]; [right|left; auto].
  exists ec. split; [by apply list_elem_of_singleton|]. split; [done|]. rewrite Hrs. simpl. by rewrite Hok.
Qed.

Lemma keep_rules_idemp ec n rs : keep_rules ec n (keep_rules ec n rs) = keep_rules ec n rs.
Proof.
  unfold keep_rules. rewrite list_filter_filter. apply list_filter_iff. intros x. tauto.
Qed.

Lemma keep_rules_all ec n rs :
  (∀ r, r ∈ rs → text_jumps ec n r = false) → keep_rules ec n rs = rs.
Proof.
  induction rs as [|r rs IH]; intros Hr; [done|]. unfold keep_rules. rewrite filter_cons.
  rewrite decide_True by (apply Hr, list_elem_of_here). f_equal. apply IH.
  intros x Hx. apply Hr. by apply list_elem_of_further.
Qed.

Lemma teardown_loop_spec c ipt ecs t :
  wp (for_range ecs (teardown_entry c ipt)) (λ o t', returns o = true ∧
    (∀ k', (∀ ec, ec ∈ ecs → k' ≠ (ipt, ch_table c, ec)) → tables t' !! k' = tables t !! k') ∧
    (o = Ok tt → cleaned c ipt ecs (tables t) (tables t'))) t.
Proof.
  revert t. induction ecs as [|ec ecs IH]; intros t; cbn [for_range].
  { wp_step. split_and!; try done. intros _ k. by left. }
  wp_step. wp_use teardown_entry_spec as (Hr & Hoth & Hok). destruct o as [[]|err| |]; try done; cbn [kont].
  2:{ split_and!; try done. intros k' Hk. apply Hoth, Hk, list_elem_of_here. }
  specialize (Hok eq_refl). eapply wp_mono; [apply IH|]. intros o t2 (Hr2 & Hoth2 & Hok2).
  split_and!; [done|..].
  - intros k' Hk. rewrite Hoth2 by (intros ec' Hec'; apply Hk; by apply list_elem_of_further).
    apply Hoth, Hk, list_elem_of_here.
  - intros ->. specialize (Hok2 eq_refl). intros k.
    destruct (Hok2 k) as [->|(ec' & Hin & Hk2 & ->)], (Hok k) as [->|(ec1 & Hin1 & Hk1 & ->)].
    + by left.
    + right. apply list_elem_of_singleton in Hin1 as ->. exists ec. split; [apply list_elem_of_here|done].
    + right. exists ec'. split; [by apply list_elem_of_further|done].
    + apply list_elem_of_singleton in Hin1 as ->. rewrite Hk1 in Hk2. injection Hk2 as ->.
      right. exists ec'. split; [apply list_elem_of_here|]. split; [done|].
      destruct (tables t !! k) as [l|]; simpl; [|done]. by rewrite keep_rules_idemp.
Qed.

Lemma teardown_spec c ipt t :
  wp (teardown c ipt) (λ o t', returns o = true ∧
    (o = Ok tt →
       let k := (ipt, ch_table c, ch_name c) in
       tables t' !! k = None ∧
       (∀ ec rs r, ec ≠ ch_name c → tables t' !! (ipt, ch_table c, ec) = Some rs →
          r ++ ["-j"; ch_name c] ∉ rs) ∧
       (∀ k', k' ≠ k → tables t' !! k' = tables t !! k' ∨
          ∃ ec, ec ∈ ch_entryChains c ∧ k' = (ipt, ch_table c, ec) ∧
            tables t' !! k' = keep_rules ec (ch_name c) <$> tables t !! k'))) t.
Proof.
  unfold teardown. set (k := (ipt, ch_table c, ch_name c)). wp_step. apply wp_call; intros a t1 Hc;
    [|by split_and!]. cbn [kont].
  pose proof (utils_ClearChain_law ipt (ch_table c) (ch_name c) t) as [(e & He & _)|(_ & Ht1)];
    rewrite Hc in *; [done|]. simpl in Ht1. fold k in Ht1.
  wp_step. wp_use teardown_loop_spec as (Hr & Hoth & Hok). destruct o as [[]|err| |]; try done; cbn [kont].
  specialize (Hok eq_refl). apply wp_call; intros b t3 Hc3; [|done].
  split; [done|]. intros _. cbv zeta.
  pose proof (utils_DeleteChain_law ipt (ch_table c) (ch_name c) st) as [(e & He & _)|(_ & Href & Ht3)];
    rewrite Hc3 in *; [done|]. simpl in Ht3. fold k in Ht3, Href.
  assert (is_Some (tables st !! k)) as Hsome.
  { destruct (Hok k) as [->|(ec & _ & _ & ->)]; rewrite Ht1, lookup_insert_eq; eauto. }
  split_and!.
  - by rewrite Ht3, lookup_delete_eq.
  - intros ec rs r Hne Hrs. rewrite Ht3, lookup_delete_ne in Hrs by (unfold k; congruence).
    by eapply Href.
  - intros k' Hne. rewrite Ht3, !lookup_delete_ne by done.
    destruct (Hok k') as [->|(ec & Hin & -> & ->)]; rewrite Ht1, lookup_insert_ne by done; eauto.
Qed.

(** Whatever its outcome, a teardown only takes rules away, in its own family; its
    own chain may have been emptied. *)
Definition thins (ipt : bool) (v v' : Tables) : Prop :=
  ∀ k, v' !! k = v !! k ∨
    k.1.1 = ipt ∧ ∃ rs rs', v !! k = Some rs ∧ v' !! k = Some rs' ∧ rs' `sublist_of` rs.

#[global] Instance thins_preorder ipt : PreOrder (thins ipt).
Proof.
  split; [by left|]. intros u v w Huv Hvw k.
  destruct (Hvw k) as [->|(Hf & rs & rs' & Hrs & Hrs' & Hs)]; [by apply Huv|].
  right. split; [done|]. destruct (Huv k) as [Heq|(_ & rs0 & rs1 & H0 & H1 & Hs1)].
  - exists rs, rs'. by rewrite <- Heq.
  - rewrite Hrs in H1. injection H1 as <-. exists rs0, rs'. split_and!; [done..|]. by etrans.
Qed.

Definition shrinks (ipt : bool) (self : bool * string * string) (v v' : Tables) : Prop :=
  (∀ k, k ≠ self →
    v' !! k = v !! k ∨
    k.1.1 = ipt ∧ ∃ rs rs', v !! k = Some rs ∧ v' !! k = Some rs' ∧ rs' `sublist_of` rs) ∧
  (v' !! self = v !! self ∨ default [] (v' !! self) = []).

Lemma remove1_sublist r l : remove1 r l `sublist_of` l.
Proof.
  induction l as [|x l IH]; simpl; [done|]. case_bool_decide; [by apply sublist_cons|by apply sublist_skip].
Qed.

Lemma teardown_rule_thins c ipt ec x t :
  wp (teardown_rule c ipt ec x) (λ _ t', thins ipt (tables t) (tables t')) t.
Proof.
  unfold teardown_rule. destruct (HasSuffix x _); [|wp_step; by left].
  destruct (shellwords_Parse x) as [e|[|y [|z parts]]]; try (by left).
  apply wp_call; intros a t' Hc;
    pose proof (utils_DeleteRule_law ipt (ch_table c) ec parts t) as [(e & He & Ht)|(He & Ht)];
    rewrite Hc in *; try done; simpl in Ht; rewrite Ht; [|by left].
  intros k. destruct (decide (k = (ipt, ch_table c, ec))) as [->|Hne];
    [|left; by rewrite lookup_alter_ne].
  rewrite lookup_alter_eq. destruct (tables t !! _) as [rs|] eqn:Hrs; [|by left].
  right. split; [done|]. eexists _, _. split_and!; [done..|]. apply remove1_sublist.
Qed.

Lemma teardown_entry_thins c ipt ec t :
  wp (teardown_entry c ipt ec) (λ _ t', thins ipt (tables t) (tables t')) t.
Proof.
  unfold teardown_entry. wp_step. wp_step. apply wp_call; intros b t3 Hc3;
    pose proof (ipt_List_keeps ipt (ch_table c) ec t) as Hk; rewrite Hc3 in Hk; simpl in Hk; cbn [kont];
    [|wp_step; by rewrite Hk].
  destruct b as [|h rest]; [wp_step; by rewrite Hk|].
  apply wp_for_range with (I := λ l t', thins ipt (tables t) (tables t')); [by rewrite Hk|..]; [|done].
  intros x l2 t4 Hs4. wp_use teardown_rule_thins as Hs.
  assert (thins ipt (tables t) (tables st)) by (by etrans). by destruct o as [[]| | |].
Qed.

Lemma thins_shrinks ipt self v v1 v' :
  v1 = <[self := []]> v → thins ipt v1 v' → shrinks ipt self v v' ∧ v' !! self = Some [].
Proof.
  intros -> Ht. assert (v' !! self = Some []) as Hself.
  { destruct (Ht self) as [->|(_ & rs & rs' & H1 & H2 & Hs)]; rewrite lookup_insert_eq in *; [done|].
    injection H1 as <-. apply sublist_nil_r in Hs as ->. done. }
  split; [|done]. split; [|right; by rewrite Hself].
  intros k Hk. specialize (Ht k). by rewrite lookup_insert_ne in Ht.
Qed.

Lemma teardown_shrinks c ipt t :
  wp (teardown c ipt) (λ _ t', shrinks ipt (ipt, ch_table c, ch_name c) (tables t) (tables t')) t.
Proof.
  unfold teardown. set (self := (ipt, ch_table c, ch_name c)). wp_step. apply wp_call; intros a t1 Hc;
    pose proof (utils_ClearChain_law ipt (ch_table c) (ch_name c) t) as [(e & He & Ht1)|(He & Ht1)];
    rewrite Hc in *; try done; simpl in Ht1; cbn [kont];
    [|rewrite Ht1; split; [intros; by left|by left]].
  wp_step. apply wp_for_range with (I := λ l t', thins ipt (tables t1) (tables t')); [done|..].
  - intros ec l' t2 Hs2. wp_use teardown_entry_thins as Hs.
    assert (thins ipt (tables t1) (tables st)) as Hs3 by (by etrans).
    destruct (thins_shrinks _ _ _ _ _ Ht1 Hs3). by destruct o as [[]| | |].
  - intros t2 Hs2. destruct (thins_shrinks _ _ _ _ _ Ht1 Hs2) as [[Hs3 Hs4] Hself].
    cbn [kont]. apply wp_call; intros b t3 Hc3;
      pose proof (utils_DeleteChain_law ipt (ch_table c) (ch_name c) t2) as [(e3 & He3 & Ht3)|(He3 & _ & Ht3)];
      rewrite Hc3 in *; try done; simpl in Ht3; rewrite Ht3; [|done].
    split; [|right; by rewrite lookup_delete_eq].
    intros k Hk. rewrite lookup_delete_ne by done. by apply Hs3.
Qed.

(** *** setup and then teardown *)

(** What a setup, finished or not, does outside its own chain: entry chains have
    only got jumps to the chain. *)
Definition grown (c : chain) (ipt : bool) (v v' : Tables) : Prop :=
  ∀ k, k ≠ (ipt, ch_table c, ch_name c) →
    v' !! k = v !! k ∨
    ∃ ec rs rs', ec ∈ ch_entryChains c ∧ k = (ipt, ch_table c, ec) ∧ v !! k = Some rs ∧ v' !! k = Some rs' ∧
      keep_rules ec (ch_name c) rs' = keep_rules ec (ch_name c) rs ∧
      (∀ r, r ∈ rs' → r ∈ rs ∨ ∃ r', r = r' ++ ["-j"; ch_name c]).

Lemma grown_self c ipt v v' p r :
  grown c ipt v v' → grown c ipt v (add_unique p (ipt, ch_table c, ch_name c) r v').
Proof.
  intros Hg k Hk. unfold add_unique. destruct (v' !! (ipt, ch_table c, ch_name c)); [|by apply Hg].
  case_bool_decide; [by apply Hg|]. rewrite lookup_insert_ne by done. by apply Hg.
Qed.

Lemma grown_entry c ipt v v' ec r :
  plain_name (ch_name c) = true → ec ∈ ch_entryChains c → grown c ipt v v' →
  grown c ipt v (add_unique (ch_prependEntry c) (ipt, ch_table c, ec) (entry_rule c r) v').
Proof.
  intros Hplain Hec Hg k Hk. unfold add_unique.
  destruct (v' !! (ipt, ch_table c, ec)) as [rs1|] eqn:Hrs1; [|by apply Hg].
  case_bool_decide as Hin; [by apply Hg|].
  destruct (decide (k = (ipt, ch_table c, ec))) as [->|Hne];
    [|rewrite lookup_insert_ne by done; by apply Hg].
  rewrite lookup_insert_eq. right. destruct (canon_target r (ch_name c)) as [r' Hr'].
  change (r ++ ["-j"; ch_name c]) with (entry_rule c r) in Hr'.
  assert (text_jumps ec (ch_name c) (canon (entry_rule c r)) = true) as Hj.
  { unfold text_jumps. rewrite Hr'. by apply rule_text_target. }
  set (rs2 := if ch_prependEntry c then canon (entry_rule c r) :: rs1 else rs1 ++ [canon (entry_rule c r)]).
  assert (keep_rules ec (ch_name c) rs2 = keep_rules ec (ch_name c) rs1) as Hkeep.
  { unfold rs2, keep_rules. destruct (ch_prependEntry c); rewrite ?filter_app, !filter_cons, decide_False by congruence;
      [done|]. by rewrite app_nil_r. }
  assert (∀ x, x ∈ rs2 → x ∈ rs1 ∨ ∃ r', x = r' ++ ["-j"; ch_name c]) as Hmem.
  { intros x. unfold rs2. destruct (ch_prependEntry c).
    - rewrite elem_of_cons. intros [->|?]; eauto.
    - rewrite elem_of_app, list_elem_of_singleton. intros [?| ->]; eauto. }
  destruct (Hg _ Hk) as [Heq|(ec' & rs & rs' & Hec' & Hke & Hrs & Hrs' & Hkr & Hm)].
  - exists ec, rs1, rs2. rewrite <- Heq. by split_and!.
  - injection Hke as <-. rewrite Hrs1 in Hrs'. injection Hrs' as <-. exists ec, rs, rs2.
    split_and!; try done; [by rewrite Hkeep|].
    intros x Hx. destruct (Hmem x Hx) as [Hx1|]; [by apply Hm|by right].
Qed.

Lemma insertUnique_grown c ipt tb ch p r v t :
  grown c ipt v (tables t) → grown c ipt v (add_unique p (ipt, tb, ch) r (tables t)) →
  wp (insertUnique ipt tb ch p r) (λ o t', grown c ipt v (tables t')) t.
Proof.
  intros H1 H2. wp_use insertUnique_spec as (_ & Ho). destruct o; try by rewrite Ho.
  destruct Ho as [-> _]. done.
Qed.

Lemma setup_grown c ipt t :
  plain_name (ch_name c) = true →
  wp (setup c ipt) (λ _ t', grown c ipt (tables t) (tables t')) t.
Proof.
  intros Hplain. unfold setup.
  assert (grown c ipt (tables t) (tables t)) as Hrefl by by left.
  wp_step. apply wp_call; intros a t1 Hc;
    pose proof (utils_EnsureChain_law ipt (ch_table c) (ch_name c) t) as [(e & He & Ht1)|(He & Ht1)];
    rewrite Hc in *; try done; simpl in Ht1; cbn [kont]; [|by rewrite Ht1].
  assert (grown c ipt (tables t) (tables t1)) as Hg1.
  { intros k Hk. left. by rewrite Ht1, lookup_insert_ne. }
  wp_step. apply wp_for_range with (I := λ l t', grown c ipt (tables t) (tables t')); [done|..].
  { intros r l' t' Hg. eapply wp_mono; [apply insertUnique_grown; [exact Hg|by apply grown_self]|].
    intros [[]| | |] t2; done. }
  intros t2 Hg2. cbn [kont].
  apply wp_for_range with (I := λ l t', l ⊆ ch_entryChains c ∧ grown c ipt (tables t) (tables t')); [done|..].
  2:{ intros t3 [_ Hg]. done. }
  intros ec l' t3 [Hl Hg3].
  assert (ec ∈ ch_entryChains c) as Hec by (apply Hl, list_elem_of_here).
  apply wp_for_range with (I := λ l t', grown c ipt (tables t) (tables t')); [done|..].
  { intros r l2 t' Hg. eapply wp_mono; [apply insertUnique_grown; [exact Hg|by apply grown_entry]|].
    intros [[]| | |] t4; done. }
  intros t4 Hg4. split; [|done]. intros x Hx. apply Hl. by apply list_elem_of_further.
Qed.

(** ** Properties *)

(** C36: chain.setup ends with a value or an error and never loses or reorders rules;
    after success the chain and its entry chains hold all wanted rules, exactly as the
    specification adds them, and setting it up again changes nothing. *)
Theorem setup_correct c ipt t :
  let '(o, t') := setup c ipt t in
  returns o = true ∧ extends (tables t) (tables t') ∧
  (o = Ok tt →
     tables t' = setup_view c ipt (tables t) ∧
     (∀ r, r ∈ ch_rules c → present (tables t') (false, (ipt, ch_table c, ch_name c), r)) ∧
     (∀ ec r, ec ∈ ch_entryChains c → r ∈ ch_entryRules c →
        present (tables t') (ch_prependEntry c, (ipt, ch_table c, ec), entry_rule c r)) ∧
     setup_view c ipt (tables t') = tables t').
Proof.
  destruct (setup c ipt t) as [o t'] eqn:Hrun. pattern o, t'.
  refine (wp_run _ _ _ _ _ _ Hrun). clear o t' Hrun. cbv beta.
  wp_use setup_spec as (Hr & He & Hok). split_and!; [done..|].
  intros Ho. destruct (Hok Ho) as (Hv & Hp & Hself).
  rewrite Forall_forall in Hp. split_and!; [done|..].
  - intros r Hin. apply Hp. unfold wanted. apply elem_of_app. left. by apply list_elem_of_fmap_2.
  - intros ec r Hec Hin. apply Hp. unfold wanted. apply elem_of_app. right.
    apply list_elem_of_bind. exists ec. split; [|done].
    apply list_elem_of_fmap. by exists r.
  - unfold setup_view. rewrite ensure_noop by done. apply add_wanted_noop. by apply Forall_forall.
Qed.

(** C37: Tearing down a chain that was set up, even partly, on tables where it did not
    exist restores the tables exactly, whenever the teardown reports success. *)
Theorem teardown_restores c ipt t :
  plain_name (ch_name c) = true →
  ch_name c ∉ ch_entryChains c →
  tables t !! (ipt, ch_table c, ch_name c) = None →
  (∀ ec rs r, ec ∈ ch_entryChains c → tables t !! (ipt, ch_table c, ec) = Some rs → r ∈ rs →
     text_jumps ec (ch_name c) r = false) →
  let '(o1, t1) := setup c ipt t in
  let '(o2, t2) := teardown c ipt t1 in
  returns o1 = true ∧ returns o2 = true ∧ (o2 = Ok tt → tables t2 = tables t).
Proof.
  intros Hplain Hnot Hnone Hclean.
  destruct (setup c ipt t) as [o1 t1] eqn:Hrun1.
  destruct (wp_run _ _ _ _ _ (setup_spec c ipt t) Hrun1) as (Hr1 & _).
  pose proof (wp_run _ _ _ _ _ (setup_grown c ipt t Hplain) Hrun1) as Hg. simpl in Hg.
  destruct (teardown c ipt t1) as [o2 t2] eqn:Hrun2.
  destruct (wp_run _ _ _ _ _ (teardown_spec c ipt t1) Hrun2) as (Hr2 & Hok).
  split_and!; [done..|]. intros Ho. destruct (Hok Ho) as (Hself & Hrefs & Hoth). clear Hok.
  apply map_eq. intros k. destruct (decide (k = (ipt, ch_table c, ch_name c))) as [->|Hk]; [by rewrite Hself|].
  assert (∀ ec rs, ec ∈ ch_entryChains c → tables t !! (ipt, ch_table c, ec) = Some rs →
    keep_rules ec (ch_name c) rs = rs) as Hkeep.
  { intros ec rs Hec Hrs. apply keep_rules_all. intros r Hin. by eapply Hclean. }
  destruct (Hoth k Hk) as [Heq|(ec & Hec & Hke & Heq)], (Hg k Hk) as [Hsame|(ec1 & rs & rs1 & Hec1 & Hk1 & Hrs & Hrs1 & Hkr & Hm)].
  - by rewrite Heq.
  - subst k. rewrite Heq, Hrs1, Hrs. f_equal. rewrite <- (Hkeep _ _ Hec1 Hrs), <- Hkr. symmetry.
    apply keep_rules_all. intros r Hin. destruct (Hm r Hin) as [Hr|[r' ->]]; [by eapply Hclean|].
    exfalso. eapply (Hrefs ec1 rs1); [| |exact Hin]; [by intros ->|by rewrite Heq].
  - subst k. rewrite Heq, Hsame. destruct (tables t !! (ipt, ch_table c, ec)) as [rs|] eqn:Hrs; simpl; [|done].
    by rewrite Hkeep.
  - subst k. injection Hk1 as <-. rewrite Heq, Hrs1, Hrs. simpl. by rewrite Hkr, Hkeep.
Qed.

Lemma checkRule_spec ipt tb ch r t :
  wp (checkRule ipt tb ch r) (λ o t', tables t' = tables t ∧ ∃ b, o = Ok b ∧
    (b = true → present (tables t) (false, (ipt, tb, ch), r))) t.
Proof.
  unfold checkRule. wp_step. wp_step. apply wp_call; intros a t' Hc;
    pose proof (ipt_Exists_keeps ipt tb ch r t) as Hk; rewrite Hc in Hk; simpl in Hk; cbn [kont]; wp_step;
    (split; [done|]); [|by exists false].
  exists a. split; [done|]. intros ->.
  pose proof (ipt_Exists_law ipt tb ch r t true) as Hb. rewrite Hc in Hb. specialize (Hb eq_refl).
  symmetry in Hb. apply bool_decide_eq_true_1 in Hb. unfold present. simpl.
  destruct (tables t !! (ipt, tb, ch)) as [rs|]; [by exists rs|by apply elem_of_nil in Hb].
Qed.

(** A loop of checks. *)
Lemma check_loop_spec {A} (l : list A) (body : A → M T unit) (P : A → Prop) t :
  (∀ x t', tables t' = tables t → wp (body x) (λ o t'', returns o = true ∧ tables t'' = tables t ∧
     (o = Ok tt → P x)) t') →
  wp (for_range l body) (λ o t', returns o = true ∧ tables t' = tables t ∧
     (o = Ok tt → ∀ x, x ∈ l → P x)) t.
Proof.
  intros Hb. assert (∀ t', tables t' = tables t → wp (for_range l body) (λ o t', returns o = true ∧ tables t' = tables t ∧
     (o = Ok tt → ∀ x, x ∈ l → P x)) t') as H; [|by apply H].
  induction l as [|x l IH]; intros t' Ht; cbn [for_range].
  { wp_step. split_and!; try done. intros _ x Hx. by apply elem_of_nil in Hx. }
  wp_step. eapply wp_mono; [by apply Hb|]. intros o t1 (Hr & Ht1 & Hok).
  destruct o as [[]|err| |]; try done; cbn [kont]. eapply wp_mono; [by apply IH|].
  intros o t2 (Hr2 & Ht2 & Hok2). split_and!; try done. intros -> y Hy.
  apply elem_of_cons in Hy as [->|Hy]; eauto.
Qed.

Lemma check_spec c ipt t :
  wp (check c ipt) (λ o t', returns o = true ∧ tables t' = tables t ∧
  (o = Ok tt →
     is_Some (tables t !! (ipt, ch_table c, ch_name c)) ∧
     (∀ r, r ∈ ch_rules c → present (tables t) (false, (ipt, ch_table c, ch_name c), r)) ∧
     (∀ ec r, ec ∈ ch_entryChains c → r ∈ ch_entryRules c →
        present (tables t) (false, (ipt, ch_table c, ec), entry_rule c r)))) t.
Proof.
  assert (∀ tb ch r t', tables t' = tables t →
    wp (m ← checkRule ipt tb ch r; if negb m then throw (Errorf "rule in chain not found in table") else mret tt)
      (λ o t'', returns o = true ∧ tables t'' = tables t ∧
        (o = Ok tt → present (tables t) (false, (ipt, tb, ch), r))) t') as Hone.
  { intros tb ch r t' Ht. wp_step. wp_use checkRule_spec as (Hk & b & -> & Hb). cbn [kont].
    rewrite Ht in Hk, Hb. destruct b; wp_steps; split_and!; try done. intros _. by apply Hb. }
  unfold check. wp_step. apply wp_call; intros a t1 Hc;
    pose proof (utils_ChainExists_keeps ipt (ch_table c) (ch_name c) t) as Hk; rewrite Hc in Hk; simpl in Hk;
    cbn [kont]; [|by split_and!].
  pose proof (utils_ChainExists_law ipt (ch_table c) (ch_name c) t a) as Ha. rewrite Hc in Ha.
  specialize (Ha eq_refl). destruct a; cbn [negb]; wp_step; [|by split_and!].
  symmetry in Ha. apply bool_decide_eq_true_1 in Ha.
  eapply wp_mono.
  { apply (check_loop_spec _ _ (λ r, present (tables t) (false, (ipt, ch_table c, ch_name c), r)) t1).
    intros r t' Ht'. rewrite Hk in *. by apply Hone. }
  intros o t2 (Hr & Ht2 & Hok). destruct o as [[]|err| |]; try done; cbn [kont]; rewrite Hk in Ht2;
    [|by split_and!]. specialize (Hok eq_refl).
  eapply wp_mono.
  { apply (check_loop_spec _ _ (λ ec, ∀ r, r ∈ reverse (ch_entryRules c) →
      present (tables t) (false, (ipt, ch_table c, ec), entry_rule c r)) t2).
    intros ec t' Ht'. eapply wp_mono.
    { apply (check_loop_spec _ _ (λ r, present (tables t) (false, (ipt, ch_table c, ec), entry_rule c r)) t').
      intros r t'' Ht''. rewrite Ht', Ht2 in *. by apply Hone. }
    intros o t3 (? & ? & ?). split_and!; [done|congruence|done]. }
  intros o t3 (Hr3 & Ht3 & Hok3). split_and!; [done|congruence|]. intros Ho. split_and!; [done|..].
  - intros r Hin. apply Hok. by rewrite elem_of_reverse.
  - intros ec r Hec Hin. apply (Hok3 Ho ec Hec). by rewrite elem_of_reverse.
Qed.

(** [chain.check] *)
Theorem check_correct c ipt t :
  let '(o, t') := check c ipt t in
  returns o = true ∧ tables t' = tables t ∧
  (o = Ok tt →
     is_Some (tables t !! (ipt, ch_table c, ch_name c)) ∧
     (∀ r, r ∈ ch_rules c → present (tables t) (false, (ipt, ch_table c, ch_name c), r)) ∧
     (∀ ec r, ec ∈ ch_entryChains c → r ∈ ch_entryRules c →
        present (tables t) (false, (ipt, ch_table c, ec), entry_rule c r))).
Proof.
  pose proof (check_spec c ipt t) as H. unfold wp in H. by destruct (check c ipt t).
Qed.
End spec.

(** ** A concrete iptables *)

Module MemIpt.
(** Words are printed with blanks and backslashes escaped. *)
Fixpoint esc (s : string) : string :=
  match s with
  | EmptyString => ""
  | String a s' =>
      if Ascii.eqb a " " then String "\" (String "s" (esc s'))
      else if Ascii.eqb a "\" then String "\" (String "b" (esc s'))
      else String a (esc s')
  end.
Fixpoint unesc (s : string) : string :=
  match s with
  | String "\" (String b s') => String (if Ascii.eqb b "s" then " "%char else "\"%char) (unesc s')
  | String a s' => String a (unesc s')
  | EmptyString => ""
  end.
Definition text (ch : string) (r : Rule) : string := GoStrings.Join (esc <$> (["-A"; ch] ++ r)) " ".

Definition upd (k : bool * string * string) (f : list Rule → list Rule) (t : Tables) : (error + unit) * Tables :=
  match t !! k with
  | Some rs => (inr tt, <[k := f rs]> t)
  | None => (inl (ExtErr "No chain/target/match by that name"), t)
  end.

Definition refers (tb : bool * string) (n : string) (t : Tables) : bool :=
  existsb (λ kr, bool_decide (kr.1.1 = tb) &&
    existsb (λ r, bool_decide (drop (length r - 2) r = ["-j"; n])) kr.2) (map_to_list t).

#[global] Instance api : IptApi Tables := {
  ipt_New _ t := (inr tt, t);
  ipt_List v tb ch t :=
    match t !! (v, tb, ch) with
    | Some rs => (inr (("-N " +:+ ch) :: (text ch <$> rs)), t)
    | None => (inl (ExtErr "No chain/target/match by that name"), t)
    end;
  ipt_Exists v tb ch r t := (inr (bool_decide (r ∈ default [] (t !! (v, tb, ch)))), t);
  ipt_Insert1 v tb ch r t := upd (v, tb, ch) (cons r) t;
  ipt_Append v tb ch r t := upd (v, tb, ch) (λ rs, rs ++ [r]) t;
  utils_EnsureChain v tb ch t := (inr tt, <[(v, tb, ch) := default [] (t !! (v, tb, ch))]> t);
  utils_ClearChain v tb ch t := (inr tt, <[(v, tb, ch) := []]> t);
  utils_DeleteChain v tb ch t :=
    if refers (v, tb) ch t then (inl (ExtErr "Too many links"), t) else (inr tt, delete (v, tb, ch) t);
  utils_DeleteRule v tb ch r t := (inr tt, alter (remove1 r) (v, tb, ch) t);
  utils_ChainExists v tb ch t := (inr (bool_decide (is_Some (t !! (v, tb, ch)))), t);
  shellwords_Parse s := inr (unesc <$> Split s " "%char);
  MustFormatChainNameWithPrefix _ _ p := "CNI-" +:+ p
}.

Lemma unesc_esc s : unesc (esc s) = s.
Proof.
  induction s as [|a s IH]; [done|]. cbn [esc].
  destruct (Ascii.eqb_spec a " ") as [->|H1]; [cbn; by rewrite IH|].
  destruct (Ascii.eqb_spec a "\") as [->|H2]; [cbn; by rewrite IH|].
  transitivity (String a (unesc (esc s))); [|by rewrite IH].
  destruct a as [[] [] [] [] [] [] [] []]; try reflexivity; done.
Qed.

Lemma esc_no_blank s : str_elem " "%char (esc s) = false.
Proof.
  induction s as [|a s IH]; [done|]. cbn [esc].
  destruct (Ascii.eqb_spec a " ") as [->|H1]; [done|].
  destruct (Ascii.eqb_spec a "\") as [->|H2]; [done|].
  cbn [str_elem]. rewrite IH, orb_false_r. by apply Ascii.eqb_neq.
Qed.

Lemma esc_plain s : plain_name s = true → esc s = s.
Proof.
  unfold plain_name. induction s as [|a s IH]; [done|]. cbn [str_elem esc].
  rewrite !negb_orb. intros [[H1 H2]%andb_prop [H3 H4]%andb_prop]%andb_prop.
  apply negb_true_iff in H1, H3. rewrite H1, H3, IH; [done|]. by rewrite H2, H4.
Qed.

Lemma text_target ch r n :
  plain_name n = true → HasSuffix (text ch (r ++ ["-j"; n])) ("-j " +:+ n) = true.
Proof.
  intros Hn. unfold text. rewrite app_assoc, fmap_app.
  change (esc <$> ["-j"; n]) with ["-j"; esc n]. rewrite (esc_plain n) by done.
  assert (∀ l x y, ∃ p, GoStrings.Join (l ++ [x; y]) " " = p +:+ (x +:+ " " +:+ y)) as Hj.
  { clear. induction l as [|z l IH]; intros x y; [by exists ""|]. destruct (IH x y) as [p Hp].
    exists (z +:+ " " +:+ p). cbn [app]. transitivity (z +:+ " " +:+ GoStrings.Join (l ++ [x; y]) " ").
    - by destruct l as [|w l].
    - rewrite Hp, !str_app_assoc. done. }
  destruct (Hj (esc <$> (["-A"; ch] ++ r)) "-j" n) as [p ->]. apply (HasSuffix_app p ("-j" +:+ " " +:+ n)).
Qed.

Lemma text_parse ch r : unesc <$> Split (text ch r) " "%char = ["-A"; ch] ++ r.
Proof.
  unfold text. rewrite Split_Join; [|done|].
  - rewrite <- list_fmap_compose. rewrite <- (list_fmap_id (["-A"; ch] ++ r)) at 2.
    apply list_fmap_ext. intros i x _. apply unesc_esc.
  - apply Forall_fmap, Forall_true. intros x. apply esc_no_blank.
Qed.

Lemma refers_spec (v : bool) (tb n : string) (t : Tables) (c : string) (rs : list Rule) (r : Rule) :
  refers (v, tb) n t = false → t !! (v, tb, c) = Some rs → r ++ ["-j"; n] ∉ rs.
Proof.
  intros Hr Hrs Hin. unfold refers in Hr. apply not_true_iff_false in Hr. apply Hr.
  apply List.existsb_exists. exists ((v, tb, c), rs). split.
  { by apply list_elem_of_In, elem_of_map_to_list. }
  apply andb_true_intro. split; [by apply bool_decide_eq_true_2|].
  apply List.existsb_exists. exists (r ++ ["-j"; n]). split; [by apply list_elem_of_In|].
  apply bool_decide_eq_true_2. rewrite length_app. simpl.
  replace (length r + 2 - 2)%nat with (length r) by lia. apply drop_app_length.
Qed.

#[global] Program Instance laws : IptLaws Tables := {
  tables t := t;
  canon r := r;
  rule_text := text
}.
Next Obligation. done. Qed.
Next Obligation. intros r n. by exists r. Qed.
Next Obligation. intros. by apply text_target. Qed.
Next Obligation. intros ch r _. exact (f_equal inr (text_parse ch r)). Qed.
Next Obligation. done. Qed.
Next Obligation.
  intros a b p. pose proof (HasPrefix_app ("CNI-" +:+ p) "") as Hp. rewrite str_app_nil_r in Hp. exact Hp.
Qed.
Next Obligation.
  intros a b p. simpl. unfold plain_name. intros [H1 H2]%andb_prop.
  cbn [str_elem Ascii.eqb Bool.eqb orb]. by rewrite H1, H2.
Qed.
Next Obligation. done. Qed.
Next Obligation. intros v tb ch t. simpl. by destruct (t !! _). Qed.
Next Obligation.
  intros v tb ch t l. simpl. destruct (t !! (v, tb, ch)) as [rs|]; [|done]. intros [= <-]. eauto.
Qed.
Next Obligation. done. Qed.
Next Obligation. intros v tb ch r t b. simpl. by intros [= <-]. Qed.
Next Obligation.
  intros v tb ch r t. simpl. unfold upd. destruct (t !! (v, tb, ch)) as [rs|]; [right|left]; eauto.
Qed.
Next Obligation.
  intros v tb ch r t. simpl. unfold upd. destruct (t !! (v, tb, ch)) as [rs|]; [right|left]; eauto.
Qed.
Next Obligation. intros v tb ch t. by right. Qed.
Next Obligation. intros v tb ch t. by right. Qed.
Next Obligation. intros v tb ch r t. by right. Qed.
Next Obligation.
  intros v tb ch t. simpl. destruct (refers (v, tb) ch t) eqn:Hr; [left; eauto|right].
  split_and!; try done. intros c rs r _ Hrs. by eapply refers_spec.
Qed.
Next Obligation. done. Qed.
Next Obligation. intros v tb ch t b. simpl. by intros [= <-]. Qed.
End MemIpt.

(** *** Witnesses *)

Definition demo_chain : chain :=
  mkChain "nat" "CNI-DN-1" ["CNI-HOSTPORT-DNAT"]
    [["-m"; "comment"; "--comment"; "dnat name"; "-p"; "tcp"; "--destination-ports"; "80"]]
    [["-p"; "tcp"; "--dport"; "80"; "-j"; "DNAT"; "--to-destination"; "10.0.0.5:8080"]] false.
Definition demo_tables : Tables :=
  {[(false, "nat", "CNI-HOSTPORT-DNAT") := [["-m"; "multiport"; "-j"; "CNI-DN-0"]]]}.

Lemma teardown_restores_witness :
  let '(o1, t1) := setup demo_chain false demo_tables in
  let '(o2, t2) := teardown demo_chain false t1 in
  returns o1 = true ∧ returns o2 = true ∧ (o2 = Ok tt → tables t2 = tables demo_tables).
Proof.
  apply (teardown_restores (T:=Tables) (IptApi0:=MemIpt.api) (IptLaws0:=MemIpt.laws) demo_chain false demo_tables).
  - reflexivity.
  - apply not_elem_of_cons. split; [discriminate|apply not_elem_of_nil].
  - reflexivity.
  - intros ec rs r Hec Hrs Hr. apply list_elem_of_singleton in Hec as ->.
    vm_compute in Hrs. injection Hrs as <-. apply list_elem_of_singleton in Hr as ->. vm_compute. reflexivity.
Defined.

Example setup_then_teardown :
  let '(o1, t1) := setup demo_chain false demo_tables in
  let '(o2, t2) := teardown demo_chain false t1 in
  o1 = Ok tt ∧ o2 = Ok tt ∧ (check demo_chain false t1).1 = Ok tt ∧
  t1 !! (false, "nat", "CNI-HOSTPORT-DNAT") =
    Some [["-m"; "multiport"; "-j"; "CNI-DN-0"];
          ["-m"; "comment"; "--comment"; "dnat name"; "-p"; "tcp"; "--destination-ports"; "80"; "-j"; "CNI-DN-1"]].
Proof. vm_compute. repeat split. Qed.
