(* ===== verification/IptRules.v ===== *)
(** The iptables rules of a node with secondary interfaces ([cmd/cnivpc/if.go]):
    source NAT and connection marks for traffic that leaves the VPC, and the rule
    that keeps pods off the metadata service.

    All rules are IPv4.  [IptMoreApi] adds to [IptApi] the calls of go-iptables that
    only this code makes; they work on the same rule set. *)
From S2P Require Export Chain.

(** ** Definitions *)

Class IptMoreApi (T : Type) : Type := {
  ipt_Delete : string → string → Rule → Call T unit;
  ipt_NewChain : string → string → Call T unit;
  ipt_ChainExists : string → string → Call T bool
}.

Definition connmarkChainName : string := "UCLOUD-CONNMARK-CHAIN-0".
Definition snatChainName : string := "UCLOUD-SNAT-CHAIN-0".
Definition natGWOutgoingEnabledIPSetName : string := "UCLOUD-NATGW-OUTGOING".

Record iptablesRule : Type := mkIptRule {
  ir_name : string;
  ir_shouldExist : bool;
  ir_table : string;
  ir_chain : string;
  ir_rule : Rule
}.

(** RFC 1918. *)
Definition privateNetworks : list string := ["10.0.0.0/8"; "172.16.0.0/12"; "192.168.0.0/16"].

Record iptablesRulesManager : Type := mkRulesManager {
  rm_vpcCIDRs : list string;
  rm_primaryIP : string;
  rm_primaryInterface : string
}.

(** [err.Error()] of an error of go-iptables. *)
Definition ext_text (e : error) : string := match e with ExtErr msg => msg | _ => "" end.
Definition containChainExistErr (e : error) : bool := Contains (ext_text e) "Chain already exists".

(** [%#x] of the mark. *)
Definition connmark_hex : string := "0x80".

Definition podOutboundConnmarkJumpRule : Rule :=
  ["-i"; "ucni+"; "-m"; "comment"; "--comment"; "UCLOUD outbound connections";
   "-m"; "state"; "--state"; "NEW"; "-j"; connmarkChainName].
Definition natGWOutgoingBypassRule : Rule :=
  ["-m"; "set"; "--match-set"; natGWOutgoingEnabledIPSetName; "src";
   "-m"; "comment"; "--comment"; "UCLOUD NATGW OUTGOING ENABLED"; "-j"; "RETURN"].
Definition podOutboundConnmarkRule : Rule :=
  ["-m"; "comment"; "--comment"; "UCLOUD CONNMARK"; "-j"; "CONNMARK";
   "--set-xmark"; connmark_hex +:+ "/" +:+ connmark_hex].
Definition connmarkRestoreRule : Rule :=
  ["-m"; "comment"; "--comment"; "UCLOUD CONNMARK"; "-j"; "CONNMARK"; "--restore-mark"; "--mask"; connmark_hex].

Definition buildConnmarkPreroutingRules : list iptablesRule :=
  let jump b := mkIptRule "connmark rule for non-VPC outbound traffic" b "nat" "PREROUTING" podOutboundConnmarkJumpRule in
  let restore b := mkIptRule "connmark to fwmark copy" b "nat" "PREROUTING" connmarkRestoreRule in
  [jump false; jump true; restore false; restore true].

(** The rules of the SNAT chain: traffic to the VPC leaves it, the rest is
    translated. *)
Definition snat_cidr_rule (cidr : string) : Rule :=
  ["-d"; cidr; "-m"; "comment"; "--comment"; "UCLOUD SNAT CHAIN"; "-j"; "RETURN"].
Definition snat_rule (m : iptablesRulesManager) : Rule :=
  ["-o"; rm_primaryInterface m; "-m"; "comment"; "--comment"; "UCLOUD SNAT";
   "-m"; "addrtype"; "!"; "--dst-type"; "LOCAL"; "-j"; "SNAT"; "--to-source"; rm_primaryIP m].

Definition snat_rules (m : iptablesRulesManager) : list iptablesRule :=
  [mkIptRule "first SNAT rules for non-VPC outbound traffic" true "nat" "POSTROUTING"
     ["-m"; "comment"; "--comment"; "UCLOUD SNAT CHAIN"; "-j"; snatChainName]] ++
  ((λ cidr, mkIptRule snatChainName true "nat" snatChainName (snat_cidr_rule cidr)) <$> rm_vpcCIDRs m) ++
  [mkIptRule "SNAT rule for non-VPC outbound traffic" true "nat" snatChainName (snat_rule m);
   mkIptRule "connmark for primary interface" true "mangle" "PREROUTING"
     ["-m"; "comment"; "--comment"; "UCLOUD primary UNI"; "-i"; rm_primaryInterface m;
      "-m"; "addrtype"; "--dst-type"; "LOCAL"; "--limit-iface-in";
      "-j"; "CONNMARK"; "--set-mark"; connmark_hex +:+ "/" +:+ connmark_hex];
   mkIptRule "connmark restore for veth" true "mangle" "PREROUTING"
     ["-m"; "comment"; "--comment"; "UCLOUD primary UNI";
      "-i"; "ucni+"; "-j"; "CONNMARK"; "--restore-mark"; "--mask"; connmark_hex]].

Definition connmark_cidr_rule (cidr : string) : Rule :=
  ["-d"; cidr; "-m"; "comment"; "--comment"; "UCLOUD CONNMARK CHAIN, VPC CIDR"; "-j"; "RETURN"].

Definition connmark_rules (m : iptablesRulesManager) : list iptablesRule :=
  ((λ cidr, mkIptRule connmarkChainName true "nat" connmarkChainName (connmark_cidr_rule cidr)) <$> rm_vpcCIDRs m) ++
  [mkIptRule "connmark rule for external outbound traffic" true "nat" connmarkChainName podOutboundConnmarkRule].

Definition bypass_rules : list iptablesRule :=
  [mkIptRule connmarkChainName true "nat" connmarkChainName natGWOutgoingBypassRule].

Section ops.
Context {T : Type} `{!IptApi T, !IptMoreApi T}.

(** All CIDR rules must go before the SNAT or mark rule. *)
Definition goes_first (rule : iptablesRule) : bool :=
  String.eqb (ir_name rule) connmarkChainName || String.eqb (ir_name rule) snatChainName.

(** The body of the loop of [updateIptablesRules]. *)
Definition update_rule (rule : iptablesRule) : M T unit :=
  exists_ ← with_msg "failed to check iptables rule exists"
              (call (ipt_Exists false (ir_table rule) (ir_chain rule) (ir_rule rule)));
  if negb exists_ && ir_shouldExist rule then
    if goes_first rule
    then with_msg "failed to insert iptables rule"
           (call (ipt_Insert1 false (ir_table rule) (ir_chain rule) (ir_rule rule)))
    else with_msg "failed to append iptables rule"
           (call (ipt_Append false (ir_table rule) (ir_chain rule) (ir_rule rule)))
  else if exists_ && negb (ir_shouldExist rule)
  then with_msg "failed to delete iptables rule"
         (call (ipt_Delete (ir_table rule) (ir_chain rule) (ir_rule rule)))
  else mret tt.

Definition updateIptablesRules (rules : list iptablesRule) : M T unit := for_range rules update_rule.

Definition newIptablesRulesManager (primaryIP primaryInterface : string) : M T iptablesRulesManager :=
  call (ipt_New false);;
  mret (mkRulesManager privateNetworks primaryIP primaryInterface).

Definition ensureChain (table chain : string) : M T unit :=
  r ← attempt (call (ipt_NewChain table chain));
  match r with
  | inl err => if containChainExistErr err then mret tt else throw (Errorf "failed to create iptables chain")
  | inr _ => mret tt
  end.

Definition buildSNATRules (m : iptablesRulesManager) : M T (list iptablesRule) :=
  ensureChain "nat" snatChainName;; mret (snat_rules m).
Definition buildConnmarkRules (m : iptablesRulesManager) : M T (list iptablesRule) :=
  ensureChain "nat" connmarkChainName;; mret (connmark_rules m).

(** The two parts of [updateRules] that come before the optional migration. *)
Definition update_base_rules (m : iptablesRulesManager) : M T unit :=
  snatRules ← buildSNATRules m;
  updateIptablesRules snatRules;;
  connmarkRules ← buildConnmarkRules m;
  updateIptablesRules connmarkRules.

Definition needsNATGWOutgoingMigration : M T bool :=
  chainExists ← with_wrap "needsNATGWOutgoingMigration check chain" (call (ipt_ChainExists "nat" connmarkChainName));
  if negb chainExists then mret true else
  bypassExists ← with_wrap "needsNATGWOutgoingMigration check bypass rule"
                   (call (ipt_Exists false "nat" connmarkChainName natGWOutgoingBypassRule));
  mret (negb bypassExists).

Definition ensurePodMetadataBlocked : M T unit :=
  with_wrap "ensurePodMetadataBlocked open iptables" (call (ipt_New false));;
  updateIptablesRules
    [mkIptRule "block pod metadata access" true "raw" "PREROUTING"
       ["-i"; "ucni+"; "-d"; "100.80.80.80/32"; "-j"; "DROP"]].
End ops.

(** ** The rule set *)

Class IptMoreLaws (T : Type) `{!IptApi T, !IptMoreApi T, !IptLaws T} : Prop := {
  ipt_Delete_law tb ch r t :
    (∃ e, (ipt_Delete tb ch r t).1 = inl e ∧ tables (ipt_Delete tb ch r t).2 = tables t) ∨
    (∃ rs, (ipt_Delete tb ch r t).1 = inr tt ∧ tables t !! (false, tb, ch) = Some rs ∧ canon r ∈ rs ∧
       tables (ipt_Delete tb ch r t).2 = <[(false, tb, ch) := remove1 (canon r) rs]> (tables t));
  ipt_NewChain_law tb ch t :
    (∃ e, (ipt_NewChain tb ch t).1 = inl e ∧ tables (ipt_NewChain tb ch t).2 = tables t ∧
       (containChainExistErr e = true → is_Some (tables t !! (false, tb, ch)))) ∨
    ((ipt_NewChain tb ch t).1 = inr tt ∧ tables t !! (false, tb, ch) = None ∧
       tables (ipt_NewChain tb ch t).2 = <[(false, tb, ch) := []]> (tables t));
  ipt_ChainExists_keeps tb ch t : tables (ipt_ChainExists tb ch t).2 = tables t
}.

Section spec.
Context {T : Type} `{!IptApi T, !IptMoreApi T, !IptLaws T, !IptMoreLaws T}.
Implicit Types t : T.

Definition rule_at (r : iptablesRule) : bool * string * string := (false, ir_table r, ir_chain r).

(** What one entry means for the rule set. *)
Definition update_view (v : Tables) (r : iptablesRule) : Tables :=
  match v !! rule_at r with
  | None => v
  | Some rs =>
      let c := canon (ir_rule r) in
      if bool_decide (c ∈ rs)
      then if ir_shouldExist r then v else <[rule_at r := remove1 c rs]> v
      else if ir_shouldExist r
      then <[rule_at r := if goes_first r then c :: rs else rs ++ [c]]> v
      else v
  end.

Definition in_place (v : Tables) (r : iptablesRule) : Prop :=
  ∃ rs, v !! rule_at r = Some rs ∧ canon (ir_rule r) ∈ rs.

(** The CIDR rules [cs] of a chain come before its last rule [x]. *)
Definition before (cs : list Rule) (x : Rule) (rs : list Rule) : Prop :=
  ∀ l1 l2, rs = l1 ++ x :: l2 → ∀ c, c ∈ cs → c ∉ l2.
Definition chain_ordered (k : bool * string * string) (cs : list Rule) (x : Rule) (v : Tables) : Prop :=
  ∀ rs, v !! k = Some rs → before cs x rs.

(** ** Lemmas *)

Lemma wp_ipt_Exists tb ch r (Q : outcome bool → T → Prop) t :
  (∀ t', tables t' = tables t → Q (Ok (bool_decide (canon r ∈ default [] (tables t !! (false, tb, ch))))) t') →
  (∀ e t', tables t' = tables t → Q (Err e) t') →
  wp (call (ipt_Exists false tb ch r)) Q t.
Proof.
  intros Hok Herr. pose proof (ipt_Exists_keeps false tb ch r t) as Hk.
  pose proof (ipt_Exists_law false tb ch r t) as Hl. unfold wp, call.
  destruct (ipt_Exists _ _ _ _ t) as [[e|b] t1]; simpl in *; [by apply Herr|].
  rewrite (Hl b eq_refl). by apply Hok.
Qed.

(** A call that changes one existing chain, or fails. *)
Lemma wp_chain_call (c : Call T unit) k (P : list Rule → Prop) f (Q : outcome unit → T → Prop) t :
  ((∃ e, (c t).1 = inl e ∧ tables (c t).2 = tables t) ∨
   (∃ rs, (c t).1 = inr tt ∧ tables t !! k = Some rs ∧ P rs ∧ tables (c t).2 = <[k := f rs]> (tables t))) →
  (∀ rs t', tables t !! k = Some rs → P rs → tables t' = <[k := f rs]> (tables t) → Q (Ok tt) t') →
  (∀ e t', tables t' = tables t → Q (Err e) t') →
  wp (call c) Q t.
Proof.
  intros Hlaw Hok Herr. unfold wp, call.
  destruct Hlaw as [(e & E & Ht)|(rs & E & Hrs & HP & Ht)]; destruct (c t) as [x t']; simpl in *; subst x.
  - by apply Herr.
  - by eapply Hok.
Qed.

Lemma wp_put_rule (first : bool) tb ch r (Q : outcome unit → T → Prop) t :
  (∀ rs t', tables t !! (false, tb, ch) = Some rs →
     tables t' = <[(false, tb, ch) := if first then canon r :: rs else rs ++ [canon r]]> (tables t) → Q (Ok tt) t') →
  (∀ e t', tables t' = tables t → Q (Err e) t') →
  wp (call (if first then ipt_Insert1 false tb ch r else ipt_Append false tb ch r)) Q t.
Proof.
  intros Hok Herr.
  apply (wp_chain_call _ (false, tb, ch) (λ _, True) (λ rs, if first then canon r :: rs else rs ++ [canon r])).
  - destruct first;
      [destruct (ipt_Insert1_law false tb ch r t) as [?|(rs & ? & ? & ?)]
      |destruct (ipt_Append_law false tb ch r t) as [?|(rs & ? & ? & ?)]]; [by left|right; by exists rs|by left|right; by exists rs].
  - intros rs t' Hrs _. by apply Hok.
  - done.
Qed.

Lemma update_rule_spec r t :
  wp (update_rule r) (λ o t', returns o = true ∧
    ((o = Ok tt ∧ tables t' = update_view (tables t) r ∧ (ir_shouldExist r = true → in_place (tables t') r)) ∨
     (∃ e, o = Err e ∧ tables t' = tables t))) t.
Proof.
  unfold update_rule, update_view, in_place. do 2 wp_step.
  apply wp_ipt_Exists; fold (rule_at r); [|intros e t1 E; cbn [kont]; by eauto 6]. intros t1 Ht1. cbn [kont].
  case_bool_decide as Hin; simpl; rewrite <- Ht1 in *.
  - destruct (tables t1 !! rule_at r) as [rs|] eqn:Hrs; [|by apply elem_of_nil in Hin]. simpl in Hin.
    rewrite bool_decide_eq_true_2 by done. destruct (ir_shouldExist r); simpl.
    { wp_steps. split; [done|]. left. eauto. }
    wp_step. apply (wp_chain_call _ (rule_at r) (λ rs, canon (ir_rule r) ∈ rs) (remove1 (canon (ir_rule r)))).
    + apply ipt_Delete_law.
    + intros rs' t2 Hrs'. rewrite Hrs in Hrs'. injection Hrs' as <-. intros _ Ht. split; [done|]. by left.
    + intros e t2 Ht. split; [done|]. right. eauto.
  - destruct (ir_shouldExist r) eqn:Es; simpl.
    2:{ wp_steps. split; [done|]. left. split; [done|]. split; [|done].
        destruct (tables t1 !! rule_at r); [|done]. simpl in Hin. by rewrite bool_decide_eq_false_2. }
    pose proof (wp_put_rule (goes_first r) (ir_table r) (ir_chain r) (ir_rule r)) as Hput. fold (rule_at r) in Hput.
    destruct (goes_first r); wp_step; (apply Hput; [|by eauto 6]); intros rs t2 Hrs Ht;
      rewrite Hrs in Hin |- *; simpl in Hin; rewrite bool_decide_eq_false_2 by done;
      (split; [done|]); left; (split; [done|]); (split; [done|]); intros _; rewrite Ht, lookup_insert_eq;
      eexists; (split; [done|]); [apply list_elem_of_here|]; apply elem_of_app; right; apply list_elem_of_here.
Qed.
Lemma updateIptablesRules_spec rules t :
  wp (updateIptablesRules rules) (λ o t', returns o = true ∧
    ∃ l, l `prefix_of` rules ∧ tables t' = foldl update_view (tables t) l ∧ (o = Ok tt → l = rules)) t.
Proof.
  unfold updateIptablesRules. revert t. induction rules as [|r rules IH]; intros t; simpl.
  { wp_steps. split; [done|]. by exists []. }
  wp_step. wp_use update_rule_spec as (Hret & [(-> & Ht & _)|(e & -> & Ht)]); cbn [kont].
  - wp_use IH as (Hret2 & l & Hl & Ht2 & Hok). split; [done|]. exists (r :: l).
    split; [by apply prefix_cons|]. simpl. rewrite Ht2, Ht. split; [done|]. intros E. by rewrite (Hok E).
  - split; [done|]. exists []. split; [apply prefix_nil|done].
Qed.

(** *** Rules that should exist *)

Lemma update_view_in_place v r r' :
  ir_shouldExist r = true → in_place v r' → in_place (update_view v r) r'.
Proof.
  intros Hs (rs & Hrs & Hin). unfold update_view, in_place. rewrite Hs.
  destruct (v !! rule_at r) as [rs0|] eqn:E0; [|by eauto]. case_bool_decide; [by eauto|].
  destruct (decide (rule_at r = rule_at r')) as [Heq|Hne].
  - rewrite Heq in *. rewrite E0 in Hrs. injection Hrs as ->. rewrite lookup_insert_eq.
    eexists. split; [done|]. destruct (goes_first r); set_solver.
  - rewrite lookup_insert_ne by done. eauto.
Qed.

Lemma foldl_in_place l v r' :
  Forall (λ r, ir_shouldExist r = true) l → in_place v r' → in_place (foldl update_view v l) r'.
Proof.
  revert v. induction l as [|r l IH]; intros v; [done|]. intros [Hr Hl]%Forall_cons Hp. simpl.
  apply IH; [done|]. by apply update_view_in_place.
Qed.

Lemma foldl_in_place_noop l v :
  Forall (λ r, ir_shouldExist r = true) l → Forall (in_place v) l → foldl update_view v l = v.
Proof.
  induction l as [|r l IH]; [done|]. intros [Hr Hl]%Forall_cons [(rs & Hrs & Hin) Hp]%Forall_cons. simpl.
  assert (update_view v r = v) as ->; [|by apply IH].
  unfold update_view. rewrite Hrs, Hr. by rewrite bool_decide_eq_true_2.
Qed.

Lemma updateIptablesRules_in_place rules t :
  Forall (λ r, ir_shouldExist r = true) rules →
  wp (updateIptablesRules rules) (λ o t', o = Ok tt → Forall (in_place (tables t')) rules) t.
Proof.
  unfold updateIptablesRules. revert t. induction rules as [|r rules IH]; intros t; simpl.
  { intros _. wp_steps. done. }
  intros [Hr Hrs]%Forall_cons.
  wp_step. wp_use update_rule_spec as (Hret & [(-> & Ht & Hp)|(e & -> & Ht)]); cbn [kont]; [|done].
  specialize (Hp Hr). pose proof (updateIptablesRules_spec rules st) as Hspec.
  specialize (IH st Hrs). unfold wp, updateIptablesRules in *.
  destruct (for_range rules update_rule st) as [o2 t2]. simpl in *.
  destruct Hspec as (_ & l & _ & Ht2 & Hl). intros E. apply Forall_cons. split; [|by apply IH].
  rewrite Ht2, (Hl E). by apply foldl_in_place.
Qed.

(** *** The order in a chain *)

(** An entry of the chain [k] is wanted, and either goes first and is not [x], or is [x]. *)
Definition entry_fits (k : bool * string * string) (x : Rule) (r : iptablesRule) : Prop :=
  rule_at r = k → ir_shouldExist r = true ∧
    if goes_first r then canon (ir_rule r) ≠ x else canon (ir_rule r) = x.

Lemma update_view_ordered k cs x r v :
  entry_fits k x r → chain_ordered k cs x v → chain_ordered k cs x (update_view v r).
Proof.
  intros Hf Ho rs'. unfold update_view. destruct (v !! rule_at r) as [rs|] eqn:E; [|by apply Ho].
  destruct (decide (rule_at r = k)) as [Hk|Hne].
  2:{ destruct (bool_decide _), (ir_shouldExist r); rewrite ?lookup_insert_ne by done; by apply Ho. }
  destruct (Hf Hk) as [Hs Hx]. rewrite Hs. clear Hf. rename Hx into Hf. case_bool_decide as Hin; [by apply Ho|].
  rewrite Hk in *. rewrite lookup_insert_eq. intros [= <-].
  destruct (goes_first r); intros l1 l2 Hl c Hc.
  - destruct l1 as [|y l1]; injection Hl as Hy Hl; [by subst|]. by eapply Ho.
  - subst x. destruct (app_eq_inv _ _ _ _ Hl) as [(k1 & H1 & H2)|(k1 & H1 & H2)].
    + destruct k1 as [|y k1]; simpl in *; [injection H2 as H2; subst l2; apply not_elem_of_nil|].
      exfalso. injection H2 as Hy H2. subst rs y. apply Hin. set_solver.
    + destruct k1 as [|y k1]; simpl in *; [injection H2 as H2; subst l2; apply not_elem_of_nil|].
      injection H2 as Hy H2. by destruct k1.
Qed.

Lemma foldl_ordered k cs x l v :
  Forall (entry_fits k x) l → chain_ordered k cs x v → chain_ordered k cs x (foldl update_view v l).
Proof.
  revert v. induction l as [|r l IH]; intros v; [done|]. intros [Hr Hl]%Forall_cons Ho. simpl.
  apply IH; [done|]. by apply update_view_ordered.
Qed.

Lemma wp_ensureChain tb ch (Q : outcome unit → T → Prop) t :
  (∀ t', tables t' = tables t ∨ (tables t !! (false, tb, ch) = None ∧ tables t' = <[(false, tb, ch) := []]> (tables t)) →
     is_Some (tables t' !! (false, tb, ch)) → Q (Ok tt) t') →
  (∀ e t', tables t' = tables t → Q (Err e) t') →
  wp (ensureChain tb ch) Q t.
Proof.
  intros Hok Herr. unfold ensureChain. do 2 wp_step. pose proof (ipt_NewChain_law tb ch t) as Hl.
  unfold wp at 1, call. destruct Hl as [(e & E & Ht & Hex)|(E & Hn & Ht)];
    destruct (ipt_NewChain tb ch t) as [x t']; simpl in *; subst x; cbn [fst snd kont].
  - destruct (containChainExistErr e) eqn:He; wp_steps; [|by apply Herr].
    apply Hok; [by left|]. rewrite Ht. by apply Hex.
  - wp_steps. apply Hok; [by right|]. rewrite Ht, lookup_insert_eq. by eexists.
Qed.

Lemma chain_ordered_new k cs x v v' k' :
  chain_ordered k cs x v → v' = v ∨ (v !! k' = None ∧ v' = <[k' := []]> v) → chain_ordered k cs x v'.
Proof.
  intros Ho [->|[Hn ->]]; [done|]. intros rs. destruct (decide (k = k')) as [->|Hne].
  - rewrite lookup_insert_eq. intros [= <-] [|? ?] l2 Hl; discriminate.
  - rewrite lookup_insert_ne by done. apply Ho.
Qed.

Lemma update_rules_ordered k cs x rules t :
  Forall (entry_fits k x) rules → chain_ordered k cs x (tables t) →
  wp (updateIptablesRules rules) (λ o t', returns o = true ∧ chain_ordered k cs x (tables t')) t.
Proof.
  intros Hfit Ho. wp_use updateIptablesRules_spec as (Hret & l & [l' Hl] & Ht & _). split; [done|].
  rewrite Ht. apply foldl_ordered; [|done]. rewrite Hl in Hfit. by apply Forall_app in Hfit as [? _].
Qed.

(** Ensuring a chain and its rules keeps the order of every chain they fit. *)
Lemma ensure_update_ordered k cs x tb ch rules t :
  Forall (entry_fits k x) rules → chain_ordered k cs x (tables t) →
  wp (ensureChain tb ch;; updateIptablesRules rules) (λ o t', returns o = true ∧
    chain_ordered k cs x (tables t')) t.
Proof.
  intros Hfit Ho. wp_step. apply wp_ensureChain; cbn [kont].
  - intros t1 Ht1 _. apply update_rules_ordered; [done|]. by eapply chain_ordered_new.
  - intros e t1 Ht. split; [done|]. by rewrite Ht.
Qed.

Lemma update_base_rules_eq m t :
  update_base_rules m t =
    ((ensureChain "nat" snatChainName;; updateIptablesRules (snat_rules m));;
     (ensureChain "nat" connmarkChainName;; updateIptablesRules (connmark_rules m))) t.
Proof.
  unfold update_base_rules, buildSNATRules, buildConnmarkRules. cbv [mbind M_bind mret M_ret].
  destruct (ensureChain _ _ t) as [[[]|e|w|] t1]; try done.
  destruct (updateIptablesRules _ t1) as [[[]|e|w|] t2]; try done.
  by destruct (ensureChain _ _ t2) as [[[]|e|w|] t3].
Qed.

(** The chains that the manager fills, with the rules that must come last. *)
Definition snat_key : bool * string * string := (false, "nat", snatChainName).
Definition connmark_key : bool * string * string := (false, "nat", connmarkChainName).
Definition vpc_first (m : iptablesRulesManager) (v : Tables) : Prop :=
  chain_ordered snat_key ((λ c, canon (snat_cidr_rule c)) <$> rm_vpcCIDRs m) (canon (snat_rule m)) v ∧
  chain_ordered connmark_key (canon natGWOutgoingBypassRule :: ((λ c, canon (connmark_cidr_rule c)) <$> rm_vpcCIDRs m))
    (canon podOutboundConnmarkRule) v.

(** iptables prints the rules of the chains differently. *)
Definition rules_differ (m : iptablesRulesManager) : Prop :=
  (canon (snat_rule m) ∉ ((λ c, canon (snat_cidr_rule c)) <$> rm_vpcCIDRs m)) ∧
  (canon podOutboundConnmarkRule ∉
    (canon natGWOutgoingBypassRule :: ((λ c, canon (connmark_cidr_rule c)) <$> rm_vpcCIDRs m))).

Lemma cidr_entries_fit k x name tb ch (f : string → Rule) cidrs :
  (String.eqb name connmarkChainName || String.eqb name snatChainName) = true →
  x ∉ ((λ c, canon (f c)) <$> cidrs) →
  Forall (entry_fits k x) ((λ c, mkIptRule name true tb ch (f c)) <$> cidrs).
Proof.
  intros Hn Hx. apply Forall_fmap, Forall_forall. intros c Hc _. split; [done|].
  unfold goes_first. simpl. rewrite Hn. intros Heq. apply Hx. rewrite <- Heq.
  apply list_elem_of_fmap. eauto.
Qed.

Lemma other_entry_fits k x r : rule_at r ≠ k → entry_fits k x r.
Proof. by intros Hne ?. Qed.

(** The rules of [PREROUTING] are in none of the two chains, the bypass rule goes first. *)
Lemma prerouting_fit k x : k = snat_key ∨ k = connmark_key → Forall (entry_fits k x) buildConnmarkPreroutingRules.
Proof.
  intros Hk. unfold buildConnmarkPreroutingRules.
  repeat (apply Forall_cons; split; [apply other_entry_fits; by destruct Hk as [-> | ->]|]). constructor.
Qed.
Lemma bypass_fit k x :
  (k = connmark_key ∧ canon natGWOutgoingBypassRule ≠ x) ∨ k = snat_key → Forall (entry_fits k x) bypass_rules.
Proof.
  intros [[-> Hx]| ->]; (constructor; [|done]); [by intros _|by apply other_entry_fits].
Qed.

Lemma snat_rules_fit m k x :
  (k = snat_key ∧ x = canon (snat_rule m) ∧ canon (snat_rule m) ∉ ((λ c, canon (snat_cidr_rule c)) <$> rm_vpcCIDRs m)) ∨
  k = connmark_key →
  Forall (entry_fits k x) (snat_rules m).
Proof.
  intros Hk. unfold snat_rules. apply Forall_app. split; [|apply Forall_app; split].
  - constructor; [|done]. apply other_entry_fits. by destruct Hk as [[-> _]| ->].
  - destruct Hk as [(-> & -> & Hx)| ->]; [by apply cidr_entries_fit|].
    apply Forall_fmap, Forall_forall. intros c _. by apply other_entry_fits.
  - repeat constructor; try done; destruct Hk as [(-> & -> & _)| ->]; done.
Qed.

Lemma connmark_rules_fit m k x :
  (k = connmark_key ∧ x = canon podOutboundConnmarkRule ∧
     canon podOutboundConnmarkRule ∉ ((λ c, canon (connmark_cidr_rule c)) <$> rm_vpcCIDRs m)) ∨
  k = snat_key →
  Forall (entry_fits k x) (connmark_rules m).
Proof.
  intros Hk. unfold connmark_rules. apply Forall_app. split.
  - destruct Hk as [(-> & -> & Hx)| ->]; [by apply cidr_entries_fit|].
    apply Forall_fmap, Forall_forall. intros c _. by apply other_entry_fits.
  - constructor; [|done]. split; [done|]. simpl. by destruct Hk as [(-> & -> & _)| ->].
Qed.

Lemma update_base_rules_ordered m t :
  rules_differ m → vpc_first m (tables t) →
  wp (update_base_rules m) (λ o t', returns o = true ∧ vpc_first m (tables t')) t.
Proof.
  intros [Hd1 Hd2] [Ho1 Ho2]. rewrite not_elem_of_cons in Hd2. destruct Hd2 as [_ Hd2].
  unfold wp. rewrite update_base_rules_eq.
  match goal with |- context [?x t] => change (wp x (λ o t', returns o = true ∧ vpc_first m (tables t')) t) end.
  wp_step. apply (wp_mono _ (λ o t', returns o = true ∧ vpc_first m (tables t'))).
  { pose proof (ensure_update_ordered _ _ _ "nat" snatChainName (snat_rules m) t
      (snat_rules_fit m _ _ (or_introl (conj eq_refl (conj eq_refl Hd1)))) Ho1) as [Hr H1].
    pose proof (ensure_update_ordered _ _ _ "nat" snatChainName (snat_rules m) t
      (snat_rules_fit m _ _ (or_intror eq_refl)) Ho2) as [_ H2]. by split; [|split]. }
  intros [[]|e| |] t1 [Hr [H1 H2]]; [|by cbn [kont]; split|done|done]; cbn [kont].
  pose proof (ensure_update_ordered _ _ _ "nat" connmarkChainName (connmark_rules m) t1
    (connmark_rules_fit m _ _ (or_intror eq_refl)) H1) as [Hr' H1'].
  pose proof (ensure_update_ordered _ _ _ "nat" connmarkChainName (connmark_rules m) t1
    (connmark_rules_fit m _ _ (or_introl (conj eq_refl (conj eq_refl Hd2)))) H2) as [_ H2']. by split; [|split].
Qed.

(** *** The ranges are there before the last rule *)

(** Every occurrence of the last rule [x] has all of [cs] before it. *)
Definition chain_guarded (k : bool * string * string) (cs : list Rule) (x : Rule) (v : Tables) : Prop :=
  ∀ rs l1 l2, v !! k = Some rs → rs = l1 ++ x :: l2 → ∀ c, c ∈ cs → c ∈ l1.
Definition vpc_guarded (m : iptablesRulesManager) (v : Tables) : Prop :=
  chain_guarded snat_key ((λ c, canon (snat_cidr_rule c)) <$> rm_vpcCIDRs m) (canon (snat_rule m)) v ∧
  chain_guarded connmark_key ((λ c, canon (connmark_cidr_rule c)) <$> rm_vpcCIDRs m) (canon podOutboundConnmarkRule) v.

(** Entries that put rules into the chain [k] in an order that guards [x]: all of [cs]
    are among [seen] or come first. *)
Fixpoint guarding (k : bool * string * string) (cs : list Rule) (x : Rule) (seen : list Rule) (rules : list iptablesRule) : Prop :=
  match rules with
  | [] => True
  | r :: rules =>
      (rule_at r ≠ k ∧ guarding k cs x seen rules) ∨
      (rule_at r = k ∧ ir_shouldExist r = true ∧
         (if goes_first r then canon (ir_rule r) ≠ x ∧ guarding k cs x (canon (ir_rule r) :: seen) rules
          else canon (ir_rule r) = x ∧ (∀ c, c ∈ cs → c ∈ seen) ∧ guarding k cs x seen rules))
  end.

Definition seen_in (k : bool * string * string) (seen : list Rule) (v : Tables) : Prop :=
  ∀ rs c, v !! k = Some rs → c ∈ seen → c ∈ rs.

Lemma update_view_other k r v : rule_at r ≠ k → update_view v r !! k = v !! k.
Proof.
  intros Hne. unfold update_view. destruct (v !! rule_at r); [|done].
  destruct (bool_decide _), (ir_shouldExist r); rewrite ?lookup_insert_ne by done; done.
Qed.
Lemma update_view_wanted r v : ir_shouldExist r = true →
  update_view v r !! rule_at r =
    (λ rs, if bool_decide (canon (ir_rule r) ∈ rs) then rs
           else if goes_first r then canon (ir_rule r) :: rs else rs ++ [canon (ir_rule r)]) <$> v !! rule_at r.
Proof.
  intros Hs. unfold update_view. rewrite Hs. destruct (v !! rule_at r) as [rs|] eqn:Ev; [|exact Ev].
  simpl. case_bool_decide; [exact Ev|]. apply lookup_insert_eq.
Qed.

Lemma foldl_guarded k cs x l rules seen v :
  l `prefix_of` rules → guarding k cs x seen rules → chain_guarded k cs x v → seen_in k seen v →
  chain_guarded k cs x (foldl update_view v l).
Proof.
  intros [l' ->]. revert seen v. induction l as [|r l IH]; intros seen v; [done|]. simpl. intros Hg Hv Hs.
  destruct Hg as [[Hne Hg]|(Hk & Hw & Hg)].
  { apply (IH seen); [exact Hg| |]; unfold chain_guarded, seen_in; by rewrite update_view_other. }
  pose proof (update_view_wanted r v Hw) as Hu. rewrite Hk in Hu.
  destruct (goes_first r); [destruct Hg as [Hx Hg]; apply (IH (canon (ir_rule r) :: seen)); [exact Hg| |]
                           |destruct Hg as (Hx & Hall & Hg); apply (IH seen); [exact Hg| |]].
  - intros rs l1 l2. rewrite Hu. intros (rs0 & Hrs0 & ->)%fmap_Some Hrs c Hc. case_bool_decide; [by eapply Hv|].
    destruct l1 as [|y l1]; injection Hrs as Hy Hrs; [by subst|]. apply list_elem_of_further. by eapply Hv.
  - intros rs c. rewrite Hu. intros (rs0 & Hrs0 & ->)%fmap_Some Hc. case_bool_decide as Hd.
    + apply elem_of_cons in Hc as [->|Hc]; [done|by eapply Hs].
    + apply elem_of_cons in Hc as [->|Hc]; [apply list_elem_of_here|]. apply list_elem_of_further. by eapply Hs.
  - intros rs l1 l2. rewrite Hu. intros (rs0 & Hrs0 & ->)%fmap_Some. case_bool_decide as Hd; [by intros; eapply Hv|].
    rewrite Hx in *. intros Hrs c Hc. destruct (app_eq_inv _ _ _ _ Hrs) as [(k1 & H1 & H2)|(k1 & H1 & H2)].
    + destruct k1 as [|y k1]; simpl in *.
      { rewrite app_nil_r in H1. subst l1. eapply Hs; [done|by apply Hall]. }
      injection H2 as Hy H2. exfalso. apply Hd. rewrite H1, <- Hy. set_solver.
    + destruct k1 as [|y k1]; simpl in *; [|by injection H2 as _ ?; destruct k1].
      rewrite app_nil_r in H1. subst l1. eapply Hs; [done|by apply Hall].
  - intros rs c. rewrite Hu. intros (rs0 & Hrs0 & ->)%fmap_Some Hc. assert (c ∈ rs0) by (by eapply Hs).
    case_bool_decide; [done|]. set_solver.
Qed.

Lemma ensure_update_guarded k cs x tb ch rules t :
  guarding k cs x [] rules → chain_guarded k cs x (tables t) →
  wp (ensureChain tb ch;; updateIptablesRules rules) (λ o t', chain_guarded k cs x (tables t')) t.
Proof.
  intros Hg Ho. wp_step. apply wp_ensureChain; cbn [kont]; [|by intros e t1 ->]. intros t1 Ht1 _.
  wp_use updateIptablesRules_spec as (_ & l & Hl & -> & _).
  apply (foldl_guarded k cs x l rules []); [done|done| |by intros ?? _ ?%elem_of_nil].
  destruct Ht1 as [->|[Hn ->]]; [done|]. intros rs l1 l2. destruct (decide (k = (false, tb, ch))) as [->|Hne].
  - rewrite lookup_insert_eq. intros [= <-]. by destruct l1.
  - rewrite lookup_insert_ne by done. apply Ho.
Qed.

Lemma guarding_others k cs x seen rules : Forall (λ r, rule_at r ≠ k) rules → guarding k cs x seen rules.
Proof. induction 1; [done|]. left. by split. Qed.

(** The ranges come first, then the last rule. *)
Lemma guarding_cidrs name tb ch (f : string → Rule) cidrs x r rest seen (cs : list Rule) :
  (String.eqb name connmarkChainName || String.eqb name snatChainName) = true →
  x ∉ ((λ c, canon (f c)) <$> cidrs) → ir_shouldExist r = true → rule_at r = (false, tb, ch) → goes_first r = false →
  canon (ir_rule r) = x → Forall (λ r, rule_at r ≠ (false, tb, ch)) rest →
  (∀ c, c ∈ cs → c ∈ seen ∨ c ∈ ((λ c, canon (f c)) <$> cidrs)) →
  guarding (false, tb, ch) cs x seen (((λ c, mkIptRule name true tb ch (f c)) <$> cidrs) ++ r :: rest).
Proof.
  intros Hn Hx Hw Hr Hf Hc Hrest. revert seen. induction cidrs as [|c cidrs IH]; intros seen Hs; simpl.
  - right. split; [done|]. split; [done|]. rewrite Hf. split; [done|]. split; [|by apply guarding_others].
    intros c' Hc'. by destruct (Hs c' Hc') as [?|?%elem_of_nil].
  - right. split; [done|]. split; [done|]. unfold goes_first at 1. simpl. rewrite Hn.
    simpl in Hx. rewrite not_elem_of_cons in Hx. destruct Hx as [Hx1 Hx2]. split; [congruence|]. apply IH; [done|].
    intros c' Hc'. rewrite elem_of_cons. specialize (Hs c' Hc'). simpl in Hs. rewrite elem_of_cons in Hs. tauto.
Qed.

Lemma update_base_rules_guarded m t :
  rules_differ m → vpc_guarded m (tables t) → wp (update_base_rules m) (λ o t', vpc_guarded m (tables t')) t.
Proof.
  intros [Hd1 Hd2] [Ho1 Ho2]. rewrite not_elem_of_cons in Hd2. destruct Hd2 as [_ Hd2].
  unfold wp. rewrite update_base_rules_eq.
  match goal with |- context [?x t] => change (wp x (λ o t', vpc_guarded m (tables t')) t) end.
  assert (∀ k cs x t, guarding k cs x [] (snat_rules m) → chain_guarded k cs x (tables t) →
    wp (ensureChain "nat" snatChainName;; updateIptablesRules (snat_rules m)) (λ _ t', chain_guarded k cs x (tables t')) t) as E1
    by (intros; by apply ensure_update_guarded).
  assert (∀ k cs x t, guarding k cs x [] (connmark_rules m) → chain_guarded k cs x (tables t) →
    wp (ensureChain "nat" connmarkChainName;; updateIptablesRules (connmark_rules m)) (λ _ t', chain_guarded k cs x (tables t')) t) as E2
    by (intros; by apply ensure_update_guarded).
  wp_step. apply (wp_mono _ (λ o t', vpc_guarded m (tables t'))).
  { split; [apply E1; [|done]|apply E1; [|done]].
    - unfold snat_rules. left. split; [done|].
      by apply (guarding_cidrs _ _ _ snat_cidr_rule); [..|repeat constructor|by right].
    - apply guarding_others. unfold snat_rules. apply Forall_app. split; [by repeat constructor|]. apply Forall_app.
      split; [|by repeat constructor]. apply Forall_fmap, Forall_forall. by intros. }
  intros [[]|e| |] t1 [H1 H2]; [|by split..]; cbn [kont]. split; [apply E2; [|done]|apply E2; [|done]].
  - apply guarding_others. unfold connmark_rules. apply Forall_app. split; [|by repeat constructor].
    apply Forall_fmap, Forall_forall. by intros.
  - unfold connmark_rules. by apply (guarding_cidrs _ _ _ connmark_cidr_rule); [..|constructor|by right].
Qed.

(** After success every rule is there. *)
Lemma update_base_rules_in_place m t :
  wp (update_base_rules m) (λ o t', o = Ok tt → Forall (in_place (tables t')) (snat_rules m ++ connmark_rules m)) t.
Proof.
  assert (Forall (λ r, ir_shouldExist r = true) (snat_rules m) ∧ Forall (λ r, ir_shouldExist r = true) (connmark_rules m)) as [Hs1 Hs2].
  { assert (∀ name tb ch (f : string → Rule), Forall (λ r, ir_shouldExist r = true)
      ((λ c, mkIptRule name true tb ch (f c)) <$> rm_vpcCIDRs m)) by (intros; apply Forall_fmap, Forall_forall; by intros).
    split; unfold snat_rules, connmark_rules; repeat first [apply Forall_app; split; [|] | apply Forall_cons; split; [done|]]; done. }
  unfold wp. rewrite update_base_rules_eq.
  match goal with |- context [?x t] => change (wp x (λ o t', o = Ok tt →
    Forall (in_place (tables t')) (snat_rules m ++ connmark_rules m)) t) end.
  wp_step. apply (wp_mono _ (λ o t', o = Ok tt → Forall (in_place (tables t')) (snat_rules m))).
  { wp_step. apply wp_ensureChain; cbn [kont]; [|done]. intros t1 _ _. by apply updateIptablesRules_in_place. }
  intros [[]|e| |] t1 H1; cbn [kont]; try done. specialize (H1 eq_refl). wp_step.
  apply wp_ensureChain; cbn [kont]; [|done]. intros t2 Ht2 _.
  assert (Forall (in_place (tables t2)) (snat_rules m)) as H2.
  { destruct Ht2 as [->|[Hn ->]]; [done|]. eapply Forall_impl; [exact H1|]. intros r (rs & Hrs & Hin).
    exists rs. split; [|done]. rewrite lookup_insert_ne; [done|]. intros Hq. congruence. }
  pose proof (updateIptablesRules_in_place (connmark_rules m) t2 Hs2) as H3.
  pose proof (updateIptablesRules_spec (connmark_rules m) t2) as (_ & l & [l' Hl] & Ht & _). unfold wp in *.
  intros Ho. apply Forall_app. split; [|by apply H3]. rewrite Ht. eapply Forall_impl; [exact H2|]. intros r Hr.
  apply foldl_in_place; [|done]. rewrite Hl in Hs2. by apply Forall_app in Hs2 as [? _].
Qed.

(** *** Where the rules of a chain come from *)

Definition added_by (rules : list iptablesRule) (k : bool * string * string) (c : Rule) : Prop :=
  ∃ r, r ∈ rules ∧ rule_at r = k ∧ canon (ir_rule r) = c.
Definition rules_at (k : bool * string * string) (v : Tables) : list Rule := default [] (v !! k).

Lemma remove1_elem r x l : x ∈ remove1 r l → x ∈ l.
Proof. intros Hx. by eapply elem_of_sublist, remove1_sublist. Qed.

Lemma update_view_elem k c r v : c ∈ rules_at k (update_view v r) → c ∈ rules_at k v ∨ added_by [r] k c.
Proof.
  unfold update_view, rules_at. destruct (v !! rule_at r) as [rs|] eqn:E; [|by left].
  destruct (decide (rule_at r = k)) as [<-|Hne].
  - rewrite E. simpl. case_bool_decide; destruct (ir_shouldExist r); rewrite ?E, ?lookup_insert_eq; simpl; try by left.
    + intros ?%remove1_elem. by left.
    + destruct (goes_first r); rewrite ?elem_of_cons, ?elem_of_app, ?list_elem_of_singleton;
        intros Hx; (assert (c ∈ rs ∨ c = canon (ir_rule r)) as [?| ->] by tauto; [by left|]);
        right; exists r; (split; [apply list_elem_of_here|done]).
  - destruct (bool_decide _), (ir_shouldExist r); rewrite ?lookup_insert_ne by done; by left.
Qed.

Lemma foldl_elem k c l v : c ∈ rules_at k (foldl update_view v l) → c ∈ rules_at k v ∨ added_by l k c.
Proof.
  revert v. induction l as [|r l IH]; simpl; intros v H; [by left|].
  destruct (IH _ H) as [[Hv|(r' & Hr & ?)]%update_view_elem|(r' & Hr & ?)]; [by left| |].
  - right. exists r'. split; [|done]. apply list_elem_of_singleton in Hr as ->. apply list_elem_of_here.
  - right. exists r'. split; [by apply list_elem_of_further|done].
Qed.

Lemma update_rules_elem rules k c t :
  wp (updateIptablesRules rules) (λ o t',
    c ∈ rules_at k (tables t') → c ∈ rules_at k (tables t) ∨ added_by rules k c) t.
Proof.
  wp_use updateIptablesRules_spec as (_ & l & [l' ->] & Ht & _). rewrite Ht. intros [?|(r & Hr & ?)]%foldl_elem; [by left|].
  right. exists r. split; [|done]. apply elem_of_app. by left.
Qed.

Lemma ensureChain_elem tb ch k c t :
  wp (ensureChain tb ch) (λ o t', c ∈ rules_at k (tables t') → c ∈ rules_at k (tables t)) t.
Proof.
  apply wp_ensureChain; [|by intros e t' ->]. intros t' [->|[Hn ->]] _; [done|]. unfold rules_at.
  destruct (decide (k = (false, tb, ch))) as [->|Hne]; [|by rewrite lookup_insert_ne].
  rewrite lookup_insert_eq. simpl. by intros ?%not_elem_of_nil.
Qed.

Lemma ensure_rules_elem tb ch rules k c t :
  wp (ensureChain tb ch;; updateIptablesRules rules) (λ o t',
    c ∈ rules_at k (tables t') → c ∈ rules_at k (tables t) ∨ added_by rules k c) t.
Proof.
  wp_step. wp_use (ensureChain_elem _ _ k c) as Hc. destruct o as [[]|e| |]; cbn [kont]; try (intros; left; by apply Hc).
  wp_use update_rules_elem as Hu. intros H. destruct (Hu H) as [?|?]; [left; by apply Hc|by right].
Qed.

Lemma update_base_rules_elem m k c t :
  wp (update_base_rules m) (λ o t',
    c ∈ rules_at k (tables t') → c ∈ rules_at k (tables t) ∨ added_by (snat_rules m ++ connmark_rules m) k c) t.
Proof.
  assert (∀ l, (l = snat_rules m ∨ l = connmark_rules m) → added_by l k c →
    added_by (snat_rules m ++ connmark_rules m) k c) as Happ.
  { intros l Hl (r & Hr & ?). exists r. split; [|done]. apply elem_of_app. destruct Hl as [-> | ->]; auto. }
  unfold wp. rewrite update_base_rules_eq.
  match goal with |- context [?x t] => change (wp x (λ o t', c ∈ rules_at k (tables t') →
    c ∈ rules_at k (tables t) ∨ added_by (snat_rules m ++ connmark_rules m) k c) t) end.
  wp_step. wp_use (ensure_rules_elem _ _ _ k c) as Hc.
  assert (c ∈ rules_at k (tables st) →
    c ∈ rules_at k (tables t) ∨ added_by (snat_rules m ++ connmark_rules m) k c) as Hc'.
  { intros H. destruct (Hc H) as [?|?]; [by left|right; by apply (Happ _ (or_introl eq_refl))]. }
  destruct o as [[]|e| |]; cbn [kont]; [|exact Hc'..].
  wp_use ensure_rules_elem as Hu. intros H. destruct (Hu H) as [H1|?]; [by apply Hc'|right; by apply (Happ _ (or_intror eq_refl))].
Qed.

(** *** Taking a rule out and appending it again *)

Lemma remove1_notin r l : r ∉ l → remove1 r l = l.
Proof.
  induction l as [|x l IH]; [done|]. rewrite not_elem_of_cons. intros [? ?]. simpl.
  rewrite bool_decide_eq_false_2 by congruence. by rewrite IH.
Qed.

Lemma remove1_snoc r x l : r ≠ x → remove1 r (l ++ [x]) = remove1 r l ++ [x].
Proof.
  intros Hne. induction l as [|y l IH]; simpl; [by rewrite bool_decide_eq_false_2 by congruence|].
  case_bool_decide; [done|]. by rewrite IH.
Qed.

Lemma remove1_comm a b l : remove1 a (remove1 b l) = remove1 b (remove1 a l).
Proof.
  induction l as [|x l IH]; [done|]. simpl.
  destruct (bool_decide (x = a)) eqn:Ea, (bool_decide (x = b)) eqn:Eb; simpl; rewrite ?Ea, ?Eb; try done.
  - apply bool_decide_eq_true_1 in Ea, Eb. by subst.
  - by rewrite IH.
Qed.

Lemma reattach_view name ch r rs v :
  let c := canon r in
  v !! (false, "nat", ch) = Some rs → c ∉ remove1 c rs →
  (String.eqb name connmarkChainName || String.eqb name snatChainName) = false →
  foldl update_view v [mkIptRule name false "nat" ch r; mkIptRule name true "nat" ch r]
  = <[(false, "nat", ch) := remove1 c rs ++ [c]]> v.
Proof.
  intros c Hrs Hc Hn. simpl. unfold update_view, rule_at, goes_first. simpl. fold c.
  set (k := (false, "nat", ch)) in *. rewrite Hrs, Hn.
  assert ((if bool_decide (c ∈ rs) then <[k := remove1 c rs]> v else v) = <[k := remove1 c rs]> v) as ->.
  { case_bool_decide; [done|]. by rewrite remove1_notin, insert_id. }
  rewrite lookup_insert_eq, bool_decide_eq_false_2 by done. by rewrite insert_insert_eq.
Qed.

(** ** Theorems *)

(** An update carries out a prefix of its rules; one that succeeds has put all of
    them in place, and a second run changes nothing. *)
Theorem updateIptablesRules_correct rules t :
  wp (updateIptablesRules rules) (λ o t', returns o = true ∧
    (∃ l, l `prefix_of` rules ∧ tables t' = foldl update_view (tables t) l ∧ (o = Ok tt → l = rules)) ∧
    (o = Ok tt → Forall (λ r, ir_shouldExist r = true) rules →
       Forall (in_place (tables t')) rules ∧ foldl update_view (tables t') rules = tables t')) t.
Proof.
  pose proof (updateIptablesRules_spec rules t) as [Hret Hl]. split; [done|]. split; [done|].
  intros Ho Hs. pose proof (updateIptablesRules_in_place rules t Hs Ho) as Hp.
  split; [done|]. by apply foldl_in_place_noop.
Qed.

(** C35: The update of the node rules keeps, at whatever call it fails: wherever the
    SNAT rule or the mark rule is in its chain, the return rules of all VPC ranges are
    there before it and none of them after it, so that traffic inside the VPC is never
    translated or marked. After success all rules are in place. *)
Theorem update_base_rules_correct m t :
  rules_differ m → vpc_first m (tables t) → vpc_guarded m (tables t) →
  wp (update_base_rules m) (λ o t', returns o = true ∧ vpc_first m (tables t') ∧ vpc_guarded m (tables t') ∧
    (o = Ok tt → Forall (in_place (tables t')) (snat_rules m ++ connmark_rules m))) t.
Proof.
  intros Hd Hf Hg. destruct (update_base_rules_ordered m t Hd Hf) as [H1 H2].
  pose proof (update_base_rules_guarded m t Hd Hg). pose proof (update_base_rules_in_place m t). by split_and!.
Qed.

(** When the update of the PREROUTING rules succeeds, the jump to the mark chain
    and, after it, the restore rule are the last two rules of that chain, once each, and
    all others keep their order. *)
Theorem prerouting_reattached t rs :
  let jump := canon podOutboundConnmarkJumpRule in
  let restore := canon connmarkRestoreRule in
  jump ≠ restore → tables t !! (false, "nat", "PREROUTING") = Some rs →
  jump ∉ remove1 jump rs → restore ∉ remove1 restore rs →
  wp (updateIptablesRules buildConnmarkPreroutingRules) (λ o t', returns o = true ∧
    (o = Ok tt → tables t' =
       <[(false, "nat", "PREROUTING") := remove1 restore (remove1 jump rs) ++ [jump; restore]]> (tables t))) t.
Proof.
  intros jump restore Hne Hrs Hj Hr.
  pose proof (updateIptablesRules_spec buildConnmarkPreroutingRules t) as (Hret & l & _ & Ht & Hl).
  split; [done|]. intros Ho. rewrite Ht, (Hl Ho). clear Ht Hl Hret l Ho.
  unfold buildConnmarkPreroutingRules. cbv zeta.
  match goal with |- foldl _ _ [?a; ?b; ?c; ?d] = _ => change [a; b; c; d] with ([a; b] ++ [c; d]) end.
  rewrite foldl_app.
  pose proof (reattach_view _ _ _ _ (tables t) Hrs Hj
    (eq_refl : (String.eqb "connmark rule for non-VPC outbound traffic" connmarkChainName || _) = false)) as ->.
  fold jump. set (t1 := <[_ := _]> (tables t)).
  assert (restore ∉ remove1 restore (remove1 jump rs)) as Hr2.
  { rewrite remove1_comm. intros Hin. apply Hr. by eapply elem_of_sublist, remove1_sublist. }
  assert (t1 !! (false, "nat", "PREROUTING") = Some (remove1 jump rs ++ [jump])) as Ht1
    by apply lookup_insert_eq.
  assert (restore ∉ remove1 restore (remove1 jump rs ++ [jump])) as Hr3.
  { rewrite remove1_snoc by done. rewrite not_elem_of_app, list_elem_of_singleton. naive_solver. }
  pose proof (reattach_view _ _ _ _ t1 Ht1 Hr3
    (eq_refl : (String.eqb "connmark to fwmark copy" connmarkChainName || _) = false)) as ->.
  fold restore. unfold t1. rewrite insert_insert_eq, remove1_snoc, <- app_assoc by done. done.
Qed.
End spec.

(** ** The rest of the concrete iptables *)

#[global] Instance mem_ipt_more : IptMoreApi Tables := {
  ipt_Delete tb ch r t :=
    match t !! (false, tb, ch) with
    | Some rs => if bool_decide (r ∈ rs) then (inr tt, <[(false, tb, ch) := remove1 r rs]> t)
                 else (inl (ExtErr "Bad rule (does a matching rule exist in that chain?)"), t)
    | None => (inl (ExtErr "No chain/target/match by that name"), t)
    end;
  ipt_NewChain tb ch t :=
    match t !! (false, tb, ch) with
    | Some _ => (inl (ExtErr "iptables: Chain already exists."), t)
    | None => (inr tt, <[(false, tb, ch) := []]> t)
    end;
  ipt_ChainExists tb ch t := (inr (bool_decide (is_Some (t !! (false, tb, ch)))), t)
}.

#[global] Instance mem_ipt_more_laws : IptMoreLaws Tables.
Proof.
  split; [|  |done].
  - intros tb ch r t. simpl. destruct (t !! (false, tb, ch)) as [rs|] eqn:E; [|left; eauto].
    case_bool_decide; [right|left]; eauto 10.
  - intros tb ch t. simpl. destruct (t !! (false, tb, ch)) as [rs|] eqn:E; [left|right]; eauto 10.
Qed.

Definition demo_manager : iptablesRulesManager := mkRulesManager privateNetworks "10.9.0.2" "eth0".
Definition demo_node : Tables :=
  {[(false, "nat", "PREROUTING") := [podOutboundConnmarkJumpRule; connmarkRestoreRule; ["-j"; "KUBE-SERVICES"]];
    (false, "nat", "POSTROUTING") := [["-j"; "KUBE-POSTROUTING"]];
    (false, "mangle", "PREROUTING") := []]}.

Lemma demo_rules_differ : rules_differ (T := Tables) demo_manager.
Proof. split; intros Hin; vm_compute in Hin; repeat (apply elem_of_cons in Hin as [[=]|Hin]); by apply elem_of_nil in Hin. Qed.

Lemma update_base_rules_witness :
  wp (update_base_rules demo_manager) (λ o t', returns o = true ∧ vpc_first demo_manager (tables t') ∧
    vpc_guarded demo_manager (tables t') ∧
    (o = Ok tt → Forall (in_place (T := Tables) (tables t')) (snat_rules demo_manager ++ connmark_rules demo_manager))) demo_node ∧
  (update_base_rules demo_manager demo_node).1 = Ok tt.
Proof.
  split; [|vm_compute; reflexivity].
  apply (update_base_rules_correct (T := Tables) demo_manager demo_node); [apply demo_rules_differ|..].
  - split; intros rs Hrs; discriminate Hrs.
  - split; intros rs l1 l2 Hrs; discriminate Hrs.
Defined.

Lemma updateIptablesRules_witness :
  let t0 := <[snat_key := []]> demo_node in
  wp (updateIptablesRules (snat_rules demo_manager)) (λ o t', returns o = true ∧
    (∃ l, l `prefix_of` snat_rules demo_manager ∧ tables t' = foldl update_view (tables t0) l ∧
       (o = Ok tt → l = snat_rules demo_manager)) ∧
    (o = Ok tt → Forall (λ r, ir_shouldExist r = true) (snat_rules demo_manager) →
       Forall (in_place (tables t')) (snat_rules demo_manager) ∧
       foldl update_view (tables t') (snat_rules demo_manager) = tables t')) t0.
Proof. apply (updateIptablesRules_correct (T := Tables) (snat_rules demo_manager)). Defined.

Lemma prerouting_reattached_witness :
  let rs := [podOutboundConnmarkJumpRule; connmarkRestoreRule; ["-j"; "KUBE-SERVICES"]] in
  let jump := canon podOutboundConnmarkJumpRule in
  let restore := canon connmarkRestoreRule in
  remove1 restore (remove1 jump rs) = [["-j"; "KUBE-SERVICES"]] ∧
  wp (updateIptablesRules buildConnmarkPreroutingRules) (λ o t', returns o = true ∧
    (o = Ok tt → tables t' =
       <[(false, "nat", "PREROUTING") := remove1 restore (remove1 jump rs) ++ [jump; restore]]> (tables demo_node)))
    demo_node.
Proof.
  intros rs jump restore. split; [reflexivity|].
  apply (prerouting_reattached (T := Tables) demo_node rs); [discriminate|reflexivity| |];
    intros Hin; vm_compute in Hin; repeat (apply elem_of_cons in Hin as [[=]|Hin]); by apply elem_of_nil in Hin.
Defined.

Example snat_chain_filled :
  (updateIptablesRules (snat_rules demo_manager) (<[snat_key := []]> demo_node)).2 !! snat_key
  = Some [snat_cidr_rule "192.168.0.0/16"; snat_cidr_rule "172.16.0.0/12"; snat_cidr_rule "10.0.0.0/8"; snat_rule demo_manager].
Proof. reflexivity. Qed.
