(* ===== verification/Portmap.v ===== *)
(** Host port forwarding ([pkg/portmap]: [utils.go], [portmap.go], [cmd.go]) and
    the plugin configuration it works on ([config/config.go]). *)
From S2P Require Export Chain GoNet.
From Stdlib Require Import Ascii.

(** ** Data *)

Record PortMapEntry : Type := mkPortMap {
  HostPort : Z; ContainerPort : Z; Protocol : string; HostIP : string
}.

(** [current.IPConfig], [current.Interface] and [current.Result]. *)
Record IPConfig : Type := mkIPConfig {
  ipc_Version : string; ipc_Address : IPNet; ipc_Gateway : list Z; ipc_Interface : option Z
}.
Record Interface : Type := mkInterface { itf_Name : string; itf_Mac : string; itf_Sandbox : string }.
Record Result : Type := mkResult {
  res_Interfaces : list Interface;
  res_IPs : list IPConfig;
  res_Routes : list (IPNet * list Z);
  res_Nameservers : list string;
  res_Search : list string
}.

Record Plugin : Type := mkPlugin {
  pl_Name : string;
  pl_CNIVersion : string;
  pl_PrevResult : option Result;
  pl_SNAT : option bool;
  pl_ConditionsV4 : option (list string);
  pl_ConditionsV6 : option (list string);
  pl_MarkMasqBit : option Z;
  pl_ExternalSetMarkChain : option string;
  pl_PortMaps : list PortMapEntry;
  pl_ContainerID : string;
  pl_ContIPv4 : IPNet;
  pl_ContIPv6 : IPNet
}.

Definition set_SNAT v c := mkPlugin (pl_Name c) (pl_CNIVersion c) (pl_PrevResult c) v (pl_ConditionsV4 c) (pl_ConditionsV6 c) (pl_MarkMasqBit c) (pl_ExternalSetMarkChain c) (pl_PortMaps c) (pl_ContainerID c) (pl_ContIPv4 c) (pl_ContIPv6 c).
Definition set_MarkMasqBit v c := mkPlugin (pl_Name c) (pl_CNIVersion c) (pl_PrevResult c) (pl_SNAT c) (pl_ConditionsV4 c) (pl_ConditionsV6 c) v (pl_ExternalSetMarkChain c) (pl_PortMaps c) (pl_ContainerID c) (pl_ContIPv4 c) (pl_ContIPv6 c).
Definition set_PrevResult v c := mkPlugin (pl_Name c) (pl_CNIVersion c) v (pl_SNAT c) (pl_ConditionsV4 c) (pl_ConditionsV6 c) (pl_MarkMasqBit c) (pl_ExternalSetMarkChain c) (pl_PortMaps c) (pl_ContainerID c) (pl_ContIPv4 c) (pl_ContIPv6 c).
Definition set_ContainerID v c := mkPlugin (pl_Name c) (pl_CNIVersion c) (pl_PrevResult c) (pl_SNAT c) (pl_ConditionsV4 c) (pl_ConditionsV6 c) (pl_MarkMasqBit c) (pl_ExternalSetMarkChain c) (pl_PortMaps c) v (pl_ContIPv4 c) (pl_ContIPv6 c).
Definition set_ContIPv4 v c := mkPlugin (pl_Name c) (pl_CNIVersion c) (pl_PrevResult c) (pl_SNAT c) (pl_ConditionsV4 c) (pl_ConditionsV6 c) (pl_MarkMasqBit c) (pl_ExternalSetMarkChain c) (pl_PortMaps c) (pl_ContainerID c) v (pl_ContIPv6 c).
Definition set_ContIPv6 v c := mkPlugin (pl_Name c) (pl_CNIVersion c) (pl_PrevResult c) (pl_SNAT c) (pl_ConditionsV4 c) (pl_ConditionsV6 c) (pl_MarkMasqBit c) (pl_ExternalSetMarkChain c) (pl_PortMaps c) (pl_ContainerID c) (pl_ContIPv4 c) v.

(** ** utils.go *)

Definition is_v6 (ip : list Z) : bool := match To4 ip with Some _ => false | None => true end.

Definition fmtIpPort (ip : list Z) (port : Z) : string :=
  if is_v6 ip then "[" +:+ IP_String ip +:+ "]:" +:+ Itoa port else IP_String ip +:+ ":" +:+ Itoa port.

(** The map from protocol to ports, in the order of the entries. *)
Definition groupByProto (entries : list PortMapEntry) : gmap string (list Z) :=
  foldl (λ out e,
    match out !! Protocol e with
    | Some l => <[Protocol e := l ++ [HostPort e]]> out
    | None => <[Protocol e := [HostPort e]]> out
    end) ∅ entries.

Fixpoint split_ports (l : list Z) (acc : list string) : list string :=
  match l with
  | [] => if (0 <? length acc)%nat then [Join acc ","] else []
  | i :: l' =>
      let acc := acc ++ [Itoa i] in
      if (length acc =? 15)%nat then Join acc "," :: split_ports l' [] else split_ports l' acc
  end.
Definition splitPortList (l : list Z) : list string := split_ports l [].

Definition str_take (n : nat) (s : string) : string :=
  String.string_of_list_ascii (take n (String.list_ascii_of_string s)).
Definition trimComment (val : string) : string :=
  if Z.of_nat (String.length val) <=? 255 then val else str_take 253 val +:+ "...".

(** ** portmap.go: the chains *)

Definition TopLevelDNATChainName : string := "CNI-HOSTPORT-DNAT".
Definition SetMarkChainName : string := "CNI-HOSTPORT-SETMARK".
Definition MarkMasqChainName : string := "CNI-HOSTPORT-MASQ".
Definition OldTopLevelSNATChainName : string := "CNI-HOSTPORT-SNAT".

Definition genToplevelDnatChain : chain :=
  mkChain "nat" TopLevelDNATChainName ["PREROUTING"; "OUTPUT"]
    [["-m"; "addrtype"; "--dst-type"; "LOCAL"]] [] false.

(** [1 << uint(bit)] as a 64-bit [int], and [%#x]. *)
Definition mark_value (bit : Z) : Z :=
  if (bit <? 0) || (64 <=? bit) then 0 else if bit =? 63 then - 2 ^ 63 else Z.shiftl 1 bit.
Definition sharp_x (v : Z) : string :=
  if v <? 0 then "-0x" +:+ FormatUint16 (- v) else "0x" +:+ FormatUint16 v.
Definition mark_def (bit : Z) : string := sharp_x (mark_value bit) +:+ "/" +:+ sharp_x (mark_value bit).

Definition genSetMarkChain (markBit : Z) : chain :=
  mkChain "nat" SetMarkChainName [] []
    [["-m"; "comment"; "--comment"; "CNI portfwd masquerade mark"; "-j"; "MARK"; "--set-xmark"; mark_def markBit]]
    false.

Definition genMarkMasqChain (markBit : Z) : chain :=
  mkChain "nat" MarkMasqChainName ["POSTROUTING"]
    [["-m"; "comment"; "--comment"; "CNI portfwd requiring masquerade"]]
    [["-m"; "mark"; "--mark"; mark_def markBit; "-j"; "MASQUERADE"]] true.

(** A string between double quotes. *)
Definition quoted (s : string) : string := String "034" (s +:+ String "034" "").

Definition dnat_comment (config : Plugin) : string :=
  trimComment ("dnat name: " +:+ quoted (pl_Name config) +:+ " id: " +:+ quoted (pl_ContainerID config)).

Definition sort_strings (l : list string) : list string := merge_sort (λ a b, Is_true (String.leb a b)) l.

Definition dnat_conditions (config : Plugin) (isV6 : bool) : list string :=
  default [] (if isV6 then pl_ConditionsV6 config else pl_ConditionsV4 config).

Definition dnat_entry_rule (config : Plugin) (isV6 : bool) (proto portSpec : string) : Rule :=
  ["-m"; "comment"; "--comment"; dnat_comment config; "-m"; "multiport"; "-p"; proto;
   "--destination-ports"; portSpec] ++ dnat_conditions config isV6.

Definition dnat_entry_rules (config : Plugin) (isV6 : bool) : list Rule :=
  let protoPorts := groupByProto (pl_PortMaps config) in
  let protos := sort_strings (map_to_list protoPorts).*1 in
  proto ← protos;
  dnat_entry_rule config isV6 proto <$> splitPortList (default [] (protoPorts !! proto)).

(** The match part of an entry's rules, [None] when the families differ. *)
Definition dnat_rule_base (isV6 : bool) (e : PortMapEntry) : option Rule :=
  let base := ["-p"; Protocol e; "--dport"; Itoa (HostPort e)] in
  if String.eqb (HostIP e) "" then Some base else
  let hostIP := default [] (ParseIP (HostIP e)) in
  if negb (Bool.eqb isV6 (is_v6 hostIP)) then None
  else if negb (IsUnspecified hostIP) then Some (base ++ ["-d"; HostIP e]) else Some base.

Definition set_mark_chain (config : Plugin) : string := default SetMarkChainName (pl_ExternalSetMarkChain config).

(** The three rules of an entry: hairpin, localhost, DNAT. *)
Definition dnat_rules_of (config : Plugin) (containerNet : IPNet) (snat : bool) (base : Rule) (e : PortMapEntry)
    : list Rule :=
  (if snat then
     (base ++ ["-s"; IPNet_String containerNet; "-j"; set_mark_chain config]) ::
     (if is_v6 (net_IP containerNet) then []
      else [base ++ ["-s"; "127.0.0.1"; "-j"; set_mark_chain config]])
   else []) ++
  [base ++ ["-j"; "DNAT"; "--to-destination"; fmtIpPort (net_IP containerNet) (ContainerPort e)]].

Section ops.
Context {T : Type} `{!IptApi T}.

Definition genDnatChain (netName containerID : string) : chain :=
  mkChain "nat" (MustFormatChainNameWithPrefix netName containerID "DN-") [TopLevelDNATChainName] [] [] false.
Definition genOldSnatChain (netName containerID : string) : chain :=
  mkChain "nat" (MustFormatChainNameWithPrefix netName containerID "SN-") [OldTopLevelSNATChainName] [] [] false.

(** The rules of the entries in order; [config.SNAT] is dereferenced for each
    entry that is not skipped. *)
Fixpoint dnat_rules (config : Plugin) (containerNet : IPNet) (entries : list PortMapEntry) : M T (list Rule) :=
  match entries with
  | [] => mret []
  | e :: entries' =>
      match dnat_rule_base (is_v6 (net_IP containerNet)) e with
      | None => dnat_rules config containerNet entries'
      | Some base =>
          match pl_SNAT config with
          | None => panic "nil pointer dereference"
          | Some snat =>
              rest ← dnat_rules config containerNet entries';
              mret (dnat_rules_of config containerNet snat base e ++ rest)
          end
      end
  end.

Definition fillDnatRules (c : chain) (config : Plugin) (containerNet : IPNet) : M T chain :=
  rules ← dnat_rules config containerNet (pl_PortMaps config);
  mret (mkChain (ch_table c) (ch_name c) (ch_entryChains c)
    (ch_entryRules c ++ dnat_entry_rules config (is_v6 (net_IP containerNet))) rules (ch_prependEntry c)).

Definition maybeGetIptables (isV6 : bool) : M T bool :=
  r ← attempt (call (ipt_New isV6));
  match r with
  | inl _ => mret false
  | inr _ =>
      r ← attempt (call (ipt_List isV6 "nat" "OUTPUT"));
      match r with inl _ => mret false | inr _ => mret true end
  end.

Definition unforward_family (dnatChain oldSnatChain : chain) (isV6 usable : bool) : M T unit :=
  if usable then
    with_msg "could not teardown dnat" (teardown dnatChain isV6);;
    ignore (teardown oldSnatChain isV6)
  else mret tt.

Definition unforwardPorts (config : Plugin) : M T unit :=
  let dnatChain := genDnatChain (pl_Name config) (pl_ContainerID config) in
  let oldSnatChain := genOldSnatChain (pl_Name config) (pl_ContainerID config) in
  ip4t ← maybeGetIptables false;
  ip6t ← maybeGetIptables true;
  if negb ip4t && negb ip6t then throw (Errorf "neither iptables nor ip6tables usable") else
  unforward_family dnatChain oldSnatChain false ip4t;;
  unforward_family dnatChain oldSnatChain true ip6t.

(** One family of [checkPorts]; [false] is the early [return err] with a nil
    error when the chain does not exist. *)
Definition check_family (dnatChain : chain) (isV6 usable : bool) : M T bool :=
  if usable then
    exists_ ← call (utils_ChainExists isV6 (ch_table dnatChain) (ch_name dnatChain));
    if negb exists_ then mret false
    else with_msg "could not check dnat" (check dnatChain isV6);; mret true
  else mret true.

Definition checkPorts (config : Plugin) (containerNet : IPNet) : M T unit :=
  dnatChain ← fillDnatRules (genDnatChain (pl_Name config) (pl_ContainerID config)) config containerNet;
  ip4t ← maybeGetIptables false;
  ip6t ← maybeGetIptables true;
  if negb ip4t && negb ip6t then throw (Errorf "neither iptables nor ip6tables usable") else
  go_on ← check_family dnatChain false ip4t;
  if go_on : bool then _ ← check_family dnatChain true ip6t; mret tt else mret tt.
End ops.

(** ** The host and the runtime *)

Class HostApi (T : Type) : Type := {
  nl_RouteGet : list Z → Call T (list Z);            (* the link indexes of the routes *)
  nl_LinkByIndex : Z → Call T string;                (* the link's name *)
  sysctl_Sysctl : string → string → Call T string;
  types_PrintResult : Result → string → Call T unit;
  current_NewResultFromResult : Result → error + Result
}.

Section host.
Context {T : Type} `{!IptApi T, !HostApi T}.

Fixpoint first_link (routes : list Z) : M T string :=
  match routes with
  | [] => mret ""
  | i :: routes' =>
      r ← attempt (call (nl_LinkByIndex i));
      match r with inl _ => first_link routes' | inr name => mret name end
  end.

Definition getRoutableHostIF (containerIP : list Z) : M T string :=
  r ← attempt (call (nl_RouteGet containerIP));
  match r with inl _ => mret "" | inr routes => first_link routes end.

Definition enableLocalnetRouting (ifName : string) : M T unit :=
  call (sysctl_Sysctl ("net.ipv4.conf." +:+ ifName +:+ ".route_localnet") "1");; mret tt.

(** [*p] of a nil pointer panics. *)
Definition deref_opt {A} (p : option A) : M T A :=
  match p with Some a => mret a | None => panic "nil pointer dereference" end.

Definition forward_snat (config : Plugin) (containerNet : IPNet) (isV6 : bool) : M T unit :=
  match pl_ExternalSetMarkChain config with
  | Some _ => mret tt
  | None =>
      bit ← deref_opt (pl_MarkMasqBit config);
      with_msg "unable to create chain" (setup (genSetMarkChain bit) isV6);;
      with_msg "unable to create chain" (setup (genMarkMasqChain bit) isV6)
  end;;
  if negb isV6 then
    hostIfName ← getRoutableHostIF (net_IP containerNet);
    if negb (String.eqb hostIfName "")
    then with_msg "unable to enable route_localnet" (enableLocalnetRouting hostIfName)
    else mret tt
  else mret tt.

Definition forwardPorts (config : Plugin) (containerNet : IPNet) : M T unit :=
  let isV6 := is_v6 (net_IP containerNet) in
  with_msg "failed to open iptables" (call (ipt_New isV6));;
  snat ← deref_opt (pl_SNAT config);
  (if snat : bool then forward_snat config containerNet isV6 else mret tt);;
  with_msg "failed to create top-level DNAT chain" (setup genToplevelDnatChain isV6);;
  dnatChain ← fillDnatRules (genDnatChain (pl_Name config) (pl_ContainerID config)) config containerNet;
  with_msg "unable to setup DNAT" (setup dnatChain isV6).

(** ** cmd.go *)

Definition DefaultMarkBit : Z := 13.

Fixpoint check_ports (l : list PortMapEntry) : option error :=
  match l with
  | [] => None
  | pm :: l' =>
      if ContainerPort pm <=? 0 then Some (Errorf "invalid container port number")
      else if HostPort pm <=? 0 then Some (Errorf "invalid host port number")
      else check_ports l'
  end.

Definition is_nil (ip : list Z) : bool := (length ip =? 0)%nat.

(** Known non-sandbox interfaces. *)
Definition on_host (result : Result) (ip : IPConfig) : bool :=
  match ipc_Interface ip with
  | Some intIdx =>
      if (0 <=? intIdx) && (intIdx <? Z.of_nat (length (res_Interfaces result)))
      then match res_Interfaces result !! Z.to_nat intIdx with
           | Some i => String.eqb (itf_Sandbox i) ""
           | None => false
           end
      else false
  | None => false
  end.

Definition take_ip (result : Result) (conf : Plugin) (ip : IPConfig) : Plugin :=
  if String.eqb (ipc_Version ip) "6" && negb (is_nil (net_IP (pl_ContIPv6 conf))) then conf
  else if String.eqb (ipc_Version ip) "4" && negb (is_nil (net_IP (pl_ContIPv4 conf))) then conf
  else if on_host result ip then conf
  else if String.eqb (ipc_Version ip) "6" then set_ContIPv6 (ipc_Address ip) conf
  else if String.eqb (ipc_Version ip) "4" then set_ContIPv4 (ipc_Address ip) conf
  else conf.

Definition parseConfig (conf : Plugin) (ifName : string) : error + (Plugin * option Result) :=
  match match pl_PrevResult conf with
        | None => inr None
        | Some p => match current_NewResultFromResult p with
                    | inl _ => inl (Errorf "could not convert result to current version")
                    | inr r => inr (Some r)
                    end
        end with
  | inl e => inl e
  | inr result =>
      let conf := match pl_SNAT conf with None => set_SNAT (Some true) conf | Some _ => conf end in
      match pl_MarkMasqBit conf, pl_ExternalSetMarkChain conf with
      | Some _, Some _ => inl (Errorf "cannot specify externalSetMarkChain and markMasqBit")
      | _, _ =>
          let bit := default DefaultMarkBit (pl_MarkMasqBit conf) in
          let conf := set_MarkMasqBit (Some bit) conf in
          if (bit <? 0) || (31 <? bit) then inl (Errorf "MasqMarkBit must be between 0 and 31") else
          match check_ports (pl_PortMaps conf) with
          | Some e => inl e
          | None =>
              inr (match result with
                   | None => conf
                   | Some r => foldl (take_ip r) conf (res_IPs r)
                   end, result)
          end
      end
  end.

Definition lift_sum {A} (r : error + A) : M T A := match r with inl e => throw e | inr a => mret a end.

Definition CmdAdd (ContainerID IfName : string) (conf : Plugin) : M T unit :=
  '(netConf, _) ← with_msg "failed to parse config" (lift_sum (parseConfig conf IfName));
  match pl_PrevResult netConf with
  | None => throw (Errorf "must be called as chained plugin")
  | Some prev =>
      if (length (pl_PortMaps netConf) =? 0)%nat
      then call (types_PrintResult prev (pl_CNIVersion netConf)) else
      let netConf := set_ContainerID ContainerID netConf in
      (if negb (is_nil (net_IP (pl_ContIPv4 netConf))) then forwardPorts netConf (pl_ContIPv4 netConf)
       else mret tt);;
      (if negb (is_nil (net_IP (pl_ContIPv6 netConf))) then forwardPorts netConf (pl_ContIPv6 netConf)
       else mret tt);;
      call (types_PrintResult prev (pl_CNIVersion netConf))
  end.

Definition CmdDel (ContainerID IfName : string) (conf : Plugin) : M T unit :=
  '(netConf, _) ← with_msg "failed to parse config" (lift_sum (parseConfig conf IfName));
  if (length (pl_PortMaps netConf) =? 0)%nat then mret tt
  else unforwardPorts (set_ContainerID ContainerID netConf).

Definition CmdCheck (ContainerID IfName : string) (conf : Plugin) : M T unit :=
  '(conf, result) ← lift_sum (parseConfig conf IfName);
  match result with
  | None => throw (Errorf "required prevResult missing")
  | Some _ =>
      if (length (pl_PortMaps conf) =? 0)%nat then mret tt else
      let conf := set_ContainerID ContainerID conf in
      (if negb (is_nil (net_IP (pl_ContIPv4 conf))) then checkPorts conf (pl_ContIPv4 conf) else mret tt);;
      (if negb (is_nil (net_IP (pl_ContIPv6 conf))) then checkPorts conf (pl_ContIPv6 conf) else mret tt)
  end.
End host.

Example split_16 : splitPortList (seqZ 1 16) = ["1,2,3,4,5,6,7,8,9,10,11,12,13,14,15"; "16"].
Proof. reflexivity. Qed.
Example mark_13 : mark_def 13 = "0x2000/0x2000".
Proof. reflexivity. Qed.
Example group_ex :
  groupByProto [mkPortMap 80 8080 "tcp" ""; mkPortMap 53 53 "udp" ""; mkPortMap 443 8443 "tcp" ""]
  = {["tcp" := [80; 443]; "udp" := [53]]}.
Proof. reflexivity. Qed.
