(* ===== verification/PortmapProps.v ===== *)
(** Properties of host port forwarding: the pure generators of rules, the
    configuration check, and what the three commands leave in iptables. *)
From S2P Require Export Portmap.
From Stdlib Require Import Ascii.

(** ** splitPortList *)

Definition ports_ok (acc : list string) : Prop := Forall (λ s, str_elem ","%char s = false) acc.

Lemma Itoa_no_comma z : str_elem ","%char (Itoa z) = false.
Proof. by apply Itoa_elem. Qed.

Lemma split_ports_spec l acc :
  (length acc < 15)%nat → ports_ok acc →
  (∀ s, s ∈ split_ports l acc → (1 ≤ length (Split s ","%char) ≤ 15)%nat) ∧
  ((λ s, Split s ","%char) <$> split_ports l acc) ≫= id = acc ++ (Itoa <$> l) ∧
  (length (split_ports l acc) * 15 < length acc + length l + 15)%nat.
Proof.
  revert acc. induction l as [|i l IH]; intros acc Hlen Hok; cbn [split_ports].
  - rewrite app_nil_r. destruct (Nat.ltb_spec 0 (length acc)) as [Hpos|Hz].
    + assert (acc ≠ []) by (intros ->; simpl in Hpos; lia).
      split_and!.
      * intros s ->%list_elem_of_singleton. rewrite Split_Join by done. lia.
      * simpl. by rewrite Split_Join, app_nil_r.
      * simpl. lia.
    + destruct acc; [|simpl in Hz; lia]. split_and!; [|done|simpl; lia].
      intros s Hs. by apply elem_of_nil in Hs.
  - set (acc' := acc ++ [Itoa i]).
    assert (ports_ok acc') as Hok'.
    { apply Forall_app. split; [done|]. repeat constructor. apply Itoa_no_comma. }
    assert (length acc' = S (length acc)) as Hl by (unfold acc'; rewrite length_app; simpl; lia).
    assert (acc' ≠ []) by (by destruct acc').
    destruct (Nat.eqb_spec (length acc') 15) as [Heq|Hne].
    + destruct (IH []) as (H1 & H2 & H3); [simpl; lia|constructor|]. split_and!.
      * intros s [->|Hs]%elem_of_cons; [|by apply H1]. rewrite Split_Join by done. lia.
      * rewrite fmap_cons, bind_cons, H2, Split_Join by done. unfold acc'. simpl. by rewrite <- app_assoc.
      * rewrite !length_cons. change (length (@nil string)) with 0%nat in H3. lia.
    + destruct (IH acc') as (H1 & H2 & H3); [lia|done|]. split_and!; [done| |rewrite length_cons; lia].
      rewrite H2. unfold acc'. by rewrite <- app_assoc.
Qed.

(** ** groupByProto *)

Definition proto_ports (p : string) (entries : list PortMapEntry) : list Z :=
  HostPort <$> filter (λ e, Protocol e = p) entries.

Lemma groupByProto_spec entries p :
  groupByProto entries !! p = match proto_ports p entries with [] => None | l => Some l end.
Proof.
  induction entries as [|e entries IH] using rev_ind; [done|].
  unfold groupByProto, proto_ports in *. rewrite foldl_app, filter_app, fmap_app. cbn [foldl].
  set (out := foldl _ ∅ entries) in *. rewrite filter_cons, filter_nil.
  destruct (decide (Protocol e = p)) as [<-|Hne].
  - rewrite IH. destruct (HostPort <$> filter _ entries) as [|x l]; rewrite lookup_insert_eq; done.
  - rewrite app_nil_r. destruct (out !! Protocol e); rewrite lookup_insert_ne by done; done.
Qed.

(** ** The rules of the container's chain *)

Section rules.
Context {T : Type} `{!IptApi T}.

Definition entry_rules_of (config : Plugin) (net : IPNet) (snat : bool) (e : PortMapEntry) : list Rule :=
  match dnat_rule_base (is_v6 (net_IP net)) e with
  | None => []
  | Some base => dnat_rules_of config net snat base e
  end.

Lemma dnat_rules_eq config net snat entries (t : T) :
  pl_SNAT config = Some snat →
  dnat_rules config net entries t = (Ok (entries ≫= entry_rules_of config net snat), t).
Proof.
  intros Hs. induction entries as [|e entries IH]; [done|]. cbn [dnat_rules].
  rewrite bind_cons. unfold entry_rules_of at 1. destruct (dnat_rule_base _ e); [|exact IH].
  rewrite Hs. cbv [mbind M_bind]. by rewrite IH.
Qed.

(** The filled chain. *)
Definition dnat_chain (config : Plugin) (net : IPNet) (snat : bool) : chain :=
  mkChain "nat" (MustFormatChainNameWithPrefix (pl_Name config) (pl_ContainerID config) "DN-")
    [TopLevelDNATChainName] (dnat_entry_rules config (is_v6 (net_IP net)))
    (pl_PortMaps config ≫= entry_rules_of config net snat) false.

Lemma fillDnatRules_eq config net snat (t : T) :
  pl_SNAT config = Some snat →
  fillDnatRules (genDnatChain (pl_Name config) (pl_ContainerID config)) config net t =
    (Ok (dnat_chain config net snat), t).
Proof.
  intros Hs. unfold fillDnatRules. cbv [mbind M_bind]. by rewrite (dnat_rules_eq _ _ snat).
Qed.
End rules.

Lemma sort_strings_elem l x : x ∈ sort_strings l ↔ x ∈ l.
Proof.
  unfold sort_strings. by rewrite (merge_sort_Permutation (λ a b, Is_true (String.leb a b)) l).
Qed.

Lemma concat_elem {A} (ls : list (list A)) (x : A) : x ∈ ls ≫= id ↔ ∃ l, l ∈ ls ∧ x ∈ l.
Proof. rewrite list_elem_of_bind. naive_solver. Qed.

Lemma splitPortList_correct_aux l :
  (∀ s, s ∈ splitPortList l → (1 ≤ length (Split s ","%char) ≤ 15)%nat) ∧
  ((λ s, Split s ","%char) <$> splitPortList l) ≫= id = Itoa <$> l.
Proof. destruct (split_ports_spec l []) as (? & ? & _); [simpl; lia|constructor|done]. Qed.

(** ** Properties of the generators *)

(** splitPortList cuts the ports, in order and without loss, into the fewest lists
    of one to fifteen ports. *)
Theorem splitPortList_correct l :
  let out := splitPortList l in
  (∀ s, s ∈ out → (1 ≤ length (Split s ","%char) ≤ 15)%nat) ∧
  ((λ s, Split s ","%char) <$> out) ≫= id = Itoa <$> l ∧
  (length out * 15 < length l + 15)%nat.
Proof. apply (split_ports_spec l []); [simpl; lia|constructor]. Qed.

(** trimComment leaves a comment of up to 255 bytes alone and turns every longer
    one into 256 bytes. *)
Theorem trimComment_length val :
  String.length (trimComment val) =
    if Z.of_nat (String.length val) <=? 255 then String.length val else 256%nat.
Proof.
  unfold trimComment. destruct (Z.leb_spec (Z.of_nat (String.length val)) 255) as [|Hlt]; [done|].
  rewrite str_length_app. unfold str_take.
  assert (∀ l, String.length (String.string_of_list_ascii l) = length l) as Hlen.
  { induction l as [|a l IH]; [done|]. simpl. by rewrite IH. }
  assert (∀ s, length (String.list_ascii_of_string s) = String.length s) as Hlen2.
  { induction s as [|a s IH]; [done|]. simpl. by rewrite IH. }
  rewrite Hlen, length_take, Hlen2. rewrite Nat.min_l by lia. done.
Qed.

(** The entry rules of the DNAT chain match exactly the host ports of the mappings
    of each protocol, with at most fifteen ports in a rule. *)
Theorem dnat_entry_rules_correct config isV6 proto text :
  (∃ spec, dnat_entry_rule config isV6 proto spec ∈ dnat_entry_rules config isV6 ∧
     text ∈ Split spec ","%char ∧ (length (Split spec ","%char) ≤ 15)%nat) ↔
  (∃ e, e ∈ pl_PortMaps config ∧ Protocol e = proto ∧ Itoa (HostPort e) = text).
Proof.
  assert (∀ p spec, dnat_entry_rule config isV6 p spec ∈ dnat_entry_rules config isV6 ↔
    spec ∈ splitPortList (proto_ports p (pl_PortMaps config))) as Hin.
  { intros p spec. unfold dnat_entry_rules. rewrite list_elem_of_bind.
    assert (default [] (groupByProto (pl_PortMaps config) !! p) = proto_ports p (pl_PortMaps config)) as Hdef.
    { rewrite groupByProto_spec. by destruct (proto_ports p (pl_PortMaps config)). }
    split.
    - intros (p' & Hs & Hp')  . apply list_elem_of_fmap in Hs as (spec' & Heq & Hs).
      unfold dnat_entry_rule in Heq. simpl in Heq. injection Heq as -> ->. by rewrite Hdef in Hs.
    - intros Hs. exists p. rewrite Hdef. split; [by apply list_elem_of_fmap_2|].
      apply sort_strings_elem, list_elem_of_fmap.
      pose proof (groupByProto_spec (pl_PortMaps config) p) as Hg.
      destruct (proto_ports p (pl_PortMaps config)) as [|x l] eqn:Hpp; [by apply elem_of_nil in Hs|].
      exists (p, x :: l). split; [done|]. by apply elem_of_map_to_list. }
  destruct (splitPortList_correct_aux (proto_ports proto (pl_PortMaps config))) as (H1 & H2).
  setoid_rewrite Hin. split.
  - intros (spec & Hs & Ht & _).
    assert (text ∈ Itoa <$> proto_ports proto (pl_PortMaps config)) as Hx.
    { rewrite <- H2. apply concat_elem. eexists. split; [|exact Ht]. by apply (list_elem_of_fmap_2 (λ s, Split s _)). }
    unfold proto_ports in Hx. rewrite <- list_fmap_compose in Hx.
    apply list_elem_of_fmap in Hx as (e & -> & [Hp He]%list_elem_of_filter). eauto.
  - intros (e & He & Hp & <-).
    assert (Itoa (HostPort e) ∈ Itoa <$> proto_ports proto (pl_PortMaps config)) as Hx.
    { unfold proto_ports. rewrite <- list_fmap_compose. apply list_elem_of_fmap. exists e.
      split; [done|]. by apply list_elem_of_filter. }
    rewrite <- H2 in Hx. apply concat_elem in Hx as (l & Hl & Hx).
    apply list_elem_of_fmap in Hl as (spec & -> & Hs). exists spec. split_and!; [done..|]. by apply H1.
Qed.

(** ** parseConfig *)

Section parse.
Context {T : Type} `{!HostApi T}.

(** An address of the given version that is not on a host interface. *)
Definition eligible (r : Result) (v : string) (ip : IPConfig) : Prop :=
  ipc_Version ip = v ∧ on_host r ip = false.

(** What the loop over the addresses makes of one of the two fields. *)
Definition picked (r : Result) (v : string) (ips : list IPConfig) (before after : IPNet) : Prop :=
  (after = before ∨ ∃ ip, ip ∈ ips ∧ eligible r v ip ∧ is_nil (net_IP before) = true ∧ after = ipc_Address ip) ∧
  (∀ ip, ip ∈ ips → eligible r v ip → is_nil (net_IP (ipc_Address ip)) = false → is_nil (net_IP after) = false).

Definition same_but_ips (c c' : Plugin) : Prop :=
  set_ContIPv4 (pl_ContIPv4 c) (set_ContIPv6 (pl_ContIPv6 c) c') = c.

Lemma picked_step r v ips ip b m a :
  picked r v ips m a →
  (m = b ∧ (eligible r v ip → is_nil (net_IP b) = false ∨ ipc_Address ip = b) ∨
   eligible r v ip ∧ is_nil (net_IP b) = true ∧ m = ipc_Address ip) →
  picked r v (ip :: ips) b a.
Proof.
  intros [H1 H2] Hm. split.
  - destruct H1 as [->|(ip' & Hin & He & Hn & ->)].
    + destruct Hm as [[-> _]|(He & Hn & ->)]; [by left|right].
      exists ip. split; [apply list_elem_of_here|done].
    + right. exists ip'. split; [by apply list_elem_of_further|]. split; [done|]. split; [|done].
      destruct Hm as [[-> _]|(_ & Hb & _)]; done.
  - intros ip' [->|Hin]%elem_of_cons He Hn; [|by eapply H2].
    assert (is_nil (net_IP m) = false) as Hmn.
    { destruct Hm as [[-> Hor]|(_ & _ & ->)]; [|done]. destruct (Hor He) as [?| <-]; done. }
    destruct H1 as [->|(ip2 & _ & _ & Hn2 & _)]; [done|congruence].
Qed.

Lemma take_ips_spec r ips c :
  let c' := foldl (take_ip r) c ips in
  same_but_ips c c' ∧
  picked r "4" ips (pl_ContIPv4 c) (pl_ContIPv4 c') ∧ picked r "6" ips (pl_ContIPv6 c) (pl_ContIPv6 c').
Proof.
  cbv zeta. revert c. induction ips as [|ip ips IH]; intros c; cbn [foldl].
  { split_and!; [by destruct c|..]; (split; [by left|]); intros ip Hip; by apply elem_of_nil in Hip. }
  destruct (IH (take_ip r c ip)) as (Hs & H4 & H6).
  assert (same_but_ips c (take_ip r c ip) ∧
    (pl_ContIPv4 (take_ip r c ip) = pl_ContIPv4 c ∧
       (eligible r "4" ip → is_nil (net_IP (pl_ContIPv4 c)) = false ∨ ipc_Address ip = pl_ContIPv4 c) ∨
     eligible r "4" ip ∧ is_nil (net_IP (pl_ContIPv4 c)) = true ∧ pl_ContIPv4 (take_ip r c ip) = ipc_Address ip) ∧
    (pl_ContIPv6 (take_ip r c ip) = pl_ContIPv6 c ∧
       (eligible r "6" ip → is_nil (net_IP (pl_ContIPv6 c)) = false ∨ ipc_Address ip = pl_ContIPv6 c) ∨
     eligible r "6" ip ∧ is_nil (net_IP (pl_ContIPv6 c)) = true ∧ pl_ContIPv6 (take_ip r c ip) = ipc_Address ip))
    as (Ht & Ht4 & Ht6).
  { clear. unfold take_ip, eligible, same_but_ips.
    destruct (String.eqb_spec (ipc_Version ip) "6") as [Hv6|Hv6],
      (String.eqb_spec (ipc_Version ip) "4") as [Hv4|Hv4]; [congruence|..];
      destruct (is_nil (net_IP (pl_ContIPv6 c))) eqn:?, (is_nil (net_IP (pl_ContIPv4 c))) eqn:?,
        (on_host r ip) eqn:?; cbn [negb andb]; (split; [by destruct c|]); split; simpl;
      first [left; split; [done|intros [? ?]; first [congruence|by left]]
            | right; split_and!; done]. }
  split_and!.
  - unfold same_but_ips in *. revert Ht Hs. generalize (take_ip r c ip). intros m Ht Hs.
    rewrite <- Hs in Ht. exact Ht.
  - by eapply picked_step.
  - by eapply picked_step.
Qed.

Lemma check_ports_spec l :
  match check_ports l with
  | None => Forall (λ pm, 0 < ContainerPort pm ∧ 0 < HostPort pm) l
  | Some _ => Exists (λ pm, ContainerPort pm ≤ 0 ∨ HostPort pm ≤ 0) l
  end.
Proof.
  induction l as [|pm l IH]; simpl; [constructor|].
  destruct (Z.leb_spec (ContainerPort pm) 0); [left; by left|].
  destruct (Z.leb_spec (HostPort pm) 0); [left; by right|].
  destruct (check_ports l); [by right|by constructor].
Qed.

Definition chosen_bit (conf : Plugin) : Z := default DefaultMarkBit (pl_MarkMasqBit conf).

(** parseConfig fills in the defaults, accepts exactly mark bits of 0 to 31 and
    positive ports, never both a mark bit and an external chain, and picks for each
    family the last address of the previous result that is not on a known host
    interface; it fails only for one of these reasons. *)
Theorem parseConfig_correct conf ifName :
  match parseConfig (T:=T) conf ifName with
  | inr (c, result) =>
      pl_SNAT c = Some (default true (pl_SNAT conf)) ∧
      pl_MarkMasqBit c = Some (chosen_bit conf) ∧ 0 ≤ chosen_bit conf ≤ 31 ∧
      (pl_MarkMasqBit conf = None ∨ pl_ExternalSetMarkChain conf = None) ∧
      Forall (λ pm, 0 < ContainerPort pm ∧ 0 < HostPort pm) (pl_PortMaps conf) ∧
      pl_PortMaps c = pl_PortMaps conf ∧ pl_PrevResult c = pl_PrevResult conf ∧
      match pl_PrevResult conf, result with
      | None, None => pl_ContIPv4 c = pl_ContIPv4 conf ∧ pl_ContIPv6 c = pl_ContIPv6 conf
      | Some p, Some r =>
          current_NewResultFromResult (T:=T) p = inr r ∧
          picked r "4" (res_IPs r) (pl_ContIPv4 conf) (pl_ContIPv4 c) ∧
          picked r "6" (res_IPs r) (pl_ContIPv6 conf) (pl_ContIPv6 c)
      | _, _ => False
      end
  | inl _ =>
      (∃ p e, pl_PrevResult conf = Some p ∧ current_NewResultFromResult (T:=T) p = inl e) ∨
      (is_Some (pl_MarkMasqBit conf) ∧ is_Some (pl_ExternalSetMarkChain conf)) ∨
      ¬ (0 ≤ chosen_bit conf ≤ 31) ∨
      Exists (λ pm, ContainerPort pm ≤ 0 ∨ HostPort pm ≤ 0) (pl_PortMaps conf)
  end.
Proof.
  unfold parseConfig.
  destruct (pl_PrevResult conf) as [p|] eqn:Hp;
    [destruct (current_NewResultFromResult p) as [e|r] eqn:Hr; [left; by eauto|]|].
  all: set (conf1 := match pl_SNAT conf with None => _ | Some _ => _ end).
  all: assert (pl_MarkMasqBit conf1 = pl_MarkMasqBit conf ∧ pl_ExternalSetMarkChain conf1 = pl_ExternalSetMarkChain conf
    ∧ pl_PortMaps conf1 = pl_PortMaps conf ∧ pl_SNAT conf1 = Some (default true (pl_SNAT conf)) ∧
    pl_ContIPv4 conf1 = pl_ContIPv4 conf ∧ pl_ContIPv6 conf1 = pl_ContIPv6 conf ∧
    pl_PrevResult conf1 = pl_PrevResult conf) as (E1 & E2 & E3 & E4 & E5 & E6 & E7)
    by (unfold conf1; destruct (pl_SNAT conf) eqn:?; by split_and!).
  all: rewrite E1, E2; fold (chosen_bit conf).
  all: destruct (pl_MarkMasqBit conf) as [b|] eqn:Hb, (pl_ExternalSetMarkChain conf) as [x|] eqn:Hx;
    try (right; left; by eauto).
  all: destruct ((chosen_bit conf <? 0) || (31 <? chosen_bit conf)) eqn:Hrange;
    [right; right; left; apply orb_true_iff in Hrange; lia|]; apply orb_false_iff in Hrange.
  all: pose proof (check_ports_spec (pl_PortMaps conf)) as Hports;
    replace (pl_PortMaps (set_MarkMasqBit (Some (chosen_bit conf)) conf1)) with (pl_PortMaps conf);
    destruct (check_ports (pl_PortMaps conf)); [by right; right; right|].
  1-3: destruct (take_ips_spec r (res_IPs r) (set_MarkMasqBit (Some (chosen_bit conf)) conf1)) as (Hs & H4 & H6);
    cbn [pl_ContIPv4 pl_ContIPv6 set_MarkMasqBit] in H4, H6; rewrite E5 in H4; rewrite E6 in H6;
    set (c' := foldl _ _ _) in *; unfold same_but_ips in Hs;
    pose proof (f_equal pl_SNAT Hs) as F1; pose proof (f_equal pl_MarkMasqBit Hs) as F2;
    pose proof (f_equal pl_PortMaps Hs) as F3; pose proof (f_equal pl_PrevResult Hs) as F4;
    simpl in F1, F2, F3, F4; split_and!; try done; try congruence; try lia; auto.
  all: split_and!; simpl; try done; try congruence; try lia; auto.
Qed.
End parse.

(** ** The commands *)

(** The calls that are not about iptables do not change the rules. *)
Class HostLaws (T : Type) `{!IptApi T, !IptLaws T, !HostApi T} : Prop := {
  nl_RouteGet_keeps ip t : tables (nl_RouteGet ip t).2 = tables t;
  nl_LinkByIndex_keeps i t : tables (nl_LinkByIndex i t).2 = tables t;
  sysctl_Sysctl_keeps n v t : tables (sysctl_Sysctl n v t).2 = tables t;
  types_PrintResult_keeps r v t : tables (types_PrintResult r v t).2 = tables t
}.

Section commands.
Context {T : Type} `{!IptApi T, !IptLaws T, !HostApi T, !HostLaws T}.

Lemma wp_keeping {A} (c : Call T A) (Q : outcome A → T → Prop) t :
  (∀ t, tables (c t).2 = tables t) →
  (∀ o t', returns o = true → tables t' = tables t → Q o t') → wp (call c) Q t.
Proof.
  intros Hk HQ. apply wp_call; intros a t' Hc; specialize (Hk t); rewrite Hc in Hk; by apply HQ.
Qed.

(** A computation that leaves the rules alone and returns. *)
Definition quiet {A} (m : M T A) : Prop :=
  ∀ t, returns (m t).1 = true ∧ tables (m t).2 = tables t.

Lemma quiet_wp {A} (m : M T A) t :
  quiet m → wp m (λ o t', returns o = true ∧ tables t' = tables t) t.
Proof. intros Hq. apply Hq. Qed.

Lemma wp_quiet {A} (m : M T A) :
  (∀ t, wp m (λ o t', returns o = true ∧ tables t' = tables t) t) → quiet m.
Proof. intros H t. exact (H t). Qed.

Lemma getRoutableHostIF_quiet ip : quiet (getRoutableHostIF (T:=T) ip).
Proof.
  apply wp_quiet. intros t. unfold getRoutableHostIF. wp_step. wp_step.
  apply wp_keeping; [apply nl_RouteGet_keeps|]. intros o t' Hr Ht.
  destruct o as [l|e| |]; [|by cbn [kont]; wp_step|done..]. cbn [kont]. rewrite <- Ht. clear Hr Ht t. revert t'. induction l as [|i l IH]; intros t'; cbn [first_link]; [by wp_step|].
  wp_step. wp_step. apply wp_keeping; [apply nl_LinkByIndex_keeps|]. intros o t2 Hr2 Ht2.
  destruct o as [n|e| |]; [by cbn [kont]; wp_step| |done..].
  cbn [kont]. rewrite <- Ht2. apply IH.
Qed.

Lemma enableLocalnetRouting_quiet n : quiet (enableLocalnetRouting (T:=T) n).
Proof.
  apply wp_quiet. intros t. unfold enableLocalnetRouting. wp_step.
  apply wp_keeping; [apply sysctl_Sysctl_keeps|]. intros o t' Hr Ht. destruct o; try done.
Qed.

Lemma maybeGetIptables_quiet f : quiet (maybeGetIptables (T:=T) f).
Proof.
  apply wp_quiet. intros t. unfold maybeGetIptables. wp_step. wp_step.
  apply wp_keeping; [apply ipt_New_law|]. intros o t' Hr Ht. destruct o; try done; cbn [kont].
  wp_step. wp_step. apply wp_keeping; [apply ipt_List_keeps|]. intros o t2 Hr2 Ht2.
  destruct o; cbn [kont]; try done; wp_step; (split; [done|congruence]).
Qed.

(** Setting up with the error text of the caller. *)
Lemma setup_msg_spec msg c ipt t :
  wp (with_msg msg (setup c ipt)) (λ o t', returns o = true ∧ extends (tables t) (tables t') ∧
    (o = Ok tt → Forall (present (tables t')) (wanted c ipt) ∧
       is_Some (tables t' !! (ipt, ch_table c, ch_name c)))) t.
Proof.
  wp_step. wp_use setup_spec as (Hr & He & Hok). destruct o as [[]|e| |]; try done; split_and!; try done.
  intros _. by destruct (Hok eq_refl) as (_ & ? & ?).
Qed.

Definition chain_up (v : Tables) (c : chain) (ipt : bool) : Prop :=
  Forall (present v) (wanted c ipt) ∧ is_Some (v !! (ipt, ch_table c, ch_name c)).

Lemma chain_up_extends v v' c ipt : extends v v' → chain_up v c ipt → chain_up v' c ipt.
Proof.
  intros He [Hp [rs Hrs]]. split; [|destruct (He _ _ Hrs) as (? & -> & _); eauto].
  eapply Forall_impl; [exact Hp|]. intros w. by apply present_extends.
Qed.

(** The forwarding of [config] to [net] is in the rules [v]. *)
Definition forwarded (config : Plugin) (net : IPNet) (v : Tables) : Prop :=
  let isV6 := is_v6 (net_IP net) in
  chain_up v genToplevelDnatChain isV6 ∧
  ∃ snat, pl_SNAT config = Some snat ∧
    chain_up v (dnat_chain (T:=T) config net snat) isV6 ∧
    (snat = true → pl_ExternalSetMarkChain config = None →
       ∃ bit, pl_MarkMasqBit config = Some bit ∧
         chain_up v (genSetMarkChain bit) isV6 ∧ chain_up v (genMarkMasqChain bit) isV6).

Lemma forwarded_extends config net v v' : extends v v' → forwarded config net v → forwarded config net v'.
Proof.
  intros He (Ht & snat & Hs & Hd & Hm). split; [by eapply chain_up_extends|].
  exists snat. split; [done|]. split; [by eapply chain_up_extends|].
  intros H1 H2. destruct (Hm H1 H2) as (bit & Hb & ? & ?). exists bit.
  split; [done|]. split; by eapply chain_up_extends.
Qed.

Lemma forward_snat_spec config net isV6 bit t :
  pl_MarkMasqBit config = Some bit →
  wp (forward_snat config net isV6) (λ o t', returns o = true ∧ extends (tables t) (tables t') ∧
    (o = Ok tt → pl_ExternalSetMarkChain config = None →
       chain_up (tables t') (genSetMarkChain bit) isV6 ∧ chain_up (tables t') (genMarkMasqChain bit) isV6)) t.
Proof.
  intros Hbit.
  assert (∀ t (P : Tables → Prop), P (tables t) →
    wp (if negb isV6 then
          hostIfName ← getRoutableHostIF (net_IP net);
          if negb (String.eqb hostIfName "")
          then with_msg "unable to enable route_localnet" (enableLocalnetRouting hostIfName) else mret tt
        else mret tt) (λ o t', returns o = true ∧ tables t' = tables t ∧ P (tables t')) t) as Htail.
  { clear t. intros t P HP. destruct isV6; cbn [negb]; [by wp_step|]. wp_step.
    eapply wp_mono; [apply quiet_wp, getRoutableHostIF_quiet|]. intros o t1 [Hr Ht].
    destruct o as [n|e| |]; try done; cbn [kont]; [|by rewrite Ht].
    destruct (negb (String.eqb n "")); [|wp_step; by rewrite Ht]. wp_step.
    eapply wp_mono; [apply quiet_wp, enableLocalnetRouting_quiet|]. intros o t2 [Hr2 Ht2].
    destruct o; try done; by rewrite Ht2, Ht. }
  unfold forward_snat. wp_step. destruct (pl_ExternalSetMarkChain config) as [x|].
  - wp_step. wp_step. eapply wp_mono; [apply (Htail t (λ _, True)); done|].
    intros o t' (Hr & Ht & _). rewrite Ht. by split_and!.
  - rewrite Hbit. wp_step. cbn [deref_opt]. wp_step. cbn [kont]. wp_step.
    wp_use setup_msg_spec as (Hr & He & Hok). destruct o as [[]|e| |]; try done; cbn [kont].
    pose proof (Hok eq_refl) as Hset.
    wp_use setup_msg_spec as (Hr2 & He2 & Hok2). destruct o as [[]|e| |]; try done; cbn [kont].
    2:{ split_and!; try done. by etrans. }
    specialize (Hok2 eq_refl). eapply wp_mono.
    { apply (Htail _ (λ v, chain_up v (genSetMarkChain bit) isV6 ∧ chain_up v (genMarkMasqChain bit) isV6)).
      split; [by eapply chain_up_extends|done]. }
    intros o t' (Hr3 & Ht3 & HP). split_and!; [done| |done]. rewrite Ht3. by etrans.
Qed.

Lemma forwardPorts_spec config net snat bit t :
  pl_SNAT config = Some snat → pl_MarkMasqBit config = Some bit →
  wp (forwardPorts config net) (λ o t', returns o = true ∧ extends (tables t) (tables t') ∧
    (o = Ok tt → forwarded config net (tables t'))) t.
Proof.
  intros Hsnat Hbit. unfold forwardPorts. cbv zeta. set (isV6 := is_v6 (net_IP net)).
  wp_step. wp_step. apply wp_keeping; [apply ipt_New_law|]. intros o t1 Hr1 Ht1.
  destruct o; try done; cbn [kont]; [|by rewrite Ht1]. rewrite Hsnat. wp_step. cbn [deref_opt]. wp_step. cbn [kont].
  wp_step.
  assert (wp (if snat then forward_snat config net isV6 else mret tt)
    (λ o t', returns o = true ∧ extends (tables t1) (tables t') ∧
      (o = Ok tt → snat = true → pl_ExternalSetMarkChain config = None →
       chain_up (tables t') (genSetMarkChain bit) isV6 ∧ chain_up (tables t') (genMarkMasqChain bit) isV6)) t1)
    as Hsn.
  { destruct snat; [|by wp_step]. eapply wp_mono; [by apply forward_snat_spec|].
    intros o t2 (? & ? & ?). split_and!; auto. }
  eapply wp_mono; [exact Hsn|]. clear Hsn. intros o t2 (Hr2 & He2 & Hok2). rewrite Ht1 in He2.
  destruct o as [[]|e| |]; try done; cbn [kont]. specialize (Hok2 eq_refl).
  wp_step. wp_use setup_msg_spec as (Hr3 & He3 & Hok3). destruct o as [[]|e| |]; try done; cbn [kont].
  2:{ split_and!; try done. by etrans. }
  specialize (Hok3 eq_refl). wp_step. unfold wp at 1. rewrite (fillDnatRules_eq _ _ snat) by done.
  cbn [fst snd kont]. wp_use setup_msg_spec as (Hr4 & He4 & Hok4).
  assert (extends (tables t2) (tables st0)) as He24 by (by etrans).
  split_and!; [done|by etrans|]. intros ->. specialize (Hok4 eq_refl).
  split; [exact (chain_up_extends _ _ _ _ He4 Hok3)|]. exists snat. split_and!; [done|done|].
  intros H1 H2. exists bit. destruct (Hok2 H1 H2) as [Hs1 Hs2]. split; [done|].
  split; by eapply (chain_up_extends _ _ _ _ He24).
Qed.

Lemma parseConfig_fields conf ifName c result :
  parseConfig (T:=T) conf ifName = inr (c, result) →
  pl_SNAT c = Some (default true (pl_SNAT conf)) ∧ pl_MarkMasqBit c = Some (chosen_bit conf).
Proof. intros Hp. pose proof (parseConfig_correct (T:=T) conf ifName) as H. rewrite Hp in H. naive_solver. Qed.

Lemma parseConfig_name conf ifName c result :
  parseConfig (T:=T) conf ifName = inr (c, result) → pl_Name c = pl_Name conf.
Proof.
  unfold parseConfig. intros Hp.
  repeat match type of Hp with context [match ?x with _ => _ end] =>
    match x with foldl _ _ _ => fail 1 | _ => destruct x eqn:?; try done end end;
  injection Hp as <- <-; try done.
  all: match goal with |- context [foldl (take_ip ?r) ?c0 ?ips] =>
    destruct (take_ips_spec r ips c0) as (Hs & _) end;
    apply (f_equal pl_Name) in Hs; exact Hs.
Qed.

(** One container address of [CmdAdd]. *)
Lemma forward_address_spec config net t :
  is_Some (pl_SNAT config) → is_Some (pl_MarkMasqBit config) →
  wp (if negb (is_nil (net_IP net)) then forwardPorts config net else mret tt) (λ o t',
    returns o = true ∧ extends (tables t) (tables t') ∧
    (o = Ok tt → is_nil (net_IP net) = false → forwarded config net (tables t'))) t.
Proof.
  intros [snat Hs] [bit Hb]. destruct (is_nil (net_IP net)); cbn [negb]; [by wp_step|].
  eapply wp_mono; [by apply (forwardPorts_spec config net snat bit)|]. naive_solver.
Qed.

(** C38: CmdAdd never loses or reorders rules; after success it had a previous result,
    and, when there are port mappings, for each address family of the container the
    top-level, per-container and masquerading chains are in place with all rules. *)
Theorem CmdAdd_correct cid ifName conf t :
  let '(o, t') := CmdAdd cid ifName conf t in
  returns o = true ∧ extends (tables t) (tables t') ∧
  (o = Ok tt → ∃ netConf result,
     parseConfig (T:=T) conf ifName = inr (netConf, result) ∧ is_Some (pl_PrevResult netConf) ∧
     (pl_PortMaps netConf = [] → tables t' = tables t) ∧
     (pl_PortMaps netConf ≠ [] → ∀ net, net = pl_ContIPv4 netConf ∨ net = pl_ContIPv6 netConf →
        is_nil (net_IP net) = false → forwarded (set_ContainerID cid netConf) net (tables t'))).
Proof.
  destruct (CmdAdd cid ifName conf t) as [o t'] eqn:Hrun. pattern o, t'.
  refine (wp_run _ _ _ _ _ _ Hrun). clear o t' Hrun. cbv beta.
  unfold CmdAdd. wp_step. wp_step.
  destruct (parseConfig conf ifName) as [e|[netConf result]] eqn:Hparse; cbn [lift_sum]; wp_step; [by split_and!|].
  destruct (parseConfig_fields _ _ _ _ Hparse) as [Hsnat Hbit]. cbn [kont].
  destruct (pl_PrevResult netConf) as [prev|] eqn:Hprev; [|by wp_step].
  destruct (Nat.eqb_spec (length (pl_PortMaps netConf)) 0) as [Hz|Hnz].
  { apply wp_keeping; [apply types_PrintResult_keeps|]. intros o t' Hr Ht. rewrite Ht.
    split_and!; [done..|]. intros _. exists netConf, result. rewrite Hprev. split_and!; try done.
    by destruct (pl_PortMaps netConf). }
  set (nc := set_ContainerID cid netConf). wp_step.
  eapply wp_mono; [apply (forward_address_spec nc (pl_ContIPv4 nc)); simpl; rewrite ?Hsnat, ?Hbit; eauto|].
  intros o t1 (Hr1 & He1 & Hok1). destruct o as [[]|e| |]; try done; cbn [kont]. specialize (Hok1 eq_refl).
  wp_step. eapply wp_mono; [apply (forward_address_spec nc (pl_ContIPv6 nc)); simpl; rewrite ?Hsnat, ?Hbit; eauto|].
  intros o t2 (Hr2 & He2 & Hok2). assert (extends (tables t) (tables t2)) as He by (by etrans).
  destruct o as [[]|e| |]; try done; cbn [kont]. specialize (Hok2 eq_refl).
  apply wp_keeping; [apply types_PrintResult_keeps|]. intros o t3 Hr3 Ht3. rewrite Ht3.
  split_and!; [done..|]. intros _. exists netConf, result. rewrite Hprev. split_and!; try done.
  - intros Hnil. by rewrite Hnil in Hnz.
  - intros _ net [->| ->] Hnet; [|by apply Hok2]. eapply (forwarded_extends _ _ _ _ He2). by apply Hok1.
Qed.

(** The container's chain of a family is gone, and nothing refers to it. *)
Definition unforwarded (config : Plugin) (f : bool) (v : Tables) : Prop :=
  let dn := MustFormatChainNameWithPrefix (T:=T) (pl_Name config) (pl_ContainerID config) "DN-" in
  v !! (f, "nat", dn) = None ∧
  ∀ ch rs r, ch ≠ dn → v !! (f, "nat", ch) = Some rs → r ++ ["-j"; dn] ∉ rs.

Lemma unforwarded_shrinks config f ipt self v v' :
  self.2 ≠ MustFormatChainNameWithPrefix (T:=T) (pl_Name config) (pl_ContainerID config) "DN-" →
  shrinks ipt self v v' → unforwarded config f v → unforwarded config f v'.
Proof.
  unfold unforwarded. cbv zeta. set (dn := MustFormatChainNameWithPrefix _ _ _) in *.
  intros Hself [Hs Hs2] [Hn Hr]. split.
  - assert ((f, "nat", dn) ≠ self) as Hne by (intros <-; by apply Hself).
    destruct (Hs _ Hne) as [->|(_ & rs & _ & Hrs & _)]; [done|]. by rewrite Hn in Hrs.
  - intros ch rs r Hch Hrs Hin. destruct (decide ((f, "nat", ch) = self)) as [<-|Hne].
    + destruct Hs2 as [Heq|Hnil]; [rewrite Heq in Hrs; by eapply Hr|].
      rewrite Hrs in Hnil. simpl in Hnil. subst rs. by apply elem_of_nil in Hin.
    + destruct (Hs _ Hne) as [Heq|(_ & rs0 & rs1 & H0 & H1 & Hsub)]; [rewrite Heq in Hrs; by eapply Hr|].
      rewrite Hrs in H1. injection H1 as <-. eapply (Hr ch rs0 r); [done|done|].
      by eapply sublist_subseteq, Hin.
Qed.

Lemma unforwarded_other config f ipt self v v' :
  ipt ≠ f → self.1.1 = ipt → shrinks ipt self v v' → unforwarded config f v → unforwarded config f v'.
Proof.
  unfold unforwarded. cbv zeta. intros Hf Hself [Hs _] [Hn Hr].
  assert (∀ ch, v' !! (f, "nat", ch) = v !! (f, "nat", ch)) as Heq.
  { intros ch. destruct (Hs (f, "nat", ch)) as [?|(He & _)]; [intros <-; by apply Hf|done|].
    simpl in He. congruence. }
  split; [by rewrite Heq|]. intros ch rs r Hch Hrs. rewrite Heq in Hrs. by eapply Hr.
Qed.

Lemma old_chain_name config :
  MustFormatChainNameWithPrefix (T:=T) (pl_Name config) (pl_ContainerID config) "SN-" ≠
  MustFormatChainNameWithPrefix (T:=T) (pl_Name config) (pl_ContainerID config) "DN-".
Proof.
  intros Heq. pose proof (FormatChainName_prefix (T:=T) (pl_Name config) (pl_ContainerID config) "SN-") as H1.
  pose proof (FormatChainName_prefix (T:=T) (pl_Name config) (pl_ContainerID config) "DN-") as H2.
  rewrite Heq in H1. apply HasPrefix_spec in H1 as [r1 E1], H2 as [r2 E2].
  rewrite E1 in E2. by injection E2.
Qed.

Lemma unforward_family_spec config f usable t :
  let dn := genDnatChain (T:=T) (pl_Name config) (pl_ContainerID config) in
  let sn := genOldSnatChain (T:=T) (pl_Name config) (pl_ContainerID config) in
  wp (unforward_family dn sn f usable) (λ o t', returns o = true ∧
    (usable = true → o = Ok tt → unforwarded config f (tables t')) ∧
    (∀ f', f ≠ f' → unforwarded config f' (tables t) → unforwarded config f' (tables t'))) t.
Proof.
  cbv zeta. unfold unforward_family. destruct usable; [|by wp_step].
  wp_step. wp_step.
  assert (wp (teardown (genDnatChain (T:=T) (pl_Name config) (pl_ContainerID config)) f) (λ o t', returns o = true ∧
    (o = Ok tt → unforwarded config f (tables t')) ∧
    (∀ f', f ≠ f' → unforwarded config f' (tables t) → unforwarded config f' (tables t'))) t) as Hdn.
  { apply run_wp. intros o t' Hrun.
    destruct (wp_run _ _ _ _ _ (teardown_spec _ f t) Hrun) as [Hr Hok].
    pose proof (wp_run _ _ _ _ _ (teardown_shrinks _ f t) Hrun) as Hs. simpl in Hs.
    split_and!; [done| |].
    - intros ->. destruct (Hok eq_refl) as (H1 & H2 & _). split; [exact H1|]. intros ch rs r. apply H2.
    - intros f' Hf. refine (unforwarded_other config f' f _ _ _ Hf _ Hs); reflexivity. }
  eapply wp_mono; [exact Hdn|]. clear Hdn. intros o t1 (Hr & Hok & Hoth).
  destruct o as [[]|e| |]; try done; cbn [kont]. specialize (Hok eq_refl).
  wp_step. wp_step. wp_step.
  apply run_wp. intros o t2 Hrun.
  pose proof (wp_run _ _ _ _ _ (teardown_spec _ f t1) Hrun) as [Hr2 _].
  pose proof (wp_run _ _ _ _ _ (teardown_shrinks _ f t1) Hrun) as Hs. simpl in Hs.
  assert (unforwarded config f (tables t2) ∧
    (∀ f', f ≠ f' → unforwarded config f' (tables t) → unforwarded config f' (tables t2))) as [H1 H2].
  { split; [eapply unforwarded_shrinks; [|exact Hs|done]; apply old_chain_name|].
    intros f' Hf Hu. refine (unforwarded_other config f' f _ _ _ Hf _ Hs _); [reflexivity|by apply Hoth]. }
  destruct o as [[]|e| |]; try done; cbn [kont]; wp_step; by split_and!.
Qed.

(** C39: After a successful CmdDel with port mappings the per-container chain is gone
    from every usable family, and no rule of the nat table jumps to it. *)
Theorem CmdDel_correct cid ifName conf t :
  let '(o, t') := CmdDel cid ifName conf t in
  let '(r4, t4) := maybeGetIptables false t in
  let '(r6, _) := maybeGetIptables true t4 in
  returns o = true ∧
  (o = Ok tt → pl_PortMaps conf ≠ [] → (r4 = Ok true ∨ r6 = Ok true) ∧
     (r4 = Ok true → unforwarded (set_ContainerID cid conf) false (tables t')) ∧
     (r6 = Ok true → unforwarded (set_ContainerID cid conf) true (tables t'))).
Proof.
  pose proof (maybeGetIptables_quiet false t) as Hq4.
  destruct (maybeGetIptables false t) as [r4 t4] eqn:Hm4. destruct Hq4 as [Hr4 Ht4]. simpl in Hr4, Ht4.
  pose proof (maybeGetIptables_quiet true t4) as Hq6.
  destruct (maybeGetIptables true t4) as [r6 t6] eqn:Hm6. destruct Hq6 as [Hr6 Ht6]. simpl in Hr6, Ht6.
  destruct (CmdDel cid ifName conf t) as [o t'] eqn:Hrun. pattern o, t'.
  refine (wp_run _ _ _ _ _ _ Hrun). clear o t' Hrun. cbv beta.
  unfold CmdDel. wp_step. wp_step.
  pose proof (parseConfig_correct (T:=T) conf ifName) as Hpc.
  destruct (parseConfig conf ifName) as [e|[netConf result]] eqn:Hparse; cbn [lift_sum]; wp_step; [by split_and!|].
  destruct Hpc as (_ & _ & _ & _ & _ & Hports & _). cbn [kont].
  rewrite Hports. destruct (Nat.eqb_spec (length (pl_PortMaps conf)) 0) as [Hz|Hnz].
  { wp_step. split; [done|]. intros _ Hne. by destruct (pl_PortMaps conf). }
  assert (pl_Name netConf = pl_Name conf) as Hname by (eapply parseConfig_name, Hparse).
  set (nc := set_ContainerID cid netConf).
  assert (∀ f v, unforwarded nc f v → unforwarded (set_ContainerID cid conf) f v) as Hsame.
  { intros f v. unfold unforwarded, nc. simpl. by rewrite Hname. }
  unfold unforwardPorts. cbv zeta. wp_step. unfold wp at 1. rewrite Hm4. cbn [fst snd].
  destruct r4 as [b4|e| |]; try done; cbn [kont].
  wp_step. unfold wp at 1. rewrite Hm6. cbn [fst snd]. destruct r6 as [b6|e| |]; try done; cbn [kont].
  destruct (negb b4 && negb b6) eqn:Hno; [by wp_step|].
  wp_step. eapply wp_mono; [apply (unforward_family_spec nc)|].
  intros o t1 (Hr1 & Hok1 & _). destruct o as [[]|e| |]; try done; cbn [kont].
  eapply wp_mono; [apply (unforward_family_spec nc)|]. intros o t2 (Hr2 & Hok2 & Hoth2).
  split; [done|]. intros -> _. split_and!.
  - destruct b4; [by left|]. destruct b6; [by right|done].
  - intros [= ->]. apply Hsame, Hoth2; [done|]. by apply Hok1.
  - intros [= ->]. apply Hsame. by apply Hok2.
Qed.

(** Everything that [check] looks for. *)
Definition check_passes (v : Tables) (c : chain) (ipt : bool) : Prop :=
  is_Some (v !! (ipt, ch_table c, ch_name c)) ∧
  (∀ r, r ∈ ch_rules c → present v (false, (ipt, ch_table c, ch_name c), r)) ∧
  (∀ ec r, ec ∈ ch_entryChains c → r ∈ ch_entryRules c →
     present v (false, (ipt, ch_table c, ec), entry_rule c r)).

Lemma check_family_spec c f usable t :
  wp (check_family c f usable) (λ o t', returns o = true ∧ tables t' = tables t ∧
    (∀ b, o = Ok b → if b then usable = true → check_passes (tables t) c f
       else usable = true ∧ tables t !! (f, ch_table c, ch_name c) = None)) t.
Proof.
  unfold check_family. destruct usable; [|wp_step; split_and!; [done..|by intros b [= <-]]]. wp_step. apply wp_call; intros b t1 Hc;
    pose proof (utils_ChainExists_keeps f (ch_table c) (ch_name c) t) as Hk; rewrite Hc in Hk; simpl in Hk;
    cbn [kont]; [|by split_and!].
  pose proof (utils_ChainExists_law f (ch_table c) (ch_name c) t b) as Hb. rewrite Hc in Hb. specialize (Hb eq_refl).
  destruct b; wp_step.
  - wp_step. wp_step. eapply wp_mono; [apply check_spec|]. intros o t2 (Hr & Ht & Hok).
    rewrite Hk in Ht, Hok. destruct o as [[]|e| |]; try done; cbn [kont]. wp_step.
    split_and!; [done..|]. intros b [= <-] _. by apply Hok.
  - split_and!; [done..|]. intros b [= <-]. split; [done|]. symmetry in Hb. apply bool_decide_eq_false_1 in Hb.
    by apply eq_None_not_Some.
Qed.

(** checkPorts changes no rule; it succeeds only when, for every usable family, the
    per-container chain does not exist or all its rules and entry rules are present: a
    missing chain is reported as success. *)
Theorem checkPorts_correct config net snat t :
  pl_SNAT config = Some snat →
  let c := dnat_chain (T:=T) config net snat in
  let '(o, t') := checkPorts config net t in
  let '(r4, t4) := maybeGetIptables false t in
  let '(r6, _) := maybeGetIptables true t4 in
  returns o = true ∧ tables t' = tables t ∧
  (o = Ok tt →
     (r4 = Ok true → tables t !! (false, "nat", ch_name c) = None ∨ check_passes (tables t) c false) ∧
     (r6 = Ok true → tables t !! (true, "nat", ch_name c) = None ∨ check_passes (tables t) c true ∨
        r4 = Ok true ∧ tables t !! (false, "nat", ch_name c) = None)).
Proof.
  intros Hsnat. cbv zeta. set (c := dnat_chain config net snat).
  pose proof (maybeGetIptables_quiet false t) as Hq4.
  destruct (maybeGetIptables false t) as [r4 t4] eqn:Hm4. destruct Hq4 as [Hr4 Ht4]. simpl in Hr4, Ht4.
  pose proof (maybeGetIptables_quiet true t4) as Hq6.
  destruct (maybeGetIptables true t4) as [r6 t6] eqn:Hm6. destruct Hq6 as [Hr6 Ht6]. simpl in Hr6, Ht6.
  destruct (checkPorts config net t) as [o t'] eqn:Hrun. pattern o, t'.
  refine (wp_run _ _ _ _ _ _ Hrun). clear o t' Hrun. cbv beta.
  unfold checkPorts. wp_step. unfold wp at 1. rewrite (fillDnatRules_eq _ _ snat) by done. cbn [fst snd kont].
  fold c. wp_step. unfold wp at 1. rewrite Hm4. cbn [fst snd].
  destruct r4 as [b4|e| |]; try done; cbn [kont]. wp_step. unfold wp at 1. rewrite Hm6. cbn [fst snd].
  rewrite Ht4 in Ht6. destruct r6 as [b6|e| |]; try done; cbn [kont].
  destruct (negb b4 && negb b6) eqn:Hno; [by wp_step|].
  wp_step. eapply wp_mono; [apply check_family_spec|]. intros o t1 (Hr1 & Ht1 & Hok1).
  rewrite Ht6 in Ht1, Hok1. destruct o as [b|e| |]; try done; cbn [kont]. specialize (Hok1 b eq_refl).
  destruct b.
  - wp_step. eapply wp_mono; [apply check_family_spec|]. intros o t2 (Hr2 & Ht2 & Hok2).
    rewrite Ht1 in Ht2, Hok2. destruct o as [b|e| |]; try done; cbn [kont]. specialize (Hok2 b eq_refl).
    wp_step. split_and!; [done..|]. intros _. split; intros [= ->]; [right; by apply Hok1|].
    destruct b; [right; left; by apply Hok2|left; apply Hok2].
  - destruct Hok1 as [-> Hnone]. wp_step. split_and!; [done..|]. intros _.
    split; [intros _; by left|]. intros _. right. by right.
Qed.
End commands.

(** ** A concrete host *)

#[global] Instance mem_host : HostApi Tables := {
  nl_RouteGet _ t := (inr [2], t);
  nl_LinkByIndex _ t := (inr "eth0", t);
  sysctl_Sysctl _ v t := (inr v, t);
  types_PrintResult _ _ t := (inr tt, t);
  current_NewResultFromResult r := inr r
}.
#[global] Instance mem_host_laws : HostLaws Tables.
Proof. by split. Qed.

Definition demo_ip : list Z := default [] (ParseIP "10.0.0.5").
Definition demo_net : IPNet := mkIPNet demo_ip (default [] (ParseIP "255.255.0.0")).
Definition demo_conf : Plugin :=
  mkPlugin "cnivpc" "0.3.1"
    (Some (mkResult [mkInterface "eth0" "52:54:00:00:00:01" "/var/run/netns/x"]
             [mkIPConfig "4" demo_net [10; 0; 0; 1] (Some 0)] [] [] []))
    None None None None None [mkPortMap 8080 80 "tcp" ""] "" (mkIPNet [] []) (mkIPNet [] []).
Definition builtin_tables : Tables :=
  {[(false, "nat", "PREROUTING") := []; (false, "nat", "OUTPUT") := []; (false, "nat", "POSTROUTING") := [];
    (true, "nat", "OUTPUT") := []]}.

Example demo_add_check_del :
  let '(o1, t1) := CmdAdd "c1" "eth0" demo_conf builtin_tables in
  let '(o2, _) := CmdCheck "c1" "eth0" demo_conf t1 in
  let '(o3, t3) := CmdDel "c1" "eth0" demo_conf t1 in
  o1 = Ok tt ∧ o2 = Ok tt ∧ o3 = Ok tt ∧
  t1 !! (false, "nat", "CNI-DN-") = Some
    [["-p"; "tcp"; "--dport"; "8080"; "-s"; "10.0.0.5/16"; "-j"; "CNI-HOSTPORT-SETMARK"];
     ["-p"; "tcp"; "--dport"; "8080"; "-s"; "127.0.0.1"; "-j"; "CNI-HOSTPORT-SETMARK"];
     ["-p"; "tcp"; "--dport"; "8080"; "-j"; "DNAT"; "--to-destination"; "10.0.0.5:80"]] ∧
  t3 !! (false, "nat", "CNI-DN-") = None ∧ t3 !! (false, "nat", "CNI-HOSTPORT-DNAT") = Some [].
Proof. vm_compute. repeat split. Qed.

(** [CHECK] succeeds although nothing was ever added. *)
Example check_without_add : (CmdCheck "c1" "eth0" demo_conf builtin_tables).1 = Ok tt.
Proof. vm_compute. reflexivity. Qed.

Lemma CmdAdd_witness :
  let '(o, t') := CmdAdd "c1" "eth0" demo_conf builtin_tables in
  returns o = true ∧ extends (tables builtin_tables) (tables t').
Proof.
  pose proof (CmdAdd_correct (T:=Tables) "c1" "eth0" demo_conf builtin_tables) as H.
  destruct (CmdAdd "c1" "eth0" demo_conf builtin_tables) as [o t']. split; apply H.
Defined.

Lemma CmdDel_witness :
  let '(o, t') := CmdDel "c1" "eth0" demo_conf builtin_tables in
  let '(r4, t4) := maybeGetIptables false builtin_tables in
  let '(r6, _) := maybeGetIptables true t4 in
  returns o = true ∧
  (o = Ok tt → (r4 = Ok true ∨ r6 = Ok true) ∧
     (r4 = Ok true → unforwarded (set_ContainerID "c1" demo_conf) false (tables t')) ∧
     (r6 = Ok true → unforwarded (set_ContainerID "c1" demo_conf) true (tables t'))).
Proof.
  pose proof (CmdDel_correct (T:=Tables) "c1" "eth0" demo_conf builtin_tables) as H.
  destruct (CmdDel "c1" "eth0" demo_conf builtin_tables) as [o t'].
  destruct (maybeGetIptables false builtin_tables) as [r4 t4], (maybeGetIptables true t4) as [r6 t6].
  destruct H as [H1 H2]. split; [exact H1|]. intros Ho. apply H2; [exact Ho|discriminate].
Defined.

Lemma checkPorts_witness :
  let config := set_SNAT (Some true) demo_conf in
  let c := dnat_chain (T:=Tables) config demo_net true in
  let '(o, t') := checkPorts config demo_net builtin_tables in
  returns o = true ∧ tables t' = tables builtin_tables.
Proof.
  pose proof (checkPorts_correct (T:=Tables) (set_SNAT (Some true) demo_conf) demo_net true builtin_tables eq_refl) as H.
  cbv zeta in *.
  destruct (checkPorts (set_SNAT (Some true) demo_conf) demo_net builtin_tables) as [o t'].
  destruct (maybeGetIptables false builtin_tables) as [r4 t4], (maybeGetIptables true t4) as [r6 t6].
  split; apply H.
Defined.
