(* ===== verification/VipController.v ===== *)
(** The static address controller ([cmd/vip-controller]): [sts.go] marks the
    claims of removed replicas detached, [main.go] deletes detached claims whose
    release time has come, [vpcipclaim.go] gives the address of a deleted claim
    back to the VPC.

    Each handler runs on the API server [K] and on the process with its world.
    [VipKubeApi] adds the calls that only this program makes; the lister of
    stateful sets reads the informer's cache. *)
From S2P Require Export Kube IpamdBase GoTime World.
From Stdlib Require Import Ascii.

(** ** Definitions *)

Record StatefulSet : Type := mkSts {
  sts_Name : string;
  sts_Namespace : string;
  sts_Replicas : option Z;
  sts_TemplateAnnotations : gmap string string
}.

Class VipKubeApi (K : Type) : Type := {
  vk_ListClaimsOwned : string → string → Call K (list VpcIpClaim);   (* namespace, owner-statefulset *)
  vk_ListDetached : Z → Call K (list VpcIpClaim);                    (* attached=false, at most the limit *)
  vk_DeleteClaim : string → string → Call K unit;
  vk_GetStatefulSet : string → string → Call K StatefulSet;
  vk_NewKubeClient : Call K unit;
  vk_NewCRDClient : Call K unit
}.

Record VSt (K E : Type) : Type := mkVSt { vs_k8s : K; vs_proc : Proc E }.
Arguments mkVSt {K E} _ _.
Arguments vs_k8s {K E} _.
Arguments vs_proc {K E} _.

Definition stsEnableStaticIpNote : string := "network.beta.kubernetes.io/ucloud-statefulset-static-ip".
Definition defaultListCRDLimit : Z := 128.

Section vip.
Context {K E : Type} `{!KubeApi K, !VipKubeApi K, !CloudApi E, !RetryApi}.
#[local] Abbreviation m := (M (VSt K E)).

Definition v_in_k8s {A} (c : Call K A) : m A := zoom vs_k8s (λ k s, mkVSt k (vs_proc s)) (call c).
Definition v_in_proc {A} (p : M (Proc E) A) : m A := zoom vs_proc (λ p s, mkVSt (vs_k8s s) p) p.

(** *** sts.go *)

(** The decision of [ensureStaticIpPodNotRunning] on the pod it got. *)
Definition pod_not_running (pod : Pod) : bool :=
  if negb (existsb (λ o, String.eqb (or_Kind o) "StatefulSet") (pod_OwnerReferences pod)) then true
  else if match pod_Annotations pod !! stsEnableStaticIpNote with
          | Some val => negb (String.eqb (ToLower val) "true")
          | None => false
          end then true
  else negb (bool_decide (pod_Phase pod = PodRunning)).

Definition ensureStaticIpPodNotRunning (namespace name : string) : m bool :=
  r ← attempt (v_in_k8s (k_GetPod namespace name));
  match r with
  | inl err => if k8serr_is NotFound err then mret true else throw err
  | inr pod => mret (pod_not_running pod)
  end.

Definition detached_claim (now : string) (c : VpcIpClaim) : VpcIpClaim :=
  mkClaim (vip_Name c) (vip_Namespace c) (<["attached" := "false"]> (vip_Labels c)) [] (vip_Spec c)
    (mkClaimStatus false (ct_Zone (vip_Status c)) now (ct_Mac (vip_Status c)) (ct_ReleaseTime (vip_Status c)) "").

(** [time.Now().Format("2006-01-02 15:04:05")]. *)
Definition v_NowFormat : m string :=
  now ← v_in_proc Now;
  offset ← v_in_proc (gets (λ p, ext_TZOffset now (proc_ext p)));
  mret (FormatDateTime offset now).

Definition detach_attempt (vip : VpcIpClaim) : m unit :=
  vip ← v_in_k8s (k_GetClaim (vip_Namespace vip) (vip_Name vip));
  now ← v_NowFormat;
  _ ← v_in_k8s (k_UpdateClaim (detached_claim now vip));
  mret tt.

Definition markVPCIpClaimDetached (vip : VpcIpClaim) : m unit := RetryOnConflict (detach_attempt vip).

Definition needHandleVpcIpClaim (s : StatefulSet) : bool :=
  match sts_TemplateAnnotations s !! stsEnableStaticIpNote with
  | Some val => String.eqb (ToLower val) "true"
  | None => false
  end.

(** The index at the end of a claim's name. *)
Definition claim_index (vip : VpcIpClaim) : option Z :=
  Atoi (List.last (Split (vip_Name vip) "-"%char) "").

Definition sts_claim (replicas : option Z) (vip : VpcIpClaim) : m unit :=
  match claim_index vip with
  | None => throw (ExtErr "invalid syntax")
  | Some idx =>
      r ← deref replicas;
      if (idx >? r - 1) && ct_Attached (vip_Status vip) then
        r ← attempt (ensureStaticIpPodNotRunning (vip_Namespace vip) (vip_Name vip));
        match r with
        | inr true => ignore (markVPCIpClaimDetached vip)
        | _ => mret tt
        end
      else mret tt
  end.

(** [cache.SplitMetaNamespaceKey]. *)
Definition SplitMetaNamespaceKey (key : string) : option (string * string) :=
  match Split key "/"%char with
  | [name] => Some ("", name)
  | [namespace; name] => Some (namespace, name)
  | _ => None
  end.

Definition onStsUpdate (key : string) : m unit :=
  match SplitMetaNamespaceKey key with
  | None => throw (ExtErr "unexpected key format")
  | Some (namespace, name) =>
      vipList ← v_in_k8s (vk_ListClaimsOwned namespace name);
      r ← attempt (v_in_k8s (vk_GetStatefulSet namespace name));
      match r with
      | inl err => if k8serr_is NotFound err then mret tt else throw err
      | inr sts => for_range vipList (sts_claim (sts_Replicas sts))
      end
  end.

Definition onStsDelete (sts : StatefulSet) : m unit :=
  vipList ← v_in_k8s (vk_ListClaimsOwned (sts_Namespace sts) (sts_Name sts));
  for_range vipList (λ vip, ignore (markVPCIpClaimDetached vip)).

(** *** main.go *)

(** The zero [time.Time], which [time.Parse] returns with an error. *)
Definition zero_time : Z := -62135596800.
Definition second_ns : Z := 1000000000.

(** [detachTime.Add(release).Before(now)], on a clock of whole seconds. *)
Definition release_due (c : VpcIpClaim) (release now : Z) : bool :=
  default zero_time (ParseDateTime (ct_LastDetachTime (vip_Status c))) * second_ns + release <? now * second_ns.

Definition clean_claim (vpcip : VpcIpClaim) : m unit :=
  if String.eqb (ct_ReleaseTime (vip_Status vpcip)) "Never" then mret tt else
  match ParseDuration (ct_ReleaseTime (vip_Status vpcip)) with
  | None => mret tt
  | Some release =>
      now ← v_in_proc Now;
      if release_due vpcip release now then
        r ← attempt (v_in_k8s vk_NewKubeClient);
        match r with
        | inl _ => panic "nil pointer dereference"
        | inr _ =>
            r ← attempt (ensureStaticIpPodNotRunning (vip_Namespace vpcip) (vip_Name vpcip));
            match r with
            | inr true => ignore (v_in_k8s (vk_DeleteClaim (vip_Namespace vpcip) (vip_Name vpcip)))
            | _ => mret tt
            end
        end
      else mret tt
  end.

Definition vipCheckAndClean : m unit :=
  r ← attempt (v_in_k8s vk_NewCRDClient);
  match r with
  | inl _ => mret tt
  | inr _ =>
      r ← attempt (v_in_k8s (vk_ListDetached defaultListCRDLimit));
      for_range (match r with inl _ => [] | inr items => items end) clean_claim
  end.

Definition release_request (vpcip : VpcIpClaim) : SecondaryIpRequest :=
  mkSecReq (Some (ct_Zone (vip_Status vpcip))) (Some (ct_Mac (vip_Status vpcip))) (Some (cs_Ip (vip_Spec vpcip)))
    None (Some (cs_VpcId (vip_Spec vpcip))) (Some (cs_SubnetId (vip_Spec vpcip))).

Definition releaseVPCIp (vpcip : VpcIpClaim) : M (Proc E) unit :=
  r ← attempt NewClient;
  match r with
  | inl _ => mret tt
  | inr uapi =>
      VPCClient uapi;;
      '(retCode, err) ← ext_total (ext_DeleteSecondaryIp (release_request vpcip));
      if retCode =? UAPIErrorIPNotExst then mret tt else
      match err with Some e => throw e | None => mret tt end
  end.

(** *** vpcipclaim.go *)

Definition onVipDelete (vip : VpcIpClaim) : m unit :=
  r ← attempt (ensureStaticIpPodNotRunning (vip_Namespace vip) (vip_Name vip));
  match r with
  | inr true => v_in_proc (releaseVPCIp vip)
  | _ => throw (Errorf "cannot delete vip")
  end.

(** *** The work queues *)

(** client-go's rate limiting queue of items [A]. *)
Class WorkQueue (Q A : Type) : Type := {
  wq_Add : A → Q → Q;
  wq_Get : Q → option A * Q;          (* [None]: shut down *)
  wq_Done : A → Q → Q;
  wq_Forget : A → Q → Q
}.

(** [processUpdate] and the two [processDelete]: [Done] only after success,
    [Forget] in any case. *)
Definition process {Q A} `{!WorkQueue Q A} (handler : A → m unit) : M (Q * VSt K E) unit :=
  item ← (λ qs, let '(i, q') := wq_Get qs.1 in (Ok i, (q', qs.2)));
  match item with
  | None => mret tt
  | Some s =>
      r ← attempt (zoom snd (λ v qs, (qs.1, v)) (handler s));
      (match r with
       | inr _ => modify (λ qs, (wq_Done s qs.1, qs.2))
       | inl _ => mret tt
       end);;
      modify (λ qs, (wq_Forget s qs.1, qs.2))
  end.
End vip.

(** ** What the API server promises to the controller *)

Class VipKubeLaws (K : Type) `{!KubeApi K, !KubeLaws K, !VipKubeApi K} : Type := {
  vk_pods : K → gmap (string * string) Pod;
  vk_stss : K → gmap (string * string) StatefulSet;
  vk_ghosts k := (vk_pods k, vk_stss k);
  vk_GetPod_ghosts ns n : keeps vk_ghosts (k_GetPod ns n);
  vk_GetClaim_ghosts ns n : keeps vk_ghosts (k_GetClaim ns n);
  vk_UpdateClaim_ghosts c : keeps vk_ghosts (k_UpdateClaim c);
  vk_ListClaimsOwned_ghosts ns n : keeps vk_ghosts (vk_ListClaimsOwned ns n);
  vk_ListDetached_ghosts l : keeps vk_ghosts (vk_ListDetached l);
  vk_DeleteClaim_ghosts ns n : keeps vk_ghosts (vk_DeleteClaim ns n);
  vk_GetStatefulSet_ghosts ns n : keeps vk_ghosts (vk_GetStatefulSet ns n);
  vk_NewKubeClient_ghosts : keeps vk_ghosts vk_NewKubeClient;
  vk_NewCRDClient_ghosts : keeps vk_ghosts vk_NewCRDClient;
  vk_ListClaimsOwned_keeps ns n : keeps k_claims (vk_ListClaimsOwned ns n);
  vk_ListDetached_keeps l : keeps k_claims (vk_ListDetached l);
  vk_GetStatefulSet_keeps ns n : keeps k_claims (vk_GetStatefulSet ns n);
  vk_NewKubeClient_keeps : keeps k_claims vk_NewKubeClient;
  vk_NewCRDClient_keeps : keeps k_claims vk_NewCRDClient;
  vk_GetPod_law ns n k :
    match (k_GetPod ns n k).1 with
    | inr p => vk_pods k !! (ns, n) = Some p
    | inl e => k8serr_is NotFound e = true → vk_pods k !! (ns, n) = None
    end;
  vk_GetStatefulSet_law ns n k sts :
    (vk_GetStatefulSet ns n k).1 = inr sts → vk_stss k !! (ns, n) = Some sts ∧ is_Some (sts_Replicas sts);
  vk_ListClaimsOwned_law ns n k l c :
    (vk_ListClaimsOwned ns n k).1 = inr l → c ∈ l →
    k_claims k !! claim_key c = Some c ∧ vip_Namespace c = ns ∧ vip_Labels c !! "owner-statefulset" = Some n;
  vk_ListDetached_law lim k l c :
    (vk_ListDetached lim k).1 = inr l → c ∈ l →
    k_claims k !! claim_key c = Some c ∧ vip_Labels c !! "attached" = Some "false";
  vk_GetClaim_failed ns n k e : (k_GetClaim ns n k).1 = inl e → k_claims (k_GetClaim ns n k).2 = k_claims k;
  vk_UpdateClaim_failed c k e :
    (k_UpdateClaim c k).1 = inl e →
    k_claims (k_UpdateClaim c k).2 = k_claims k ∨
    k8serr_is Conflict e = false ∧ k_claims (k_UpdateClaim c k).2 = <[claim_key c := c]> (k_claims k);
  vk_DeleteClaim_law ns n k :
    k_claims (vk_DeleteClaim ns n k).2 = delete (ns, n) (k_claims k) ∨
    (∃ e, (vk_DeleteClaim ns n k).1 = inl e ∧ k_claims (vk_DeleteClaim ns n k).2 = k_claims k)
}.

(** The clock: a reading is not later than the clock is afterwards. *)
Class ClockLaws (E : Type) `{!CloudApi E} : Type := {
  clock : E → Z;
  ext_Now_law e : (ext_Now e).1 ≤ clock (ext_Now e).2;
  ext_Now_mono e : clock e ≤ clock (ext_Now e).2
}.

(** A pod that does not need its address: gone, not of a stateful set, without
    address preservation, or not running. *)
Definition pod_gone (o : option Pod) : bool := match o with None => true | Some p => pod_not_running p end.

Section spec.
Context {K E : Type} `{!KubeApi K, !KubeLaws K, !VipKubeApi K, !VipKubeLaws K, !CloudApi E, !RetryApi, !RetryLaws}.
#[local] Abbreviation St' := (VSt K E).
Implicit Types s : St'.

Definition vclaims s : gmap (string * string) VpcIpClaim := k_claims (vs_k8s s).
Definition vghosts s := vk_ghosts (vs_k8s s).
Definition vpods s := vk_pods (vs_k8s s).
Definition vstss s := vk_stss (vs_k8s s).

(** One call to the API server, with its two views. *)
Lemma wp_v_in_k8s {A} (c : Call K A) (Q : outcome A → St' → Prop) s :
  keeps vk_ghosts c →
  (∀ r k', c (vs_k8s s) = (r, k') → ∀ s', vs_k8s s' = k' → vs_proc s' = vs_proc s → vghosts s' = vghosts s →
     Q (match r with inr a => Ok a | inl e => Err e end) s') →
  wp (v_in_k8s c) Q s.
Proof.
  intros Hk HQ. unfold v_in_k8s. wp_step. specialize (Hk (vs_k8s s)).
  apply wp_call; intros a k' Hc; rewrite Hc in Hk; by apply (HQ _ k' Hc).
Qed.

Definition only_proc s s' : Prop := vs_k8s s' = vs_k8s s.

Lemma wp_v_in_proc {A} (p : M (Proc E) A) (Q : outcome A → St' → Prop) s :
  safe p →
  (∀ o p', p (vs_proc s) = (o, p') → returns o = true → Q o (mkVSt (vs_k8s s) p')) → wp (v_in_proc p) Q s.
Proof.
  intros Hp HQ. unfold v_in_proc. wp_step. unfold wp. specialize (Hp (vs_proc s)).
  destruct (p (vs_proc s)) as [o p'] eqn:Hrun. by apply HQ.
Qed.

Lemma safe_Now : safe (Now : M (Proc E) Z).
Proof. unfold Now. eauto with safe. Qed.

Lemma v_NowFormat_spec s :
  wp (v_NowFormat : M St' string) (λ o s', only_proc s s' ∧ ∃ t, o = Ok t) s.
Proof.
  unfold v_NowFormat, v_in_proc, Now, ext_total, wp, zoom, gets. cbv [mbind M_bind]. simpl.
  destruct (ext_Now (proc_ext (vs_proc s))) as [t e']. simpl. unfold only_proc. eauto.
Qed.

Lemma ensure_spec ns n s :
  wp (ensureStaticIpPodNotRunning ns n) (λ o s', returns o = true ∧ vghosts s' = vghosts s ∧
    vclaims s' = vclaims s ∧ vs_proc s' = vs_proc s ∧ (o = Ok true → pod_gone (vpods s !! (ns, n)) = true)) s.
Proof.
  unfold ensureStaticIpPodNotRunning. wp_step. wp_step. apply wp_v_in_k8s; [apply vk_GetPod_ghosts|].
  intros r k' Hc s' Hk Hp Hg.
  pose proof (vk_GetPod_law ns n (vs_k8s s)) as Hl. pose proof (k_GetPod_claims ns n (vs_k8s s)) as Hcl.
  rewrite Hc in Hl, Hcl. simpl in Hl, Hcl. rewrite <- Hk in Hcl.
  destruct r as [e|pod]; cbn [kont].
  - destruct (k8serr_is NotFound e) eqn:He; wp_step; split_and!; try done.
    intros _. unfold vpods. by rewrite (Hl eq_refl).
  - wp_step. split_and!; try done. unfold vpods. rewrite Hl. intros [= Hgone]. exact Hgone.
Qed.

(** The claim under [key] is detached now, nothing else changed. *)
Definition detach_at (key : string * string) (m0 m1 : gmap (string * string) VpcIpClaim) : Prop :=
  ∃ c t, m0 !! key = Some c ∧ m1 = <[key := detached_claim t c]> m0.

Lemma markDetached_spec vip s :
  wp (markVPCIpClaimDetached vip) (λ o s', returns o = true ∧ vghosts s' = vghosts s ∧
    (vclaims s' = vclaims s ∨ detach_at (claim_key vip) (vclaims s) (vclaims s')) ∧
    (o = Ok tt → detach_at (claim_key vip) (vclaims s) (vclaims s'))) s.
Proof.
  apply (wp_RetryOnConflict (detach_attempt vip) (λ s', vghosts s' = vghosts s ∧ vclaims s' = vclaims s)); [done|].
  intros s1 [Hg1 Hc1]. rewrite <- Hg1, <- Hc1. clear Hg1 Hc1 s. rename s1 into s.
  unfold detach_attempt. wp_step. apply wp_v_in_k8s; [apply vk_GetClaim_ghosts|].
  intros r k' Hc s1 Hk1 Hp1 Hg1. destruct r as [e|c]; cbn [kont].
  { pose proof (vk_GetClaim_failed (vip_Namespace vip) (vip_Name vip) (vs_k8s s) e) as Hf.
    rewrite Hc in Hf. specialize (Hf eq_refl). simpl in Hf. rewrite <- Hk1 in Hf.
    split_and!; auto; done. }
  pose proof (k_GetClaim_keeps (vip_Namespace vip) (vip_Name vip) (vs_k8s s)) as Hcl1.
  apply k_GetClaim_law in Hc as Hlaw. destruct Hlaw as [Hcur Hkey].
  rewrite Hc in Hcl1. simpl in Hcl1. rewrite <- Hk1 in Hcl1. fold (vclaims s1) (vclaims s) in Hcl1, Hcur.
  wp_step. wp_use v_NowFormat_spec as (Hs2 & t & ->). cbn [kont]. unfold only_proc in Hs2.
  wp_step. apply wp_v_in_k8s; [apply vk_UpdateClaim_ghosts|]. intros r k3 Hu s3 Hk3 Hp3 Hg3.
  assert (claim_key (detached_claim t c) = claim_key vip) as Hkt by exact Hkey.
  assert (vghosts s3 = vghosts s) as Hg by (unfold vghosts in *; congruence).
  rewrite Hs2 in Hu. assert (k_claims (vs_k8s s1) = vclaims s) as Hcs by done.
  destruct r as [e|c']; cbn [kont]; [|wp_step].
  - pose proof (vk_UpdateClaim_failed (detached_claim t c) (vs_k8s s1) e) as Hf. rewrite Hu in Hf.
    specialize (Hf eq_refl). simpl in Hf. rewrite <- Hk3 in Hf. fold (vclaims s3) in Hf. rewrite Hcs in Hf.
    split_and!; try done.
    + destruct Hf as [?|[_ Hf]]; [by left|right]. exists c, t. split; [done|]. by rewrite Hf, Hkt.
    + intros e' [= <-] Hconf. destruct Hf as [?|[Hnc _]]; [done|congruence].
  - apply k_UpdateClaim_law in Hu as [-> Hu]. rewrite Hcs, <- Hk3 in Hu. fold (vclaims s3) in Hu.
    assert (detach_at (claim_key vip) (vclaims s) (vclaims s3)).
    { exists c, t. split; [done|]. by rewrite Hu, Hkt. }
    split_and!; try done. by right.
Qed.

(** Some claims that satisfy [P] have been detached, the others are as before. *)
Definition detached_only (P : string * string → VpcIpClaim → Prop)
    (m0 m1 : gmap (string * string) VpcIpClaim) : Prop :=
  ∀ key, m1 !! key = m0 !! key ∨
    ∃ c t, m0 !! key = Some c ∧ P key c ∧ m1 !! key = Some (detached_claim t c).

Lemma detached_only_step P m0 m1 m2 vip :
  m0 !! claim_key vip = Some vip → P (claim_key vip) vip → detached_only P m0 m1 →
  (m2 = m1 ∨ detach_at (claim_key vip) m1 m2) → detached_only P m0 m2.
Proof.
  intros Hvip HP H1 [->|(c & t & Hc & ->)]; [done|]. intros key.
  destruct (decide (key = claim_key vip)) as [->|Hne]; [|by rewrite lookup_insert_ne].
  right. exists vip. rewrite lookup_insert_eq.
  destruct (H1 (claim_key vip)) as [Heq|(c0 & t0 & Hc0 & _ & Hc1)].
  - rewrite Heq, Hvip in Hc. injection Hc as <-. by exists t.
  - rewrite Hvip in Hc0. injection Hc0 as <-. rewrite Hc in Hc1. injection Hc1 as ->. exists t.
    split_and!; try done. f_equal. unfold detached_claim. simpl. f_equal. by rewrite insert_insert_eq.
Qed.

(** A claim that an update of the stateful set may detach. *)
Definition scaled_away s ns name (key : string * string) (c : VpcIpClaim) : Prop :=
  ∃ sts r idx, vstss s !! (ns, name) = Some sts ∧ sts_Replicas sts = Some r ∧
    claim_index c = Some idx ∧ r ≤ idx ∧ ct_Attached (vip_Status c) = true ∧
    vip_Namespace c = ns ∧ vip_Labels c !! "owner-statefulset" = Some name ∧
    pod_gone (vpods s !! key) = true.

Lemma sts_claim_spec r vip s :
  wp (sts_claim (Some r) vip) (λ o s', returns o = true ∧ vghosts s' = vghosts s ∧
    (vclaims s' = vclaims s ∨
     detach_at (claim_key vip) (vclaims s) (vclaims s') ∧
     pod_gone (vpods s !! claim_key vip) = true ∧ ct_Attached (vip_Status vip) = true ∧
     ∃ idx, claim_index vip = Some idx ∧ r ≤ idx)) s.
Proof.
  unfold sts_claim. destruct (claim_index vip) as [idx|] eqn:Hidx0; [|wp_step; auto].
  wp_step. unfold deref. wp_step. cbn [kont].
  destruct ((idx >? r - 1) && ct_Attached (vip_Status vip)) eqn:Hb; [|wp_step; auto].
  apply andb_prop in Hb as [Hidx Hatt]. wp_step. wp_step. wp_use ensure_spec as (Hr & Hg & Hc & _ & Hok).
  destruct o as [b|e| |]; try done; cbn [kont]; [|wp_step; auto].
  destruct b; [|wp_step; auto]. wp_step. wp_step. wp_step.
  wp_use markDetached_spec as (Hr2 & Hg2 & Hd & _). rewrite Hc in Hd.
  assert (vghosts st0 = vghosts s) as Hg' by congruence.
  assert (vclaims st0 = vclaims s ∨
     detach_at (claim_key vip) (vclaims s) (vclaims st0) ∧
     pod_gone (vpods s !! claim_key vip) = true ∧ ct_Attached (vip_Status vip) = true ∧
     ∃ idx, claim_index vip = Some idx ∧ r ≤ idx) as Hfin.
  { destruct Hd as [?|Hd]; [by left|right]. split_and!; try done; [by apply Hok|]. exists idx.
    split; [done|]. lia. }
  rewrite Hidx0 in Hfin. destruct o as [[]|e| |]; try done; cbn [kont]; wp_step; by split_and!.
Qed.

(** Reading the list and the stateful set changes neither view. *)
Lemma v_quiet_call {A} (c : Call K A) (Q : outcome A → St' → Prop) s :
  keeps vk_ghosts c → keeps k_claims c →
  (∀ r k', c (vs_k8s s) = (r, k') → ∀ s', vghosts s' = vghosts s → vclaims s' = vclaims s → vs_proc s' = vs_proc s →
     Q (match r with inr a => Ok a | inl e => Err e end) s') →
  wp (v_in_k8s c) Q s.
Proof.
  intros Hg Hc HQ. apply wp_v_in_k8s; [done|]. intros r k' Hrun s' Hk Hp Hgh.
  specialize (Hc (vs_k8s s)). rewrite Hrun in Hc. apply (HQ r k' Hrun); try done.
  unfold vclaims. by rewrite Hk.
Qed.

(** onStsUpdate ends with a value or an error and only detaches claims: attached
    ones of that stateful set whose index is beyond its replicas and whose pod is gone
    or does not keep its address. *)
Theorem onStsUpdate_correct key s :
  let '(o, s') := onStsUpdate key s in
  returns o = true ∧ vghosts s' = vghosts s ∧
  (vclaims s' = vclaims s ∨ ∃ ns name, SplitMetaNamespaceKey key = Some (ns, name) ∧
     detached_only (scaled_away s ns name) (vclaims s) (vclaims s')).
Proof.
  destruct (onStsUpdate key s) as [o s'] eqn:Hrun. pattern o, s'.
  refine (wp_run _ _ _ _ _ _ Hrun). clear o s' Hrun. cbv beta.
  unfold onStsUpdate. destruct (SplitMetaNamespaceKey key) as [[ns name]|] eqn:Hkey; [|by wp_step; auto].
  wp_step. apply v_quiet_call; [apply vk_ListClaimsOwned_ghosts|apply vk_ListClaimsOwned_keeps|].
  intros r k1 Hl s1 Hg1 Hc1 _. destruct r as [e|l]; cbn [kont]; [by auto|].
  wp_step. wp_step. apply v_quiet_call; [apply vk_GetStatefulSet_ghosts|apply vk_GetStatefulSet_keeps|].
  intros r k2 Hs s2 Hg2 Hc2 _. rewrite Hg1 in Hg2. rewrite Hc1 in Hc2.
  destruct r as [e|sts]; cbn [kont].
  { destruct (k8serr_is NotFound e); wp_step; auto. }
  destruct (vk_GetStatefulSet_law ns name (vs_k8s s1) sts) as [Hsts [r Hr]]; [by rewrite Hs|].
  assert (vstss s !! (ns, name) = Some sts) as Hsts'.
  { unfold vghosts, vk_ghosts in Hg1. injection Hg1 as _ Hg1. unfold vstss. by rewrite <- Hg1. }
  rewrite Hr.
  apply wp_for_range with (I := λ l' s', l' ⊆ l ∧ vghosts s' = vghosts s ∧
    detached_only (scaled_away s ns name) (vclaims s) (vclaims s')).
  - split_and!; [done|done|]. intros k. left. by rewrite Hc2.
  - intros vip l' s3 (Hsub & Hg3 & Hd3).
    assert (vip ∈ l) as Hin by (apply Hsub, list_elem_of_here).
    destruct (vk_ListClaimsOwned_law ns name (vs_k8s s) l vip) as (Hcur & Hns & Hlab); [by rewrite Hl|done|].
    wp_use sts_claim_spec as (Ho & Hg4 & Hd4).
    assert (vghosts st = vghosts s) as Hg by congruence.
    assert (vpods s3 = vpods s) as Hpods by (unfold vghosts, vk_ghosts in Hg3; by injection Hg3).
    assert (detached_only (scaled_away s ns name) (vclaims s) (vclaims st)) as Hd.
    { destruct Hd4 as [->|(Hd4 & Hgone & Hatt & idx & Hidx & Hle)]; [done|].
      eapply detached_only_step; [exact Hcur| |exact Hd3|by right].
      exists sts, r, idx. rewrite Hpods in Hgone. by split_and!. }
    destruct o as [[]|e| |]; try done; [|split_and!; [done..|]; right; by eauto].
    split_and!; [|done..]. intros x Hx. apply Hsub. by apply list_elem_of_further.
  - intros s3 (_ & Hg3 & Hd3). split_and!; [done..|]. right. by eauto.
Qed.

(** onStsDelete ends with a value or an error and only detaches claims that the
    deleted stateful set owns, each becoming the detached version of itself. *)
Theorem onStsDelete_correct sts s :
  let '(o, s') := onStsDelete sts s in
  returns o = true ∧ vghosts s' = vghosts s ∧
  detached_only (λ _ c, vip_Namespace c = sts_Namespace sts ∧
    vip_Labels c !! "owner-statefulset" = Some (sts_Name sts)) (vclaims s) (vclaims s').
Proof.
  destruct (onStsDelete sts s) as [o s'] eqn:Hrun. pattern o, s'.
  refine (wp_run _ _ _ _ _ _ Hrun). clear o s' Hrun. cbv beta.
  unfold onStsDelete.
  wp_step. apply v_quiet_call; [apply vk_ListClaimsOwned_ghosts|apply vk_ListClaimsOwned_keeps|].
  intros r k1 Hl s1 Hg1 Hc1 _. destruct r as [e|l]; cbn [kont].
  { split_and!; [done..|]. intros k. left. by rewrite Hc1. }
  set (P := λ (_ : string * string) c, vip_Namespace c = _ ∧ _).
  apply wp_for_range with (I := λ l' s', l' ⊆ l ∧ vghosts s' = vghosts s ∧
    detached_only P (vclaims s) (vclaims s')).
  - split_and!; [done|done|]. intros k. left. by rewrite Hc1.
  - intros vip l' s3 (Hsub & Hg3 & Hd3).
    assert (vip ∈ l) as Hin by (apply Hsub, list_elem_of_here).
    destruct (vk_ListClaimsOwned_law (sts_Namespace sts) (sts_Name sts) (vs_k8s s) l vip) as (Hcur & Hns & Hlab); [by rewrite Hl|done|].
    wp_step. wp_step. wp_step. wp_use markDetached_spec as (Ho & Hg4 & Hd4 & _).
    assert (vghosts st = vghosts s) as Hg by congruence.
    assert (detached_only P (vclaims s) (vclaims st)) as Hd by (by eapply detached_only_step).
    assert (l' ⊆ l) by (intros x Hx; apply Hsub; by apply list_elem_of_further).
    destruct o as [[]|e| |]; try done; cbn [kont]; wp_step; by split_and!.
  - intros s3 (_ & Hg3 & Hd3). by split_and!.
Qed.

(** *** The garbage collection *)

Section clean.
Context `{!ClockLaws E}.

Definition vclock s : Z := clock (proc_ext (vs_proc s)).

(** A detached claim whose release time had come by [now], and whose pod does not
    need it. *)
Definition expired s (now : Z) (key : string * string) (c : VpcIpClaim) : Prop :=
  vip_Labels c !! "attached" = Some "false" ∧ ct_ReleaseTime (vip_Status c) ≠ "Never" ∧
  pod_gone (vpods s !! key) = true ∧
  ∃ release, ParseDuration (ct_ReleaseTime (vip_Status c)) = Some release ∧ release_due c release now = true.

Definition deleted_only (P : string * string → VpcIpClaim → Prop)
    (m0 m1 : gmap (string * string) VpcIpClaim) : Prop :=
  ∀ key, m1 !! key = m0 !! key ∨ m1 !! key = None ∧ ∃ c, m0 !! key = Some c ∧ P key c.

Lemma release_due_mono c release now now' :
  now ≤ now' → release_due c release now = true → release_due c release now' = true.
Proof. unfold release_due, second_ns. intros Hle Hd%Z.ltb_lt. apply Z.ltb_lt. lia. Qed.

Lemma v_Now_spec s :
  wp (v_in_proc Now) (λ o s', vs_k8s s' = vs_k8s s ∧ vclock s ≤ vclock s' ∧ ∃ t, o = Ok t ∧ t ≤ vclock s') s.
Proof.
  unfold v_in_proc, Now, ext_total, wp, zoom, vclock. simpl.
  pose proof (ext_Now_law (proc_ext (vs_proc s))) as H1. pose proof (ext_Now_mono (proc_ext (vs_proc s))) as H2.
  destruct (ext_Now (proc_ext (vs_proc s))) as [t e']. simpl in *. eauto.
Qed.

Lemma clean_claim_spec c s :
  wp (clean_claim c) (λ o s', vghosts s' = vghosts s ∧ vclock s ≤ vclock s' ∧
    (o = Ok tt ∨ o = Panic "nil pointer dereference") ∧
    (vclaims s' = vclaims s ∨
     vclaims s' = delete (claim_key c) (vclaims s) ∧ ct_ReleaseTime (vip_Status c) ≠ "Never" ∧
     pod_gone (vpods s !! claim_key c) = true ∧
     ∃ release, ParseDuration (ct_ReleaseTime (vip_Status c)) = Some release ∧
       release_due c release (vclock s') = true)) s.
Proof.
  unfold clean_claim. destruct (String.eqb_spec (ct_ReleaseTime (vip_Status c)) "Never") as [|Hnever].
  { wp_step. split_and!; auto; lia. }
  destruct (ParseDuration (ct_ReleaseTime (vip_Status c))) as [release|] eqn:Hdur;
    [|wp_step; split_and!; auto; lia].
  wp_step. wp_use v_Now_spec as (Hk & Hclk & t & -> & Ht). cbn [kont].
  assert (vghosts st = vghosts s ∧ vclaims st = vclaims s ∧ vpods st = vpods s) as (Hg & Hc & Hp)
    by (unfold vghosts, vclaims, vpods; by rewrite Hk).
  destruct (release_due c release t) eqn:Hdue; [|wp_step; rewrite Hc; split_and!; auto; lia].
  wp_step. wp_step. apply v_quiet_call; [apply vk_NewKubeClient_ghosts|apply vk_NewKubeClient_keeps|].
  intros r k1 _ s1 Hg1 Hc1 Hpr1. assert (vclock s1 = vclock st) as Hclk1 by (unfold vclock; by rewrite Hpr1).
  rewrite Hg in Hg1. rewrite Hc in Hc1.
  destruct r as [e|[]]; cbn [kont]; [unfold panic, wp; simpl; split_and!; auto; lia|].
  wp_step. wp_step. wp_use ensure_spec as (Hr2 & Hg2 & Hc2 & Hpr2 & Hok2).
  assert (vpods s1 = vpods s) as Hp1 by (unfold vghosts, vk_ghosts in Hg1; by injection Hg1).
  assert (vclock st0 = vclock st) as Hclk2 by (rewrite <- Hclk1; unfold vclock; by rewrite Hpr2).
  rewrite Hg1 in Hg2. rewrite Hc1 in Hc2. rewrite Hp1 in Hok2.
  destruct o as [b|e| |]; try done; cbn [kont]; [|wp_step; split_and!; auto; lia].
  destruct b; [|wp_step; split_and!; auto; lia]. specialize (Hok2 eq_refl).
  wp_step. wp_step. wp_step. apply wp_v_in_k8s; [apply vk_DeleteClaim_ghosts|].
  intros r k3 Hd s3 Hk3 Hpr3 Hg3. rewrite Hg2 in Hg3.
  assert (vclock s3 = vclock st) as Hclk3 by (rewrite <- Hclk2; unfold vclock; by rewrite Hpr3).
  pose proof (vk_DeleteClaim_law (vip_Namespace c) (vip_Name c) (vs_k8s st0)) as Hl.
  rewrite Hd in Hl. simpl in Hl. rewrite <- Hk3 in Hl. fold (vclaims s3) (vclaims st0) in Hl. rewrite Hc2 in Hl.
  assert (vclaims s3 = vclaims s ∨ vclaims s3 = delete (claim_key c) (vclaims s) ∧
    ct_ReleaseTime (vip_Status c) ≠ "Never" ∧ pod_gone (vpods s !! claim_key c) = true ∧
    ∃ release', Some release = Some release' ∧ release_due c release' (vclock s3) = true) as Hfin.
  { destruct Hl as [Hl|(e & _ & Hl)]; [right|by left]. split_and!; try done. exists release.
    split; [done|]. eapply release_due_mono; [|exact Hdue]. lia. }
  destruct r as [e|[]]; cbn [kont]; wp_step; split_and!; auto; lia.
Qed.

Definition clean_post s (o : outcome unit) s' : Prop :=
  vghosts s' = vghosts s ∧ (o = Ok tt ∨ o = Panic "nil pointer dereference") ∧
  deleted_only (expired s (vclock s')) (vclaims s) (vclaims s').

Lemma vipCheckAndClean_spec s : wp vipCheckAndClean (clean_post s) s.
Proof.
  unfold clean_post, vipCheckAndClean.
  wp_step. wp_step. apply v_quiet_call; [apply vk_NewCRDClient_ghosts|apply vk_NewCRDClient_keeps|].
  intros r k1 _ s1 Hg1 Hc1 _.
  destruct r as [e|[]]; cbn [kont]; [wp_step; split_and!; auto; intros k; left; by rewrite Hc1|].
  wp_step. wp_step. apply v_quiet_call; [apply vk_ListDetached_ghosts|apply vk_ListDetached_keeps|].
  intros r k2 Hl s2 Hg2 Hc2 _. rewrite Hg1 in Hg2. rewrite Hc1 in Hc2.
  assert (∃ l, (match r with inl _ => [] | inr items => items end) = l ∧
    ∀ c, c ∈ l → vclaims s !! claim_key c = Some c ∧ vip_Labels c !! "attached" = Some "false") as (l & Hl' & Hlist).
  { eexists. split; [done|]. intros c Hin. destruct r as [e|items]; [by apply elem_of_nil in Hin|].
    rewrite <- Hc1. apply (vk_ListDetached_law defaultListCRDLimit (vs_k8s s1) items c); [by rewrite Hl|done]. }
  assert (wp (for_range l clean_claim) (λ o s', vghosts s' = vghosts s ∧
    (o = Ok tt ∨ o = Panic "nil pointer dereference") ∧
    deleted_only (expired s (vclock s')) (vclaims s) (vclaims s')) s2) as Hloop.
  2:{ destruct r as [e|items]; cbn [kont]; by rewrite Hl'. }
  apply wp_for_range with (I := λ l' s', l' ⊆ l ∧ vghosts s' = vghosts s ∧
    deleted_only (expired s (vclock s')) (vclaims s) (vclaims s')).
  - split_and!; [done|done|]. intros k. left. by rewrite Hc2.
  - intros c l' s3 (Hsub & Hg3 & Hd3).
    assert (c ∈ l) as Hin by (apply Hsub, list_elem_of_here). destruct (Hlist c Hin) as [Hcur Hlab].
    wp_use clean_claim_spec as (Hg4 & Hclk & Ho & Hd4). rewrite Hg3 in Hg4.
    assert (vpods s3 = vpods s) as Hpods by (unfold vghosts, vk_ghosts in Hg3; by injection Hg3).
    assert (deleted_only (expired s (vclock st)) (vclaims s) (vclaims st)) as Hd.
    { intros k. destruct Hd4 as [->|(-> & Hn & Hgone & release & Hdur & Hdue)].
      - destruct (Hd3 k) as [?|(? & c0 & ? & Hl0 & Hn0 & Hgone0 & r0 & Hr0 & Hd0)]; [by left|right].
        split; [done|]. exists c0. split; [done|]. split_and!; try done. exists r0. split; [done|].
        by eapply release_due_mono.
      - destruct (decide (k = claim_key c)) as [->|Hne].
        + right. rewrite lookup_delete_eq. split; [done|]. exists c. split; [done|]. rewrite Hpods in Hgone.
          split_and!; try done. by exists release.
        + rewrite lookup_delete_ne by done.
          destruct (Hd3 k) as [?|(? & c0 & ? & Hl0 & Hn0 & Hgone0 & r0 & Hr0 & Hd0)]; [by left|right].
          split; [done|]. exists c0. split; [done|]. split_and!; try done. exists r0. split; [done|].
          by eapply release_due_mono. }
    destruct Ho as [->| ->]; [|by split_and!; auto].
    split_and!; try done. intros x Hx. apply Hsub. by apply list_elem_of_further.
  - intros s3 (_ & Hg3 & Hd3). by split_and!; auto.
Qed.

(** C33: vipCheckAndClean deletes only detached claims with a finite release time that
    had come by then and whose pod does not need the address; it returns, or panics on
    the nil client that a failed kubeclient.Get leaves. *)
Theorem vipCheckAndClean_correct s : wp vipCheckAndClean (clean_post s) s.
Proof. apply vipCheckAndClean_spec. Qed.
End clean.

(** The detach time is written in local time and read back as UTC: on a node whose
    zone is offset seconds ahead a claim detached now is due at now plus offset plus its
    release duration. *)
Theorem release_time_clock offset now release at_ c :
  four_digit_year (now + offset) →
  release_due (detached_claim (FormatDateTime offset now) c) release at_ =
    ((now + offset) * second_ns + release <? at_ * second_ns).
Proof.
  intros Hy. unfold release_due, detached_claim. simpl. by rewrite parse_format.
Qed.

(** *** Giving the address back *)

Section release.
Context `{!VpcLaws E}.

Definition vvpc s : gset vpc_addr := vpc_addrs (proc_ext (vs_proc s)).
Definition claim_addr (c : VpcIpClaim) : vpc_addr :=
  (cs_VpcId (vip_Spec c), cs_SubnetId (vip_Spec c), cs_Ip (vip_Spec c), ct_Mac (vip_Status c)).

Lemma releaseVPCIp_spec c (p : Proc E) :
  wp (releaseVPCIp c) (λ o p',
    (vpc_addrs (proc_ext p') = vpc_addrs (proc_ext p) ∨
     vpc_addrs (proc_ext p') = vpc_addrs (proc_ext p) ∖ {[claim_addr c]}) ∧
    (o = Ok tt → claim_addr c ∉ vpc_addrs (proc_ext p') ∨ ∃ e, (NewClient p).1 = Err e) ∧
    (∀ e, (NewClient p).1 = Err e → o = Ok tt ∧ vpc_addrs (proc_ext p') = vpc_addrs (proc_ext p))) p.
Proof.
  unfold releaseVPCIp. wp_step. wp_step. pose proof (pkeeps_NewClient p) as Hk.
  unfold wp at 1. destruct (NewClient p) as [[client|e|w|] p1]; simpl in Hk; cbn [fst snd kont];
    [|wp_step; rewrite Hk; split_and!; [by left|by eauto|done]|rewrite Hk; split_and!; [by left|done..]..].
  wp_step. pose proof (pkeeps_VPCClient client p1) as Hk2. pose proof (safe_VPCClient client p1) as Hs2.
  unfold wp at 1. destruct (VPCClient client p1) as [[[]|e|w|] p2]; try done; simpl in Hk2; cbn [fst snd kont];
    [|rewrite Hk2, Hk; split_and!; [by left|done..]].
  wp_step. unfold ext_total. wp_step. unfold wp at 1.
  destruct (ext_DeleteSecondaryIp (release_request c) (proc_ext p2)) as [[code err] e'] eqn:Hd. cbn [fst snd kont].
  apply vpc_Delete_law in Hd. rewrite Hk2, Hk in Hd. fold (claim_addr c) in Hd.
  set (q := set_ext e' p2).
  assert (∀ o : outcome unit, (o = Ok tt → code = UAPIErrorIPNotExst ∨ err = None) →
    (vpc_addrs (proc_ext q) = vpc_addrs (proc_ext p) ∨
     vpc_addrs (proc_ext q) = vpc_addrs (proc_ext p) ∖ {[claim_addr c]}) ∧
    (o = Ok tt → claim_addr c ∉ vpc_addrs (proc_ext q) ∨ ∃ e, (Ok client : outcome ApiClient) = Err e) ∧
    (∀ e, (Ok client : outcome ApiClient) = Err e → o = Ok tt ∧ vpc_addrs (proc_ext q) = vpc_addrs (proc_ext p))) as Hfin.
  { change (proc_ext q) with e'. intros o Ho. destruct Hd as [Hd|(Hd & He & Hc)]; rewrite Hd.
    - split_and!; [by right| |done]. intros _. left. apply not_elem_of_difference. right. by apply elem_of_singleton.
    - split_and!; [by left| |done]. intros Hok. destruct (Ho Hok); done. }
  clearbody q. destruct (Z.eqb_spec code UAPIErrorIPNotExst) as [->|Hne]; [wp_step; apply Hfin; by left|].
  destruct err; wp_step; apply Hfin; [discriminate|by right].
Qed.

Definition vip_delete_post vip s (o : outcome unit) s' : Prop :=
  vghosts s' = vghosts s ∧ vclaims s' = vclaims s ∧
  (vvpc s' = vvpc s ∨
   vvpc s' = vvpc s ∖ {[claim_addr vip]} ∧ pod_gone (vpods s !! claim_key vip) = true) ∧
  (o = Ok tt → pod_gone (vpods s !! claim_key vip) = true ∧
     (claim_addr vip ∉ vvpc s' ∨ ∃ e, (NewClient (vs_proc s)).1 = Err e)) ∧
  match (ensureStaticIpPodNotRunning (vip_Namespace vip) (vip_Name vip) s).1 with
  | Ok true => ∀ e, (NewClient (vs_proc s)).1 = Err e → o = Ok tt ∧ vvpc s' = vvpc s
  | _ => (∃ e, o = Err e) ∧ vvpc s' = vvpc s
  end.

Lemma onVipDelete_spec vip s : wp (onVipDelete vip) (vip_delete_post vip s) s.
Proof.
  unfold vip_delete_post, onVipDelete. wp_step. wp_step. apply run_wp. intros o st Ee.
  destruct (wp_run _ _ _ _ _ (ensure_spec _ _ s) Ee) as (Hr & Hg & Hc & Hp & Hok). rewrite Ee. cbn [fst].
  assert (vvpc st = vvpc s) as Hv by (unfold vvpc; by rewrite Hp).
  destruct o as [b|e| |]; try done; cbn [kont]; [destruct b|]; [|wp_step; split_and!; try by eauto; done..].
  specialize (Hok eq_refl). unfold v_in_proc. wp_step. eapply wp_mono; [apply releaseVPCIp_spec|].
  intros o p' (H1 & H2 & H3). rewrite Hp in H1, H2, H3. split_and!; [done|done| | |exact H3].
  - destruct H1 as [H1|H1]; [left|right]; done.
  - intros ->. split; [done|]. by apply H2.
Qed.

(** C34: onVipDelete takes at most the address of the deleted claim out of the VPC, and
    only when its pod is gone; it fails without a change when the pod may still run.
    After success the address is gone from the VPC, unless no API client could be made,
    in which case it reports success and leaves every address allocated. *)
Theorem onVipDelete_correct vip s : wp (onVipDelete vip) (vip_delete_post vip s) s.
Proof. apply onVipDelete_spec. Qed.

(** The other handlers leave the addresses of the VPC alone. *)
Lemma keeping_v_in_k8s {A} (c : Call K A) : keeping vvpc (v_in_k8s c : M St' A).
Proof. by apply keeping_zoom. Qed.
Lemma keeping_v_Now : keeping vvpc (v_in_proc Now : M St' Z).
Proof.
  intros s. unfold v_in_proc, Now, ext_total, zoom, vvpc. cbn.
  pose proof (vpc_Now_keeps (proc_ext (vs_proc s))) as Hn. by destruct (ext_Now _).
Qed.
Lemma keeping_v_gets {A} (f : Proc E → A) : keeping vvpc (v_in_proc (gets f) : M St' A).
Proof. intros []. done. Qed.
#[local] Hint Resolve keeping_v_in_k8s keeping_v_Now keeping_v_gets : keep.
Lemma keeping_markDetached c : keeping vvpc (markVPCIpClaimDetached c : M St' unit).
Proof. apply keeping_RetryOnConflict. unfold detach_attempt, v_NowFormat. solve_keeping. Qed.
#[local] Hint Resolve keeping_markDetached : keep.
Lemma keeping_onStsUpdate key : keeping vvpc (onStsUpdate key : M St' unit).
Proof. unfold onStsUpdate, sts_claim, deref, ensureStaticIpPodNotRunning. solve_keeping. Qed.
Lemma keeping_onStsDelete sts : keeping vvpc (onStsDelete sts : M St' unit).
Proof. unfold onStsDelete. solve_keeping. Qed.
Lemma keeping_vipCheckAndClean : keeping vvpc (vipCheckAndClean : M St' unit).
Proof. unfold vipCheckAndClean, clean_claim, ensureStaticIpPodNotRunning. solve_keeping. Qed.
End release.
End spec.

(** ** The work queue *)

(** The documented discipline of the queue: an item that is being processed is
    not handed out again until [Done]. *)
Class WorkQueueLaws (Q A : Type) `{!WorkQueue Q A, Countable A} : Type := {
  processing : Q → gset A;
  wq_Add_law (a : A) q : processing (wq_Add a q) = processing q;
  wq_Get_law q :
    match (wq_Get q).1 with
    | Some a => (a ∉ processing q) ∧ processing (wq_Get q).2 = {[a]} ∪ processing q
    | None => processing (wq_Get q).2 = processing q
    end;
  wq_Done_law (a : A) q : processing (wq_Done a q) = processing q ∖ {[a]};
  wq_Forget_law (a : A) q : processing (wq_Forget a q) = processing q
}.

Section queue.
Context {K E Q A : Type} `{Countable A, !WorkQueue Q A, !WorkQueueLaws Q A}.
Context (handler : A → M (VSt K E) unit).

(** What happens to the queue: the informer adds items, a worker processes one. *)
Inductive queue_event : Q * VSt K E → Q * VSt K E → Prop :=
| event_add a q v : queue_event (q, v) (wq_Add a q, v)
| event_process qs o qs' : process handler qs = (o, qs') → queue_event qs qs'
| event_other q v v' : queue_event (q, v) (q, v').

Lemma process_processing qs :
  let '(o, qs') := process handler qs in
  match (wq_Get qs.1).1 with
  | None => processing qs'.1 = processing qs.1
  | Some a => (a ∉ processing qs.1) ∧
      processing qs'.1 ∖ {[a]} = processing qs.1 ∧
      ((handler a qs.2).1 ≠ Ok tt → a ∈ processing qs'.1)
  end.
Proof.
  destruct qs as [q v]. unfold process. cbv [mbind M_bind]. simpl.
  pose proof (wq_Get_law q) as Hg. destruct (wq_Get q) as [[a|] q1]; simpl in *; [|done].
  destruct Hg as [Hn Hp]. unfold attempt, zoom. simpl.
  destruct (handler a v) as [[[]|e|w|] v']; simpl; unfold modify, mret, M_ret; simpl;
    rewrite ?wq_Forget_law, ?wq_Done_law, Hp; (split; [done|]); (split; [set_solver|]);
    first [done | set_solver].
Qed.

(** An item in processing stays there whatever happens, and no worker gets it. *)
Lemma processing_stays a qs qs' :
  a ∈ processing qs.1 → queue_event qs qs' → a ∈ processing qs'.1.
Proof.
  intros Ha He. destruct He as [b q v|qs o qs' Hrun|q v v']; simpl in *; [by rewrite wq_Add_law| |done].
  pose proof (process_processing qs) as Hp. rewrite Hrun in Hp.
  destruct ((wq_Get qs.1).1) as [b|]; [|by rewrite Hp]. destruct Hp as (Hn & Hp & _).
  rewrite <- Hp in Ha. set_solver.
Qed.

(** An item whose handler failed is not marked done, so the work queue never hands
    it out again, whatever other items are added, processed or finished later. *)
Theorem failed_item_is_stuck a q v o qs' qs'' :
  (wq_Get q).1 = Some a → (handler a v).1 ≠ Ok tt → process handler (q, v) = (o, qs') →
  rtc queue_event qs' qs'' → (wq_Get qs''.1).1 ≠ Some a.
Proof.
  intros Hget Hfail Hrun Hsteps.
  assert (a ∈ processing qs'.1) as Ha.
  { pose proof (process_processing (q, v)) as Hp. rewrite Hrun in Hp. simpl in Hp. rewrite Hget in Hp.
    by apply Hp. }
  assert (a ∈ processing qs''.1) as Ha'.
  { clear -Ha Hsteps. induction Hsteps as [|x y z Hxy _ IH]; [done|]. apply IH. by eapply processing_stays. }
  intros Hagain. pose proof (wq_Get_law qs''.1) as Hl. rewrite Hagain in Hl. by destruct Hl.
Qed.
End queue.

(** ** A concrete cluster *)

Definition demo_sts : StatefulSet := mkSts "web" "default" (Some 1) ∅.

#[global] Instance cluster_vip : VipKubeApi cluster := {
  vk_ListClaimsOwned ns n := c_call (λ c,
    (inr (filter (λ v, vip_Namespace v = ns ∧ vip_Labels v !! "owner-statefulset" = Some n)
            (map_to_list (claim_view c)).*2), c));
  vk_ListDetached lim := c_call (λ c,
    (inr (take (Z.to_nat lim) (filter (λ v, vip_Labels v !! "attached" = Some "false")
            (map_to_list (claim_view c)).*2)), c));
  vk_DeleteClaim ns n := c_call (λ c, (inr tt, c_set_claims (delete (ns, n) (c_claims c)) c));
  vk_GetStatefulSet ns n := c_get (λ c,
    c_found (if bool_decide ((ns, n) = ("default", "web")) then Some demo_sts else None) c);
  vk_NewKubeClient := c_call (λ c, (inr tt, c));
  vk_NewCRDClient := c_call (λ c, (inr tt, c))
}.

Definition pod_view (c : cluster) : gmap (string * string) Pod :=
  list_to_map ((λ p, ((pod_Namespace p, pod_Name p), p)) <$> c_pods c).

Lemma pod_view_find c ns n : pod_view c !! (ns, n) = find_pod ns n c.
Proof.
  unfold pod_view, find_pod. induction (c_pods c) as [|p l IH]; [done|].
  rewrite fmap_cons, filter_cons. simpl. destruct (decide _) as [[<- <-]|Hne].
  - by rewrite lookup_insert_eq.
  - rewrite lookup_insert_ne; [exact IH|]. intros [= ? ?]. by apply Hne.
Qed.

Lemma c_call_pods {A} (f : cluster → (error + A) * cluster) c :
  (∀ c, c_pods (f c).2 = c_pods c) → c_pods (c_call f c).2 = c_pods c.
Proof. intros Hf. unfold c_call. destruct (head (c_fail c)) as [[e|]|]; [done|by rewrite Hf..]. Qed.
Lemma c_get_pods {A} (f : cluster → (error + A) * cluster) c :
  (∀ c, c_pods (f c).2 = c_pods c) → c_pods (c_get f c).2 = c_pods c.
Proof. intros Hf. unfold c_get. destruct (head (c_fail c)) as [[e|]|]; [done|by rewrite Hf..]. Qed.

Lemma claim_view_values c v : v ∈ (map_to_list (claim_view c)).*2 → claim_view c !! claim_key v = Some v.
Proof.
  intros ([k v'] & -> & Hin)%list_elem_of_fmap. apply elem_of_map_to_list in Hin. simpl.
  by rewrite (claim_view_lookup _ _ _ Hin).
Qed.
Lemma claim_view_delete c k : claim_view (c_set_claims (delete k (c_claims c)) c) = delete k (claim_view c).
Proof. unfold claim_view. simpl. apply map_imap_delete. Qed.

#[global] Instance cluster_vip_laws : VipKubeLaws cluster.
Proof.
  refine {| vk_pods := pod_view; vk_stss _ := {[("default", "web") := demo_sts]} |}; unfold keeps; simpl; intros.
  all: try (f_equal; unfold pod_view; f_equal; f_equal;
    first [apply c_call_pods | apply c_get_pods]; intros c'; unfold c_found; simpl; repeat case_match; done).
  all: try match goal with |- claim_view (c_call ?f ?c).2 = _ =>
    destruct (c_call_cases f c) as (c' & _ & Hv & _ & [->|[e ->]]); simpl; apply claim_view_eq; done end.
  all: try match goal with |- claim_view (c_get ?f ?c).2 = _ =>
    destruct (c_get_cases f c) as (c' & _ & Hv & _ & [->| ->]); simpl;
      unfold c_found; repeat case_match; apply claim_view_eq; done end.
  - rewrite pod_view_find. unfold c_get. set (c' := mkCluster _ _ _ _ _).
    change (find_pod ns n k) with (find_pod ns n c').
    destruct (head (c_fail k)) as [[e|]|]; [done|..]; unfold c_found; destruct (find_pod ns n c'); done.
  - revert H. match goal with |- (c_get ?f ?c).1 = _ → _ =>
      destruct (c_get_cases f c) as (c' & _ & Hv & _ & [->| ->]) end; [|done].
    unfold c_found. case_bool_decide as Hn; [|done]. injection Hn as -> ->. intros [= <-].
    split; [done|]. by eexists.
  - revert H. match goal with |- (c_call ?f ?c).1 = _ → _ =>
      destruct (c_call_cases f c) as (c' & _ & Hv & _ & [->|[e ->]]) end; [|done].
    intros [= <-]. apply list_elem_of_filter in H0 as [[Hns Hl] Hin]. apply claim_view_values in Hin.
    by rewrite (claim_view_eq _ _ Hv) in Hin.
  - revert H. match goal with |- (c_call ?f ?c).1 = _ → _ =>
      destruct (c_call_cases f c) as (c' & _ & Hv & _ & [->|[e ->]]) end; [|done].
    intros [= <-]. apply elem_of_take in H0 as (i & Hi & _). apply list_elem_of_lookup_2 in Hi.
    apply list_elem_of_filter in Hi as [Hl Hin]. apply claim_view_values in Hin.
    by rewrite (claim_view_eq _ _ Hv) in Hin.
  - match goal with |- claim_view (c_call ?f ?c).2 = _ =>
      destruct (c_call_cases f c) as (c' & _ & Hv & _ & [->|[e' ->]]) end; simpl;
      unfold c_found; repeat case_match; by apply claim_view_eq.
  - revert H. match goal with |- (c_call ?f ?c).1 = _ → _ =>
      destruct (c_call_cases f c) as (c' & _ & Hv & _ & [->|[e' ->]]) end; [done|].
    intros _. left. by apply claim_view_eq.
  - match goal with |- claim_view (c_call ?f ?c).2 = _ ∨ _ =>
      destruct (c_call_cases f c) as (c' & _ & Hv & _ & [->|[e' ->]]) end; simpl.
    + left. by rewrite claim_view_delete, (claim_view_eq _ _ Hv).
    + right. exists e'. split; [done|]. by apply claim_view_eq.
Defined.

#[global] Program Instance world_clock : ClockLaws world := { clock := w_now }.
Next Obligation. intros w. simpl. lia. Qed.
Next Obligation. intros w. simpl. lia. Qed.

(** *** Witnesses *)

Definition demo_claim (name : string) (attached : bool) (label detach release : string) : VpcIpClaim :=
  mkClaim name "default" {["owner-statefulset" := "web"; "attached" := label]} []
    (mkClaimSpec "10.0.0.7" "255.255.255.0" "10.0.0.1" "subnet-1" "vpc-1")
    (mkClaimStatus attached "zone-1" detach "52:54:00:00:00:01" release "").
Definition demo_vip_cluster : cluster :=
  mkCluster [] [] ∅
    {[("default", "web-0") := demo_claim "web-0" true "true" "" "168h";
      ("default", "web-1") := demo_claim "web-1" true "true" "" "168h";
      ("default", "web-2") := demo_claim "web-2" false "false" "2024-01-01 00:00:00" "1h"]} [].
Definition demo_vip_world : world :=
  mkWorld 1704074400 ∅ None [mkIpInfo "10.0.0.7" "52:54:00:00:00:01" "vpc-1" "subnet-1" "" ""] [] [] None [].
Definition demo_vst : VSt cluster world := mkVSt demo_vip_cluster (mkProc demo_vip_world None false).

Example update_detaches :
  let '(o, s') := onStsUpdate "default/web" demo_vst in
  o = Ok tt ∧ (ct_Attached ∘ vip_Status) <$> (vclaims s' !! ("default", "web-0")) = Some true ∧
  (ct_Attached ∘ vip_Status) <$> (vclaims s' !! ("default", "web-1")) = Some false.
Proof. vm_compute. repeat split. Qed.

Example clean_deletes :
  let '(o, s') := vipCheckAndClean demo_vst in
  o = Ok tt ∧ vclaims s' !! ("default", "web-2") = None ∧ is_Some (vclaims s' !! ("default", "web-0")).
Proof. vm_compute. repeat split. by eexists. Qed.

Lemma onStsUpdate_witness :
  let '(o, s') := onStsUpdate "default/web" demo_vst in
  returns o = true ∧ vghosts s' = vghosts demo_vst.
Proof.
  pose proof (onStsUpdate_correct (K:=cluster) (E:=world) "default/web" demo_vst) as H.
  destruct (onStsUpdate "default/web" demo_vst) as [o s']. split; apply H.
Defined.

Lemma onStsDelete_witness :
  let '(o, s') := onStsDelete demo_sts demo_vst in
  returns o = true ∧ vghosts s' = vghosts demo_vst.
Proof.
  pose proof (onStsDelete_correct (K:=cluster) (E:=world) demo_sts demo_vst) as H.
  destruct (onStsDelete demo_sts demo_vst) as [o s']. split; apply H.
Defined.

Lemma vipCheckAndClean_witness :
  wp vipCheckAndClean (clean_post demo_vst) demo_vst ∧ (vipCheckAndClean demo_vst).1 = Ok tt.
Proof.
  split; [exact (vipCheckAndClean_correct (K:=cluster) (E:=world) demo_vst)|vm_compute; reflexivity].
Defined.

Definition demo_deleted : VpcIpClaim := demo_claim "web-2" false "false" "2024-01-01 00:00:00" "1h".
Lemma onVipDelete_witness :
  wp (onVipDelete demo_deleted) (vip_delete_post demo_deleted demo_vst) demo_vst.
Proof. exact (onVipDelete_correct (K:=cluster) (E:=world) demo_deleted demo_vst). Defined.

(** Eight hours east of UTC, a one-hour release is due nine hours after the detachment. *)
Lemma release_time_clock_witness :
  release_due (detached_claim (FormatDateTime 28800 1704038400) (demo_claim "web-1" true "true" "" "1h"))
    3600000000000 (1704038400 + 3601) =
  ((1704038400 + 28800) * second_ns + 3600000000000 <? (1704038400 + 3601) * second_ns).
Proof. apply (release_time_clock 28800 1704038400). vm_compute. split; [discriminate|reflexivity]. Defined.

(** A queue that satisfies the discipline. *)
Record mem_queue (A : Type) `{Countable A} : Type := mkQueue { mq_waiting : list A; mq_processing : gset A }.
Arguments mkQueue {A _ _} _ _.
Arguments mq_waiting {A _ _} _.
Arguments mq_processing {A _ _} _.

Section mem_queue.
Context {A : Type} `{Countable A}.
#[global] Instance mem_queue_api : WorkQueue (mem_queue A) A := {
  wq_Add a q := mkQueue (if bool_decide (a ∈ mq_waiting q) then mq_waiting q else mq_waiting q ++ [a]) (mq_processing q);
  wq_Get q :=
    match filter (λ a, a ∉ mq_processing q) (mq_waiting q) with
    | [] => (None, q)
    | a :: _ => (Some a, mkQueue (filter (λ b, b ≠ a) (mq_waiting q)) ({[a]} ∪ mq_processing q))
    end;
  wq_Done a q := mkQueue (mq_waiting q) (mq_processing q ∖ {[a]});
  wq_Forget a q := q
}.
#[global] Program Instance mem_queue_laws : WorkQueueLaws (mem_queue A) A := { processing := mq_processing }.
Next Obligation. done. Qed.
Next Obligation.
  intros q. simpl. destruct (filter _ (mq_waiting q)) as [|a l] eqn:Hf; [done|]. simpl. split; [|done].
  assert (a ∈ a :: l) as Hin by apply list_elem_of_here. rewrite <- Hf in Hin.
  by apply list_elem_of_filter in Hin as [? _].
Qed.
Next Obligation. done. Qed.
Next Obligation. done. Qed.
End mem_queue.

Definition broken_vst : VSt cluster world :=
  mkVSt (mkCluster [] [] ∅ ∅ [Some (K8sErr Timeout)]) (mkProc demo_vip_world None false).
Lemma failed_item_is_stuck_witness :
  let qs' := (process onStsUpdate (mkQueue ["default/web"] ∅, broken_vst)).2 in
  (wq_Get (wq_Add "default/web" qs'.1)).1 ≠ Some "default/web".
Proof.
  cbv zeta. refine (failed_item_is_stuck (K:=cluster) (E:=world) onStsUpdate "default/web"
    (mkQueue ["default/web"] ∅) broken_vst
    (process onStsUpdate (mkQueue ["default/web"] ∅, broken_vst)).1
    (process onStsUpdate (mkQueue ["default/web"] ∅, broken_vst)).2
    (wq_Add "default/web" (process onStsUpdate (mkQueue ["default/web"] ∅, broken_vst)).2.1,
     (process onStsUpdate (mkQueue ["default/web"] ∅, broken_vst)).2.2) _ _ _ _).
  - vm_compute. reflexivity.
  - vm_compute. discriminate.
  - apply surjective_pairing.
  - eapply rtc_once. destruct (process onStsUpdate (mkQueue ["default/web"] ∅, broken_vst)).2 as [q v].
    apply event_add.
Defined.
