(* ===== verification/VipWorker.v ===== *)
(** The static address controller as a program ([cmd/vip-controller]): the event
    handlers that [NewStsController] and [NewVipController] register, the work queues
    and their workers, and the ticks of the garbage collection.

    A worker takes an item and finishes it later; in between the other workers, the
    informers and the rest of the cluster go on.  A handler itself is one step.  The
    delete queues hold pointers to the objects that the informer reported: positions in
    [ct_stss] and [ct_vips]. *)
From S2P Require Export VipController.

(** ** Definitions *)

(** client-go's queue also takes an item that is to be handed out after a delay. *)
Class DelayQueue (Q A : Type) : Type := { wq_AddAfter : A → Z → Q → Q }.

(** What an informer hands to [DeleteFunc]: the object, or a [DeletedFinalStateUnknown]
    when it missed the deletion. *)
Inductive informed (O : Type) : Type := Object (o : O) | DeletedFinalStateUnknown.
Arguments Object {O} _.
Arguments DeletedFinalStateUnknown {O}.

(** A queue, and the items that its workers are at. *)
Record Pool (Q A : Type) : Type := mkPool { pl_queue : Q; pl_busy : list A }.
Arguments mkPool {Q A} _ _.
Arguments pl_queue {Q A} _.
Arguments pl_busy {Q A} _.

Section pool.
Context {Q A V : Type} `{!WorkQueue Q A, !EqDecision A}.

Definition change_queue (f : Q → Q) (p : Pool Q A) : Pool Q A := mkPool (f (pl_queue p)) (pl_busy p).

(** The first half of [processUpdate] and of the two [processDelete]. *)
Definition take_item (p : Pool Q A) : Pool Q A :=
  let '(item, q) := wq_Get (pl_queue p) in
  mkPool q (match item with Some a => a :: pl_busy p | None => pl_busy p end).

(** The second half: the handler, [Done] after success, [Forget]. *)
Definition finish_item (handler : A → M V unit) (a : A) : M (Pool Q A * V) unit :=
  r ← attempt (zoom snd (λ v pv, (pv.1, v)) (handler a));
  (match r with
   | inr _ => modify (λ pv, (change_queue (wq_Done a) pv.1, pv.2))
   | inl _ => mret tt
   end);;
  modify (λ pv, (mkPool (wq_Forget a (pl_queue pv.1)) (filter (λ b, b ≠ a) (pl_busy pv.1)), pv.2)).
End pool.

(** *** main.go: the interval of the garbage collection *)

Definition minStaticIpGcInterval : Z := 5 * 60 * second_ns.
Definition gc_interval (staticIpGcInterval : string) : Z :=
  let duration := default (60 * 60 * second_ns) (ParseDuration staticIpGcInterval) in
  if duration <? minStaticIpGcInterval then minStaticIpGcInterval else duration.

(** *** The program *)

Definition stsWorkers : nat := 4.
Definition vipWorkers : nat := 2.

Record Ctl (QS QN K E : Type) : Type := mkCtl {
  ct_upd : Pool QS string;        (* StsController.updateQueue *)
  ct_del : Pool QN nat;           (* StsController.deleteQueue *)
  ct_vip : Pool QN nat;           (* VipController.deleteQueue *)
  ct_stss : list StatefulSet;     (* the objects behind the pointers *)
  ct_vips : list VpcIpClaim;
  ct_vs : VSt K E
}.
Arguments mkCtl {QS QN K E} _ _ _ _ _ _.
Arguments ct_upd {QS QN K E} _.
Arguments ct_del {QS QN K E} _.
Arguments ct_vip {QS QN K E} _.
Arguments ct_stss {QS QN K E} _.
Arguments ct_vips {QS QN K E} _.
Arguments ct_vs {QS QN K E} _.

Definition sts_key (s : StatefulSet) : string := sts_Namespace s +:+ "/" +:+ sts_Name s.

Section controller.
Context {QS QN K E : Type} `{!WorkQueue QS string, !DelayQueue QS string, !WorkQueue QN nat}
  `{!KubeApi K, !VipKubeApi K, !CloudApi E, !RetryApi}.
#[local] Abbreviation ctl := (Ctl QS QN K E).
#[local] Abbreviation m := (M ctl).

Definition put_upd (p : Pool QS string * VSt K E) (c : ctl) : ctl :=
  mkCtl p.1 (ct_del c) (ct_vip c) (ct_stss c) (ct_vips c) p.2.
Definition put_del (p : Pool QN nat * VSt K E) (c : ctl) : ctl :=
  mkCtl (ct_upd c) p.1 (ct_vip c) (ct_stss c) (ct_vips c) p.2.
Definition put_vip (p : Pool QN nat * VSt K E) (c : ctl) : ctl :=
  mkCtl (ct_upd c) (ct_del c) p.1 (ct_stss c) (ct_vips c) p.2.
Definition put_vs (v : VSt K E) (c : ctl) : ctl :=
  mkCtl (ct_upd c) (ct_del c) (ct_vip c) (ct_stss c) (ct_vips c) v.

(** [UpdateFunc] and [DeleteFunc] of [NewStsController]. *)
Definition sts_UpdateFunc (now : StatefulSet) : m unit :=
  if needHandleVpcIpClaim now
  then modify (λ c, put_upd (change_queue (wq_AddAfter (sts_key now) (30 * second_ns)) (ct_upd c), ct_vs c) c)
  else mret tt.
Definition sts_DeleteFunc (del : informed StatefulSet) : m unit :=
  match del with
  | DeletedFinalStateUnknown => panic "interface conversion"
  | Object s =>
      if needHandleVpcIpClaim s
      then modify (λ c, mkCtl (ct_upd c) (change_queue (wq_Add (length (ct_stss c))) (ct_del c)) (ct_vip c)
                          (ct_stss c ++ [s]) (ct_vips c) (ct_vs c))
      else mret tt
  end.

(** [DeleteFunc] of [NewVipController]. *)
Definition vip_DeleteFunc (del : informed VpcIpClaim) : m unit :=
  match del with
  | DeletedFinalStateUnknown => panic "interface conversion"
  | Object vip =>
      modify (λ c, mkCtl (ct_upd c) (ct_del c) (change_queue (wq_Add (length (ct_vips c))) (ct_vip c))
                     (ct_stss c) (ct_vips c ++ [vip]) (ct_vs c))
  end.

(** The handler behind a pointer. *)
Definition at_pointer {O} (objs : list O) (handler : O → M (VSt K E) unit) (i : nat) : M (VSt K E) unit :=
  match objs !! i with Some o => handler o | None => panic "nil pointer dereference" end.

Inductive ctl_event : Type :=
| OnUpdate (now : StatefulSet)
| OnStsDelete (del : informed StatefulSet)
| OnVipDelete (del : informed VpcIpClaim)
| TakeUpdate | TakeDelete | TakeVip
| FinishUpdate (key : string)
| FinishDelete (i : nat)
| FinishVip (i : nat)
| GcTick.

Definition ctl_action (e : ctl_event) : m unit :=
  match e with
  | OnUpdate now => sts_UpdateFunc now
  | OnStsDelete del => sts_DeleteFunc del
  | OnVipDelete del => vip_DeleteFunc del
  | TakeUpdate => modify (λ c, put_upd (take_item (ct_upd c), ct_vs c) c)
  | TakeDelete => modify (λ c, put_del (take_item (ct_del c), ct_vs c) c)
  | TakeVip => modify (λ c, put_vip (take_item (ct_vip c), ct_vs c) c)
  | FinishUpdate key => zoom (λ c, (ct_upd c, ct_vs c)) put_upd (finish_item onStsUpdate key)
  | FinishDelete i =>
      objs ← gets ct_stss;
      zoom (λ c, (ct_del c, ct_vs c)) put_del (finish_item (at_pointer objs onStsDelete) i)
  | FinishVip i =>
      objs ← gets ct_vips;
      zoom (λ c, (ct_vip c, ct_vs c)) put_vip (finish_item (at_pointer objs onVipDelete) i)
  | GcTick => zoom ct_vs put_vs vipCheckAndClean
  end.

(** A worker takes an item when it is free, and finishes one that it is at. *)
Definition enabled (e : ctl_event) (c : ctl) : Prop :=
  match e with
  | TakeUpdate => (length (pl_busy (ct_upd c)) < stsWorkers)%nat
  | TakeDelete => (length (pl_busy (ct_del c)) < stsWorkers)%nat
  | TakeVip => (length (pl_busy (ct_vip c)) < vipWorkers)%nat
  | FinishUpdate key => key ∈ pl_busy (ct_upd c)
  | FinishDelete i => i ∈ pl_busy (ct_del c)
  | FinishVip i => i ∈ pl_busy (ct_vip c)
  | _ => True
  end.

(** The program goes on after an action that returns; a panic ends it.  Whatever else
    is in the cluster may change it, and the VPC, at any time. *)
Inductive ctl_step : ctl → ctl → Prop :=
| step_event e c o c' : enabled e c → ctl_action e c = (o, c') → returns o = true → ctl_step c c'
| step_others c v : ctl_step c (put_vs v c).
End controller.

(** ** What the queue promises *)

(** It hands out, now or later, only what was added. *)
Class QueueItems (Q A : Type) `{!WorkQueue Q A, Countable A, !WorkQueueLaws Q A} : Type := {
  wq_has : A → Q → Prop;
  has_Add a b q : wq_has a (wq_Add b q) → a = b ∨ wq_has a q;
  has_Get a q : wq_has a (wq_Get q).2 → wq_has a q;
  has_Got a q : (wq_Get q).1 = Some a → wq_has a q;
  has_Done a b q : wq_has a (wq_Done b q) → wq_has a q;
  has_Forget a b q : wq_has a (wq_Forget b q) → wq_has a q
}.

Class DelayLaws (Q A : Type) `{!WorkQueue Q A, Countable A, !WorkQueueLaws Q A, !QueueItems Q A, !DelayQueue Q A} : Prop := {
  AddAfter_processing (a : A) t (q : Q) : processing (wq_AddAfter a t q) = processing q;
  AddAfter_has (a b : A) t (q : Q) : wq_has a (wq_AddAfter b t q) → a = b ∨ wq_has a q
}.

(** ** The workers of one queue *)

Section pool_props.
Context {Q A V : Type} `{Countable A, !WorkQueue Q A, !WorkQueueLaws Q A, !QueueItems Q A}.
Implicit Types p : Pool Q A.

(** No item is with two workers, and the workers' items, like those in the queue, are
    [valid]. *)
Definition pool_ok (n : nat) (valid : A → Prop) p : Prop :=
  NoDup (pl_busy p) ∧ (length (pl_busy p) ≤ n)%nat ∧
  (∀ a, a ∈ pl_busy p → a ∈ processing (pl_queue p) ∧ valid a) ∧ (∀ a, wq_has a (pl_queue p) → valid a).

Lemma pool_ok_weaken n (valid valid' : A → Prop) p :
  (∀ a, valid a → valid' a) → pool_ok n valid p → pool_ok n valid' p.
Proof.
  intros Hv (H1 & H2 & H3 & H4). split; [done|]. split; [done|]. split; [|by auto].
  intros a Ha. destruct (H3 a Ha). auto.
Qed.

Lemma pool_ok_add n valid p f b :
  (∀ q, processing (f q) = processing q) → (∀ a q, wq_has a (f q) → a = b ∨ wq_has a q) →
  valid b → pool_ok n valid p → pool_ok n valid (change_queue f p).
Proof.
  intros Hp Hh Hb (H1 & H2 & H3 & H4). split; [done|]. split; [done|]. split.
  - intros a Ha. cbn. rewrite Hp. by apply H3.
  - intros a [->|Ha]%Hh; [done|]. by apply H4.
Qed.

Lemma pool_ok_take n valid p :
  pool_ok n valid p → (length (pl_busy p) < n)%nat → pool_ok n valid (take_item p).
Proof.
  intros (H1 & H2 & H3 & H4) Hn. unfold take_item. pose proof (wq_Get_law (pl_queue p)) as Hl.
  pose proof (λ a, has_Get a (pl_queue p)) as Hs. pose proof (λ a, has_Got a (pl_queue p)) as Hg.
  destruct (wq_Get (pl_queue p)) as [[a|] q]; cbn in *.
  - destruct Hl as [Hnew Hpr]. split; [|split; [simpl; lia|split]]; cbn; [|intros b Hb|by auto].
    + apply NoDup_cons. split; [|done]. by intros [? _]%H3.
    + rewrite Hpr. apply elem_of_cons in Hb as [->|Hb]; [split; [set_solver|by auto]|].
      destruct (H3 b Hb). split; [set_solver|done].
  - split; [done|]. split; [done|]. split; [|by auto]. intros b Hb. cbn. rewrite Hl. by apply H3.
Qed.

(** What a worker leaves in its pool when it has finished [a]. *)
Definition finished (a : A) p p' : Prop :=
  pl_busy p' = filter (λ b, b ≠ a) (pl_busy p) ∧
  (processing (pl_queue p') = processing (pl_queue p) ∨ processing (pl_queue p') = processing (pl_queue p) ∖ {[a]}) ∧
  ∀ b, wq_has b (pl_queue p') → wq_has b (pl_queue p).

Lemma pool_ok_finish n valid a p p' : finished a p p' → pool_ok n valid p → pool_ok n valid p'.
Proof.
  intros (Hb & Hp & Hh) (H1 & H2 & H3 & H4). unfold pool_ok. rewrite Hb. split; [by apply NoDup_filter|].
  split; [etrans; [apply length_filter|done]|]. split; [|by auto].
  intros b [Hne Hin]%list_elem_of_filter. destruct (H3 b Hin) as [Hpr Hv]. split; [|done].
  destruct Hp as [->| ->]; [done|]. set_solver.
Qed.

(** The handler runs, and then, unless it panicked, the pool is the finished one. *)
Lemma finish_item_spec (handler : A → M V unit) a p v o pv :
  finish_item handler a (p, v) = (o, pv) →
  pv.2 = (handler a v).2 ∧ (returns o = true → finished a p pv.1 ∧ returns (handler a v).1 = true).
Proof.
  unfold finish_item, attempt, zoom, mbind, M_bind, modify. cbn.
  destruct (handler a v) as [[[]|e|w|] v'] eqn:Hrun; cbn; intros [= <- <-]; cbn; (split; [done|]); try done;
    intros _; (split; [|done]); unfold finished; cbn; rewrite wq_Forget_law, ?wq_Done_law; (split; [done|]);
    (split; [by auto|]).
  - by intros b ?%has_Forget%has_Done.
  - by intros b ?%has_Forget.
Qed.
End pool_props.

(** [process] is a worker that is alone: it takes an item and finishes it. *)
Lemma process_halves {K E Q A} `{!WorkQueue Q A, !EqDecision A} (handler : A → M (VSt K E) unit) q v :
  let p := take_item (mkPool q []) in
  process handler (q, v) =
  match pl_busy p with
  | [] => (Ok tt, (pl_queue p, v))
  | a :: _ => let '(o, (p', v')) := finish_item handler a (p, v) in (o, (pl_queue p', v'))
  end.
Proof.
  unfold process, take_item, finish_item, attempt, zoom, mbind, M_bind, modify. cbn.
  destruct (wq_Get q) as [[a|] q1]; cbn; [|done]. by destruct (handler a v) as [[[]|e|w|] v'].
Qed.

(** ** The controller *)

Section controller_props.
Context {QS QN K E : Type} `{!WorkQueue QS string, !WorkQueueLaws QS string, !QueueItems QS string,
  !DelayQueue QS string, !DelayLaws QS string, !WorkQueue QN nat, !WorkQueueLaws QN nat, !QueueItems QN nat}
  `{!KubeApi K, !KubeLaws K, !VipKubeApi K, !VipKubeLaws K, !CloudApi E, !VpcLaws E, !ClockLaws E, !RetryApi, !RetryLaws}.
Implicit Types (c : Ctl QS QN K E) (v : VSt K E).

(** Every pointer points to an object that the informer reported, and the stateful sets
    among them keep the addresses of their pods. *)
Definition ctl_ok c : Prop :=
  pool_ok stsWorkers (λ _, True) (ct_upd c) ∧
  pool_ok stsWorkers (λ i, i < length (ct_stss c))%nat (ct_del c) ∧
  pool_ok vipWorkers (λ i, i < length (ct_vips c))%nat (ct_vip c) ∧
  Forall (λ s, needHandleVpcIpClaim s = true) (ct_stss c).

(** The effect of a handler on the claims and on the VPC. *)
Definition update_effect (key : string) v v' : Prop :=
  vvpc v' = vvpc v ∧
  (vclaims v' = vclaims v ∨ ∃ ns name, SplitMetaNamespaceKey key = Some (ns, name) ∧
     detached_only (scaled_away v ns name) (vclaims v) (vclaims v')).
Definition delete_effect (sts : StatefulSet) v v' : Prop :=
  vvpc v' = vvpc v ∧
  detached_only (λ _ x, vip_Namespace x = sts_Namespace sts ∧
    vip_Labels x !! "owner-statefulset" = Some (sts_Name sts)) (vclaims v) (vclaims v').
Definition release_effect (vip : VpcIpClaim) v v' : Prop :=
  vclaims v' = vclaims v ∧
  (vvpc v' = vvpc v ∨
   vvpc v' = vvpc v ∖ {[claim_addr vip]} ∧ pod_gone (vpods v !! claim_key vip) = true).
Definition clean_effect v v' : Prop :=
  vvpc v' = vvpc v ∧ deleted_only (expired v (vclock v')) (vclaims v) (vclaims v').

(** What an event may do outside the program. *)
Definition allowed (e : ctl_event) c c' : Prop :=
  let v := ct_vs c in let v' := ct_vs c' in
  match e with
  | FinishUpdate key => update_effect key v v'
  | FinishDelete i => ∃ sts, ct_stss c !! i = Some sts ∧ needHandleVpcIpClaim sts = true ∧ delete_effect sts v v'
  | FinishVip i => ∃ vip, ct_vips c !! i = Some vip ∧ release_effect vip v v'
  | GcTick => clean_effect v v'
  | _ => v' = v
  end.

Lemma update_effect_run key v : update_effect key v (onStsUpdate key v).2.
Proof.
  pose proof (onStsUpdate_correct key v) as Hrun. pose proof (keeping_onStsUpdate key v) as Hv.
  destruct (onStsUpdate key v) as [o v']. split; [exact Hv|]. by destruct Hrun as (_ & _ & ?).
Qed.
Lemma delete_effect_run sts v : delete_effect sts v (onStsDelete sts v).2.
Proof.
  pose proof (onStsDelete_correct sts v) as Hrun. pose proof (keeping_onStsDelete sts v) as Hv.
  destruct (onStsDelete sts v) as [o v']. split; [exact Hv|]. by destruct Hrun as (_ & _ & ?).
Qed.
Lemma release_effect_run vip v : release_effect vip v (onVipDelete vip v).2.
Proof. destruct (onVipDelete_spec vip v) as (_ & H1 & H2 & _). by split. Qed.
Lemma clean_effect_run v : clean_effect v (vipCheckAndClean v).2.
Proof. split; [apply keeping_vipCheckAndClean|]. by destruct (vipCheckAndClean_spec v) as (_ & _ & ?). Qed.

(** An item of a delete queue: the object behind it. *)
Lemma pointer_run {O} (objs : list O) (handler : O → M (VSt K E) unit) n p i v (P : O → VSt K E → Prop) :
  pool_ok n (λ i, i < length objs)%nat p → i ∈ pl_busy p →
  (∀ x, P x (handler x v).2) → ∃ x, objs !! i = Some x ∧ P x (at_pointer objs handler i v).2.
Proof.
  intros (_ & _ & Hb & _) Hi HP. destruct (Hb i Hi) as [_ [x Hx]%lookup_lt_is_Some_2].
  exists x. split; [done|]. unfold at_pointer. rewrite Hx. apply HP.
Qed.

Lemma event_effect e c o c' : ctl_ok c → enabled e c → ctl_action e c = (o, c') → allowed e c c'.
Proof.
  intros (Hu & Hd & Hv & Hs) He Hrun. destruct e as [now|del|del| | | |key|i|i|]; cbn in Hrun.
  - unfold sts_UpdateFunc in Hrun. destruct (needHandleVpcIpClaim now); by injection Hrun as <- <-.
  - destruct del as [s|]; cbn in Hrun; [destruct (needHandleVpcIpClaim s)|]; by injection Hrun as <- <-.
  - destruct del as [vip|]; by injection Hrun as <- <-.
  - by injection Hrun as <- <-.
  - by injection Hrun as <- <-.
  - by injection Hrun as <- <-.
  - unfold zoom in Hrun. destruct (finish_item _ _ _) as [o1 pv] eqn:Hf. injection Hrun as <- <-.
    apply finish_item_spec in Hf as [Hf _]. cbn. rewrite Hf. apply update_effect_run.
  - unfold mbind, M_bind, gets, zoom in Hrun. destruct (finish_item _ _ _) as [o1 pv] eqn:Hf. injection Hrun as <- <-.
    apply finish_item_spec in Hf as [Hf _]. cbn. rewrite Hf.
    destruct (pointer_run (ct_stss c) onStsDelete _ _ i (ct_vs c) (λ sts, delete_effect sts (ct_vs c)) Hd He)
      as (sts & Hsts & Heff); [intros; apply delete_effect_run|].
    exists sts. split; [done|]. split; [|done]. by eapply Forall_lookup_1 in Hs.
  - unfold mbind, M_bind, gets, zoom in Hrun. destruct (finish_item _ _ _) as [o1 pv] eqn:Hf. injection Hrun as <- <-.
    apply finish_item_spec in Hf as [Hf _]. cbn. rewrite Hf.
    apply (pointer_run (ct_vips c) onVipDelete _ _ i (ct_vs c) (λ vip, release_effect vip (ct_vs c)) Hv He).
    intros; apply release_effect_run.
  - unfold zoom in Hrun. destruct (vipCheckAndClean (ct_vs c)) as [o1 v1] eqn:Hf. injection Hrun as <- <-.
    cbn. replace v1 with (vipCheckAndClean (ct_vs c)).2 by (by rewrite Hf). apply clean_effect_run.
Qed.

Lemma length_more {O} (l : list O) x i : (i < length l)%nat → (i < length (l ++ [x]))%nat.
Proof. rewrite length_app. lia. Qed.

Lemma event_ok e c o c' :
  ctl_ok c → enabled e c → ctl_action e c = (o, c') → returns o = true → ctl_ok c'.
Proof.
  intros (Hu & Hd & Hv & Hs) He Hrun Hret. destruct e as [now|del|del| | | |key|i|i|]; cbn in Hrun, He.
  - unfold sts_UpdateFunc in Hrun. destruct (needHandleVpcIpClaim now); injection Hrun as <- <-; [|done].
    split; [|done]. eapply pool_ok_add; [intros; apply AddAfter_processing|intros ? ?; apply AddAfter_has|done|done].
  - destruct del as [s|]; cbn in Hrun; [|by injection Hrun as <- <-].
    destruct (needHandleVpcIpClaim s) eqn:Hn; injection Hrun as <- <-; [|done].
    split; [done|]. split; [|split; [done|by apply Forall_app; split; [|constructor]]].
    eapply pool_ok_add; [intros; apply wq_Add_law|intros ? ?; apply has_Add|cbn; rewrite length_app; cbn; lia|].
    eapply pool_ok_weaken; [|exact Hd]. intros a. apply length_more.
  - destruct del as [vip|]; injection Hrun as <- <-; [|done].
    split; [done|]. split; [done|]. split; [|done].
    eapply pool_ok_add; [intros; apply wq_Add_law|intros ? ?; apply has_Add|cbn; rewrite length_app; cbn; lia|].
    eapply pool_ok_weaken; [|exact Hv]. intros a. apply length_more.
  - injection Hrun as <- <-. split; [by apply pool_ok_take|done].
  - injection Hrun as <- <-. split; [done|]. split; [by apply pool_ok_take|done].
  - injection Hrun as <- <-. split; [done|]. split; [done|]. split; [by apply pool_ok_take|done].
  - unfold zoom in Hrun. destruct (finish_item _ _ _) as [o1 pv] eqn:Hf. injection Hrun as <- <-.
    apply finish_item_spec in Hf as [_ Hf]. destruct (Hf Hret) as [Hfin _].
    split; [by eapply pool_ok_finish|done].
  - unfold mbind, M_bind, gets, zoom in Hrun. destruct (finish_item _ _ _) as [o1 pv] eqn:Hf. injection Hrun as <- <-.
    apply finish_item_spec in Hf as [_ Hf]. destruct (Hf Hret) as [Hfin _].
    split; [done|]. split; [by eapply pool_ok_finish|done].
  - unfold mbind, M_bind, gets, zoom in Hrun. destruct (finish_item _ _ _) as [o1 pv] eqn:Hf. injection Hrun as <- <-.
    apply finish_item_spec in Hf as [_ Hf]. destruct (Hf Hret) as [Hfin _].
    split; [done|]. split; [done|]. split; [by eapply pool_ok_finish|done].
  - unfold zoom in Hrun. destruct (vipCheckAndClean (ct_vs c)) as [o1 v1]. injection Hrun as <- <-. done.
Qed.

Lemma ctl_run_ok c c' : ctl_ok c → rtc ctl_step c c' → ctl_ok c'.
Proof.
  intros Hok Hr. induction Hr as [|c c1 c2 Hs _ IH]; [done|]. apply IH.
  destruct Hs as [e c o c1 He Hrun Hret|c v]; [by eapply event_ok|done].
Qed.

(** At the start nothing is queued. *)
Definition ctl_start c : Prop :=
  pl_busy (ct_upd c) = [] ∧ pl_busy (ct_del c) = [] ∧ pl_busy (ct_vip c) = [] ∧
  ct_stss c = [] ∧ ct_vips c = [] ∧
  (∀ i, ¬ wq_has i (pl_queue (ct_del c))) ∧ (∀ i, ¬ wq_has i (pl_queue (ct_vip c))).

Lemma ctl_start_ok c : ctl_start c → ctl_ok c.
Proof.
  intros (H1 & H2 & H3 & H4 & H5 & H6 & H7).
  split; [|split; [|split]]; unfold pool_ok; rewrite ?H1, ?H2, ?H3, ?H4, ?H5; [..|constructor];
    (split; [constructor|]); (split; [simpl; lia|]); (split; [by intros ? ?%elem_of_nil|]); try done;
    intros i Hi; [by destruct (H6 i)|by destruct (H7 i)].
Qed.

(** C32: Whatever the informers report, however the workers of the three queues take
    turns and whatever else happens in the cluster: no item is with two workers, there
    are no more items at work than workers, and every pointer at work points to a
    reported object. An address leaves the VPC only when a worker finishes a claim that
    was reported deleted, and only the address of that claim, whose pod is gone; a claim
    is changed only to detach it, for a stateful set that was scaled down or reported
    deleted, or deleted by the garbage collection when it had expired. An action does no
    more, even when it ends in a panic. *)
Theorem controller_safe c0 c e o c' :
  ctl_start c0 → rtc ctl_step c0 c → enabled e c → ctl_action e c = (o, c') →
  ctl_ok c ∧ allowed e c c'.
Proof.
  intros Hs Hr He Hrun. assert (ctl_ok c) as Hok by (by eapply ctl_run_ok; [apply ctl_start_ok|]).
  split; [done|]. by eapply event_effect.
Qed.
End controller_props.

(** ** A controller *)

Section mem_queue.
Context {A : Type} `{Countable A}.
#[global] Instance mem_queue_delay : DelayQueue (mem_queue A) A := { wq_AddAfter a _ q := wq_Add a q }.
Lemma mem_queue_Add a b (q : mem_queue A) : a ∈ mq_waiting (wq_Add b q) → a = b ∨ a ∈ mq_waiting q.
Proof.
  cbn. case_bool_decide; [by right|]. intros [?|E']%elem_of_app; [by right|]. left. by apply list_elem_of_singleton.
Qed.
#[global] Program Instance mem_queue_items : QueueItems (mem_queue A) A := { wq_has a q := a ∈ mq_waiting q }.
Next Obligation. apply mem_queue_Add. Qed.
Next Obligation.
  intros a q. cbn. destruct (filter _ (mq_waiting q)) as [|b l]; [done|]. cbn.
  by intros [_ ?]%list_elem_of_filter.
Qed.
Next Obligation.
  intros a q. cbn. destruct (filter _ (mq_waiting q)) as [|b l] eqn:Hf; [done|]. cbn. intros [= ->].
  assert (a ∈ a :: l) as Hin by apply list_elem_of_here. rewrite <- Hf in Hin.
  by apply list_elem_of_filter in Hin as [_ ?].
Qed.
Next Obligation. done. Qed.
Next Obligation. done. Qed.
#[global] Instance mem_queue_delay_laws : DelayLaws (mem_queue A) A.
Proof. split; [done|]. intros a b t q. apply mem_queue_Add. Qed.
End mem_queue.

#[local] Abbreviation demo_ctl := (Ctl (mem_queue string) (mem_queue nat) cluster world).
Definition idle {A} `{Countable A} : Pool (mem_queue A) A := mkPool (mkQueue [] ∅) [].
Definition demo_vip_meta : Metadata :=
  mkMetadata "cn-bj2" "uhost-1" "cn-bj2-02" "org-1"
    [mkMDIface "uni-1" "52:54:00:01:02:03" "subnet-a" "uvnet-1" true] "" [].
Definition demo_controller : demo_ctl :=
  mkCtl idle idle idle [] []
    (mkVSt demo_vip_cluster (mkProc (mkWorld 1704074400 ∅ (Some demo_vip_meta) (w_ips demo_vip_world) [] [] None []) None false)).

(** A claim is reported deleted, and its address is released. *)
Definition demo_events : list ctl_event := [OnVipDelete (Object demo_deleted); TakeVip].
Definition run_events (l : list ctl_event) (c : demo_ctl) : demo_ctl :=
  foldl (λ c e, (ctl_action e c).2) c l.

Example controller_releases :
  let c := run_events demo_events demo_controller in
  let '(o, c') := ctl_action (FinishVip 0) c in
  (o, pl_busy (ct_vip c), pl_busy (ct_vip c'),
   bool_decide (vvpc (ct_vs c) = {[claim_addr demo_deleted]}), bool_decide (vvpc (ct_vs c') = ∅))
  = (Ok tt, [0%nat], [], true, true).
Proof. vm_compute. reflexivity. Qed.

(** The handlers take what they get for an object: a missed deletion ends the process. *)
Example missed_deletion_panics :
  (ctl_action (OnVipDelete DeletedFinalStateUnknown) demo_controller).1 = Panic "interface conversion".
Proof. done. Qed.

Example gc_intervals : gc_interval <$> ["1h"; "90s"; "soon"; ""] = [3600 * second_ns; 300 * second_ns; 3600 * second_ns; 3600 * second_ns].
Proof. vm_compute. reflexivity. Qed.

Lemma controller_safe_witness :
  let c := run_events demo_events demo_controller in
  let '(o, c') := ctl_action (FinishVip 0) c in
  o = Ok tt ∧ ∃ vip, ct_vips c !! 0%nat = Some vip ∧ release_effect vip (ct_vs c) (ct_vs c').
Proof.
  intros c. destruct (ctl_action (FinishVip 0) c) as [o c'] eqn:Hrun.
  split. { assert ((ctl_action (FinishVip 0) c).1 = Ok tt) as E' by (vm_compute; reflexivity). by rewrite Hrun in E'. }
  refine (proj2 (controller_safe demo_controller c (FinishVip 0) o c' _ _ _ Hrun)).
  - split_and!; try done; by intros i ?%elem_of_nil.
  - eapply rtc_l; [|eapply rtc_l; [|apply rtc_refl]].
    + apply (step_event (OnVipDelete (Object demo_deleted)) _ (Ok tt)); done.
    + apply (step_event TakeVip _ (Ok tt)); [|done|done]. vm_compute. lia.
  - vm_compute. apply list_elem_of_here.
Defined.
