(* ===== verification/LogFollow.v ===== *)
(** Following the node log ([pkg/ipamd/log_tail.go]): the loop that copies whole lines
    to the client as they are written, across rotations of the file, and the handler
    around it.

    The loop is a state machine over the system calls it makes; the log writer and the
    notifications of the file system act between them.  The files that ever were at
    the path of the log are numbered in the order of their creation. *)
From S2P Require Export LogTail.

(** ** Definitions *)

(** *** Events: waitLogChange *)

Definition op_Create : Z := 1.
Definition op_Write : Z := 2.
Definition op_Remove : Z := 4.
Definition op_Rename : Z := 8.
Definition op_Chmod : Z := 16.

(** [ev_ours]: [filepath.Clean(event.Name) == path]. *)
Record fsevent : Type := mkEvent { ev_ours : bool; ev_Op : Z }.

(** What one event decides: to wait on, or to return [recreated]. *)
Definition event_says (ev : fsevent) : option bool :=
  if negb (ev_ours ev) then None
  else if negb (Z.land (ev_Op ev) op_Create =? 0) then Some true
  else if negb (Z.land (ev_Op ev) (Z.lor op_Write (Z.lor op_Rename (Z.lor op_Remove op_Chmod))) =? 0)
       then Some false
  else None.

(** What one [select] receives. *)
Inductive wait_input : Type :=
| CtxDone
| WatchEvent (ev : fsevent)
| EventsClosed
| WatchError (err : error)
| ErrorsClosed
| Timer.

(** [None]: the loop goes on; otherwise [recreated], or an error. *)
Definition waitLogChange (i : wait_input) : option (error + bool) :=
  match i with
  | CtxDone => Some (inr false)
  | WatchEvent ev => match event_says ev with None => None | Some b => Some (inr b) end
  | EventsClosed => Some (inl (Errorf "ipamd.waitLogChange watcher closed"))
  | WatchError err => Some (inl (Wrap "ipamd.waitLogChange watch" err))
  | ErrorsClosed => Some (inl (Errorf "ipamd.waitLogChange watcher errors closed"))
  | Timer => Some (inr false)
  end.

(** *** followLogTail *)

(** Where the loop is: in [ReadBytes] and the write of its line, in [waitLogChange],
    before [os.Open], or back with an error or nil (both files closed). *)
Inductive control : Type := Reading | Waiting | Opening | Returned (err : option error).

(** [fl_data]: the content of every file there was; [fl_path]: the one at the path;
    [fl_queue]: the notifications not yet received; [fl_ino], [fl_off]: the open file
    and its offset; [fl_buf]: what the reader holds; [fl_out]: what the client got. *)
Record Follow : Type := mkFollow {
  fl_data : list (list Z);
  fl_path : option nat;
  fl_queue : list fsevent;
  fl_pc : control;
  fl_ino : nat;
  fl_off : nat;
  fl_buf : list Z;
  fl_out : list Z
}.

Definition file_data (t : Follow) (i : nat) : list Z := default [] (fl_data t !! i).
Definition set_pc (pc : control) (t : Follow) : Follow :=
  mkFollow (fl_data t) (fl_path t) (fl_queue t) pc (fl_ino t) (fl_off t) (fl_buf t) (fl_out t).
Definition set_read (off : nat) (buf out : list Z) (t : Follow) : Follow :=
  mkFollow (fl_data t) (fl_path t) (fl_queue t) (fl_pc t) (fl_ino t) off buf out.
Definition set_queue (q : list fsevent) (t : Follow) : Follow :=
  mkFollow (fl_data t) (fl_path t) q (fl_pc t) (fl_ino t) (fl_off t) (fl_buf t) (fl_out t).
Definition fail (msg : string) (e : error) : Follow → Follow := set_pc (Returned (Some (Wrap msg e))).

(** The first line of the buffer with its newline, and the rest. *)
Definition cut_line (b : list Z) : option (list Z * list Z) :=
  let i := index_newline b in
  if i <? 0 then None else Some (take (Z.to_nat (i + 1)) b, drop (Z.to_nat (i + 1)) b).

(** How the next call ends: a write takes [n] bytes, with an error or not; a read
    brings at most [n] + 1 bytes, or an error other than [io.EOF]. *)
Inductive call_result : Type :=
| Done (n : nat)
| Failed (n : nat) (e : error).

Definition io_ErrShortWrite : error := ExtErr "short write".

Definition reading_step (r : call_result) (t : Follow) : Follow :=
  match cut_line (fl_buf t) with
  | Some (line, rest) =>
      match r with
      | Failed n e => fail "ipamd.followLogTail write" e
                           (set_read (fl_off t) rest (fl_out t ++ take n line) t)
      | Done n =>
          let t' := set_read (fl_off t) rest (fl_out t ++ take n line) t in
          if (length line <=? n)%nat then t'
          else fail "ipamd.followLogTail write" io_ErrShortWrite t'
      end
  | None =>
      match r with
      | Failed _ e => fail "ipamd.followLogTail read" e t
      | Done n =>
          match drop (fl_off t) (file_data t (fl_ino t)) with
          | [] => (* io.EOF: back before the partial line, which is dropped from the buffer *)
              set_pc Waiting (set_read (fl_off t - length (fl_buf t)) [] (fl_out t) t)
          | rest => let chunk := take (S n) rest in
              set_read (fl_off t + length chunk) (fl_buf t ++ chunk) (fl_out t) t
          end
      end
  end.

(** [ctx.Err() != nil] after the wait: it was the reason to return, or is by now
    ([ended]). *)
Definition ctx_done (ended : bool) (i : wait_input) : bool :=
  match i with CtxDone => true | _ => ended end.
Definition waiting_step (ended : bool) (i : wait_input) (t : Follow) : Follow :=
  match waitLogChange i with
  | None => t
  | Some (inl err) => set_pc (Returned (Some err)) t
  | Some (inr recreated) =>
      if ctx_done ended i then set_pc (Returned None) t
      else set_pc (if recreated then Opening else Reading) t
  end.

(** [os.Open(path)]; the close of the old file may fail. *)
Definition opening_step (open_err close_err : option error) (t : Follow) : Follow :=
  match open_err with
  | Some e => fail "ipamd.followLogTail reopen" e t
  | None =>
      match fl_path t with
      | None => set_pc Reading t
      | Some i =>
          let t' := mkFollow (fl_data t) (fl_path t) (fl_queue t) Reading i 0 [] (fl_out t) in
          match close_err with
          | Some e => fail "ipamd.followLogTail close rotated log" e t'
          | None => t'
          end
      end
  end.

(** The step of the loop and of the world around it; a seek that fails ends the
    loop. *)
Inductive follow_act : Type :=
| ActCall (r : call_result)
| ActSeekFails (e : error)
| ActReceive (ended : bool)
| ActSelect (ended : bool) (i : wait_input)
| ActOpen (open_err close_err : option error).

Definition follow_step (a : follow_act) (t : Follow) : option Follow :=
  match fl_pc t, a with
  | Reading, ActCall r => Some (reading_step r t)
  | Reading, ActSeekFails e =>
      match cut_line (fl_buf t), drop (fl_off t) (file_data t (fl_ino t)), fl_buf t with
      | None, [], _ :: _ => Some (fail "ipamd.followLogTail reset partial line" e t)
      | _, _, _ => None
      end
  | Waiting, ActReceive ended =>
      match fl_queue t with
      | ev :: q => Some (waiting_step ended (WatchEvent ev) (set_queue q t))
      | [] => None
      end
  | Waiting, ActSelect ended i =>
      match i with WatchEvent _ => None | _ => Some (waiting_step ended i t) end
  | Opening, ActOpen open_err close_err => Some (opening_step open_err close_err t)
  | _, _ => None
  end.

(** *** The writer of the log *)

(** It appends to the file at the path, renames that file away, makes a new one; any
    other event may come, but for a creation of the log. *)
Inductive writer_act : Type :=
| WAppend (b : list Z)
| WRotate
| WCreate
| WNoise (ev : fsevent).

Definition writer_step (w : writer_act) (t : Follow) : option Follow :=
  match w, fl_path t with
  | WAppend b, Some i =>
      Some (mkFollow (<[i := file_data t i ++ b]> (fl_data t)) (fl_path t)
              (fl_queue t ++ [mkEvent true op_Write]) (fl_pc t) (fl_ino t) (fl_off t) (fl_buf t) (fl_out t))
  | WRotate, Some i =>
      Some (mkFollow (fl_data t) None (fl_queue t ++ [mkEvent true op_Rename])
              (fl_pc t) (fl_ino t) (fl_off t) (fl_buf t) (fl_out t))
  | WCreate, None =>
      Some (mkFollow (fl_data t ++ [[]]) (Some (length (fl_data t)))
              (fl_queue t ++ [mkEvent true op_Create]) (fl_pc t) (fl_ino t) (fl_off t) (fl_buf t) (fl_out t))
  | WNoise ev, _ =>
      match event_says ev with
      | Some true => None
      | _ => Some (set_queue (fl_queue t ++ [ev]) t)
      end
  | _, _ => None
  end.

(** *** The handlers *)

(** The loop begins in the only file there is, at [start]. *)
Definition follow_start (start : nat) (d : list Z) : Follow := mkFollow [d] (Some O) [] Reading 0 start [] [].

(** [openLogTail], on the content of the file when it can be opened. *)
Definition openLogTail (fuel : nat) (file : error + list Z) (seek_err : option error) (lines : Z) : outcome Follow :=
  match file with
  | inl e => Err (Wrap "ipamd.openLogTail open" e)
  | inr d =>
      match tailStartOffset (bytes_end d) (bytes_read d) fuel lines with
      | Ok offset => match seek_err with Some e => Err e | None => Ok (follow_start (Z.to_nat offset) d) end
      | Err e => Err e
      | Panic w => Panic w
      | Diverge => Diverge
      end
  end.

Definition StatusBadRequest : Z := 400.
Definition StatusInternalServerError : Z := 500.
Definition StatusServiceUnavailable : Z := 503.

(** What a handler answers: an error text with its status, a JSON document, or the
    stream that the loop produces. *)
Inductive http_reply : Type :=
| HttpError (msg : string) (status : Z)
| HttpJSON (version : string)
| HttpStream (t : Follow).

(** [value] is the query parameter, [watch_err] the error of the watcher. *)
Definition newLogTailHandler (fuel : nat) (value : string) (flusher : bool) (file : error + list Z)
    (seek_err watch_err : option error) : outcome http_reply :=
  match parseTailLines value with
  | inl _ => Ok (HttpError "lines must be a non-negative integer" StatusBadRequest)
  | inr lines =>
      if negb flusher then Ok (HttpError "streaming unsupported" StatusInternalServerError)
      else
        match openLogTail fuel file seek_err lines with
        | Err _ => Ok (HttpError "node log unavailable" StatusServiceUnavailable)
        | Ok t =>
            match watch_err with
            | Some _ => Ok (HttpError "node log unavailable" StatusServiceUnavailable)
            | None => Ok (HttpStream t)
            end
        | Panic w => Panic w
        | Diverge => Diverge
        end
  end.

(** *** version_server.go *)

Definition loadCNIVersion (output : error + string) : error + string :=
  match output with
  | inl e => inl (Wrap "ipamd.loadCNIVersion execute" e)
  | inr output => parseCNIVersion output
  end.

(** The handler of the version endpoint. *)
Definition version_handler (version : error + string) : http_reply :=
  match version with
  | inl _ => HttpError "CNI version unavailable" StatusServiceUnavailable
  | inr version => HttpJSON version
  end.

(** ** Lines *)

Lemma index_newline_range b : -1 ≤ index_newline b < Z.of_nat (length b).
Proof.
  induction b as [|x b IH]; simpl; [lia|]. destruct (x =? newline); [lia|].
  destruct (Z.ltb_spec (index_newline b) 0); lia.
Qed.

Lemma cut_line_None b : cut_line b = None → newline ∉ b.
Proof.
  unfold cut_line. destruct (Z.ltb_spec (index_newline b) 0) as [Hi|]; [|done]. intros _ Hin.
  revert Hi. induction b as [|x b IH]; simpl; [by apply not_elem_of_nil in Hin|].
  destruct (Z.eqb_spec x newline) as [->|Hx]; [lia|]. apply elem_of_cons in Hin as [E|Hin]; [by destruct Hx|].
  destruct (Z.ltb_spec (index_newline b) 0); [by auto|lia].
Qed.

Lemma cut_line_Some b line rest :
  cut_line b = Some (line, rest) → b = line ++ rest ∧ ∃ l, line = l ++ [newline].
Proof.
  unfold cut_line. destruct (Z.ltb_spec (index_newline b) 0) as [|Hi]; [done|]. intros [= <- <-].
  split; [by rewrite take_drop|]. revert Hi. induction b as [|x b IH]; simpl; [lia|].
  destruct (Z.eqb_spec x newline) as [->|Hx]; [by exists []|].
  destruct (Z.ltb_spec (index_newline b) 0) as [|Hb]; [lia|]. intros _. destruct (IH Hb) as [l Hl].
  exists (x :: l). replace (Z.to_nat (index_newline b + 1 + 1)) with (S (Z.to_nat (index_newline b + 1))) by lia.
  simpl. by rewrite Hl.
Qed.

(** The complete lines of a file. *)
Fixpoint lines_of (d : list Z) : list Z :=
  match d with
  | [] => []
  | x :: d' => if decide (newline ∈ d) then x :: lines_of d' else []
  end.

Lemma lines_of_none d : newline ∉ d → lines_of d = [].
Proof. destruct d; simpl; [done|]. intros H. by rewrite decide_False. Qed.

Lemma lines_of_app_none a b : newline ∉ b → lines_of (a ++ b) = lines_of a.
Proof.
  intros Hb. induction a as [|x a IH]; simpl; [by apply lines_of_none|].
  rewrite IH. destruct (decide (newline ∈ x :: a ++ b)) as [H|H].
  - rewrite decide_True; [done|]. apply elem_of_cons in H as [->|H]; [by left|].
    apply elem_of_app in H as [H|H]; [by right|done].
  - rewrite decide_False; [done|]. intros H'. apply H. apply elem_of_cons in H' as [->|H']; [by left|].
    right. apply elem_of_app. by left.
Qed.

Lemma lines_of_whole l : lines_of (l ++ [newline]) = l ++ [newline].
Proof.
  induction l as [|x l IH]; simpl; [done|].
  rewrite decide_True; [by rewrite IH|]. right. apply elem_of_app. right. by left.
Qed.

(** A position at the beginning of a line: all complete lines after [s] are those up to
    it, when none ends after it. *)
Lemma lines_up_to s c d :
  (s ≤ c)%nat → (c ≤ length d)%nat → (c = s ∨ ∃ l, take c d = l ++ [newline]) → newline ∉ drop c d →
  drop s (lines_of d) = drop s (take c d).
Proof.
  intros Hs Hc Hb Hn. rewrite <- (take_drop c d) at 1. rewrite lines_of_app_none by done.
  destruct Hb as [->|[l Hl]].
  - rewrite !drop_ge; [done|rewrite length_take; lia|].
    trans (length (take s d)); [|rewrite length_take; lia].
    generalize (take s d). induction l as [|x l IH]; simpl; [done|]. case_decide; simpl; lia.
  - by rewrite Hl, lines_of_whole.
Qed.

(** ** The invariant *)

Section run.
Variable start : nat.

(** Where the client begins to read a file. *)
Definition skip (i : nat) : nat := match i with O => start | S _ => O end.
Definition done_part (i : nat) (d : list Z) : list Z := drop (skip i) (lines_of d).

(** The position up to which lines were handed to the client. *)
Definition position (t : Follow) : nat := fl_off t - length (fl_buf t).
Definition past (t : Follow) : list Z := concat (imap done_part (take (fl_ino t) (fl_data t))).
Definition text (upto : nat) (t : Follow) : list Z :=
  past t ++ drop (skip (fl_ino t)) (take upto (file_data t (fl_ino t))).

Definition drained (t : Follow) : Prop := newline ∉ drop (position t) (file_data t (fl_ino t)).

Definition creates (ev : fsevent) : Prop := event_says ev = Some true.
Definition no_create (q : list fsevent) : Prop := Forall (λ ev, ¬ creates ev) q.
Definition wakes (q : list fsevent) : Prop := Exists (λ ev, event_says ev = Some false) q.
(** While the loop waits, what is not read yet will wake it. *)
Definition awaited (t : Follow) (q : list fsevent) : Prop := fl_pc t = Waiting → wakes q ∨ drained t.

(** The loop has the newest file. *)
Definition newest (t : Follow) : Prop :=
  S (fl_ino t) = length (fl_data t) ∧ (fl_path t = Some (fl_ino t) ∨ fl_path t = None) ∧
  no_create (fl_queue t) ∧ fl_pc t ≠ Opening ∧ awaited t (fl_queue t).

(** There is a newer one, and its notification is on the way or was just received. *)
Definition one_behind (t : Follow) : Prop :=
  S (S (fl_ino t)) = length (fl_data t) ∧ fl_path t = Some (S (fl_ino t)) ∧
  (fl_pc t = Opening ∧ no_create (fl_queue t) ∧ drained t ∨
   fl_pc t ≠ Opening ∧ ∃ q1 cr q2, fl_queue t = q1 ++ cr :: q2 ∧ creates cr ∧
     no_create q1 ∧ no_create q2 ∧ awaited t q1).

Definition returned (t : Follow) : Prop := ∃ err, fl_pc t = Returned err.

Record follow_inv (t : Follow) : Prop := {
  inv_ino : (fl_ino t < length (fl_data t))%nat;
  inv_path : ∀ i, fl_path t = Some i → (fl_ino t ≤ i < length (fl_data t))%nat;
  inv_off : (fl_off t ≤ length (file_data t (fl_ino t)))%nat;
  inv_buf : ¬ returned t → ∃ b, take (fl_off t) (file_data t (fl_ino t)) = b ++ fl_buf t ∧
    (skip (fl_ino t) ≤ length b)%nat ∧ (length b = skip (fl_ino t) ∨ ∃ l, b = l ++ [newline]);
  inv_wait : fl_pc t = Waiting ∨ fl_pc t = Opening → fl_buf t = [];
  inv_out : ¬ returned t → fl_out t = text (position t) t;
  inv_end : fl_out t `prefix_of` text (fl_off t) t;
  inv_queue : returned t ∨ newest t ∨ one_behind t
}.

(** The position splits what was read into what was handed on and the buffer. *)
Lemma position_split t b :
  (fl_off t ≤ length (file_data t (fl_ino t)))%nat →
  take (fl_off t) (file_data t (fl_ino t)) = b ++ fl_buf t →
  position t = length b ∧ take (position t) (file_data t (fl_ino t)) = b ∧ fl_off t = (length b + length (fl_buf t))%nat.
Proof.
  intros Ho Hb. pose proof (f_equal length Hb) as Hl. rewrite length_take, length_app in Hl.
  assert (position t = length b) as Hp by (unfold position; lia). split; [done|]. split; [|lia].
  rewrite Hp. pose proof (take_app_length b (fl_buf t)) as H. rewrite <- Hb, take_take, Nat.min_l in H by lia.
  done.
Qed.

(** A step of the loop in the open file: the buffer is a part of the file again. *)
Lemma in_file t t' b line :
  follow_inv t → ¬ returned t → fl_data t' = fl_data t → fl_ino t' = fl_ino t →
  (fl_off t' ≤ length (file_data t (fl_ino t)))%nat →
  take (fl_off t') (file_data t (fl_ino t)) = b ++ fl_buf t' →
  b = take (position t) (file_data t (fl_ino t)) ++ line →
  fl_out t' = fl_out t ++ line → (line = [] ∨ ∃ l, line = l ++ [newline]) →
  (∃ b, take (fl_off t') (file_data t' (fl_ino t')) = b ++ fl_buf t' ∧
    (skip (fl_ino t') ≤ length b)%nat ∧ (length b = skip (fl_ino t') ∨ ∃ l, b = l ++ [newline])) ∧
  fl_out t' = text (position t') t' ∧ fl_out t' `prefix_of` text (fl_off t') t'.
Proof.
  intros Hinv Hnr Hd Hi Ho Hb Hline Hout Hnl.
  assert (file_data t' (fl_ino t') = file_data t (fl_ino t)) as Hf by (unfold file_data; by rewrite Hd, Hi).
  assert (past t' = past t) as Hp by (unfold past; by rewrite Hd, Hi).
  destruct (inv_buf _ Hinv Hnr) as (b0 & Hb0 & Hs & Hend).
  destruct (position_split t b0 (inv_off _ Hinv) Hb0) as (Hp0 & Ht0 & _). rewrite Ht0 in Hline.
  destruct (position_split t' b) as (Hp1 & Ht1 & Ho1); [by rewrite Hf|by rewrite Hf|].
  assert (fl_out t' = text (position t') t') as Htext.
  { rewrite Hout, (inv_out _ Hinv Hnr). unfold text. rewrite Hp, Hf, Hi, Ht0. rewrite Hf in Ht1. rewrite Ht1.
    rewrite <- app_assoc. f_equal. rewrite Hline, drop_app_le by done. done. }
  split_and!; [|done|].
  - exists b. rewrite Hf, Hi. split; [done|]. rewrite Hline, length_app. split; [lia|].
    destruct Hnl as [->|[l ->]]; [by rewrite app_nil_r, Nat.add_0_r|].
    right. exists (b0 ++ l). by rewrite app_assoc.
  - rewrite Htext. unfold text. apply prefix_app. rewrite Hf. rewrite Hf in Ht1. rewrite Ht1, Hb.
    rewrite Hi. rewrite drop_app_le; [by apply prefix_app_r|]. rewrite Hline, length_app. lia.
Qed.

Lemma queue_keep t t' :
  fl_data t' = fl_data t → fl_path t' = fl_path t → fl_queue t' = fl_queue t → fl_ino t' = fl_ino t →
  fl_pc t ≠ Opening → fl_pc t' ≠ Opening → (fl_pc t' = Waiting → drained t') →
  newest t ∨ one_behind t → newest t' ∨ one_behind t'.
Proof.
  intros Hd Hp Hq Hi Hno Hno' Hdr [(H1 & H2 & H3 & _ & _)|(H1 & H2 & H3)]; [left|right].
  - unfold newest, awaited. rewrite Hd, Hp, Hq, Hi. split_and!; auto.
  - unfold one_behind. rewrite Hd, Hp, Hq, Hi. split; [done|]. split; [done|]. right. split; [done|].
    destruct H3 as [[? _]|(_ & q1 & cr & q2 & ? & ? & ? & ? & _)]; [done|].
    exists q1, cr, q2. split_and!; try done. intros E. right. by apply Hdr.
Qed.

Lemma returned_inv t : 
  (fl_ino t < length (fl_data t))%nat → (∀ i, fl_path t = Some i → (fl_ino t ≤ i < length (fl_data t))%nat) →
  (fl_off t ≤ length (file_data t (fl_ino t)))%nat → fl_out t `prefix_of` text (fl_off t) t →
  returned t → follow_inv t.
Proof.
  intros H1 H2 H3 H4 Hr. constructor; [done..| | | |done|by left].
  - intros Hn. by destruct Hn.
  - destruct Hr as [err E]. intros [?|?]; congruence.
  - intros Hn. by destruct Hn.
Qed.

Lemma fail_inv t msg e : follow_inv t → follow_inv (fail msg e t).
Proof.
  intros H. destruct H. apply returned_inv; try done. by eexists.
Qed.

(** A step within the open file that goes on. *)
Lemma file_step_inv t t' b line :
  follow_inv t → ¬ returned t → fl_pc t = Reading →
  fl_data t' = fl_data t → fl_path t' = fl_path t → fl_queue t' = fl_queue t → fl_ino t' = fl_ino t →
  (fl_pc t' = Reading ∨ fl_pc t' = Waiting ∧ fl_buf t' = [] ∧ drained t') →
  (fl_off t' ≤ length (file_data t (fl_ino t)))%nat →
  take (fl_off t') (file_data t (fl_ino t)) = b ++ fl_buf t' →
  b = take (position t) (file_data t (fl_ino t)) ++ line →
  fl_out t' = fl_out t ++ line → (line = [] ∨ ∃ l, line = l ++ [newline]) →
  follow_inv t'.
Proof.
  intros Hinv Hnr Hpc Hd Hp Hq Hi Hpc' Ho Hb Hl Hout Hnl.
  destruct (in_file t t' b line) as (H1 & H2 & H3); try done.
  constructor; rewrite ?Hd, ?Hi, ?Hp; try done; try apply Hinv.
  - unfold file_data. by rewrite Hd.
  - intros _. by rewrite <- Hi.
  - intros [E|E]; destruct Hpc' as [E'|(_ & ? & _)]; congruence.
  - right. apply (queue_keep t); try done; try congruence.
    + destruct Hpc' as [E|(E & _)]; congruence.
    + intros E. destruct Hpc' as [?|(_ & _ & ?)]; congruence.
    + by destruct (inv_queue _ Hinv).
Qed.

Lemma reading_step_inv r t : follow_inv t → fl_pc t = Reading → follow_inv (reading_step r t).
Proof.
  intros Hinv Hpc. assert (¬ returned t) as Hnr by (intros [err E]; congruence).
  destruct (inv_buf _ Hinv Hnr) as (b0 & Hb0 & Hs & Hend). pose proof (inv_off _ Hinv) as Ho.
  destruct (position_split t b0 Ho Hb0) as (Hp0 & Ht0 & Hoff).
  unfold reading_step. destruct (cut_line (fl_buf t)) as [[line rest]|] eqn:Hcut.
  - apply cut_line_Some in Hcut as [Hbuf Hnl].
    assert (∀ n, follow_inv (set_read (fl_off t) rest (fl_out t ++ take n line) t) ∨ (n < length line)%nat) as Hfull.
    { intros n. destruct (decide (n < length line)%nat) as [|Hn]; [by right|left].
      apply (file_step_inv t _ (b0 ++ line) line); try done; auto.
      - cbn. by rewrite Hb0, Hbuf, app_assoc.
      - by rewrite Ht0.
      - cbn. by rewrite take_ge by lia. }
    assert (∀ n msg e, follow_inv (fail msg e (set_read (fl_off t) rest (fl_out t ++ take n line) t))) as Hfail.
    { intros n msg e. destruct Hinv. apply returned_inv; try done; [|by eexists].
      change (fl_out t ++ take n line `prefix_of` text (fl_off t) t). rewrite inv_out0 by done.
      unfold text. rewrite <- app_assoc. apply prefix_app. rewrite Ht0, Hb0, Hbuf.
      rewrite (drop_app_le b0) by done. apply prefix_app. apply prefix_app_r. apply prefix_take. }
    destruct r as [n|n e]; [|apply Hfail]. destruct (Nat.leb_spec (length line) n); [|apply Hfail].
    destruct (Hfull n); [done|lia].
  - apply cut_line_None in Hcut. destruct r as [n|n e]; [|by apply fail_inv].
    destruct (drop (fl_off t) (file_data t (fl_ino t))) as [|x rest] eqn:Hrest.
    + assert (fl_off t = length (file_data t (fl_ino t))) as Heof.
      { apply (f_equal length) in Hrest. rewrite length_drop in Hrest. simpl in Hrest. lia. }
      assert (fl_off t - length (fl_buf t) = length b0)%nat as Hb by lia.
      apply (file_step_inv t _ b0 []); try done; cbn; rewrite ?Hb.
      * right. split_and!; [done|done|]. unfold drained, position. cbn. rewrite Nat.sub_0_r.
        change (newline ∉ drop (length b0) (file_data t (fl_ino t))).
        rewrite <- (take_drop (fl_off t) (file_data t (fl_ino t))), Hrest, app_nil_r, Hb0.
        by rewrite drop_app_length.
      * lia.
      * by rewrite <- Hp0, Ht0, app_nil_r.
      * by rewrite Ht0, app_nil_r.
      * by rewrite app_nil_r.
      * by left.
    + set (chunk := take (S n) (x :: rest)).
      assert (x :: rest = chunk ++ drop (S n) (x :: rest)) as Hsplit by by (unfold chunk; rewrite take_drop).
      clearbody chunk. rewrite Hsplit in Hrest. cbv zeta.
      assert (length chunk ≤ length (file_data t (fl_ino t)) - fl_off t)%nat as Hlc.
      { rewrite <- length_drop, Hrest, length_app. lia. }
      apply (file_step_inv t _ b0 []); try done; cbn [fl_pc fl_off fl_buf fl_out set_read].
      * by left.
      * lia.
      * rewrite <- (take_drop (fl_off t) (file_data t (fl_ino t))) at 1.
        rewrite take_app_ge by (rewrite length_take; lia). rewrite length_take, Nat.min_l by lia.
        replace (fl_off t + length chunk - fl_off t)%nat with (length chunk) by lia.
        by rewrite Hrest, take_app_length, Hb0, app_assoc.
      * by rewrite Ht0, app_nil_r.
      * by rewrite app_nil_r.
      * by left.
Qed.

(** A step that only moves the control and receives notifications. *)
Lemma control_inv t t' :
  follow_inv t → ¬ returned t →
  fl_data t' = fl_data t → fl_path t' = fl_path t → fl_ino t' = fl_ino t →
  fl_off t' = fl_off t → fl_buf t' = fl_buf t → fl_out t' = fl_out t →
  (fl_pc t' = Waiting ∨ fl_pc t' = Opening → fl_buf t = []) →
  returned t' ∨ newest t' ∨ one_behind t' → follow_inv t'.
Proof.
  intros Hinv Hnr Hd Hp Hi Ho Hb Hout Hw Hq.
  assert (file_data t' (fl_ino t') = file_data t (fl_ino t)) as Hf by (unfold file_data; by rewrite Hd, Hi).
  assert (∀ n, text n t' = text n t) as Ht by (intros n; unfold text, past; by rewrite Hf, Hd, Hi).
  assert (position t' = position t) as Hpos by (unfold position; by rewrite Ho, Hb).
  constructor; rewrite ?Ht, ?Hpos, ?Hf, ?Ho, ?Hb, ?Hout, ?Hd, ?Hp, ?Hi; try done; try apply Hinv; try done.
  - intros _. by apply (inv_buf _ Hinv).
  - intros _. by apply (inv_out _ Hinv).
Qed.

Lemma drained_eq t t' :
  fl_data t' = fl_data t → fl_ino t' = fl_ino t → fl_off t' = fl_off t → fl_buf t' = fl_buf t →
  drained t → drained t'.
Proof. unfold drained, position, file_data. by intros -> -> -> ->. Qed.

(** Waiting ends, or goes on, without a creation. *)
Lemma waiting_select_inv ended i t :
  follow_inv t → fl_pc t = Waiting → (∀ ev, i ≠ WatchEvent ev) → follow_inv (waiting_step ended i t).
Proof.
  intros Hinv Hpc Hi. assert (¬ returned t) as Hnr by (intros [err E]; congruence).
  pose proof (inv_wait _ Hinv (or_introl Hpc)) as Hbuf.
  assert (∀ pc, (∃ err, pc = Returned err) ∨ pc = Reading → follow_inv (set_pc pc t)) as Hgo.
  { intros pc Hcase. apply (control_inv t); try done.
    destruct Hcase as [[err ->]| ->]; [left; by eexists|]. right.
    apply (queue_keep t); try done; cbn; [congruence|]. by destruct (inv_queue _ Hinv). }
  unfold waiting_step. destruct i as [|ev| | | |]; cbn [waitLogChange ctx_done]; try (apply Hgo; left; by eexists);
    [by destruct (Hi ev)|]. destruct ended; apply Hgo; [left; by eexists|by right].
Qed.

Lemma waiting_event_inv ended ev q t :
  follow_inv t → fl_pc t = Waiting → fl_queue t = ev :: q →
  follow_inv (waiting_step ended (WatchEvent ev) (set_queue q t)).
Proof.
  intros Hinv Hpc Hqu. assert (¬ returned t) as Hnr by (intros [err E]; congruence).
  pose proof (inv_wait _ Hinv (or_introl Hpc)) as Hbuf.
  assert (∀ pc, returned (set_pc pc (set_queue q t)) ∨ newest (set_pc pc (set_queue q t)) ∨
            one_behind (set_pc pc (set_queue q t)) → follow_inv (set_pc pc (set_queue q t))) as Hgo.
  { intros pc Hq. by apply (control_inv t). }
  assert (set_queue q t = set_pc Waiting (set_queue q t)) as Hsame.
  { unfold set_pc, set_queue. cbn. by rewrite Hpc. }
  unfold waiting_step. cbn [waitLogChange ctx_done].
  destruct (inv_queue _ Hinv) as [|[(H1 & H2 & H3 & H4 & H5)|(H1 & H2 & H3)]]; [done| |].
  - rewrite Hqu in H3, H5. apply Forall_cons in H3 as [Hev Hnc].
    destruct (event_says ev) as [[]|] eqn:Hsays; [done| |].
    + destruct ended; apply Hgo; [left; by eexists|]. right; left. by split_and!.
    + rewrite Hsame. apply Hgo. right; left. split_and!; try done. intros _.
      destruct (H5 Hpc) as [Hw|Hdr]; [|by right]. left. apply Exists_cons in Hw as [?|?]; [congruence|done].
  - destruct H3 as [[E _]|(_ & q1 & cr & q2 & Hsp & Hcr & Hn1 & Hn2 & Haw)]; [congruence|].
    rewrite Hqu in Hsp. destruct q1 as [|ev1 q1]; injection Hsp as -> ->.
    + rewrite Hcr. destruct ended; apply Hgo; [left; by eexists|]. right; right.
      split; [done|]. split; [done|]. left. split; [done|]. split; [done|].
      destruct (Haw Hpc) as [Hw|Hdr]; [by apply Exists_nil in Hw|done].
    + apply Forall_cons in Hn1 as [Hev Hn1]. destruct (event_says ev1) as [[]|] eqn:Hsays; [done| |].
      * destruct ended; apply Hgo; [left; by eexists|]. right; right.
        split; [done|]. split; [done|]. right. split; [done|]. by exists q1, cr, q2.
      * rewrite Hsame. apply Hgo. right; right. split; [done|]. split; [done|]. right. split; [done|].
        exists q1, cr, q2. split_and!; try done. intros _.
        destruct (Haw Hpc) as [Hw|Hdr]; [|by right]. left. apply Exists_cons in Hw as [?|?]; [congruence|done].
Qed.

Lemma opening_inv oe ce t : follow_inv t → fl_pc t = Opening → follow_inv (opening_step oe ce t).
Proof.
  intros Hinv Hpc. assert (¬ returned t) as Hnr by (intros [err E]; congruence).
  unfold opening_step. destruct oe as [e|]; [by apply fail_inv|].
  destruct (inv_queue _ Hinv) as [|[(_ & _ & _ & ? & _)|(H1 & H2 & H3)]]; [done|done|].
  rewrite H2. destruct H3 as [(_ & Hnc & Hdr)|[? _]]; [|done].
  destruct (inv_buf _ Hinv Hnr) as (b0 & Hb0 & Hs & Hend). pose proof (inv_off _ Hinv) as Ho.
  destruct (position_split t b0 Ho Hb0) as (Hp0 & Ht0 & Hoff).
  set (t' := mkFollow _ _ _ Reading _ _ _ _).
  destruct (lookup_lt_is_Some_2 (fl_data t) (fl_ino t) (inv_ino _ Hinv)) as [d Hd].
  assert (file_data t (fl_ino t) = d) as Hfd by (unfold file_data; by rewrite Hd).
  assert (past t' = text (position t) t) as Hpast.
  { unfold past, text, t'. cbn [fl_ino fl_data]. rewrite (take_S_r _ _ d) by done.
    rewrite imap_app, concat_app. f_equal. simpl. rewrite app_nil_r, length_take, Nat.min_l by (pose proof (inv_ino _ Hinv); lia).
    rewrite Nat.add_0_r, Hfd. unfold done_part. rewrite Hfd in *.
    apply lines_up_to.
    - lia.
    - lia.
    - rewrite Ht0, Hp0. by destruct Hend; [left|right].
    - unfold drained in Hdr. by rewrite Hfd in Hdr. }
  assert (∀ n, text n t' = past t' ++ take n (file_data t' (S (fl_ino t)))) as Htext.
  { intros n. unfold text. by rewrite drop_0. }
  assert (fl_out t' = past t') as Hout by (rewrite Hpast; by apply (inv_out _ Hinv)).
  assert (newest t') as Hnew.
  { split_and!; [done|by left|done|done|done]. }
  assert (follow_inv t') as Hinv'.
  { constructor.
    - cbn. lia.
    - cbn. intros j [= <-]. lia.
    - cbn. lia.
    - intros _. exists []. split; [done|]. split; [done|by left].
    - intros [?|?]; done.
    - intros _. rewrite Htext, Hout. unfold position. cbn. by rewrite app_nil_r.
    - rewrite Hout, Htext. by apply prefix_app_r.
    - right; by left. }
  destruct ce as [e|]; [by apply fail_inv|done].
Qed.

(** The writer only extends the file at the path, and adds files at the end. *)
Lemma grow_inv t t' :
  follow_inv t →
  fl_pc t' = fl_pc t → fl_ino t' = fl_ino t → fl_off t' = fl_off t → fl_buf t' = fl_buf t → fl_out t' = fl_out t →
  (length (fl_data t) ≤ length (fl_data t'))%nat →
  take (fl_ino t) (fl_data t') = take (fl_ino t) (fl_data t) →
  (∃ b, file_data t' (fl_ino t) = file_data t (fl_ino t) ++ b) →
  (∀ i, fl_path t' = Some i → (fl_ino t ≤ i < length (fl_data t'))%nat) →
  returned t ∨ newest t' ∨ one_behind t' → follow_inv t'.
Proof.
  intros Hinv Hpc Hi Ho Hb Hout Hlen Htake [b Hdata] Hpath Hq.
  pose proof (inv_off _ Hinv) as Hoff. pose proof (inv_ino _ Hinv) as Hino.
  assert (∀ n, (n ≤ fl_off t)%nat → take n (file_data t' (fl_ino t')) = take n (file_data t (fl_ino t))) as Htk.
  { intros n Hn. rewrite Hi, Hdata, take_app_le by lia. done. }
  assert (∀ n, (n ≤ fl_off t)%nat → text n t' = text n t) as Ht.
  { intros n Hn. unfold text, past. by rewrite Htk, Hi, Htake by done. }
  assert (position t' = position t) as Hpos by (unfold position; by rewrite Ho, Hb).
  assert (position t ≤ fl_off t)%nat as Hple by (unfold position; lia).
  assert (returned t' → returned t) as Hret by (intros [err E]; exists err; congruence).
  assert (returned t → returned t') as Hret' by (intros [err E]; exists err; congruence).
  constructor.
  - lia.
  - intros i E. rewrite Hi. by apply Hpath.
  - rewrite Ho, Hi, Hdata, length_app. lia.
  - intros Hnr. rewrite Ho, Hb, Htk, Hi by done. apply (inv_buf _ Hinv). tauto.
  - rewrite Hpc, Hb. apply Hinv.
  - intros Hnr. rewrite Hpos, Hout, Ht by done. apply (inv_out _ Hinv). tauto.
  - rewrite Ho, Hout, Ht by done. apply Hinv.
  - tauto.
Qed.

Lemma wakes_snoc q ev : wakes q ∨ event_says ev = Some false → wakes (q ++ [ev]).
Proof. intros [H|H]; apply Exists_app; [by left|right]. by constructor. Qed.
Lemma no_create_snoc q ev : no_create q → event_says ev ≠ Some true → no_create (q ++ [ev]).
Proof. intros H Hev. apply Forall_app. split; [done|]. by repeat constructor. Qed.

(** A notification that is not a creation is added. *)
Lemma one_behind_notify t t' ev :
  one_behind t → event_says ev ≠ Some true →
  fl_pc t' = fl_pc t → fl_ino t' = fl_ino t → length (fl_data t') = length (fl_data t) → fl_path t' = fl_path t →
  fl_queue t' = fl_queue t ++ [ev] → (drained t → drained t') → one_behind t'.
Proof.
  intros (H1 & H2 & H3) Hev Hpc Hi Hl Hp Hq Hdr. unfold one_behind. rewrite Hpc, Hi, Hl, Hp, Hq.
  split; [done|]. split; [done|]. destruct H3 as [(Ho & Hnc & Hd)|(Hno & q1 & cr & q2 & Hs & Hcr & Hn1 & Hn2 & Haw)].
  - left. split_and!; [done|by apply no_create_snoc|auto].
  - right. split; [done|]. exists q1, cr, (q2 ++ [ev]). rewrite Hs, <- app_assoc.
    split_and!; try done; [by apply no_create_snoc|]. unfold awaited in *. rewrite Hpc.
    intros E. destruct (Haw E); auto.
Qed.

Lemma newest_notify t t' ev :
  newest t → event_says ev ≠ Some true →
  fl_pc t' = fl_pc t → fl_ino t' = fl_ino t → length (fl_data t') = length (fl_data t) →
  (fl_path t' = Some (fl_ino t) ∨ fl_path t' = None) →
  fl_queue t' = fl_queue t ++ [ev] → (event_says ev = Some false ∨ (drained t → drained t')) → newest t'.
Proof.
  intros (H1 & H2 & H3 & H4 & H5) Hev Hpc Hi Hl Hp Hq Hdr. unfold newest, awaited. rewrite Hpc, Hi, Hl, Hq.
  split_and!; [done|done|by apply no_create_snoc|done|]. intros E.
  destruct Hdr as [Hw|Hdr]; [left; apply wakes_snoc; by right|].
  destruct (H5 E) as [Hw|Hd]; [left; apply wakes_snoc; by left|auto].
Qed.

Lemma file_data_insert_ne t d i j :
  i ≠ j → default [] (<[i := d]> (fl_data t) !! j) = file_data t j.
Proof. intros Hne. unfold file_data. by rewrite list_lookup_insert_ne. Qed.

Lemma append_inv b i t t' :
  follow_inv t → fl_path t = Some i → writer_step (WAppend b) t = Some t' → follow_inv t'.
Proof.
  intros Hinv Hp Hstep. unfold writer_step in Hstep. rewrite Hp in Hstep. injection Hstep as <-.
  destruct (inv_path _ Hinv i Hp) as [Hle Hlt].
  assert (∀ d, default [] (<[i := d]> (fl_data t) !! i) = d) as Hsame.
  { intros d. by rewrite list_lookup_insert_eq. }
  apply (grow_inv t); try done; cbn [fl_data fl_ino fl_path].
  - by rewrite length_insert.
  - by rewrite take_insert_ge.
  - unfold file_data at 1. cbn [fl_data]. destruct (decide (i = fl_ino t)) as [->|Hne].
    + exists b. apply Hsame.
    + exists []. rewrite app_nil_r. by apply file_data_insert_ne.
  - intros j [= <-]. by rewrite length_insert.
  - destruct (inv_queue _ Hinv) as [?|[Hn|Hb]]; [by left|right; left|right; right].
    + apply (newest_notify t _ (mkEvent true op_Write)); try done; cbn; [by rewrite length_insert| |by left].
      destruct Hn as (_ & [E|E] & _); left; congruence.
    + apply (one_behind_notify t _ (mkEvent true op_Write)); try done; cbn; [by rewrite length_insert|].
      destruct Hb as (_ & E & _). rewrite Hp in E. injection E as ->.
      unfold drained, position, file_data. cbn [fl_data fl_ino fl_off fl_buf].
      by rewrite list_lookup_insert_ne by lia.
Qed.

Lemma create_inv t t' : follow_inv t → writer_step WCreate t = Some t' → follow_inv t'.
Proof.
  intros Hinv Hstep. unfold writer_step in Hstep. destruct (fl_path t) eqn:Hp; [done|]. injection Hstep as <-.
  pose proof (inv_ino _ Hinv) as Hino.
  assert (∀ x, default [] ((fl_data t ++ x) !! fl_ino t) = file_data t (fl_ino t)) as Hsame.
  { intros x. unfold file_data. by rewrite lookup_app_l. }
  apply (grow_inv t); try done; cbn [fl_data fl_ino fl_path].
  - rewrite length_app. lia.
  - by rewrite take_app_le by lia.
  - exists []. rewrite app_nil_r. apply Hsame.
  - intros j [= <-]. rewrite length_app. simpl. lia.
  - destruct (inv_queue _ Hinv) as [?|[(H1 & H2 & H3 & H4 & H5)|(_ & E & _)]]; [by left|right; right|congruence].
    unfold one_behind. cbn. rewrite length_app, <- H1. split; [simpl; lia|]. split; [done|]. right. split; [done|].
    exists (fl_queue t), (mkEvent true op_Create), []. split_and!; try done; [constructor|].
    intros E. destruct (H5 E) as [?|Hd]; [by left|right].
    unfold drained, position, file_data in *. cbn. by rewrite lookup_app_l.
Qed.

Lemma writer_inv w t t' :
  follow_inv t → writer_step w t = Some t' → (w = WRotate → fl_path t = Some (fl_ino t)) → follow_inv t'.
Proof.
  intros Hinv Hstep Hguard. destruct w as [b| | |ev].
  - destruct (fl_path t) as [i|] eqn:Hp; [by eapply append_inv|]. unfold writer_step in Hstep. by rewrite Hp in Hstep.
  - specialize (Hguard eq_refl). unfold writer_step in Hstep. rewrite Hguard in Hstep. injection Hstep as <-.
    apply (grow_inv t); try done.
    + by exists []; rewrite app_nil_r.
    + destruct (inv_queue _ Hinv) as [?|[Hn|(_ & E & _)]]; [by left|right; left|].
      * apply (newest_notify t _ (mkEvent true op_Rename)); try done; [by right|by left].
      * rewrite Hguard in E. injection E. lia.
  - by eapply create_inv.
  - unfold writer_step in Hstep.
    assert (event_says ev ≠ Some true) as Hev by (intros E; by rewrite E in Hstep).
    assert (set_queue (fl_queue t ++ [ev]) t = t') as <-.
    { destruct (fl_path t), (event_says ev) as [[]|]; congruence. }
    apply (grow_inv t); try done.
    + by exists []; rewrite app_nil_r.
    + apply Hinv.
    + destruct (inv_queue _ Hinv) as [?|[Hn|Hb]]; [by left|right; left|right; right].
      * apply (newest_notify t _ ev); try done; [apply Hn|by right].
      * by apply (one_behind_notify t _ ev).
Qed.

Lemma follow_step_inv a t t' : follow_inv t → follow_step a t = Some t' → follow_inv t'.
Proof.
  intros Hinv Hs. unfold follow_step in Hs. destruct (fl_pc t) eqn:Hpc, a as [r|e|ended|ended i|oe ce]; try done.
  - injection Hs as <-. by apply reading_step_inv.
  - assert (fail "ipamd.followLogTail reset partial line" e t = t') as <-; [|by apply fail_inv].
    destruct (cut_line (fl_buf t)) as [[]|]; [done|]. destruct (drop _ _); [|done]. destruct (fl_buf t); congruence.
  - destruct (fl_queue t) eqn:Hq; [done|]. injection Hs as <-. by apply waiting_event_inv.
  - assert (waiting_step ended i t = t' ∧ ∀ ev, i ≠ WatchEvent ev) as [<- Hi].
    { destruct i; try done; split; congruence. }
    by apply waiting_select_inv.
  - injection Hs as <-. by apply opening_inv.
Qed.

(** The loop and the writer, which rotates the log only when the loop has opened the
    present file. *)
Inductive keep_step : Follow → Follow → Prop :=
| keep_loop a t t' : follow_step a t = Some t' → keep_step t t'
| keep_writer w t t' :
    writer_step w t = Some t' → (w = WRotate → fl_path t = Some (fl_ino t)) → keep_step t t'.

Lemma follow_start_inv d : (start ≤ length d)%nat → follow_inv (follow_start start d).
Proof.
  intros Hs. constructor; cbn; try done; try lia.
  - intros i [= <-]. lia.
  - intros _. exists (take start d). rewrite app_nil_r, length_take, Nat.min_l by lia. split_and!; [done..|by left].
  - intros _. unfold text, position, past. cbn. rewrite Nat.sub_0_r, drop_ge; [done|].
    rewrite length_take. lia.
  - apply prefix_nil.
  - right; left. split_and!; [done|by left|constructor|done|done].
Qed.

Lemma keep_steps_inv d t : (start ≤ length d)%nat → rtc keep_step (follow_start start d) t → follow_inv t.
Proof.
  intros Hs Hr. assert (follow_inv (follow_start start d) → follow_inv t) as H; [|by apply H, follow_start_inv].
  induction Hr as [|t1 t2 t3 Hst _ IH]; [done|]. intros Hinv. apply IH. destruct Hst as [a t1 t2 Hst|w t1 t2 Hst Hg].
  - by eapply follow_step_inv.
  - by eapply writer_inv.
Qed.

(** All complete lines there are. *)
Definition all_lines (data : list (list Z)) : list Z := concat (imap done_part data).

Lemma caught_up t :
  follow_inv t → fl_pc t = Waiting → fl_queue t = [] → fl_out t = all_lines (fl_data t).
Proof.
  intros Hinv Hpc Hq. assert (¬ returned t) as Hnr by (intros [err E]; congruence).
  destruct (inv_queue _ Hinv) as [|[(H1 & _ & _ & _ & Haw)|(_ & _ & [[E _]|(_ & q1 & cr & q2 & E & _)])]];
    [done| |congruence|rewrite Hq in E; by destruct q1].
  destruct (Haw Hpc) as [Hw|Hdr]; [rewrite Hq in Hw; by apply Exists_nil in Hw|].
  destruct (inv_buf _ Hinv Hnr) as (b0 & Hb0 & Hs & Hend). pose proof (inv_off _ Hinv) as Ho.
  destruct (position_split t b0 Ho Hb0) as (Hp0 & Ht0 & Hoff).
  destruct (lookup_lt_is_Some_2 (fl_data t) (fl_ino t) (inv_ino _ Hinv)) as [d Hd].
  assert (file_data t (fl_ino t) = d) as Hfd by (unfold file_data; by rewrite Hd).
  rewrite (inv_out _ Hinv Hnr). unfold text, past, all_lines.
  rewrite <- (take_ge (fl_data t) (S (fl_ino t))) at 2 by lia. rewrite (take_S_r _ _ d) by done.
  rewrite imap_app, concat_app. f_equal. simpl.
  rewrite app_nil_r, length_take, Nat.min_l by (pose proof (inv_ino _ Hinv); lia).
  rewrite Nat.add_0_r, Hfd in *. unfold done_part. symmetry. apply lines_up_to.
  - lia.
  - lia.
  - rewrite Ht0, Hp0. by destruct Hend; [left|right].
  - unfold drained in Hdr. by rewrite Hfd in Hdr.
Qed.
End run.

(** C25: A request for the last lines is answered by a stream that begins at the start
    of a line after which there are that many newlines, or all. However the log grows
    and is rotated from then on, as long as no file is rotated away before the loop has
    opened it, the client has at every moment got a prefix of the complete lines of the
    files in their order, up to what was read of the open file: none is torn, repeated
    or lost; and when the loop waits with no notification left, the client has every
    complete line. *)
Theorem log_tail_correct fuel value lines d :
  parseTailLines value = inr lines → 0 < lines → (length d < fuel)%nat →
  ∃ off,
    newLogTailHandler fuel value true (inr d) None None = Ok (HttpStream (follow_start off d)) ∧
    (off = O ∨ d !! pred off = Some newline) ∧
    count_newlines (drop off d) = Z.min (count_newlines d) lines ∧
    ∀ t, rtc keep_step (follow_start off d) t →
      fl_out t `prefix_of` text off (fl_off t) t ∧
      (¬ returned t → fl_out t = text off (position t) t) ∧
      (fl_pc t = Waiting → fl_queue t = [] → fl_out t = all_lines off (fl_data t)).
Proof.
  intros Hp Hl Hf. destruct (tailStartOffset_correct d fuel lines Hf Hl) as (off & E & Hr & Hc & Hs & _).
  exists (Z.to_nat off). split.
  { unfold newLogTailHandler, openLogTail. by rewrite Hp, E. }
  split; [destruct Hs as [->|Hs]; [by left|right]|].
  { destruct (decide (off = 0)) as [->|]; [done|]. by replace (pred (Z.to_nat off)) with (Z.to_nat (off - 1)) by lia. }
  split; [done|]. intros t Hrun.
  assert (follow_inv (Z.to_nat off) t) as Hinv by (eapply keep_steps_inv; [|done]; lia).
  split; [apply Hinv|]. split; [apply Hinv|]. by apply caught_up.
Qed.

(** ** A log *)

(** Running a sequence of steps of the loop and of the writer. *)
Fixpoint run_acts (l : list (follow_act + writer_act)) (t : Follow) : option Follow :=
  match l with
  | [] => Some t
  | inl a :: l' => t' ← follow_step a t; run_acts l' t'
  | inr w :: l' => t' ← writer_step w t; run_acts l' t'
  end.

#[local] Abbreviation call n := (inl (ActCall (Done n))).
#[local] Abbreviation receive := (inl (ActReceive false)).
#[local] Abbreviation open_ok := (inl (ActOpen None None)).

(** A line arrives in two pieces; the log is rotated, with a line in the new file. *)
Example follow_rotation :
  fl_out <$> run_acts
    [call 9; inr (WAppend [97]); receive; call 9; call 9; inr (WAppend [98; 10]); receive; call 9; call 9; call 9;
     inr WRotate; receive; call 9; inr WCreate; inr (WAppend [99; 10]);
     receive; open_ok; call 9; call 9; call 9] (follow_start 2 [120; 10]) = Some [97; 98; 10; 99; 10].
Proof. vm_compute. reflexivity. Qed.

(** A second rotation before the loop has seen the first: the first notification
    already leads to the newest file, and the second one to its beginning again. *)
Definition double_rotation : list (follow_act + writer_act) :=
  [call 9; inr WRotate; inr WCreate; inr (WAppend [97; 10]); inr WRotate; inr WCreate; inr (WAppend [98; 10]);
   receive; call 9; receive; open_ok; call 9; call 9; call 9;
   receive; call 9; receive; call 9; receive; open_ok; call 9; call 9; call 9; receive; call 9].
Example double_rotation_repeats :
  (λ t, (fl_out t, fl_data t, fl_pc t, fl_queue t)) <$> run_acts double_rotation (follow_start 0 []) =
  Some ([98; 10; 98; 10], [[]; [97; 10]; [98; 10]], Waiting, []).
Proof. vm_compute. reflexivity. Qed.

Lemma log_tail_correct_witness :
  ∃ off,
    newLogTailHandler 10 "2" true (inr [97; 10; 98; 10; 99; 10]) None None
      = Ok (HttpStream (follow_start off [97; 10; 98; 10; 99; 10])) ∧
    (off = O ∨ [97; 10; 98; 10; 99; 10] !! pred off = Some newline) ∧
    count_newlines (drop off [97; 10; 98; 10; 99; 10]) = 2 ∧
    ∀ t, rtc keep_step (follow_start off [97; 10; 98; 10; 99; 10]) t →
      fl_out t `prefix_of` text off (fl_off t) t ∧
      (¬ returned t → fl_out t = text off (position t) t) ∧
      (fl_pc t = Waiting → fl_queue t = [] → fl_out t = all_lines off (fl_data t)).
Proof. apply (log_tail_correct 10 "2" 2); [reflexivity|lia|simpl; lia]. Defined.
