(* ===== verification/OsFs.v ===== *)
(** The file system as the programs of the repository use it through the package
    [os]: a map from paths to directory entries, on which every call either acts or
    fails.

    Failures come from outside (a full disk, a missing parent directory, a device
    that does not answer): [os_env] is the sequence of what the environment does to
    the calls to come, one event for each, and an exhausted sequence lets every
    call succeed.  [os_trace] keeps the file systems that existed before the
    present one, the latest first, so that a property of every moment of a run can
    be stated: it is what a crash of the process or a concurrent reader can see. *)
From S2P Require Export Prelude GoStrings.

(** ** Definitions *)

(** A directory entry.  [Symlink] holds the absolute path it points to; [Special]
    is a device or a pipe. *)
Inductive inode : Type :=
| Regular (perm : Z) (content : list Z)
| Symlink (to : string)
| Directory
| Socket
| Special.

#[global] Instance inode_eq_dec : EqDecision inode.
Proof. solve_decision. Defined.

Abbreviation Disk := (gmap string inode).

(** What the environment does to one call: an error, or success; a write of the
    call takes at most [ev_n] + 1 bytes. *)
Record sysev : Type := mkEv { ev_err : option string; ev_n : nat }.

Record Os : Type := mkOs {
  os_disk : Disk;
  os_trace : list Disk;
  os_env : list sysev;
  os_umask : Z
}.

(** The errors of the package [os] that the code tests for. *)
Definition ErrNotExist : error := ExtErr "file does not exist".
Definition ErrExist : error := ExtErr "file already exists".

(** An error from outside: it never says that a file exists or does not. *)
Definition io_error (msg : string) : error := Wrap msg (ExtErr "input/output error").

(** The next event, [None] when the environment does not interfere any more. *)
Definition next_event : M Os (option sysev) := λ s,
  match os_env s with
  | [] => (Ok None, s)
  | ev :: env => (Ok (Some ev), mkOs (os_disk s) (os_trace s) env (os_umask s))
  end.

(** A call that the environment lets fail or go on. *)
Definition syscall {A} (m : M Os A) : M Os A :=
  ev ← next_event;
  match ev with
  | Some (mkEv (Some e) _) => throw (io_error e)
  | _ => m
  end.

Definition change (f : Disk → Disk) : M Os unit := λ s,
  (Ok tt, mkOs (f (os_disk s)) (os_disk s :: os_trace s) (os_env s) (os_umask s)).

(** The entry behind a path, symbolic links followed (at most 40, as in Linux). *)
Fixpoint follow (fuel : nat) (d : Disk) (p : string) : error + inode :=
  match d !! p with
  | None => inl ErrNotExist
  | Some (Symlink q) =>
      match fuel with
      | O => inl (ExtErr "too many levels of symbolic links")
      | S fuel' => follow fuel' d q
      end
  | Some n => inr n
  end.
Definition stat (d : Disk) (p : string) : error + inode := follow 40 d p.

Definition of_sum {A} (r : error + A) : M Os A :=
  match r with inl e => throw e | inr a => mret a end.

Definition os_Lstat (p : string) : M Os inode :=
  syscall (d ← gets os_disk; of_option ErrNotExist (d !! p)).
Definition os_Stat (p : string) : M Os inode :=
  syscall (d ← gets os_disk; of_sum (stat d p)).

(** A directory that is not empty is not removed: the environment says so. *)
Definition os_Remove (p : string) : M Os unit :=
  syscall (d ← gets os_disk; n ← of_option ErrNotExist (d !! p); change (delete p)).

Definition os_Rename (a b : string) : M Os unit :=
  syscall (d ← gets os_disk; n ← of_option ErrNotExist (d !! a);
           match d !! b with
           | Some Directory => throw ErrExist
           | _ => change (λ d, <[b := n]> (delete a d))
           end).

(** [os.Open] of a regular file: what it holds. *)
Definition os_Open (p : string) : M Os (list Z) :=
  syscall (d ← gets os_disk; n ← of_sum (stat d p);
           match n with
           | Regular _ content => mret content
           | _ => throw (ExtErr "not a regular file")
           end).

(** [os.OpenFile(p, O_WRONLY|O_CREATE|O_EXCL, perm)]: a link is not followed. *)
Definition os_Create_excl (p : string) (perm : Z) : M Os unit :=
  syscall (d ← gets os_disk; umask ← gets os_umask;
           match d !! p with
           | Some _ => throw ErrExist
           | None => change (insert p (Regular (Z.ldiff perm umask) []))
           end).

(** Appending to the open file that was created at [p]. *)
Definition append_bytes (p : string) (b : list Z) (d : Disk) : Disk :=
  match d !! p with
  | Some (Regular perm c) => <[p := Regular perm (c ++ b)]> d
  | _ => d
  end.

(** [io.Copy(destination, source)]: chunks of the size that the calls take; an
    error may come after a part of the chunk is written. *)
Fixpoint copy_loop (fuel : nat) (p : string) (rest : list Z) : M Os unit :=
  match rest with
  | [] => mret tt
  | _ =>
      match fuel with
      | O => diverge
      | S fuel' =>
          ev ← next_event;
          match ev with
          | None => change (append_bytes p rest)
          | Some (mkEv (Some e) n) => change (append_bytes p (take n rest));; throw (io_error e)
          | Some (mkEv None n) =>
              change (append_bytes p (take (S n) rest));; copy_loop fuel' p (drop (S n) rest)
          end
      end
  end.
Definition io_Copy (p : string) (content : list Z) : M Os unit :=
  copy_loop (S (length content)) p content.

(** Closing a file: only the error is seen. *)
Definition os_Close : M Os unit := syscall (mret tt).

(** [errors.CombineErrors] on errors that may be nil. *)
Definition combine_errors (err other : option error) : option error :=
  match err with Some e => Some e | None => other end.

(** [defer func() { err = errors.CombineErrors(err, errors.Wrap(fin(), msg)) }()]. *)
Definition defer_close {A} (msg : string) (m : M Os A) : M Os A := λ s,
  match m s with
  | (Ok a, s1) =>
      match os_Close s1 with
      | (Err e, s2) => (Err (Wrap msg e), s2)
      | (_, s2) => (Ok a, s2)
      end
  | (Err e, s1) => (Err e, (os_Close s1).2)
  | (Panic w, s1) => (Panic w, (os_Close s1).2)
  | (Diverge, s1) => (Diverge, s1)
  end.

(** ** The calls at every moment *)

Lemma io_error_Is msg : errors_Is (io_error msg) ErrNotExist = false.
Proof. done. Qed.

(** [P] holds of the present file system and of all earlier ones. *)
Definition always (P : Disk → Prop) (s : Os) : Prop := Forall P (os_disk s :: os_trace s).

Section always.
Variable P : Disk → Prop.
Implicit Types s : Os.

Lemma always_now s : always P s → P (os_disk s).
Proof. by inversion 1. Qed.

(** What a call that changes nothing leaves: the file system and its history. *)
Definition same_disk s s' : Prop :=
  os_disk s' = os_disk s ∧ os_trace s' = os_trace s ∧ os_umask s' = os_umask s.

Lemma same_disk_refl s : same_disk s s.
Proof. done. Qed.
Lemma same_disk_trans s1 s2 s3 : same_disk s1 s2 → same_disk s2 s3 → same_disk s1 s3.
Proof. intros (?&?&?) (?&?&?). split_and!; congruence. Qed.
Lemma same_disk_always s s' : same_disk s s' → always P s → always P s'.
Proof. intros (Hd & Ht & _). unfold always. by rewrite Hd, Ht. Qed.

Lemma next_event_spec (Q : outcome (option sysev) → Os → Prop) s :
  (∀ ev s', same_disk s s' → (os_env s = [] → ev = None ∧ os_env s' = []) → Q (Ok ev) s') →
  wp next_event Q s.
Proof.
  intros H. unfold wp, next_event. destruct (os_env s) eqn:He; simpl; apply H; try done.
Qed.

(** A call fails for a reason from outside, or acts on the same file system. *)
Lemma syscall_spec {A} (m : M Os A) (Q : outcome A → Os → Prop) s :
  (∀ e s', os_env s ≠ [] → same_disk s s' → Q (Err (io_error e)) s') →
  (∀ s', same_disk s s' → (os_env s = [] → os_env s' = []) → wp m Q s') →
  wp (syscall m) Q s.
Proof.
  intros Hf Hm. unfold syscall. apply wp_bind, next_event_spec. intros ev s' Hs He.
  cbn [kont]. destruct ev as [[[e|] n]|].
  - apply wp_throw, Hf; [|done]. intros E. by destruct (He E).
  - apply Hm; [done|]. intros E. by destruct (He E).
  - apply Hm; [done|]. intros E. by destruct (He E).
Qed.

Lemma change_spec f (Q : outcome unit → Os → Prop) s :
  (∀ s', os_disk s' = f (os_disk s) → (always P s → P (f (os_disk s)) → always P s') →
         (os_env s = [] → os_env s' = []) → os_umask s' = os_umask s → Q (Ok tt) s') →
  wp (change f) Q s.
Proof.
  intros H. unfold wp, change. simpl. apply H; try done.
  intros Ha Hp. by constructor.
Qed.
End always.

(** Following links only depends on the entries that exist. *)
Lemma follow_delete fuel d p q n : follow fuel (delete q d) p = inr n → follow fuel d p = inr n.
Proof.
  revert p. induction fuel as [|fuel IH]; intros p; simpl;
    (destruct (decide (p = q)) as [->|Hne]; [by rewrite lookup_delete_eq|rewrite lookup_delete_ne by done]);
    [done|]. destruct (d !! p) as [[]|]; try done. apply IH.
Qed.
Lemma stat_delete d p q n : stat (delete q d) p = inr n → stat d p = inr n.
Proof. apply follow_delete. Qed.

Lemma follow_here fuel d p n :
  d !! p = Some n → (∀ q, n ≠ Symlink q) → follow fuel d p = inr n.
Proof. intros Hd Hn. destruct fuel; simpl; rewrite Hd; destruct n; try done; by edestruct Hn. Qed.
Lemma follow_missing fuel d p : d !! p = None → follow fuel d p = inl ErrNotExist.
Proof. intros Hd. by destruct fuel; simpl; rewrite Hd. Qed.
