(* ===== verification/CniInit.v ===== *)
(** The installer of the plugin ([cmd/cnivpc-init]): compare the version of the
    binary of the image with the installed one, and put the new one in place by way
    of a temporary file.

    What an executable file does on [--version] is the parameter [run_version]. *)
From S2P Require Export OsFs.

(** ** Definitions *)

Definition cniBinarySourcePath : string := "/app/cnivpc".
Definition cniBinaryTargetPath : string := "/opt/cni/bin/cnivpc".
Definition envCNIInitOverwrite : string := "CNI_INIT_OVERWRITE".

(** *** cp.go *)

Definition cp (src dst : string) : M Os unit :=
  info ← with_wrap "main.cp stat source" (os_Stat src);
  match info with
  | Regular perm _ =>
      source ← with_wrap "main.cp open source" (os_Open src);
      defer_close "main.cp close source" (
        with_wrap "main.cp create destination" (os_Create_excl dst perm);;
        defer_close "main.cp close destination" (
          with_wrap "main.cp copy" (io_Copy dst source)))
  | _ => throw (Errorf "main.cp source is not a regular file")
  end.

Definition dst_tmp (dst : string) : string := dst +:+ ".tmp".

(** What an earlier run may have left is removed. *)
Definition remove_stale (tmp : string) : M Os unit :=
  r ← attempt (os_Remove tmp);
  match r with
  | inl err =>
      if errors_Is err ErrNotExist then mret tt
      else throw (Wrap "main.copyFile remove stale destination" err)
  | inr _ => mret tt
  end.

Definition copyFile (src dst : string) : M Os unit :=
  remove_stale (dst_tmp dst);;
  cp src (dst_tmp dst);;
  with_wrap "main.copyFile rename destination" (os_Rename (dst_tmp dst) dst).

(** *** main.go *)

(** [strings.ToLower(strings.TrimSpace(value))] of the variable, if it is set. *)
Definition cniInitModeFromEnv (value : option string) : error + bool :=
  match value with
  | None => inr false
  | Some value =>
      let v := ToLower (TrimSpace value) in
      if String.eqb v "true" then inr true
      else if String.eqb v "false" then inr false
      else inl (Errorf "main.cniInitModeFromEnv parse value: expected true or false")
  end.

Section init.
Variable run_version : list Z → error + string.

(** [exec.Command(path, "--version").CombinedOutput()]: a file without any execute
    permission does not start. *)
Definition exec_result (d : Disk) (path : string) : error + string :=
  match stat d path with
  | inl err => inl err
  | inr (Regular perm content) =>
      if Z.land perm 73 =? 0 then inl (ExtErr "permission denied") else run_version content
  | inr _ => inl (ExtErr "permission denied")
  end.
Definition exec_version (path : string) : M Os string :=
  syscall (d ← gets os_disk; of_sum (exec_result d path)).

Definition checksame (sourcePath targetPath : string) : M Os bool :=
  sourceVersion ← with_wrap "main.checksame get source version" (exec_version sourcePath);
  r ← attempt (exec_version targetPath);
  match r with
  | inl err =>
      if errors_Is err ErrNotExist then mret false
      else throw (Wrap "main.checksame get target version" err)
  | inr targetVersion => mret (String.eqb (TrimSpace sourceVersion) (TrimSpace targetVersion))
  end.

Definition copyCNIBinary (sourcePath targetPath : string) : M Os unit :=
  with_wrap "main.copyCNIBinary copy" (copyFile sourcePath targetPath).

Definition installCNIBinaryIfMissing (sourcePath targetPath : string) : M Os unit :=
  r ← attempt (os_Lstat targetPath);
  match r with
  | inr _ => mret tt
  | inl err =>
      if errors_Is err ErrNotExist then copyCNIBinary sourcePath targetPath
      else throw (Wrap "main.installCNIBinaryIfMissing stat target" err)
  end.

(** [run]: the value of [CNI_INIT_OVERWRITE] is its argument. *)
Definition run (overwrite : option string) : M Os unit :=
  same ← checksame cniBinarySourcePath cniBinaryTargetPath;
  if (same : bool) then mret tt
  else
    needReplace ← of_sum (cniInitModeFromEnv overwrite);
    if (needReplace : bool) then copyCNIBinary cniBinarySourcePath cniBinaryTargetPath
    else installCNIBinaryIfMissing cniBinarySourcePath cniBinaryTargetPath.
End init.

(** ** A copy, step by step *)

(** [d] differs from [d0] at the temporary file only. *)
Definition others_kept (tmp : string) (d0 d : Disk) : Prop := ∀ p, p ≠ tmp → d !! p = d0 !! p.

Lemma others_kept_refl tmp d : others_kept tmp d d.
Proof. by intros p _. Qed.
Lemma others_kept_insert tmp d0 d n : others_kept tmp d0 d → others_kept tmp d0 (<[tmp := n]> d).
Proof. intros H p Hp. rewrite lookup_insert_ne by done. by apply H. Qed.
Lemma others_kept_delete tmp d0 d : others_kept tmp d0 d → others_kept tmp d0 (delete tmp d).
Proof. intros H p Hp. rewrite lookup_delete_ne by done. by apply H. Qed.
Lemma others_kept_append tmp d0 d b : others_kept tmp d0 d → others_kept tmp d0 (append_bytes tmp b d).
Proof.
  intros H. unfold append_bytes. destruct (d !! tmp) as [[]|]; try done. by apply others_kept_insert.
Qed.
#[local] Hint Resolve others_kept_refl others_kept_insert others_kept_delete others_kept_append : core.

Section steps.
Variables (tmp : string) (d0 : Disk).
#[local] Abbreviation kept := (others_kept tmp d0).

(** Every moment of the run so far differs from the start at [tmp] only. *)
Definition work (s : Os) : Prop := always kept s.

(** Whether the environment has stopped to interfere. *)
Definition calm (s : Os) : Prop := os_env s = [].

(** The result of a part of the work: the invariant, and [ok] of a value.  In a calm
    environment an error has its reason [bad] in the file system. *)
Definition part {A} (s : Os) (bad : Prop) (ok : A → Os → Prop) (o : outcome A) (s' : Os) : Prop :=
  work s' ∧ os_umask s' = os_umask s ∧ (calm s → calm s') ∧
  match o with
  | Ok a => ok a s'
  | Err _ => calm s → bad
  | Panic _ | Diverge => False
  end.

Lemma part_change f (Q : outcome unit → Os → Prop) s :
  work s → kept (f (os_disk s)) →
  (∀ s', os_disk s' = f (os_disk s) → part s False (λ _ _, True) (Ok tt) s' → Q (Ok tt) s') →
  wp (change f) Q s.
Proof.
  intros Hw Hf HQ. apply (change_spec kept). intros s' Hd Ha Hc Hu.
  apply HQ; [done|]. split_and!; auto. by apply Ha.
Qed.

Lemma copy_loop_spec fuel rest s perm c :
  (length rest < fuel)%nat → work s → os_disk s !! tmp = Some (Regular perm c) →
  wp (copy_loop fuel tmp rest)
     (part s False (λ _ s', os_disk s' !! tmp = Some (Regular perm (c ++ rest)))) s.
Proof.
  revert rest s c. induction fuel as [|fuel IH]; intros rest s c Hf Hw Hc; [lia|].
  destruct rest as [|x rest'] eqn:Hrest.
  { cbn. apply wp_ret. split_and!; try done. by rewrite app_nil_r. }
  rewrite <- Hrest in *. assert (rest ≠ []) as Hne by by rewrite Hrest.
  replace (copy_loop (S fuel) tmp rest) with
    (ev ← next_event; match ev with
       | None => change (append_bytes tmp rest)
       | Some (mkEv (Some e) n) => change (append_bytes tmp (take n rest));; throw (io_error e)
       | Some (mkEv None n) =>
           change (append_bytes tmp (take (S n) rest));; copy_loop fuel tmp (drop (S n) rest)
       end) by by rewrite Hrest.
  apply wp_bind, next_event_spec. intros ev s1 Hs He. cbn [kont].
  assert (work s1) as Hw1 by (by eapply same_disk_always).
  destruct Hs as (Hd & _ & Hu). assert (os_disk s1 !! tmp = Some (Regular perm c)) as Hc1 by by rewrite Hd.
  assert (∀ b, kept (append_bytes tmp b (os_disk s1))) as Happ.
  { intros b. apply others_kept_append. by apply always_now in Hw1. }
  assert (∀ b s2, os_disk s2 = append_bytes tmp b (os_disk s1) →
            os_disk s2 !! tmp = Some (Regular perm (c ++ b))) as Hlook.
  { intros b s2 ->. unfold append_bytes. by rewrite Hc1, lookup_insert_eq. }
  destruct ev as [[[e|] n]|].
  - apply wp_bind, part_change; [done..|]. intros s2 _ (Hw2 & Hu2 & _ & _). cbn [kont].
    apply wp_throw. split_and!; [done|congruence| |]; intros Hcalm; by destruct (He Hcalm).
  - apply wp_bind, part_change; [done..|]. intros s2 Hd2 (Hw2 & Hu2 & _ & _). cbn [kont].
    eapply wp_mono; [apply (IH _ _ (c ++ take (S n) rest))|].
    + rewrite length_drop. rewrite Hrest in *. simpl in *. lia.
    + done.
    + by apply Hlook.
    + intros o s3 (Hw3 & Hu3 & _ & Ho). split_and!; [done|congruence| |].
      * intros Hcalm. by destruct (He Hcalm).
      * destruct o; try done; [|intros Hcalm; by destruct (He Hcalm)].
        by rewrite Ho, <- app_assoc, take_drop.
  - apply part_change; [done..|]. intros s2 Hd2 (Hw2 & Hu2 & Hc2 & _).
    split_and!; [done|congruence| |by apply Hlook]. intros Hcalm. apply Hc2. by destruct (He Hcalm).
Qed.

(** A call that changes nothing. *)
Lemma part_syscall {A} (m : M Os A) (Q : outcome A → Os → Prop) s :
  work s →
  (∀ e s', os_disk s' = os_disk s → part (A := A) s False (λ _ _, True) (Err (io_error e)) s' → Q (Err (io_error e)) s') →
  (∀ s', os_disk s' = os_disk s → work s' → os_umask s' = os_umask s → (calm s → calm s') → wp m Q s') →
  wp (syscall m) Q s.
Proof.
  intros Hw Hf Hm. apply syscall_spec.
  - intros e s' Hc Hs. pose proof (same_disk_always _ _ _ Hs Hw) as Hw'. destruct Hs as (Hd & _ & Hu).
    apply Hf; [done|]. split_and!; try done; intros E; by destruct Hc.
  - intros s' Hs Hc. pose proof (same_disk_always _ _ _ Hs Hw) as Hw'. destruct Hs as (Hd & _ & Hu).
    by apply Hm.
Qed.

Lemma os_Close_spec s :
  work s →
  wp os_Close (λ o s', os_disk s' = os_disk s ∧ part s False (λ _ _, True) o s') s.
Proof.
  intros Hw. apply part_syscall; [done|by split|]. intros s' ????. apply wp_ret. by split_and!.
Qed.

Lemma defer_close_spec {A} msg (m : M Os A) s bad (ok : A → Os → Prop) :
  (∀ a s1 s2, os_disk s2 = os_disk s1 → ok a s1 → ok a s2) →
  wp m (part s bad ok) s → wp (defer_close msg m) (part s bad ok) s.
Proof.
  intros Hok. unfold wp, defer_close. destruct (m s) as [[a|e|w|] s1]; try done;
    intros (Hw & Hu & Hc & Ho); pose proof (os_Close_spec s1 Hw) as Hclose; unfold wp in Hclose;
    destruct (os_Close s1) as [o2 s2]; destruct Hclose as (Hd2 & Hw2 & Hu2 & Hc2 & He2); simpl in *.
  - destruct o2 as [[]|e2|w2|]; try done; cbn [fst snd];
      (split_and!; [done|congruence|auto|]); [by eapply Hok|].
    intros E. destruct He2; auto.
  - split_and!; [done|congruence|auto|done].
  - done.
Qed.

Lemma part_mono {A} s bad bad' (ok ok' : A → Os → Prop) o s' :
  part s bad ok o s' → (bad → bad') → (∀ a, ok a s' → ok' a s') → part s bad' ok' o s'.
Proof. intros (?&?&?&Ho) Hb Hok. split_and!; try done. destruct o; auto. Qed.

(** A later part of the work, seen from an earlier moment. *)
Lemma part_later {A} s s1 bad bad' (ok : A → Os → Prop) o s' :
  part s1 bad ok o s' → os_umask s1 = os_umask s → (calm s → calm s1) → (bad → bad') → part s bad' ok o s'.
Proof.
  intros (?&?&?&Ho) Hu Hc Hb. split_and!; [done|congruence|auto|]. destruct o; auto.
Qed.

(** A failure of a call is a failure of the part that makes it. *)
Lemma part_err {A B} s s1 bad (okA : A → Os → Prop) (okB : B → Os → Prop) e e' s' :
  part s1 False okA (Err e) s' → os_umask s1 = os_umask s → (calm s → calm s1) →
  part s bad okB (Err e') s'.
Proof.
  intros (?&?&?&Ho) Hu Hc. split_and!; [done|congruence|auto|]. intros E. by destruct Ho; auto.
Qed.

Definition source_file (d : Disk) (src : string) (perm : Z) (c : list Z) : Prop :=
  stat d src = inr (Regular perm c).
Definition copied (d : Disk) (umask : Z) (src : string) (s' : Os) : Prop :=
  ∃ perm c, source_file d src perm c ∧ os_disk s' !! tmp = Some (Regular (Z.ldiff perm umask) c).
Definition no_source (d : Disk) (src : string) : Prop := ¬ ∃ perm c, source_file d src perm c.

Lemma copied_disk d umask src s1 s2 :
  os_disk s2 = os_disk s1 → copied d umask src s1 → copied d umask src s2.
Proof. intros E (perm & c & H1 & H2). exists perm, c. by rewrite E. Qed.

Lemma create_and_copy src perm c s :
  work s → source_file (os_disk s) src perm c →
  wp (with_wrap "main.cp create destination" (os_Create_excl tmp perm);;
      defer_close "main.cp close destination" (with_wrap "main.cp copy" (io_Copy tmp c)))
     (part s (os_disk s !! tmp ≠ None) (λ _, copied (os_disk s) (os_umask s) src)) s.
Proof.
  intros Hw Hsrc. apply wp_bind, wp_with_wrap, part_syscall; [done|intros e s1 _ H; by eapply part_err|].
  intros s1 Hd1 Hw1 Hu1 Hc1. apply wp_bind, wp_gets. cbn [kont]. apply wp_bind, wp_gets. cbn [kont].
  rewrite Hd1. destruct (os_disk s !! tmp) eqn:Hno.
  { apply wp_throw. cbn [kont]. by split_and!. }
  apply part_change; [done|by apply others_kept_insert, always_now|].
  intros s2 Hd2 (Hw2 & Hu2 & Hc2 & _). cbn [kont].
  eapply wp_mono; [apply (defer_close_spec _ _ _ False (λ _, copied (os_disk s) (os_umask s) src))|].
  - intros _ sa sb. apply copied_disk.
  - apply wp_with_wrap. eapply wp_mono; [apply (copy_loop_spec _ _ _ (Z.ldiff perm (os_umask s)) [])|].
    + lia.
    + done.
    + by rewrite Hd2, Hu1, lookup_insert_eq.
    + intros [[]|e| |] s3 H; [| |by destruct H as (_&_&_&[])..]; [|exact H].
      eapply part_mono; [exact H|done|]. intros ? Ht. by exists perm, c.
  - intros o s3 H. eapply part_later; [exact H|congruence|by auto|done].
Qed.

Lemma cp_spec src s :
  work s →
  wp (cp src tmp) (part s (no_source (os_disk s) src ∨ os_disk s !! tmp ≠ None) (λ _, copied (os_disk s) (os_umask s) src)) s.
Proof.
  intros Hw. unfold cp. apply wp_bind, wp_with_wrap, part_syscall; [done| |].
  { intros e s1 _ H. by eapply part_err. }
  intros s1 Hd1 Hw1 Hu1 Hc1. apply wp_bind, wp_gets. cbn [kont]. rewrite Hd1.
  assert (∀ A (ok : A → Os → Prop) e, no_source (os_disk s) src →
            part s (no_source (os_disk s) src ∨ os_disk s !! tmp ≠ None) ok (Err e) s1) as Hbad.
  { intros A ok e Hb. split_and!; auto. }
  destruct (stat (os_disk s) src) as [e|n] eqn:Hst; cbn [of_sum].
  { apply wp_throw. apply Hbad. intros (p & c & H). unfold source_file in H. congruence. }
  apply wp_ret. cbn [kont]. destruct n as [perm c| | | |];
    try (apply wp_throw, Hbad; intros (p' & c' & H); unfold source_file in H; congruence).
  apply wp_bind, wp_with_wrap, part_syscall; [done| |].
  { intros e s2 _ H. by eapply part_err. }
  intros s2 Hd2 Hw2 Hu2 Hc2. apply wp_bind, wp_gets. cbn [kont]. rewrite Hd2, Hd1, Hst.
  cbn [of_sum]. apply wp_bind, wp_ret. cbn [kont]. apply wp_ret. cbn [kont].
  eapply wp_mono; [apply (defer_close_spec _ _ _ (os_disk s !! tmp ≠ None) (λ _, copied (os_disk s) (os_umask s) src))|].
  - intros _ sa sb. apply copied_disk.
  - rewrite <- Hd1, <- Hd2, <- Hu1, <- Hu2. apply create_and_copy; [done|].
    unfold source_file. congruence.
  - intros o s3 H. eapply part_later; [exact H|congruence|by auto|by right].
Qed.
End steps.

(** ** Replacing a file *)

Section install.
Variables (src dst : string) (d0 : Disk) (umask : Z).
#[local] Abbreviation tmp := (dst_tmp dst).

Lemma dst_tmp_ne : dst_tmp dst ≠ dst.
Proof.
  intros E. apply (f_equal String.length) in E. unfold dst_tmp in E.
  rewrite str_length_app in E. simpl in E. lia.
Qed.

(** The new file: the content of the source, its permissions less the umask. *)
Definition new_file (n : inode) : Prop :=
  ∃ perm c, source_file d0 src perm c ∧ n = Regular (Z.ldiff perm umask) c.

(** What a moment of an installation may look like. *)
Definition moment (d : Disk) : Prop :=
  (∀ p, p ≠ dst → p ≠ tmp → d !! p = d0 !! p) ∧
  (d !! dst = d0 !! dst ∨ ∃ n, new_file n ∧ d !! dst = Some n).

Definition installed (d : Disk) : Prop :=
  d !! tmp = None ∧ (∃ n, new_file n ∧ d !! dst = Some n) ∧ ∀ p, p ≠ dst → p ≠ tmp → d !! p = d0 !! p.

(** In a calm environment: why there is no installation. *)
Definition obstacle : Prop := no_source (delete tmp d0) src ∨ d0 !! dst = Some Directory.

Definition replaced (calm : Prop) (o : outcome unit) (s' : Os) : Prop :=
  always moment s' ∧
  match o with
  | Ok _ => installed (os_disk s')
  | Err _ => others_kept tmp d0 (os_disk s') ∧ (calm → obstacle)
  | _ => False
  end.

Lemma work_moment s : work tmp d0 s → always moment s.
Proof.
  intros H. eapply Forall_impl; [exact H|]. intros d Hd. split; [by auto|].
  left. apply Hd, not_eq_sym, dst_tmp_ne.
Qed.

Lemma rename_spec s (calm0 : Prop) perm c :
  work tmp d0 s → os_umask s = umask → (calm0 → calm s) → source_file d0 src perm c →
  os_disk s !! tmp = Some (Regular (Z.ldiff perm umask) c) →
  wp (os_Rename tmp dst) (replaced calm0) s.
Proof.
  intros Hw Hu Hc Hsrc Htmp. apply (part_syscall tmp d0); [done| |].
  { intros e s1 Hd (Hw1 & _ & _ & Hx). split; [by apply work_moment|].
    split; [by apply always_now in Hw1|]. intros E. by destruct Hx; auto. }
  intros s1 Hd Hw1 Hu1 Hc1. apply wp_bind, wp_gets. cbn [kont]. rewrite Hd, Htmp. cbn [of_option].
  apply wp_bind, wp_ret. cbn [kont]. pose proof (always_now _ _ Hw1) as Hk. cbv beta in Hk.
  assert (os_disk s !! dst = d0 !! dst) as Hdst by (rewrite <- Hd; apply Hk, not_eq_sym, dst_tmp_ne).
  set (n := Regular _ c) in *.
  assert (wp (change (λ d, <[dst := n]> (delete tmp d))) (replaced calm0) s1) as Hgo.
  { assert (new_file n) as Hn by by exists perm, c.
    apply (change_spec moment). intros s2 Hd2 Ha _ _.
    assert (∀ p, p ≠ dst → p ≠ tmp → os_disk s2 !! p = d0 !! p) as Ho.
    { intros p Hp Hp'. rewrite Hd2, lookup_insert_ne, lookup_delete_ne by done. by apply Hk. }
    assert (os_disk s2 !! dst = Some n) as Hin by by rewrite Hd2, lookup_insert_eq.
    split; [|split_and!; [|by exists n|done]].
    - apply Ha; [by apply work_moment|]. rewrite <- Hd2. split; [done|]. right. by exists n.
    - rewrite Hd2, lookup_insert_ne by apply not_eq_sym, dst_tmp_ne. by rewrite lookup_delete_eq. }
  destruct (os_disk s !! dst) as [[]|] eqn:He; try exact Hgo.
  apply wp_throw. split; [by apply work_moment|]. split; [done|]. intros _. right. congruence.
Qed.

Lemma remove_stale_spec s (calm0 : Prop) :
  work tmp d0 s → (calm0 → calm s) → os_umask s = umask → os_disk s = d0 →
  wp (remove_stale tmp)
     (part tmp d0 s False (λ _ s', os_disk s' = delete tmp d0)) s.
Proof.
  intros Hw Hc Hu Hd. unfold remove_stale. apply wp_bind, wp_attempt, (part_syscall tmp d0); [done| |].
  { intros e s1 Hd1 H. cbn [kont]. rewrite io_error_Is. apply wp_throw. by eapply part_err. }
  intros s1 Hd1 Hw1 Hu1 Hc1. apply wp_bind, wp_gets. cbn [kont]. rewrite Hd1, Hd.
  destruct (d0 !! tmp) as [n|] eqn:Ht; cbn [of_option].
  - apply wp_bind, wp_ret. cbn [kont]. apply (part_change tmp d0); [done| |].
    { apply others_kept_delete. by apply always_now in Hw1. }
    intros s2 Hd2 H. cbn [kont]. apply wp_ret.
    eapply part_later; [eapply part_mono; [exact H|done|]|congruence|by auto|done].
    intros ? _. by rewrite Hd2, Hd1, Hd.
  - apply wp_bind, wp_throw. cbn. apply wp_ret. split_and!; try done.
    by rewrite Hd1, Hd, delete_id.
Qed.

Lemma copyFile_spec s (calm0 : Prop) :
  work tmp d0 s → (calm0 → calm s) → os_umask s = umask → os_disk s = d0 →
  wp (copyFile src dst) (replaced calm0) s.
Proof.
  intros Hw Hc Hu Hd. unfold copyFile. apply wp_bind.
  eapply wp_mono; [by apply (remove_stale_spec s calm0)|].
  intros [[]|e|w|] s1 (Hw1 & Hu1 & Hc1 & H1); cbn [kont]; try done; cycle 1.
  { split; [by apply work_moment|]. split; [by apply always_now in Hw1|]. intros E. destruct H1; auto. }
  apply wp_bind. eapply wp_mono; [by apply (cp_spec tmp d0)|].
  intros [[]|e|w|] s2 (Hw2 & Hu2 & Hc2 & H2); cbn [kont]; try done; cycle 1.
  { split; [by apply work_moment|]. split; [by apply always_now in Hw2|]. intros E.
    rewrite H1, lookup_delete_eq in H2.
    destruct H2 as [H2|[]]; [by auto|by left|done]. }
  apply wp_with_wrap. destruct H2 as (perm & c & Hsrc & Htmp).
  assert (source_file d0 src perm c) as Hsrc0.
  { rewrite H1 in Hsrc. exact (stat_delete _ _ _ _ Hsrc). }
  assert (os_umask s1 = umask) as Hum by congruence. rewrite Hum in Htmp.
  eapply wp_mono; [apply (rename_spec s2 calm0 perm c); [done|congruence|by auto|exact Hsrc0|exact Htmp]|].
  by intros [] s3 H.
Qed.
End install.

(** ** A run of the installer *)

Section run_props.
Variable run_version : list Z → error + string.
#[local] Abbreviation src := cniBinarySourcePath.
#[local] Abbreviation tgt := cniBinaryTargetPath.
#[local] Abbreviation tmp := (dst_tmp cniBinaryTargetPath).

(** The two files report the same version. *)
Definition same_version (d : Disk) : Prop :=
  ∃ v w, exec_result run_version d src = inr v ∧ exec_result run_version d tgt = inr w ∧
    TrimSpace v = TrimSpace w.

(** What a run leaves: nothing is done when the versions agree, or when a file is
    there and may not be replaced; otherwise the new file is installed; and a
    failure only touches the temporary file. *)
Definition run_outcome (overwrite : option string) (s : Os) (o : outcome unit) (s' : Os) : Prop :=
  match o with
  | Ok _ =>
      os_disk s' = os_disk s ∧
        (same_version (os_disk s) ∨ cniInitModeFromEnv overwrite = inr false ∧ os_disk s !! tgt ≠ None) ∨
      installed src tgt (os_disk s) (os_umask s) (os_disk s') ∧ ¬ same_version (os_disk s) ∧
        (cniInitModeFromEnv overwrite = inr true ∨
         cniInitModeFromEnv overwrite = inr false ∧ os_disk s !! tgt = None)
  | Err _ => others_kept tmp (os_disk s) (os_disk s')
  | _ => False
  end.

(** The reasons for a failure in a calm environment. *)
Definition run_obstacle (overwrite : option string) (d : Disk) : Prop :=
  (∃ e, exec_result run_version d src = inl e) ∨
  (∃ e, exec_result run_version d tgt = inl e ∧ errors_Is e ErrNotExist = false) ∨
  (∃ e, cniInitModeFromEnv overwrite = inl e) ∨
  obstacle src tgt d.

Definition run_post (overwrite : option string) (s : Os) (o : outcome unit) (s' : Os) : Prop :=
  always (moment src tgt (os_disk s) (os_umask s)) s' ∧ run_outcome overwrite s o s' ∧
  (calm s → match o with Err _ => run_obstacle overwrite (os_disk s) | _ => True end).

(** A moment of the run before it changes anything. *)
Definition idle (s s' : Os) : Prop :=
  os_disk s' = os_disk s ∧ work tmp (os_disk s) s' ∧ os_umask s' = os_umask s ∧ (calm s → calm s').

Lemma idle_start s : os_trace s = [] → idle s s.
Proof. intros Ht. split_and!; try done. unfold work, always. rewrite Ht. by repeat constructor. Qed.

Lemma idle_call {A} s s1 (m : M Os A) (Q : outcome A → Os → Prop) :
  idle s s1 →
  (∀ e s2, idle s s2 → ¬ calm s → Q (Err (io_error e)) s2) → (∀ s2, idle s s2 → wp m Q s2) →
  wp (syscall m) Q s1.
Proof.
  intros (Hd & Hw & Hu & Hc) Hf Hm. apply (part_syscall tmp (os_disk s)); [done| |].
  - intros e s2 Hd2 (Hw2 & Hu2 & Hc2 & He). apply Hf; [split_and!; [congruence|done|congruence|auto]|].
    intros E. destruct He; auto.
  - intros s2 Hd2 Hw2 Hu2 Hc2. apply Hm. split_and!; [congruence|done|congruence|auto].
Qed.

Lemma exec_version_spec s s1 path (Q : outcome string → Os → Prop) :
  idle s s1 → (∀ e s2, idle s s2 → ¬ calm s → Q (Err (io_error e)) s2) →
  (∀ v s2, idle s s2 → exec_result run_version (os_disk s) path = inr v → Q (Ok v) s2) →
  (∀ e s2, idle s s2 → exec_result run_version (os_disk s) path = inl e → Q (Err e) s2) →
  wp (exec_version run_version path) Q s1.
Proof.
  intros Hi Hf Hok Herr. apply (idle_call s); [done..|]. intros s2 Hi2. apply wp_bind, wp_gets.
  cbn [kont]. assert (os_disk s2 = os_disk s) as -> by apply Hi2.
  destruct (exec_result run_version (os_disk s) path) eqn:He; cbn [of_sum]; [apply wp_throw|apply wp_ret]; eauto.
Qed.

Lemma idle_fail overwrite s s' e :
  idle s s' → (calm s → run_obstacle overwrite (os_disk s)) → run_post overwrite s (Err e) s'.
Proof.
  intros (Hd & Hw & Hu & _) Hb. split_and!; [by apply work_moment|cbn [run_outcome]; by rewrite Hd|done].
Qed.

Lemma idle_done overwrite s s' :
  idle s s' →
  same_version (os_disk s) ∨ cniInitModeFromEnv overwrite = inr false ∧ os_disk s !! tgt ≠ None →
  run_post overwrite s (Ok tt) s'.
Proof.
  intros (Hd & Hw & Hu & _) Hr. split_and!; [by apply work_moment|by left|done].
Qed.

Lemma copyCNIBinary_spec overwrite s s1 :
  idle s s1 → ¬ same_version (os_disk s) →
  (cniInitModeFromEnv overwrite = inr true ∨
   cniInitModeFromEnv overwrite = inr false ∧ os_disk s !! tgt = None) →
  wp (copyCNIBinary src tgt) (run_post overwrite s) s1.
Proof.
  intros (Hd & Hw & Hu & Hc) Hns Hm. unfold copyCNIBinary. apply wp_with_wrap.
  eapply wp_mono; [apply (copyFile_spec src tgt (os_disk s) (os_umask s) s1 (calm s)); done|].
  intros [[]|e|w|] s2 [Hal H]; try done.
  - split_and!; [done| |done]. right. done.
  - split_and!; [done|by apply H|]. intros E. right; right; right. by apply H.
Qed.

Lemma run_spec overwrite s :
  os_trace s = [] → wp (run run_version overwrite) (run_post overwrite s) s.
Proof.
  intros Ht. unfold run, checksame. apply wp_bind, wp_bind, wp_with_wrap.
  eapply exec_version_spec; [by apply idle_start|by intros; apply idle_fail| |].
  2:{ intros e s1 Hi He. cbn [kont]. apply idle_fail; [done|]. intros _. left. by exists e. }
  intros v s1 Hi Hv. cbn [kont]. apply wp_bind, wp_attempt.
  assert (∀ s2, idle s s2 → ¬ same_version (os_disk s) →
    wp (needReplace ← of_sum (cniInitModeFromEnv overwrite);
        if (needReplace : bool) then copyCNIBinary src tgt else installCNIBinaryIfMissing src tgt)
       (run_post overwrite s) s2) as Hinst.
  { intros s2 Hi2 Hns. apply wp_bind. destruct (cniInitModeFromEnv overwrite) as [e|b] eqn:Hm; cbn [of_sum].
    { apply wp_throw. cbn [kont]. apply idle_fail; [done|]. intros _. right; right; left. by exists e. }
    apply wp_ret. cbn [kont]. destruct b; [apply copyCNIBinary_spec; auto|].
    unfold installCNIBinaryIfMissing. apply wp_bind, wp_attempt, (idle_call s); [done| |].
    { intros e s3 Hi3 Hnc. cbn [kont]. rewrite io_error_Is. apply wp_throw. by apply idle_fail. }
    intros s3 Hi3. apply wp_bind, wp_gets. cbn [kont]. assert (os_disk s3 = os_disk s) as -> by apply Hi3.
    destruct (os_disk s !! tgt) eqn:Htgt; cbn [of_option].
    - apply wp_ret. cbn [kont]. apply wp_ret, idle_done; [done|]. right. split; [done|]. by rewrite Htgt.
    - apply wp_throw. cbn [kont]. apply copyCNIBinary_spec; [done..|]. by right. }
  eapply exec_version_spec; [exact Hi| | |].
  - intros e s2 Hi2 Hnc. cbn [kont]. rewrite io_error_Is. apply wp_throw. cbn [kont]. by apply idle_fail.
  - intros w s2 Hi2 Hw. cbn [kont]. apply wp_ret. cbn [kont].
    destruct (String.eqb_spec (TrimSpace v) (TrimSpace w)) as [E|E].
    + apply wp_ret, idle_done; [done|]. left. by exists v, w.
    + apply Hinst; [done|]. intros (v' & w' & H1 & H2 & H3). congruence.
  - intros e s2 Hi2 He. cbn [kont]. destruct (errors_Is e ErrNotExist) eqn:Hne.
    + apply wp_ret. cbn [kont]. apply Hinst; [done|]. intros (v' & w' & _ & H2 & _). congruence.
    + apply wp_throw. cbn [kont]. apply idle_fail; [done|]. intros _. right; left. by exists e.
Qed.

(** A regular file that can be executed and says its version. *)
Definition runs (n : inode) (v : string) : Prop :=
  ∃ perm c, n = Regular perm c ∧ Z.land perm 73 ≠ 0 ∧ run_version c = inr v.

Lemma exec_result_runs d p n v : d !! p = Some n → runs n v → exec_result run_version d p = inr v.
Proof.
  intros Hd (perm & c & -> & Hx & Hv). unfold exec_result, stat.
  rewrite (follow_here _ _ _ _ Hd) by done. by rewrite (proj2 (Z.eqb_neq _ _) Hx).
Qed.
Lemma exec_result_missing d p : d !! p = None → exec_result run_version d p = inl ErrNotExist.
Proof. intros Hd. unfold exec_result, stat. by rewrite follow_missing. Qed.

(** A node on which the installation can succeed: the binary of the image runs, also
    with the permissions it will get, and a binary that is installed runs. *)
Definition good_node (umask : Z) (v : string) (d : Disk) : Prop :=
  (∃ perm c, d !! src = Some (Regular perm c) ∧ Z.land (Z.ldiff perm umask) 73 ≠ 0 ∧
             runs (Regular perm c) v) ∧
  (d !! tgt = None ∨ ∃ n w, d !! tgt = Some n ∧ runs n w).

Lemma good_node_source umask v d perm c :
  good_node umask v d → source_file d src perm c → runs (Regular (Z.ldiff perm umask) c) v.
Proof.
  intros [(p' & c' & Hd & Hx & (p2 & c2 & E & _ & Hv)) _] Hsrc. unfold source_file, stat in Hsrc.
  rewrite (follow_here _ _ _ _ Hd) in Hsrc by done. injection E as -> ->. injection Hsrc as -> ->.
  by eexists _, _.
Qed.

Lemma good_node_moment umask v d0 d :
  good_node umask v d0 → moment src tgt d0 umask d → good_node umask v d.
Proof.
  intros Hg [Ho Ht]. pose proof Hg as [(perm & c & Hd & H) Htgt]. split.
  - exists perm, c. rewrite (Ho src) by done. done.
  - destruct Ht as [->|(n & (p' & c' & Hs & ->) & ->)]; [done|].
    right. eexists _, v. split; [done|]. by eapply good_node_source.
Qed.

Lemma good_node_runs overwrite umask v s :
  good_node umask v (os_disk s) → os_umask s = umask → calm s → os_trace s = [] →
  cniInitModeFromEnv overwrite = inr true →
  wp (run run_version overwrite) (λ o s', o = Ok tt ∧ same_version (os_disk s')) s.
Proof.
  intros Hg Hu Hcalm Htr Hm. eapply wp_mono; [by apply run_spec|].
  pose proof Hg as [(perm & c & Hd & Hx & Hr) Htgt]. pose proof (exec_result_runs _ _ _ _ Hd Hr) as Hev.
  intros [[]|e|w|] s1 (_ & Ho & Hc); [| |done..]; cbn [run_outcome] in Ho.
  - split; [done|]. destruct Ho as [[-> [Hs|[E _]]]|[(_ & (n & Hn & Hin) & Hk) _]]; [done|congruence|].
    exists v, v. split_and!; [|eapply exec_result_runs; [done|]|done].
    + eapply exec_result_runs; [|exact Hr]. by rewrite Hk.
    + destruct Hn as (p' & c' & Hs & ->). rewrite Hu. by eapply good_node_source.
  - specialize (Hc Hcalm). destruct Hc as [(e' & E)|[(e' & E & Hne)|[(e' & E)|[Hno|Hdir]]]];
      [congruence| |congruence| |].
    + destruct Htgt as [Hn|(n & w & Hn & Hrun)].
      * rewrite (exec_result_missing _ _ Hn) in E. by injection E as <-.
      * rewrite (exec_result_runs _ _ _ _ Hn Hrun) in E. done.
    + destruct Hno. exists perm, c. unfold source_file, stat.
      rewrite (follow_here _ _ _ (Regular perm c)); [done| |done]. by rewrite lookup_delete_ne.
    + destruct Htgt as [Hn|(n & w & Hn & (?&?&->&_))]; congruence.
Qed.

(** C26: An installation is atomic: at every moment of a run, whatever fails in it, the
    installed binary is the one that was there or the complete binary of the image with
    its permissions, and nothing but this file and its temporary neighbour is touched. A
    run that ends with an error has not changed the installed binary; one that ends well
    has replaced it, or has left everything because the versions agree or because a file
    is there that may not be overwritten. *)
Theorem run_atomic overwrite s :
  os_trace s = [] →
  wp (run run_version overwrite) (λ o s',
    always (moment src tgt (os_disk s) (os_umask s)) s' ∧ run_outcome overwrite s o s') s.
Proof. intros Ht. eapply wp_mono; [by apply run_spec|]. by intros o s' (H1 & H2 & _). Qed.

(** C27: A run that was cut off at any moment, or that failed, does not stand in the way
    of a later one: from whatever it left, a run with overwriting in which no call fails
    ends well, and the installed binary then reports the version of the image. *)
Theorem run_converges overwrite overwrite' v s d :
  os_trace s = [] → good_node (os_umask s) v (os_disk s) →
  d ∈ os_disk (run run_version overwrite s).2 :: os_trace (run run_version overwrite s).2 →
  cniInitModeFromEnv overwrite' = inr true →
  wp (run run_version overwrite') (λ o s', o = Ok tt ∧ same_version (os_disk s'))
     (mkOs d [] [] (os_umask s)).
Proof.
  intros Ht Hg Hd Hm. pose proof (run_spec overwrite s Ht) as (Hal & _ & _).
  unfold always in Hal. rewrite Forall_forall in Hal. specialize (Hal d Hd).
  by eapply (good_node_runs _ _ v); [eapply good_node_moment| | | |].
Qed.

(** The installed binary is asked for its version before the mode is looked at: one
    that does not start is not replaced in any mode. *)
Theorem broken_target_stays overwrite s e :
  os_trace s = [] → exec_result run_version (os_disk s) tgt = inl e → errors_Is e ErrNotExist = false →
  wp (run run_version overwrite) (λ o s', (∃ e', o = Err e') ∧ os_disk s' = os_disk s) s.
Proof.
  intros Ht He Hne. unfold run, checksame. apply wp_bind, wp_bind, wp_with_wrap.
  eapply exec_version_spec; [by apply idle_start| | |].
  - intros e' s1 Hi _. cbn [kont]. split; [by eexists|apply Hi].
  - intros v s1 Hi Hv. cbn [kont]. apply wp_bind, wp_attempt. eapply exec_version_spec; [exact Hi| | |].
    + intros e' s2 Hi2 _. cbn [kont]. rewrite io_error_Is. apply wp_throw. split; [by eexists|apply Hi2].
    + intros w s2 _ Hw. congruence.
    + intros e' s2 Hi2 He'. cbn [kont]. assert (e' = e) as -> by congruence. rewrite Hne.
      apply wp_throw. split; [by eexists|apply Hi2].
  - intros e' s1 Hi _. cbn [kont]. split; [by eexists|apply Hi].
Qed.
End run_props.

(** ** A node *)

(** Binaries of one byte: 1 and 2 report their number, others do not start. *)
Definition demo_run_version (c : list Z) : error + string :=
  match c with
  | [1] => inr "ucloud-uk8s-cnivpc version 1.0.0"
  | [2; 7] => inr "ucloud-uk8s-cnivpc version 2.0.0"
  | _ => inl (ExtErr "exec format error")
  end.
Definition demo_disk : Disk :=
  {[ cniBinarySourcePath := Regular 493 [2; 7]; cniBinaryTargetPath := Regular 493 [1];
     dst_tmp cniBinaryTargetPath := Regular 384 [2] ]}.
(** The write of the second byte fails: the seventh call, after one byte. *)
Definition full_disk : list sysev := replicate 6 (mkEv None 0) ++ [mkEv None 0; mkEv (Some "ENOSPC") 0].
Definition demo_os (env : list sysev) : Os := mkOs demo_disk [] env 18.

Example install_full_disk :
  let '(o, s) := run demo_run_version (Some " TRUE ") (demo_os full_disk) in
  (∃ e, o = Err e) ∧ os_disk s !! cniBinaryTargetPath = Some (Regular 493 [1]) ∧
  os_disk s !! dst_tmp cniBinaryTargetPath = Some (Regular 493 [2]).
Proof. vm_compute. split_and!; [by eexists|done..]. Qed.
Example install_calm :
  let '(o, s) := run demo_run_version (Some "true") (demo_os []) in
  o = Ok tt ∧ os_disk s !! cniBinaryTargetPath = Some (Regular 493 [2; 7]) ∧
  os_disk s !! dst_tmp cniBinaryTargetPath = None.
Proof. vm_compute. done. Qed.

Lemma run_atomic_witness :
  let s := demo_os full_disk in
  os_trace s = [] ∧
  wp (run demo_run_version (Some "true")) (λ o s',
    always (moment cniBinarySourcePath cniBinaryTargetPath (os_disk s) (os_umask s)) s' ∧
    run_outcome demo_run_version (Some "true") s o s') s.
Proof. split; [done|]. by apply run_atomic. Defined.

Lemma demo_good : good_node demo_run_version 18 "ucloud-uk8s-cnivpc version 2.0.0" demo_disk.
Proof.
  split.
  - exists 493, [2; 7]. split_and!; [done|done|]. by exists 493, [2; 7].
  - right. exists (Regular 493 [1]), "ucloud-uk8s-cnivpc version 1.0.0". split; [done|]. by exists 493, [1].
Qed.

Lemma run_converges_witness :
  let s := demo_os full_disk in
  let s1 := (run demo_run_version (Some "true") s).2 in
  wp (run demo_run_version (Some "true"))
     (λ o s', o = Ok tt ∧ same_version demo_run_version (os_disk s')) (mkOs (os_disk s1) [] [] 18).
Proof.
  intros s s1. apply (run_converges demo_run_version (Some "true") (Some "true") "ucloud-uk8s-cnivpc version 2.0.0" s).
  - done.
  - apply demo_good.
  - by left.
  - done.
Defined.

Lemma broken_target_stays_witness :
  let s := mkOs (<[cniBinaryTargetPath := Regular 493 [9]]> demo_disk) [] [] 18 in
  wp (run demo_run_version (Some "true")) (λ o s', (∃ e', o = Err e') ∧ os_disk s' = os_disk s) s.
Proof.
  intros s. apply (broken_target_stays demo_run_version (Some "true") s (ExtErr "exec format error")); done.
Defined.
