(* ===== verification/DevicePlugin.v ===== *)
(** The device plugin that announces network interfaces to the kubelet
    ([pkg/deviceplugin/deviceplugin.go]): its server, its socket among the sockets of
    other plugins, and the watch that starts it again after the kubelet.

    [dp_registered] is what the kubelet was told, the latest first; the environment of
    [OsFs] decides which calls fail.  A fatal log line ends the process, a panic. *)
From S2P Require Export OsFs.
From Stdlib Require Import Ascii.

(** ** Definitions *)

(** Of the package [pluginapi]. *)
Definition DevicePluginPath : string := "/var/lib/kubelet/device-plugins/".
Definition KubeletSocket : string := DevicePluginPath +:+ "kubelet.sock".
Definition pluginapi_Version : string := "v1beta1".
Definition Healthy : string := "Healthy".
Record RegisterRequest : Type := { rq_Version : string; rq_Endpoint : string; rq_ResourceName : string }.
Record Device : Type := { dev_ID : string; dev_Health : string }.

Definition ResourceName : string := "ucloud.cn/uni".

(** [server]: whether there is a gRPC server; [stop]: [None] for the nil channel,
    otherwise whether the channel is closed. *)
Record UNIDevicePlugin : Type := mkPlugin {
  socket : string; server : bool; count : Z; stop : option bool
}.

Record Dp : Type := mkDp { dp_m : UNIDevicePlugin; dp_os : Os; dp_registered : list RegisterRequest }.

Definition on_os {A} (m : M Os A) : M Dp A := zoom dp_os (λ o s, mkDp (dp_m s) o (dp_registered s)) m.
Definition set_m (f : UNIDevicePlugin → UNIDevicePlugin) : M Dp unit :=
  modify (λ s, mkDp (f (dp_m s)) (dp_os s) (dp_registered s)).
Definition set_server (b : bool) (p : UNIDevicePlugin) := mkPlugin (socket p) b (count p) (stop p).
Definition set_stop (c : option bool) (p : UNIDevicePlugin) := mkPlugin (socket p) (server p) (count p) c.

(** [now] is [time.Now().Unix()]. *)
Definition NewUNIDevicePlugin (now count : Z) : UNIDevicePlugin :=
  mkPlugin (DevicePluginPath +:+ Itoa now +:+ "-uni.sock") false count None.

(** [close(m.stop)]. *)
Definition close_stop : M Dp unit :=
  p ← gets dp_m;
  match stop p with
  | None => panic "close of nil channel"
  | Some true => panic "close of closed channel"
  | Some false => set_m (set_stop (Some true))
  end.

(** [m.server.Stop()]: closing its listener unlinks the socket, whatever file that
    is by now. *)
Definition unlink (p : string) (d : Disk) : Disk :=
  match d !! p with Some Directory => d | _ => delete p d end.
Definition server_Stop : M Dp unit := p ← gets dp_m; on_os (change (unlink (socket p))).

(** The entries of a directory, by name. *)
Definition entry_in (dir : string) (pn : string * inode) : option (string * inode) :=
  if HasPrefix pn.1 dir then
    let name := TrimPrefix pn.1 dir in
    if String.eqb name "" || str_elem "/"%char name then None else Some (name, pn.2)
  else None.
Definition entry_le (a b : string * inode) : Prop := Is_true (String.leb a.1 b.1).
Definition dir_entries (dir : string) (d : Disk) : list (string * inode) :=
  merge_sort entry_le (omap (entry_in dir) (map_to_list d)).

(** [uniServerSockRegex], [^.*-uni.sock]: a dot is any byte but a newline. *)
Definition newline_char : ascii := "010"%char.
Definition match_here (s : string) : bool :=
  HasPrefix s "-uni" &&
  match str_drop 4 s with
  | String c r => negb (Ascii.eqb c newline_char) && HasPrefix r "sock"
  | EmptyString => false
  end.
Fixpoint uniServerSockRegex (s : string) : bool :=
  match_here s ||
  match s with
  | String c s' => negb (Ascii.eqb c newline_char) && uniServerSockRegex s'
  | EmptyString => false
  end.

(** A failure to unlink is only logged. *)
Definition cleanup_one (pre : string * inode) : M Os unit :=
  if uniServerSockRegex pre.1 && bool_decide (pre.2 = Socket)
  then ignore (os_Remove (DevicePluginPath +:+ pre.1)) else mret tt.
Definition cleanup : M Os unit :=
  preSocks ← syscall (d ← gets os_disk; mret (dir_entries DevicePluginPath d));
  for_range preSocks cleanup_one.

(** [net.Listen("unix", p)] and a connection to the server that listens there. *)
Definition net_Listen (p : string) : M Os unit :=
  syscall (d ← gets os_disk;
           match d !! p with
           | Some _ => throw (ExtErr "address already in use")
           | None => change (insert p Socket)
           end).
Definition dial (p : string) : M Os unit :=
  syscall (d ← gets os_disk; n ← of_sum (stat d p);
           match n with Socket => mret tt | _ => throw (ExtErr "connection refused") end).

Definition Start : M Dp unit :=
  p ← gets dp_m;
  (if server p then close_stop;; server_Stop else mret tt);;
  on_os cleanup;;
  on_os (net_Listen (socket p));;
  set_m (set_server true);;
  set_m (set_stop (Some false));;
  on_os (dial (socket p)).

Definition Stop : M Dp unit :=
  p ← gets dp_m;
  if server p then
    server_Stop;;
    set_m (set_server false);;
    close_stop;;
    on_os cleanup
  else mret tt.

(** The kubelet accepts the request unless the environment lets the call fail. *)
Definition Register (request : RegisterRequest) : M Dp unit :=
  on_os (dial KubeletSocket);;
  on_os (syscall (mret tt));;
  modify (λ s, mkDp (dp_m s) (dp_os s) (request :: dp_registered s)).

(** [path.Base] of a path that does not end in a slash. *)
Fixpoint path_Base (s : string) : string :=
  match s with
  | EmptyString => EmptyString
  | String c s' => if str_elem "/"%char s then path_Base s' else s
  end.

Definition request_of (p : UNIDevicePlugin) (resourceName : string) : RegisterRequest :=
  {| rq_Version := pluginapi_Version; rq_Endpoint := path_Base (socket p); rq_ResourceName := resourceName |}.

Definition fatal {A} : M Dp A := panic "os.Exit(1)".
(** An error is fatal. *)
Definition or_fatal {A} (m : M Dp A) : M Dp A :=
  r ← attempt m; match r with inl _ => fatal | inr a => mret a end.

(** One round of [watchKubeletRestart]. *)
Definition watchKubeletRestart : M Dp unit :=
  p ← gets dp_m;
  r ← attempt (on_os (os_Stat (socket p)));
  match r with
  | inr _ => mret tt
  | inl err =>
      if errors_Is err ErrNotExist then
        ignore Stop;;
        or_fatal Start;;
        or_fatal (Register (request_of p ResourceName))
      else fatal
  end.

Definition Serve (resourceName : string) : M Dp unit :=
  Start;;
  p ← gets dp_m;
  r ← attempt (Register (request_of p resourceName));
  match r with
  | inl err => ignore Stop;; throw err
  | inr _ => mret tt
  end.

(** [startDevicePlugin] of pkg/ipamd/resource.go, on a node with [limit] interfaces. *)
Definition startDevicePlugin (now limit : Z) : M Dp unit :=
  set_m (λ _, NewUNIDevicePlugin now limit);;
  with_msg "failed to set deviceplugin on node" (Serve ResourceName).

(** *** The calls of the kubelet *)

Definition devices (count : Z) : list Device :=
  (λ i, {| dev_ID := "uni-" +:+ Itoa i; dev_Health := Healthy |}) <$> seqZ 0 count.

(** What a [select] of [ListAndWatch] sees: a tick, or the closed channel. *)
Inductive watch_event : Type := Tick | Stopped.

(** The responses that are sent, and whether the call has returned; the error of a
    send is only logged. *)
Fixpoint watch_loop (devs : list Device) (events : list watch_event) : list (list Device) * bool :=
  match events with
  | [] => ([], false)
  | Tick :: events' => let '(sent, fin) := watch_loop devs events' in (devs :: sent, fin)
  | Stopped :: _ => ([], true)
  end.
Definition ListAndWatch (p : UNIDevicePlugin) (events : list watch_event) : list (list Device) * bool :=
  let devs := devices (count p) in
  let '(sent, fin) := watch_loop devs events in (devs :: sent, fin).

(** One empty response for each container. *)
Definition Allocate {R} (containerRequests : list R) : list unit := (λ _, tt) <$> containerRequests.

(** ** The directory of the sockets *)

Lemma elem_dir_entries dir d name n :
  (name, n) ∈ dir_entries dir d ↔ d !! (dir +:+ name) = Some n ∧ name ≠ "" ∧ str_elem "/"%char name = false.
Proof.
  unfold dir_entries. rewrite (merge_sort_Permutation entry_le), list_elem_of_omap.
  split.
  - intros ([p n'] & Hin & He). apply elem_of_map_to_list in Hin. unfold entry_in in He. simpl in He.
    destruct (HasPrefix p dir) eqn:Hp; [|done]. apply HasPrefix_spec in Hp as [r ->].
    rewrite TrimPrefix_app in He. destruct (String.eqb_spec r ""); [done|]. simpl in He.
    destruct (str_elem _ r) eqn:Hs; [done|]. injection He as <- <-. done.
  - intros (Hd & Hne & Hs). exists (dir +:+ name, n). rewrite elem_of_map_to_list. split; [done|].
    unfold entry_in. simpl. rewrite HasPrefix_app, TrimPrefix_app, Hs.
    by destruct (String.eqb_spec name "").
Qed.

(** A socket that the plugin takes for one of its own. *)
Definition uni_socket (d : Disk) (p : string) : Prop :=
  ∃ name, p = DevicePluginPath +:+ name ∧ d !! p = Some Socket ∧ name ≠ "" ∧
    str_elem "/"%char name = false ∧ uniServerSockRegex name = true.

(** Nothing is touched but such sockets, which go, and the file at [sock],
    if any. *)
Definition sockets_only (sock : option string) (d d' : Disk) : Prop :=
  ∀ p, Some p ≠ sock → d' !! p = d !! p ∨ d' !! p = None ∧ uni_socket d p.

Lemma sockets_only_refl sock d : sockets_only sock d d.
Proof. intros p _. by left. Qed.
Lemma sockets_only_trans sock d1 d2 d3 :
  sockets_only sock d1 d2 → sockets_only sock d2 d3 → sockets_only sock d1 d3.
Proof.
  intros H1 H2 p Hp. destruct (H1 p Hp) as [E1|[E1 U1]], (H2 p Hp) as [E2|[E2 U2]].
  - left. congruence.
  - right. split; [done|]. destruct U2 as (name & ? & ? & ?). exists name. rewrite <- E1. done.
  - right. split; [congruence|done].
  - right. done.
Qed.
Lemma sockets_only_at sock d d' : (∀ p, p ≠ sock → d' !! p = d !! p) → sockets_only (Some sock) d d'.
Proof. intros H p Hp. left. apply H. congruence. Qed.
Lemma sockets_only_weaken sock d d' : sockets_only None d d' → sockets_only sock d d'.
Proof. intros H p _. by apply H. Qed.
Lemma sockets_only_unlink sock d : sockets_only (Some sock) d (unlink sock d).
Proof.
  apply sockets_only_at. intros p Hp. unfold unlink.
  destruct (d !! sock) as [[]|]; rewrite ?lookup_delete_ne by done; done.
Qed.

(** The calm of the environment is kept. *)
Definition calm (s : Os) : Prop := os_env s = [].

(** The removal of one of the entries that were listed in [d0]. *)
Lemma cleanup_one_spec d0 name n s :
  d0 !! (DevicePluginPath +:+ name) = Some n → name ≠ "" → str_elem "/"%char name = false →
  sockets_only None d0 (os_disk s) →
  wp (cleanup_one (name, n)) (λ o s', o = Ok tt ∧ sockets_only None d0 (os_disk s') ∧
    (calm s → calm s' ∧
      (∀ p, os_disk s !! p = None → os_disk s' !! p = None) ∧
      (n = Socket → uniServerSockRegex name = true → os_disk s' !! (DevicePluginPath +:+ name) = None))) s.
Proof.
  intros Hd Hne Hsl Hso. unfold cleanup_one. cbn [fst snd].
  destruct (uniServerSockRegex name) eqn:Hre; cbn [andb].
  2:{ by apply wp_ret. }
  case_bool_decide as Hn; cycle 1.
  { by apply wp_ret. }
  unfold ignore. apply wp_bind, wp_attempt, syscall_spec.
  { intros e s' Hc (Hd' & _). cbn [kont]. apply wp_ret. rewrite Hd'. split_and!; try done. }
  intros s1 (Hd1 & _) Hc1. apply wp_bind, wp_gets. cbn [kont]. rewrite Hd1.
  set (p := DevicePluginPath +:+ name) in *.
  destruct (os_disk s !! p) as [n'|] eqn:Hp; cbn [of_option].
  - apply wp_bind, wp_ret. cbn [kont]. apply (change_spec (λ _, True)). intros s2 Hd2 _ Hc2 _.
    cbn [kont]. apply wp_ret. rewrite Hd2, Hd1. split_and!; [done| |].
    + intros q Hq. destruct (decide (q = p)) as [->|Hqp].
      * right. rewrite lookup_delete_eq. split; [done|]. exists name. by rewrite Hd, Hn.
      * rewrite lookup_delete_ne by done. by apply Hso.
    + intros Hc. split_and!; [unfold calm; auto| |intros _ _; apply lookup_delete_eq].
      intros q Hq. destruct (decide (q = p)) as [->|]; [apply lookup_delete_eq|by rewrite lookup_delete_ne].
  - apply wp_bind, wp_throw. cbn. apply wp_ret. rewrite Hd1. split_and!; try done.
    intros Hc. split_and!; [unfold calm; auto|done|done].
Qed.

Definition no_uni_socket (d : Disk) : Prop := ∀ p, ¬ uni_socket d p.

Definition cleaned (s : Os) (o : outcome unit) (s' : Os) : Prop :=
  sockets_only None (os_disk s) (os_disk s') ∧ (calm s → calm s') ∧
  match o with
  | Ok _ => calm s → no_uni_socket (os_disk s')
  | Err _ => ¬ calm s
  | _ => False
  end.

Lemma cleanup_spec s : wp cleanup (cleaned s) s.
Proof.
  unfold cleanup. apply wp_bind, syscall_spec.
  { intros e s' Hc (Hd & _). cbn [kont]. split_and!; [rewrite Hd; apply sockets_only_refl|done|done]. }
  intros s1 (Hd1 & _) Hc1. apply wp_bind, wp_gets. cbn [kont]. apply wp_ret. cbn [kont]. rewrite Hd1.
  set (l := dir_entries _ _). assert (∀ e, e ∈ l → e ∈ dir_entries DevicePluginPath (os_disk s)) as Hl by done.
  apply (wp_for_range l _ (λ rest s', (∀ e, e ∈ rest → e ∈ l) ∧
    sockets_only None (os_disk s) (os_disk s') ∧ (calm s → calm s' ∧
      ∀ name, (name, Socket) ∈ l → (name, Socket) ∉ rest → uniServerSockRegex name = true →
        os_disk s' !! (DevicePluginPath +:+ name) = None))).
  - split; [done|]. rewrite Hd1. split; [apply sockets_only_refl|]. intros Hc. split; [unfold calm; auto|done].
  - intros [name n] rest s2 (Hsub & Hso & Hc2). pose proof (Hl _ (Hsub (name, n) ltac:(by left))) as Hin.
    apply elem_dir_entries in Hin as (Hd & Hne & Hsl).
    eapply wp_mono; [by apply (cleanup_one_spec (os_disk s))|].
    intros o s3 (-> & Hso3 & Hc3). split_and!; [intros e He; apply Hsub; by right|done|].
    intros Hc. destruct (Hc2 Hc) as [Hcs Hgone]. destruct (Hc3 Hcs) as (Hcs3 & Hmono & Hthis).
    split; [done|]. intros name' Hin Hnin Hre. destruct (decide ((name', Socket) = (name, n))) as [E|E].
    + injection E as -> <-. by apply Hthis.
    + apply Hmono, Hgone; [done| |done]. by intros [?|?]%elem_of_cons.
  - intros s2 (_ & Hso & Hc2). split_and!; [done|intros Hc; by apply Hc2|].
    intros Hc p (name & -> & Hp & Hne & Hsl & Hre). destruct (Hc2 Hc) as [_ Hgone].
    destruct (Hso (DevicePluginPath +:+ name)) as [E|[E _]]; [done| |congruence].
    rewrite Hgone in Hp; [done| |by apply not_elem_of_nil|done].
    unfold l. apply elem_dir_entries. split_and!; [congruence|done|done].
Qed.

(** ** The server *)

(** The channel is open exactly as long as there is a server. *)
Definition plugin_ok (p : UNIDevicePlugin) : Prop :=
  if server p then stop p = Some false else stop p ≠ Some false.

Definition same_plugin (p p' : UNIDevicePlugin) : Prop := socket p' = socket p ∧ count p' = count p.
Definition disk_of (s : Dp) : Disk := os_disk (dp_os s).
Definition calm_dp (s : Dp) : Prop := calm (dp_os s).

(** What every operation leaves alone: the identity of the plugin, what the kubelet
    was told, the files of others. *)
Definition kept (s s' : Dp) : Prop :=
  same_plugin (dp_m s) (dp_m s') ∧ dp_registered s' = dp_registered s ∧
  sockets_only (Some (socket (dp_m s))) (disk_of s) (disk_of s') ∧ (calm_dp s → calm_dp s').

Lemma kept_refl s : kept s s.
Proof. split_and!; try done. apply sockets_only_refl. Qed.
Lemma kept_trans s1 s2 s3 : kept s1 s2 → kept s2 s3 → kept s1 s3.
Proof.
  intros ([H1 H1'] & H2 & H3 & H4) ([G1 G1'] & G2 & G3 & G4). rewrite H1 in G3.
  split_and!; [split; congruence|congruence|by eapply sockets_only_trans|auto].
Qed.

(** [server_Stop], then the removal of the stale sockets. *)
Lemma server_Stop_spec s (Q : outcome unit → Dp → Prop) :
  (∀ s', kept s s' → dp_m s' = dp_m s → disk_of s' = unlink (socket (dp_m s)) (disk_of s) → Q (Ok tt) s') →
  wp server_Stop Q s.
Proof.
  intros H. unfold server_Stop. apply wp_bind, wp_gets. cbn [kont]. apply wp_zoom.
  apply (change_spec (λ _, True)). intros o Hd _ Hc _. apply H; [|done|done].
  split_and!; try done. unfold disk_of. cbn. rewrite Hd. apply sockets_only_unlink.
Qed.

Lemma on_cleanup_spec s :
  wp (on_os cleanup) (λ o s', kept s s' ∧ dp_m s' = dp_m s ∧
    (∀ p, disk_of s !! p = None → disk_of s' !! p = None) ∧
    match o with Ok _ => calm_dp s → no_uni_socket (disk_of s') | Err _ => ¬ calm_dp s | _ => False end) s.
Proof.
  apply wp_zoom. eapply wp_mono; [apply cleanup_spec|]. intros o os (Hso & Hc & Ho).
  split; [split_and!; try done; by apply sockets_only_weaken|]. split_and!; try done.
  - intros p Hp. destruct (Hso p) as [E|[E _]]; [done| |done]. unfold disk_of in *. cbn. by rewrite E.
Qed.

Lemma on_syscall_spec {A} (m : M Os A) (Q : outcome A → Dp → Prop) s :
  (∀ e s', kept s s' → dp_m s' = dp_m s → disk_of s' = disk_of s → ¬ calm_dp s → Q (Err (io_error e)) s') →
  (∀ s', kept s s' → dp_m s' = dp_m s → disk_of s' = disk_of s → wp (on_os m) Q s') →
  wp (on_os (syscall m)) Q s.
Proof.
  intros Hf Hm. apply wp_zoom, syscall_spec.
  - intros e o Hc (Hd & _). apply Hf; try done. split_and!; try done.
    unfold disk_of. cbn. rewrite Hd. apply sockets_only_refl.
  - intros o (Hd & _) Hc. pose proof (Hm (mkDp (dp_m s) o (dp_registered s))) as H.
    unfold wp, on_os, zoom in H. cbn [dp_os dp_m dp_registered] in H. unfold wp.
    destruct (m o) as [r o']. cbn [fst snd] in *. apply H; try done. split_and!; try done.
    unfold disk_of. cbn. rewrite Hd. apply sockets_only_refl.
Qed.

Lemma dial_spec p (Q : outcome unit → Dp → Prop) s :
  (∀ e s', kept s s' → dp_m s' = dp_m s → disk_of s' = disk_of s →
           (calm_dp s → disk_of s !! p ≠ Some Socket) → Q (Err e) s') →
  (∀ s', kept s s' → dp_m s' = dp_m s → disk_of s' = disk_of s → Q (Ok tt) s') →
  wp (on_os (dial p)) Q s.
Proof.
  intros Hf Hok. unfold dial. apply on_syscall_spec.
  { intros e s' ? ? ? Hc. apply Hf; try done. }
  intros s' Hk Hm Hd. apply wp_zoom. apply wp_bind, wp_gets. cbn [kont].
  change (os_disk (dp_os s')) with (disk_of s'). rewrite Hd.
  assert (mkDp (dp_m s') (dp_os s') (dp_registered s') = s') as Hs by by destruct s'.
  assert (∀ e, (disk_of s !! p = Some Socket → False) → Q (Err e) s') as Hbad.
  { intros e Hne. by apply Hf. }
  assert (stat (disk_of s) p ≠ inr Socket → disk_of s !! p = Some Socket → False) as Hst.
  { intros Hne E. apply Hne. by apply follow_here. }
  destruct (stat (disk_of s) p) as [e|n] eqn:Hn; cbn [of_sum].
  - apply wp_bind, wp_throw. cbn. rewrite Hs. apply Hbad, Hst. done.
  - apply wp_bind, wp_ret. cbn [kont]. destruct n; try (apply wp_throw; rewrite Hs; apply Hbad, Hst; done).
    apply wp_ret. rewrite Hs. by apply Hok.
Qed.

Lemma net_Listen_spec (Q : outcome unit → Dp → Prop) s :
  (∀ e s', kept s s' → dp_m s' = dp_m s →
           (calm_dp s → disk_of s !! socket (dp_m s) ≠ None) → Q (Err e) s') →
  (∀ s', kept s s' → dp_m s' = dp_m s →
         disk_of s' = <[socket (dp_m s) := Socket]> (disk_of s) → Q (Ok tt) s') →
  wp (on_os (net_Listen (socket (dp_m s)))) Q s.
Proof.
  intros Hf Hok. unfold net_Listen. apply on_syscall_spec.
  { intros e s' ? ? ? Hc. by apply Hf. }
  intros s' Hk Hm Hd. apply wp_zoom. apply wp_bind, wp_gets. cbn [kont].
  change (os_disk (dp_os s')) with (disk_of s'). rewrite Hd.
  assert (mkDp (dp_m s') (dp_os s') (dp_registered s') = s') as Hs by by destruct s'.
  destruct (disk_of s !! socket (dp_m s)) eqn:E.
  - apply wp_throw. rewrite Hs. by apply Hf.
  - apply (change_spec (λ _, True)). intros o Hd2 _ Hc _.
    change (os_disk (dp_os s')) with (disk_of s') in Hd2. rewrite Hd in Hd2.
    destruct Hk as ((?&?)&?&_&Hcalm). apply Hok; [|done|done].
    split_and!; [split; cbn; congruence|done| |unfold calm_dp, calm in *; cbn; auto].
    apply sockets_only_at. intros p Hp. unfold disk_of at 1. cbn. rewrite Hd2. by rewrite lookup_insert_ne.
Qed.

Definition started (s : Dp) (o : outcome unit) (s' : Dp) : Prop :=
  kept s s' ∧ plugin_ok (dp_m s') ∧
  match o with
  | Ok _ => server (dp_m s') = true ∧ disk_of s' !! socket (dp_m s') = Some Socket ∧
            (calm_dp s → ∀ p, uni_socket (disk_of s') p → p = socket (dp_m s'))
  | Err _ => calm_dp s → disk_of s !! socket (dp_m s) ≠ None
  | _ => False
  end.

(** A change of [server] and [stop] only. *)
Lemma kept_set s s1 p :
  kept s s1 → same_plugin (dp_m s) p → kept s (mkDp p (dp_os s1) (dp_registered s1)).
Proof. intros (_ & H2 & H3 & H4) Hp. done. Qed.

(** Starting a plugin that has no server. *)
Lemma Start_spec s : server (dp_m s) = false → plugin_ok (dp_m s) → wp Start (started s) s.
Proof.
  intros Hns Hok. unfold Start. apply wp_bind, wp_gets. cbn [kont]. rewrite Hns.
  apply wp_bind, wp_ret. cbn [kont]. apply wp_bind. eapply wp_mono; [apply on_cleanup_spec|].
  intros [[]|e|w|] s1 (Hk1 & Hm1 & Hn1 & H1); cbn [kont]; try done; cycle 1.
  { split_and!; [done|by rewrite Hm1|by intros E]. }
  apply wp_bind. rewrite <- Hm1. apply net_Listen_spec.
  { intros e s2 Hk2 Hm2 Hc. cbn [kont]. split_and!; [by eapply kept_trans|by rewrite Hm2, Hm1|].
    intros Hcalm E. apply Hc; [by apply Hk1|]. apply Hn1. by rewrite Hm1 in *. }
  intros s2 Hk2 Hm2 Hd2. cbn [kont]. apply wp_bind, wp_modify. cbn [kont]. apply wp_bind, wp_modify. cbn [kont].
  set (s3 := mkDp _ _ _). assert (kept s2 s3) as Hk3 by by apply (kept_set s2 s2); [apply kept_refl|].
  assert (kept s s3) as Hk by exact (kept_trans _ _ _ Hk1 (kept_trans _ _ _ Hk2 Hk3)).
  assert (disk_of s3 = disk_of s2) as Hd3 by done.
  assert (socket (dp_m s3) = socket (dp_m s1)) as Hsock by (unfold s3; cbn; by rewrite Hm2).
  apply dial_spec.
  - intros e s4 Hk4 Hm4 Hd4 Hc. split_and!; [by eapply kept_trans|by rewrite Hm4|].
    intros Hcalm. destruct Hc; [by apply Hk|]. by rewrite Hd3, Hd2, lookup_insert_eq.
  - intros s4 Hk4 Hm4 Hd4. split_and!; [by eapply kept_trans|by rewrite Hm4|by rewrite Hm4| |].
    + by rewrite Hm4, Hd4, Hd3, Hsock, Hd2, lookup_insert_eq.
    + intros Hcalm p (name & Hp & Hsk & Hrest). rewrite Hm4, Hsock. rewrite Hd4, Hd3, Hd2 in Hsk.
      destruct (decide (p = socket (dp_m s1))) as [|Hne]; [done|].
      rewrite lookup_insert_ne in Hsk by done. destruct (H1 Hcalm p). by exists name.
Qed.

Definition stopped (s : Dp) (o : outcome unit) (s' : Dp) : Prop :=
  kept s s' ∧ plugin_ok (dp_m s') ∧ server (dp_m s') = false ∧
  (server (dp_m s) = true → disk_of s !! socket (dp_m s) ≠ Some Directory →
   disk_of s' !! socket (dp_m s) = None) ∧
  returns o = true.

Lemma Stop_spec s : plugin_ok (dp_m s) → wp Stop (stopped s) s.
Proof.
  intros Hok. unfold Stop. apply wp_bind, wp_gets. cbn [kont]. unfold plugin_ok in Hok.
  destruct (server (dp_m s)) eqn:Hs.
  2:{ apply wp_ret. split; [apply kept_refl|]. split; [unfold plugin_ok; by rewrite Hs|]. by rewrite Hs. }
  apply wp_bind, server_Stop_spec. intros s1 Hk1 Hm1 Hd1. cbn [kont]. apply wp_bind, wp_modify. cbn [kont].
  unfold close_stop. apply wp_bind, wp_bind, wp_gets. cbn [kont dp_m stop set_server]. rewrite Hm1, Hok.
  apply wp_modify. cbn [kont]. set (s2 := mkDp _ _ _).
  assert (kept s s2) as Hk2 by by apply (kept_set s s1).
  eapply wp_mono; [apply on_cleanup_spec|]. intros o s3 (Hk3 & Hm3 & Hn3 & Ho).
  split_and!; [by eapply kept_trans|by rewrite Hm3|by rewrite Hm3| |by destruct o].
  intros _ Hdir. apply Hn3. unfold s2. cbn. change (disk_of s1 !! socket (dp_m s) = None). rewrite Hd1.
  unfold unlink. destruct (disk_of s !! socket (dp_m s)) as [[]|] eqn:E; try done; apply lookup_delete_eq.
Qed.

Lemma Register_spec req s :
  wp (Register req) (λ o s', kept s (mkDp (dp_m s') (dp_os s') (dp_registered s)) ∧ dp_m s' = dp_m s ∧
    disk_of s' = disk_of s ∧
    match o with
    | Ok _ => dp_registered s' = req :: dp_registered s
    | Err _ => dp_registered s' = dp_registered s ∧ (calm_dp s → disk_of s !! KubeletSocket ≠ Some Socket)
    | _ => False
    end) s.
Proof.
  assert (∀ s', kept s s' → kept s (mkDp (dp_m s') (dp_os s') (dp_registered s))) as Hk0.
  { by intros s' (?&?&?&?). }
  unfold Register. apply wp_bind, dial_spec.
  { intros e s1 Hk Hm Hd Hc. cbn [kont]. split; [by apply Hk0|]. split; [done|]. split; [done|].
    split; [apply Hk|done]. }
  intros s1 Hk Hm Hd. cbn [kont]. apply wp_bind, on_syscall_spec.
  { intros e s2 Hk2 Hm2 Hd2 Hc. cbn [kont]. pose proof (kept_trans _ _ _ Hk Hk2) as Hk3.
    split; [by apply Hk0|]. split; [congruence|]. split; [congruence|]. split; [apply Hk3|].
    intros Hcalm. destruct Hc. by apply Hk. }
  intros s2 Hk2 Hm2 Hd2. apply wp_zoom, wp_ret. cbn [kont]. apply wp_modify.
  pose proof (kept_trans _ _ _ Hk Hk2) as Hk3. split; [exact (Hk0 s2 Hk3)|].
  split; [cbn; congruence|]. split; [unfold disk_of in *; cbn; congruence|].
  cbn [dp_registered]. by rewrite (proj1 (proj2 Hk3)).
Qed.

(** ** Serving, and the watch *)

Definition serving (p : UNIDevicePlugin) : Prop := server p = true ∧ stop p = Some false.
Definition named (p : UNIDevicePlugin) : Prop :=
  ∃ now, socket p = DevicePluginPath +:+ Itoa now +:+ "-uni.sock".

Lemma plugin_ok_serving p : plugin_ok p → server p = true → serving p.
Proof. unfold plugin_ok. intros H E. rewrite E in H. done. Qed.
Lemma serving_ok p : serving p → plugin_ok p.
Proof. intros [E H]. unfold plugin_ok. by rewrite E. Qed.

Lemma named_not_kubelet p : named p → KubeletSocket ≠ socket p.
Proof.
  intros [now ->] E. unfold KubeletSocket in E. apply (inj (String.append DevicePluginPath)) in E.
  pose proof (HasSuffix_app (Itoa now) "-uni.sock") as H. rewrite <- E in H. done.
Qed.

(** The kubelet's own socket is not one of those that are removed. *)
Lemma kept_kubelet s s' :
  named (dp_m s) → kept s s' → disk_of s' !! KubeletSocket = disk_of s !! KubeletSocket.
Proof.
  intros Hn (_ & _ & Hso & _). destruct (Hso KubeletSocket) as [E|[_ U]]; [|done|].
  - intros [= E]. by apply (named_not_kubelet (dp_m s)).
  - destruct U as (name & E & _ & _ & _ & Hre). unfold KubeletSocket in E.
    apply (inj (String.append DevicePluginPath)) in E. by rewrite <- E in Hre.
Qed.

(** The kubelet listens, and the name of the socket is not a link. *)
Definition kubelet_up (s : Dp) : Prop :=
  disk_of s !! KubeletSocket = Some Socket ∧ ∀ q, disk_of s !! socket (dp_m s) ≠ Some (Symlink q).

(** The plugin was started again, and announced. *)
Definition restarted (s s' : Dp) : Prop :=
  disk_of s' !! socket (dp_m s) = Some Socket ∧
  dp_registered s' = request_of (dp_m s) ResourceName :: dp_registered s ∧
  sockets_only (Some (socket (dp_m s))) (disk_of s) (disk_of s').

Definition round_post (s : Dp) (o : outcome unit) (s' : Dp) : Prop :=
  match o with
  | Ok _ =>
      serving (dp_m s') ∧ same_plugin (dp_m s) (dp_m s') ∧
      ((∃ n, stat (disk_of s) (socket (dp_m s)) = inr n) ∧ disk_of s' = disk_of s ∧
         dp_m s' = dp_m s ∧ dp_registered s' = dp_registered s ∨
       stat (disk_of s) (socket (dp_m s)) = inl ErrNotExist ∧ restarted s s')
  | Panic w => w = "os.Exit(1)" ∧ ¬ (calm_dp s ∧ kubelet_up s)
  | _ => False
  end.

Lemma follow_error fuel d p e :
  follow fuel d p = inl e → e = ErrNotExist ∨ e = ExtErr "too many levels of symbolic links".
Proof.
  revert p. induction fuel as [|fuel IH]; intros p; simpl; destruct (d !! p) as [[]|]; intros E; try done;
    try (injection E as <-; auto). by eapply IH.
Qed.
Lemma follow_inl fuel d p e :
  follow fuel d p = inl e → (∀ q, d !! p ≠ Some (Symlink q)) → d !! p = None ∧ e = ErrNotExist.
Proof. destruct fuel; simpl; destruct (d !! p) as [[]|]; intros E H; try done; (by injection E) || by edestruct H. Qed.
Lemma follow_not_dir fuel d p e : follow fuel d p = inl e → d !! p ≠ Some Directory.
Proof. intros E H. by rewrite (follow_here fuel d p Directory) in E. Qed.

Lemma or_fatal_wp {A} (m : M Dp A) (Q : outcome A → Dp → Prop) s :
  wp m (λ o s', match o with Err _ => Q (Panic "os.Exit(1)") s' | _ => Q o s' end) s →
  wp (or_fatal m) Q s.
Proof.
  intros H. unfold or_fatal. apply wp_bind, wp_attempt. eapply wp_mono; [exact H|].
  by intros [] s' HQ.
Qed.

Definition restart_post (s : Dp) (o : outcome unit) (s' : Dp) : Prop :=
  match o with
  | Ok _ => serving (dp_m s') ∧ same_plugin (dp_m s) (dp_m s') ∧ restarted s s'
  | Panic w => w = "os.Exit(1)" ∧ ¬ (calm_dp s ∧ disk_of s !! KubeletSocket = Some Socket)
  | _ => False
  end.

Lemma restart_spec s :
  serving (dp_m s) → named (dp_m s) → stat (disk_of s) (socket (dp_m s)) = inl ErrNotExist →
  wp (ignore Stop;; or_fatal Start;; or_fatal (Register (request_of (dp_m s) ResourceName)))
     (restart_post s) s.
Proof.
  intros Hs Hn Hst. unfold ignore. apply wp_bind, wp_bind, wp_attempt.
  eapply wp_mono; [apply Stop_spec, serving_ok, Hs|].
  intros o s1 (Hk1 & Hok1 & Hsv1 & Hfree & Hret). specialize (Hfree (proj1 Hs) (follow_not_dir _ _ _ _ Hst)).
  assert (wp (or_fatal Start;; or_fatal (Register (request_of (dp_m s) ResourceName)))
     (restart_post s) s1) as Hgo; [|destruct o; try done; cbn [kont]; apply wp_ret; exact Hgo].
  pose proof Hk1 as ((Hsock1 & _) & Hreg1 & _ & Hcalm1).
  apply wp_bind, or_fatal_wp. eapply wp_mono; [by apply Start_spec|].
  intros [[]|e|w|] s2 (Hk2 & Hok2 & H2); cbn [kont]; try done.
  - destruct H2 as (Hsv2 & Hsk2 & _). pose proof (kept_trans _ _ _ Hk1 Hk2) as Hk.
    pose proof Hk as ((Hsock & Hcnt) & Hreg & Hso & Hcalm). rewrite Hsock in Hsk2.
    apply or_fatal_wp. eapply wp_mono; [apply Register_spec|].
    intros [[]|e|w|] s3 (Hk3 & Hm3 & Hd3 & H3); try done.
    + unfold restart_post. rewrite Hm3. split; [by apply plugin_ok_serving|]. split; [done|].
      unfold restarted. by rewrite Hd3, H3, Hreg.
    + split; [done|]. intros [Hc Hkub]. destruct H3 as [_ H3]. apply H3; [by apply Hcalm|].
      by rewrite (kept_kubelet s s2).
  - split; [done|]. intros [Hc _]. apply H2; [by apply Hcalm1|]. by rewrite Hsock1.
Qed.

Lemma watch_spec s :
  serving (dp_m s) → named (dp_m s) → wp watchKubeletRestart (round_post s) s.
Proof.
  intros Hs Hn. unfold watchKubeletRestart. apply wp_bind, wp_gets. cbn [kont]. apply wp_bind, wp_attempt.
  apply on_syscall_spec.
  { intros e s1 Hk Hm Hd Hc. cbn [kont]. rewrite io_error_Is. split; [done|]. by intros [Hcalm _]. }
  intros s1 Hk Hm Hd. apply wp_zoom, wp_bind, wp_gets. cbn [kont].
  change (os_disk (dp_os s1)) with (disk_of s1). rewrite Hd.
  assert (mkDp (dp_m s1) (dp_os s1) (dp_registered s1) = s1) as E1 by by destruct s1.
  destruct (stat (disk_of s) (socket (dp_m s))) as [e|n] eqn:Hst; cbn [of_sum]; cycle 1.
  { apply wp_ret. rewrite E1. cbn [kont]. apply wp_ret. split; [by rewrite Hm|]. split; [by rewrite Hm|].
    left. split; [by exists n|]. split_and!; [done|done|apply Hk]. }
  apply wp_throw. rewrite E1. cbn [kont]. destruct (errors_Is e ErrNotExist) eqn:He.
  - apply follow_error in Hst as He'. destruct He' as [->| ->]; [|done].
    eapply wp_mono; [rewrite <- Hm; apply restart_spec|]; rewrite ?Hm, ?Hd; [done..|].
    destruct Hk as (_ & Hreg & _ & Hcalm). intros [[]|e|w|] s2 H; try done.
    + destruct H as (H1 & H2 & H3). split; [done|]. split; [by rewrite ?Hm in H2|]. right. split; [done|].
      unfold restarted in *. by rewrite ?Hd, ?Hm, ?Hreg in H3.
    + destruct H as [-> H]. split; [done|]. intros [Hc [Hkub _]]. apply H. rewrite ?Hd. auto.
  - split; [done|]. intros [_ [_ Hlink]]. apply follow_inl in Hst as [_ ->]; [done|exact Hlink].
Qed.

(** After [Serve]: the plugin serves and is announced, or there is an error. *)
Definition served (resourceName : string) (s : Dp) (o : outcome unit) (s' : Dp) : Prop :=
  kept s (mkDp (dp_m s') (dp_os s') (dp_registered s)) ∧
  match o with
  | Ok _ => serving (dp_m s') ∧ disk_of s' !! socket (dp_m s) = Some Socket ∧
            dp_registered s' = request_of (dp_m s) resourceName :: dp_registered s
  | Err _ => plugin_ok (dp_m s') ∧ dp_registered s' = dp_registered s
  | _ => False
  end.

Lemma Serve_spec resourceName s :
  server (dp_m s) = false → stop (dp_m s) ≠ Some false → named (dp_m s) →
  wp (Serve resourceName) (served resourceName s) s.
Proof.
  intros Hns Hst Hn. unfold Serve. apply wp_bind.
  eapply wp_mono; [apply Start_spec; [done|unfold plugin_ok; by rewrite Hns]|].
  intros [[]|e|w|] s1 (Hk1 & Hok1 & H1); cbn [kont]; try done; cycle 1.
  { split; [by destruct Hk1 as (?&?&?&?)|]. split; [done|apply Hk1]. }
  destruct H1 as (Hsv1 & Hsk1 & _). pose proof Hk1 as ((Hsock1 & Hcnt1) & Hreg1 & _).
  apply wp_bind, wp_gets. cbn [kont]. apply wp_bind, wp_attempt.
  assert (request_of (dp_m s1) resourceName = request_of (dp_m s) resourceName) as ->
    by by (unfold request_of; rewrite Hsock1).
  eapply wp_mono; [apply Register_spec|]. intros [[]|e|w|] s2 (Hk2 & Hm2 & Hd2 & H2); cbn [kont]; try done.
  - apply wp_ret. unfold served. rewrite Hreg1 in *. split; [by eapply kept_trans|]. rewrite Hm2, Hd2.
    split; [by apply plugin_ok_serving|]. by rewrite <- Hsock1.
  - destruct H2 as [Hreg2 _]. unfold ignore. apply wp_bind, wp_bind, wp_attempt.
    eapply wp_mono; [apply Stop_spec; by rewrite Hm2|].
    intros o s3 (Hk3 & Hok3 & Hsv3 & _ & Hret).
    assert (kept s s3) as Hk.
    { eapply kept_trans; [exact Hk1|]. eapply kept_trans; [|exact Hk3].
      rewrite <- Hreg2 in Hk2. by destruct s2. }
    assert (wp (throw e) (served resourceName s) s3) as Hgo; [|destruct o; try done; cbn [kont]; apply wp_ret; exact Hgo].
    apply wp_throw. split; [by destruct Hk as (?&?&?&?)|]. split; [done|apply Hk].
Qed.


(** ** The life of the plugin *)

(** The start of the plugin on a process that has none. *)
Lemma startDevicePlugin_spec now limit s :
  wp (startDevicePlugin now limit) (λ o s',
    match o with
    | Ok _ => serving (dp_m s') ∧ same_plugin (NewUNIDevicePlugin now limit) (dp_m s') ∧
              dp_registered s' = request_of (dp_m s') ResourceName :: dp_registered s
    | Err _ => True
    | _ => False
    end) s.
Proof.
  unfold startDevicePlugin. apply wp_bind, wp_modify. cbn [kont]. apply wp_with_msg.
  eapply wp_mono; [apply Serve_spec; [done|done|by exists now]|].
  intros [[]|e|w|] s1 [Hk H]; try done. destruct H as (H1 & _ & H3). destruct Hk as (Hid & _).
  cbn [dp_m dp_registered] in *. split; [done|]. split; [done|]. rewrite H3. f_equal.
  unfold request_of. cbn. destruct Hid as [-> _]. done.
Qed.

(** Between two rounds of the watch, anything may happen to the files, and to the
    environment: the kubelet removes the sockets when it starts. *)
Inductive plugin_step : Dp → Dp → Prop :=
| step_outside s o : plugin_step s (mkDp (dp_m s) o (dp_registered s))
| step_watch s s' : watchKubeletRestart s = (Ok tt, s') → plugin_step s s'.

Inductive plugin_run (now limit : Z) : Dp → Prop :=
| run_started s s' : startDevicePlugin now limit s = (Ok tt, s') → plugin_run now limit s'
| run_step s s' : plugin_run now limit s → plugin_step s s' → plugin_run now limit s'.

(** What holds between the rounds: a server with an open channel, and the last
    announcement names its socket. *)
Definition plugin_inv (now limit : Z) (s : Dp) : Prop :=
  serving (dp_m s) ∧ same_plugin (NewUNIDevicePlugin now limit) (dp_m s) ∧
  head (dp_registered s) = Some (request_of (dp_m s) ResourceName).

Lemma plugin_inv_named now limit s : plugin_inv now limit s → named (dp_m s).
Proof. intros (_ & [E _] & _). by exists now. Qed.

Lemma plugin_run_inv now limit s : plugin_run now limit s → plugin_inv now limit s.
Proof.
  induction 1 as [s s' Hrun|s s' _ IH Hstep].
  - destruct (wp_run _ _ _ _ _ (startDevicePlugin_spec now limit s) Hrun) as (H1 & H2 & H3).
    split; [done|]. split; [done|]. by rewrite H3.
  - destruct Hstep as [s o|s s' Hrun]; [done|].
    pose proof (plugin_inv_named _ _ _ IH) as Hn. destruct IH as (Hs & Hid & Hreg).
    destruct (wp_run _ _ _ _ _ (watch_spec s Hs Hn) Hrun) as (H1 & [H2 H2'] & H3).
    split; [done|]. split; [destruct Hid; split; congruence|].
    destruct H3 as [(_ & _ & -> & ->)|(_ & _ & -> & _)]; [done|]. cbn. f_equal.
    unfold request_of. by rewrite H2.
Qed.

(** C28: In every state between two rounds of the watch, however the files under it were
    changed, the plugin has a server and an open channel, so that no channel is closed
    twice; it has kept its socket and its number of devices, and the last request to the
    kubelet names this socket. The next round ends well or ends the process: it has
    nothing to do while the socket exists, and otherwise it makes the socket again,
    announces it, and removes no file but stale sockets of this plugin; when no call
    fails and the kubelet listens it ends well. *)
Theorem plugin_invariant now limit s :
  plugin_run now limit s → plugin_inv now limit s ∧ wp watchKubeletRestart (round_post s) s.
Proof.
  intros Hr. pose proof (plugin_run_inv _ _ _ Hr) as Hi. split; [done|].
  apply watch_spec; [apply Hi|by eapply plugin_inv_named].
Qed.

(** The devices: as many as the node has interfaces, with different names. *)
Lemma devices_length n : Z.of_nat (length (devices n)) = Z.max 0 n.
Proof. unfold devices. rewrite length_fmap, length_seqZ. lia. Qed.

Lemma devices_NoDup n : NoDup (dev_ID <$> devices n).
Proof.
  unfold devices. rewrite <- list_fmap_compose. apply NoDup_fmap_2_strong; [|apply NoDup_seqZ].
  intros x y _ _ E. cbn in E. apply (inj (String.append "uni-")) in E. unfold Itoa in E.
  by apply (inj pretty) in E.
Qed.

Lemma watch_loop_sent devs events : Forall (λ r, r = devs) (watch_loop devs events).1.
Proof.
  induction events as [|[] events IH]; simpl; try by constructor.
  destruct (watch_loop devs events). by constructor.
Qed.

(** ** A node *)

Definition demo_plugin_disk : Disk :=
  {[ KubeletSocket := Socket; DevicePluginPath +:+ "99-uni.sock" := Socket;
     DevicePluginPath +:+ "gpu.sock" := Socket ]}.
Definition demo_plugin (d : Disk) : Dp := mkDp (mkPlugin "" false 0 None) (mkOs d [] [] 18) [].
Definition demo_serving : Dp := (startDevicePlugin 100 3 (demo_plugin demo_plugin_disk)).2.

(** The start replaces the stale socket; the kubelet comes back with an empty
    directory, and the watch makes the socket again. *)
Example plugin_start :
  bool_decide (disk_of demo_serving =
    {[ KubeletSocket := Socket; DevicePluginPath +:+ "100-uni.sock" := Socket;
       DevicePluginPath +:+ "gpu.sock" := Socket ]}) = true.
Proof. vm_compute. reflexivity. Qed.
Definition demo_kubelet_restart : Dp :=
  mkDp (dp_m demo_serving) (mkOs {[ KubeletSocket := Socket ]} [] [] 18) (dp_registered demo_serving).
Example plugin_restart :
  let '(o, s) := watchKubeletRestart demo_kubelet_restart in
  (o, bool_decide (disk_of s = {[ KubeletSocket := Socket; DevicePluginPath +:+ "100-uni.sock" := Socket ]}),
   rq_Endpoint <$> dp_registered s) = (Ok tt, true, ["100-uni.sock"; "100-uni.sock"]).
Proof. vm_compute. reflexivity. Qed.
Example list_and_watch :
  ListAndWatch (dp_m demo_serving) [Tick; Stopped; Tick] = ([devices 3; devices 3], true).
Proof. done. Qed.

Lemma plugin_invariant_witness :
  plugin_inv 100 3 demo_kubelet_restart ∧
  wp watchKubeletRestart (round_post demo_kubelet_restart) demo_kubelet_restart.
Proof.
  apply (plugin_invariant 100 3). apply (run_step _ _ demo_serving); [|apply step_outside].
  apply (run_started _ _ (demo_plugin demo_plugin_disk)). unfold demo_serving.
  assert ((startDevicePlugin 100 3 (demo_plugin demo_plugin_disk)).1 = Ok tt) as E by (vm_compute; reflexivity).
  rewrite <- E. by destruct (startDevicePlugin _ _ _).
Defined.
