(* ===== verification/SvcStart.v ===== *)
(** The start and the end of the node daemon ([Start], [initServer] and
    [cleanUpOnTermination] of [pkg/ipamd/svc.go], with the clients of [pkg/kubeclient]
    and the cluster query of [uapi.go]).

    [BootApi] is what only the start calls: the client libraries of Kubernetes, the open
    of the bolt file, the cluster query and the version of the plugin binary.  A fatal
    log line is a panic.  The loops that the start leaves running are listed in
    [bt_routines]; what they do are the steps of [IpamdRpc.server_step]. *)
From S2P Require Export PoolProps VpcClaim DevicePlugin IpamdRpc LogFollow.

(** ** Definitions *)

Class BootApi (D K E : Type) : Type := {
  rest_InClusterConfig : Call K unit;
  kube_NewForConfig : Call K unit;
  crd_NewForConfig : Call K unit;
  k_ServerVersion : Call K string;
  bolt_Open : string → Call D unit;
  bolt_Close : Call D unit;
  ext_ListUK8SClusterV2 : string → Call E (list string);   (* the service CIDRs *)
  ext_CNIVersion : string → Call E string                  (* the output of --version *)
}.

(** *** kubeclient/client.go *)

(** The package variables: a pointer and its [sync.Once]. *)
Record KubeClients : Type := mkClients {
  kc_config : bool; kc_configOnce : bool; kc_client : bool; kc_clientOnce : bool;
  kc_crd : bool; kc_crdOnce : bool
}.

Section kubeclient.
Context {D K E : Type} `{!BootApi D K E}.
#[local] Abbreviation m := (M (KubeClients * K)).
#[local] Abbreviation lib c := (zoom snd (λ k s, (fst s, k)) (call c)).

Definition set_config (v : bool) (s : KubeClients * K) : KubeClients * K :=
  let c := s.1 in (mkClients v true (kc_client c) (kc_clientOnce c) (kc_crd c) (kc_crdOnce c), s.2).
Definition set_client (v : bool) (s : KubeClients * K) : KubeClients * K :=
  let c := s.1 in (mkClients (kc_config c) (kc_configOnce c) v true (kc_crd c) (kc_crdOnce c), s.2).
Definition set_crd (v : bool) (s : KubeClients * K) : KubeClients * K :=
  let c := s.1 in (mkClients (kc_config c) (kc_configOnce c) (kc_client c) (kc_clientOnce c) v true, s.2).

(** Whether the pointer that is returned with a nil error is not nil. *)
Definition GetConfig : m bool :=
  done ← gets (λ s, kc_configOnce s.1);
  if done : bool then gets (λ s, kc_config s.1) else
  modify (set_config false);;
  with_msg "failed to generate kubernetes client config" (lib (rest_InClusterConfig (BootApi := BootApi0)));;
  modify (set_config true);;
  mret true.

(** [NewForConfig] reads the configuration through its pointer. *)
Definition new_client (c : Call K unit) (cfg : bool) : m unit :=
  if cfg then lib c else panic "nil pointer dereference".

Definition Get : m bool :=
  done ← gets (λ s, kc_clientOnce s.1);
  if done : bool then gets (λ s, kc_client s.1) else
  modify (set_client false);;
  cfg ← GetConfig;
  with_msg "failed to generate kubernetes client" (new_client (kube_NewForConfig (BootApi := BootApi0)) cfg);;
  modify (set_client true);;
  mret true.

Definition GetCRD : m bool :=
  done ← gets (λ s, kc_crdOnce s.1);
  if done : bool then gets (λ s, kc_crd s.1) else
  modify (set_crd false);;
  cfg ← GetConfig;
  with_msg "failed to generate crd client" (new_client (crd_NewForConfig (BootApi := BootApi0)) cfg);;
  modify (set_crd true);;
  mret true.
End kubeclient.

(** *** svc.go *)

Definition IpamdServiceSocket : string := "/run/cni-vpc-ipamd.sock".
Definition DefaultListenTCPPort : Z := 7312.
Definition storageFile : string := "/opt/cni/networkbolt.db".
Definition cniBinaryPath : string := "/opt/cni/bin/cnivpc".
Definition httpListenAddress : string := "0.0.0.0:7313".
Definition KubeNodeLabelUhostID : string := "UhostID".
Definition KubeNodeZoneKey : string := "failure-domain.beta.kubernetes.io/zone".
Definition KubeNodeZoneTopologyKey : string := "topology.kubernetes.io/zone".

(** What the start leaves running, in the order in which it was started. *)
Inductive routine : Type :=
| WatermarkManager | Reconcile | DevicePluginRoutine | CleanUpOnTermination
| ServeSocket | ServeTCP (addr : string) | ServeHTTP (addr : string) (version : error + string).

(** The daemon while it starts: the handlers' state; the clients; the files; the TCP
    addresses that listen; and the fields that no handler reads. *)
Record Boot (H D K E : Type) : Type := mkBoot {
  bt_st : St H D K E;
  bt_clients : KubeClients;
  bt_os : Os;
  bt_tcp : list string;
  bt_routines : list routine;
  bt_k8sVersion : string;
  bt_nodeIpAddr : list Z;
  bt_svcCIDR : option IPNet
}.
Arguments mkBoot {H D K E} _ _ _ _ _ _ _ _.
Arguments bt_st {H D K E} _.
Arguments bt_clients {H D K E} _.
Arguments bt_os {H D K E} _.
Arguments bt_tcp {H D K E} _.
Arguments bt_routines {H D K E} _.
Arguments bt_k8sVersion {H D K E} _.
Arguments bt_nodeIpAddr {H D K E} _.
Arguments bt_svcCIDR {H D K E} _.

(** The flags of the command line. *)
Record Flags : Type := mkFlags {
  fg_low : Z; fg_high : Z; fg_calico : bool; fg_cooldown : Z
}.

Section svc.
Context {H D K E : Type} `{!Database PodNetwork H D} `{!Database CooldownItem H D}
  `{!CloudApi E} `{!KubeApi K} `{!BootApi D K E}.
#[local] Abbreviation boot := (Boot H D K E).
#[local] Abbreviation m := (M boot).

Definition put_st (v : St H D K E) (b : boot) : boot :=
  mkBoot v (bt_clients b) (bt_os b) (bt_tcp b) (bt_routines b) (bt_k8sVersion b) (bt_nodeIpAddr b) (bt_svcCIDR b).
Definition put_clients (v : KubeClients) (b : boot) : boot :=
  mkBoot (bt_st b) v (bt_os b) (bt_tcp b) (bt_routines b) (bt_k8sVersion b) (bt_nodeIpAddr b) (bt_svcCIDR b).
Definition put_os (v : Os) (b : boot) : boot :=
  mkBoot (bt_st b) (bt_clients b) v (bt_tcp b) (bt_routines b) (bt_k8sVersion b) (bt_nodeIpAddr b) (bt_svcCIDR b).
Definition put_tcp (v : list string) (b : boot) : boot :=
  mkBoot (bt_st b) (bt_clients b) (bt_os b) v (bt_routines b) (bt_k8sVersion b) (bt_nodeIpAddr b) (bt_svcCIDR b).
Definition put_routines (v : list routine) (b : boot) : boot :=
  mkBoot (bt_st b) (bt_clients b) (bt_os b) (bt_tcp b) v (bt_k8sVersion b) (bt_nodeIpAddr b) (bt_svcCIDR b).
Definition put_info (ver : string) (ip : list Z) (cidr : option IPNet) (b : boot) : boot :=
  mkBoot (bt_st b) (bt_clients b) (bt_os b) (bt_tcp b) (bt_routines b) ver ip cidr.

Definition on_st {A} (c : M (St H D K E) A) : m A := zoom bt_st put_st c.
Definition on_files {A} (c : M Os A) : m A := zoom bt_os put_os c.
Definition on_kube {A} (c : M (KubeClients * K) A) : m A :=
  zoom (λ b, (bt_clients b, st_k8s (bt_st b)))
       (λ p b, put_clients p.1 (put_st (set_k8s p.2 (bt_st b)) b)) c.
Definition on_proc {A} (c : M (Proc E) A) : m A := on_st (in_proc c).

Definition fatalf {A} : m A := panic "os.Exit(1)".
(** [if err != nil { ulog.Fatalf(...) }]. *)
Definition must {A} (c : m A) : m A :=
  r ← attempt c; match r with inl _ => fatalf | inr a => mret a end.

Definition go (r : routine) : m unit := modify (λ b, put_routines (bt_routines b ++ [r]) b).

(** [net.Listen] on TCP: the address must be free; other reasons to fail are the
    environment's. *)
Definition listen_tcp (addr : string) : m unit :=
  on_files (syscall (mret tt));;
  l ← gets bt_tcp;
  if bool_decide (addr ∈ l) then throw (ExtErr "address already in use")
  else modify (λ b, put_tcp (bt_tcp b ++ [addr]) b).

(** [util.go]: [os.IsExist] does not hold of the errors of [Stat]. *)
Definition pathExist (filename : string) : M Os bool :=
  r ← attempt (os_Stat filename);
  mret (match r with inr _ => true | inl err => errors_Is err ErrExist end).

(** [uapi.go] *)
Definition uapiListUK8SCluster : M (St H D K E) string :=
  c ← srv srv_uapi;
  in_proc (UK8SClient c);;
  clusterId ← in_proc (Getenv "UCLOUD_UK8S_CLUSTER_ID");
  if String.eqb clusterId "" then throw (Errorf "cannot get cluster id by environment var UCLOUD_REGION_ID")
  else
    resp ← in_proc (ext (ext_ListUK8SClusterV2 (BootApi := BootApi0) clusterId));
    match resp with
    | [] => throw (Errorf "UK8S ClusterSet is empty")
    | c :: _ => mret c
    end.

(** Setting fields of the server. *)
Definition set_fields (hostId' zoneId' mac tcp : string) (s : ipamServer H) : ipamServer H :=
  mkServer (networkDB s) (poolDB s) (cooldownDB s) (nodeName s) hostId' zoneId' mac tcp (srv_uapi s)
    (AvailablePodIPLowWatermark s) (AvailablePodIPHighWatermark s) (CalicoPolicyFlag s) (CooldownPeriodSeconds s).
Definition set_dbs (net cool : H) (s : ipamServer H) : ipamServer H :=
  mkServer net ∅ cool (nodeName s) (hostId s) (zoneId s) (masterMacAddress s) (tcpAddr s) (srv_uapi s)
    (AvailablePodIPLowWatermark s) (AvailablePodIPHighWatermark s) (CalicoPolicyFlag s) (CooldownPeriodSeconds s).
Definition change_srv (f : ipamServer H → ipamServer H) : M (St H D K E) unit :=
  modify (λ s, set_srv (f (st_srv s)) s).

(** The zone label, or its successor. *)
Definition zone_label (node : string) : M (St H D K E) string :=
  r ← attempt (getKubeNodeLabel node KubeNodeZoneKey);
  match r with
  | inr zoneId => mret zoneId
  | inl _ => getKubeNodeLabel node KubeNodeZoneTopologyKey
  end.

Definition default_tcp (ip : list Z) (env : string) : string :=
  if String.eqb env "" then IP_String ip +:+ ":" +:+ Itoa DefaultListenTCPPort else env.

(** *** database/bolt.go *)

(** [bolt.Open] with mode 0600, which waits ten seconds for the lock of the file. *)
Definition BoltHandler (path : string) : M D unit := call (bolt_Open (BootApi := BootApi0) path).
(** The database of a store is the file, so closing one store closes all of them. *)
Definition Bolt_Close (b : H) : M D unit := call (bolt_Close (BootApi := BootApi0)).

(** The part of [initServer] that opens the databases. *)
Definition init_dbs : m unit :=
  must (on_st (in_db (BoltHandler storageFile)));;
  net ← must (on_st (in_db (db_New (T := PodNetwork) NetworkDBName)));
  cool ← must (on_st (in_db (db_New (T := CooldownItem) CooldownDBName)));
  on_st (change_srv (set_dbs net cool)).

(** The service CIDR; errors are logged. *)
Definition init_cidr : m (option IPNet) :=
  info ← attempt (on_st uapiListUK8SCluster);
  mret (match info with
        | inl _ => None
        | inr cidr => match ParseCIDR cidr with inl _ => None | inr (_, n) => Some n end
        end).

Definition initServer : m unit :=
  ver ← must (on_st (in_k8s (k_ServerVersion (BootApi := BootApi0))));
  node ← on_proc (Getenv "KUBE_NODE_NAME");
  host ← must (on_st (getKubeNodeLabel node KubeNodeLabelUhostID));
  zone ← must (on_st (zone_label node));
  nodeIp ← must (on_proc (GetNodeIPAddress ""));
  mac ← must (on_proc (GetNodeMacAddress ""));
  env ← on_proc (Getenv "LISTEN_TCP_ADDR");
  on_st (change_srv (set_fields host zone mac (default_tcp nodeIp env)));;
  init_dbs;;
  cidr ← init_cidr;
  modify (put_info ver nodeIp cidr).

(** The new server: the client and the name of the node; its other fields are not set
    yet. *)
Definition new_server (flags : Flags) (client : ApiClient) (node : string) (s : ipamServer H) : ipamServer H :=
  mkServer (networkDB s) ∅ (cooldownDB s) node "" "" "" "" client
    (fg_low flags) (fg_high flags) (fg_calico flags) (fg_cooldown flags).

(** The clients and the server. *)
Definition make_server (flags : Flags) : m unit :=
  cfg ← on_kube GetConfig;
  on_kube (new_client (kube_NewForConfig (BootApi := BootApi0)) cfg);;
  _ ← on_kube GetCRD;
  client ← with_msg "failed to init uapi client" (on_proc NewClient);
  node ← on_proc (Getenv "KUBE_NODE_NAME");
  on_st (change_srv (new_server flags client node)).

Definition remove_socket : m unit :=
  exists_ ← on_files (pathExist IpamdServiceSocket);
  if exists_ : bool then ignore (on_files (os_Remove IpamdServiceSocket)) else mret tt.

Definition start_device_plugin : m unit :=
  ability ← must (on_proc GetAbility);
  if ab_SupportUNI ability then go DevicePluginRoutine else mret tt.

Definition start_listeners (version : error + string) : m unit :=
  must (on_files (net_Listen IpamdServiceSocket));;
  addr ← on_st (srv tcpAddr);
  must (listen_tcp addr);;
  http ← attempt (listen_tcp httpListenAddress);
  go CleanUpOnTermination;;
  go ServeSocket;;
  go (ServeTCP addr);;
  match http with inr _ => go (ServeHTTP httpListenAddress version) | inl _ => mret tt end.

(** [Start] up to the point where it waits for its servers. *)
Definition Start_daemon (flags : Flags) (fuel : nat) : m unit :=
  make_server flags;;
  initServer;;
  version ← attempt (on_proc (ext (ext_CNIVersion (BootApi := BootApi0) cniBinaryPath)));
  with_msg "failed to migrate v1 bolt db" (on_st (migrateV1BoltDB fuel));;
  remove_socket;;
  go WatermarkManager;;
  go Reconcile;;
  start_device_plugin;;
  start_listeners (loadCNIVersion version).

(** [cleanUpOnTermination] after the signal: the manager loop is told to stop, the
    bolt file is closed, the servers stop, the process ends. *)
Definition is_http (r : routine) : bool := match r with ServeHTTP _ _ => true | _ => false end.
Definition is_manager (r : routine) : bool := match r with WatermarkManager => true | _ => false end.
Definition is_server (r : routine) : bool :=
  match r with ServeSocket | ServeTCP _ => true | _ => false end.
Definition stop_routines (p : routine → bool) : m unit :=
  modify (λ b, put_routines (filter (λ r, p r = false) (bt_routines b)) b).
Definition cleanUpOnTermination : m unit :=
  stop_routines is_manager;;
  stop_routines is_http;;
  ignore (on_st (in_db (call (bolt_Close (BootApi := BootApi0)))));;
  stop_routines is_server;;
  panic "os.Exit(0)".
End svc.

(** ** What the steps of the start leave alone *)

(** Opening the file changes no database in it. *)
Class BootLaws (H D K E : Type) `{!BootApi D K E} `{!StoreFrame H D} : Prop := {
  bolt_Open_touches path (h : H) d : only_touches h d (bolt_Open (BootApi := BootApi0) path d).2
}.

(** *** Computations that end *)

Definition ends {S A} (c : M S A) : Prop := ∀ s, (c s).1 ≠ Diverge.

Section ends.
Context {S : Type}.
Lemma ends_ret {A} (a : A) : ends (mret a : M S A).
Proof. done. Qed.
Lemma ends_throw {A} e : ends (throw e : M S A).
Proof. done. Qed.
Lemma ends_panic {A} w : ends (panic w : M S A).
Proof. done. Qed.
Lemma ends_gets {A} (f : S → A) : ends (gets f).
Proof. done. Qed.
Lemma ends_modify (f : S → S) : ends (modify f).
Proof. done. Qed.
Lemma ends_bind {A B} (c : M S A) (k : A → M S B) : ends c → (∀ a, ends (k a)) → ends (x ← c; k x).
Proof.
  intros Hc Hk s. cbv [mbind M_bind]. specialize (Hc s). destruct (c s) as [[] s']; try done. apply Hk.
Qed.
Lemma ends_attempt {A} (c : M S A) : ends c → ends (attempt c).
Proof. intros Hc s. specialize (Hc s). unfold attempt. by destruct (c s) as [[] s']. Qed.
Lemma ends_with_msg {A} msg (c : M S A) : ends c → ends (with_msg msg c).
Proof. intros Hc s. specialize (Hc s). unfold with_msg. by destruct (c s) as [[] s']. Qed.
Lemma ends_zoom {T A} get put (c : M T A) : ends c → ends (zoom get put c : M S A).
Proof. intros Hc s. specialize (Hc (get s)). unfold zoom. by destruct (c (get s)). Qed.
Lemma ends_call {A} (c : Call S A) : ends (call c).
Proof. intros s. unfold call. by destruct (c s) as [[] ?]. Qed.
End ends.

#[local] Ltac solve_ends :=
  intros; repeat first
  [ progress intros
  | apply ends_ret | apply ends_throw | apply ends_panic | apply ends_gets | apply ends_modify
  | apply ends_attempt | apply ends_with_msg | apply ends_call
  | solve [eauto with ends nocore]
  | apply ends_bind | apply ends_zoom
  | match goal with |- ends (match ?x with _ => _ end) => destruct x end
  | match goal with |- ends (if ?x then _ else _) => destruct x end ].
Create HintDb ends.

Section proc_ends.
Context {E : Type} `{!CloudApi E}.
Lemma ends_GetMeta : ends (GetMeta (E := E)).
Proof. unfold GetMeta, ext. solve_ends. Qed.
#[local] Hint Resolve ends_GetMeta : ends.
Lemma ends_CreateCredential : ends (CreateCredential (E := E)).
Proof. unfold CreateCredential, ext, Getenv. solve_ends. Qed.
#[local] Hint Resolve ends_CreateCredential : ends.
Lemma ends_NewClient : ends (NewClient (E := E)).
Proof. unfold NewClient, deref, Getenv. solve_ends. Qed.
#[local] Hint Resolve ends_NewClient : ends.
Lemma ends_GetAbility : ends (GetAbility (E := E)).
Proof. unfold GetAbility, UHostClient, ext. solve_ends. Qed.
Lemma ends_default_dev dev : ends (default_dev (E := E) dev).
Proof. unfold default_dev, GetMasterInterface, deref, ext. solve_ends. Qed.
#[local] Hint Resolve ends_default_dev : ends.
Lemma ends_GetNodeIPAddress dev : ends (GetNodeIPAddress (E := E) dev).
Proof. unfold GetNodeIPAddress, ext. solve_ends. Qed.
Lemma ends_GetNodeMacAddress dev : ends (GetNodeMacAddress (E := E) dev).
Proof. unfold GetNodeMacAddress, ext. solve_ends. Qed.
Lemma ends_VPCClient c : ends (VPCClient (E := E) c).
Proof. unfold VPCClient. solve_ends. Qed.
Lemma ends_UK8SClient c : ends (UK8SClient (E := E) c).
Proof. unfold UK8SClient. solve_ends. Qed.
Lemma ends_Getenv k : ends (Getenv (E := E) k).
Proof. unfold Getenv. solve_ends. Qed.
Lemma ends_ext {A} (c : Call E A) : ends (ext c).
Proof. unfold ext. solve_ends. Qed.
End proc_ends.
#[local] Hint Resolve ends_GetMeta ends_CreateCredential ends_NewClient ends_GetAbility ends_GetNodeIPAddress
  ends_GetNodeMacAddress ends_VPCClient ends_UK8SClient ends_Getenv ends_ext : ends.

Section quiet.
Context {H D K E : Type} `{!Database PodNetwork H D} `{!Database CooldownItem H D}
  `{!CloudApi E} `{!KubeApi K} `{!BootApi D K E}.
#[local] Abbreviation boot := (Boot H D K E).

(** The databases, the routines and the high watermark stay. *)
Definition quiet_st (s s' : St H D K E) : Prop :=
  st_db s' = st_db s ∧
  AvailablePodIPHighWatermark (st_srv s') = AvailablePodIPHighWatermark (st_srv s).
Definition quiet (b b' : boot) : Prop :=
  quiet_st (bt_st b) (bt_st b') ∧ bt_routines b' = bt_routines b.
Definition quietly {A} (c : M boot A) : Prop := ∀ b, quiet b (c b).2 ∧ (c b).1 ≠ Diverge.

Lemma quiet_refl b : quiet b b.
Proof. done. Qed.
Lemma quiet_trans b1 b2 b3 : quiet b1 b2 → quiet b2 b3 → quiet b1 b3.
Proof. intros [[H1 H2] H3] [[G1 G2] G3]. split; [split|]; congruence. Qed.

Lemma quietly_bind {A B} (c : M boot A) (k : A → M boot B) :
  quietly c → (∀ a, quietly (k a)) → quietly (x ← c; k x).
Proof.
  intros Hc Hk b. cbv [mbind M_bind]. specialize (Hc b). destruct (c b) as [[a|e|w|] b'];
    destruct Hc as [Hq Hd]; try done.
  split; [|apply Hk]. eapply quiet_trans; [exact Hq|apply Hk].
Qed.
Lemma quietly_attempt {A} (c : M boot A) : quietly c → quietly (attempt c).
Proof. intros Hc b. destruct (Hc b). unfold attempt. by destruct (c b) as [[] b']. Qed.
Lemma quietly_with_msg {A} msg (c : M boot A) : quietly c → quietly (with_msg msg c).
Proof. intros Hc b. destruct (Hc b). unfold with_msg. by destruct (c b) as [[] b']. Qed.
Lemma quietly_must {A} (c : M boot A) : quietly c → quietly (must c).
Proof.
  intros Hc. apply quietly_bind; [by apply quietly_attempt|]. by intros [].
Qed.
Lemma quietly_on_st {A} (c : M (St H D K E) A) :
  ends c → (∀ s, quiet_st s (c s).2) → quietly (on_st c).
Proof.
  intros He Hc b. unfold on_st, zoom. specialize (Hc (bt_st b)). specialize (He (bt_st b)).
  by destruct (c (bt_st b)).
Qed.
Lemma quietly_on_kube {A} (c : M (KubeClients * K) A) : ends c → quietly (on_kube c).
Proof.
  intros He b. unfold on_kube, zoom. specialize (He (bt_clients b, st_k8s (bt_st b))).
  by destruct (c _) as [o [cl k]].
Qed.
Lemma quietly_on_files {A} (c : M Os A) : ends c → quietly (on_files c).
Proof. intros He b. unfold on_files, zoom. specialize (He (bt_os b)). by destruct (c _). Qed.
Lemma quietly_on_proc {A} (c : M (Proc E) A) : ends c → quietly (on_proc c).
Proof.
  intros He. apply quietly_on_st.
  - intros s. unfold in_proc, zoom. specialize (He (st_proc s)). by destruct (c (st_proc s)).
  - intros s. unfold in_proc, zoom. by destruct (c (st_proc s)).
Qed.

Lemma wp_quietly {A} (c : M boot A) (Q : outcome A → boot → Prop) b :
  quietly c → (∀ o b', quiet b b' → o ≠ Diverge → Q o b') → wp c Q b.
Proof. intros Hc HQ. destruct (Hc b). by apply HQ. Qed.

(** A quiet step of a run that began in [b0]. *)
Lemma wp_quiet_bind {A B} (c : M boot A) (k : A → M boot B) (Q : outcome B → boot → Prop) b0 b :
  quiet b0 b → quietly c →
  (∀ o b', quiet b0 b' → o ≠ Diverge → (∀ a, o ≠ Ok a) → Q o b') →
  (∀ a b', quiet b0 b' → wp (k a) Q b') → wp (x ← c; k x) Q b.
Proof.
  intros Hb Hc Hstop Hk. apply wp_bind, wp_quietly; [done|]. intros o b' Hq Hd.
  assert (quiet b0 b') by by eapply quiet_trans. destruct o; cbn [kont]; try done; first [by apply Hk|by apply Hstop].
Qed.

(** The same for what leaves the server and the databases alone. *)
Lemma leaves_quiet {A} (c : M (St H D K E) A) : leaves same_but_k8s c → ∀ s, quiet_st s (c s).2.
Proof. intros Hc s. destruct (Hc s) as [E1 E2]. split; congruence. Qed.

Lemma leaves_node_label node key : leaves (@same_but_k8s H D K E) (getKubeNodeLabel node key).
Proof. unfold getKubeNodeLabel, getKubeNode. solve_leaves. Qed.
Lemma leaves_zone_label node : leaves (@same_but_k8s H D K E) (zone_label node).
Proof.
  unfold zone_label. apply leaves_bind; [typeclasses eauto|apply leaves_attempt, leaves_node_label|].
  intros []; [apply leaves_node_label|apply leaves_ret; typeclasses eauto].
Qed.
Lemma leaves_cluster : leaves (@same_but_proc H D K E) uapiListUK8SCluster.
Proof. unfold uapiListUK8SCluster. solve_leaves. Qed.
End quiet.

#[local] Ltac solve_quietly :=
  intros; repeat first
  [ progress intros
  | apply quietly_on_kube; solve [solve_ends] | apply quietly_on_proc; solve [solve_ends]
  | apply quietly_on_files; solve [solve_ends]
  | apply quietly_must | apply quietly_attempt | apply quietly_with_msg | apply quietly_bind
  | apply quietly_on_st; [solve [solve_ends]|apply leaves_quiet;
      first [apply leaves_node_label | apply leaves_zone_label | apply leaves_in_k8s]]
  | match goal with |- quietly (match ?x with _ => _ end) => destruct x end
  | match goal with |- quietly (if ?x then _ else _) => destruct x end
  | intros ?; done ].

Section stages.
Context {H D K E : Type} `{!Database PodNetwork H D} `{!Database CooldownItem H D}
  `{!CloudApi E} `{!KubeApi K} `{!BootApi D K E}.
#[local] Abbreviation boot := (Boot H D K E).

Lemma ends_getKubeNodeLabel node key : ends (getKubeNodeLabel node key : M (St H D K E) _).
Proof. unfold getKubeNodeLabel, getKubeNode, in_k8s. solve_ends. Qed.
#[local] Hint Resolve ends_getKubeNodeLabel : ends.
Lemma ends_zone_label node : ends (zone_label node : M (St H D K E) _).
Proof. unfold zone_label. solve_ends. Qed.
Lemma ends_in_k8s {A} (c : Call K A) : ends (in_k8s c : M (St H D K E) _).
Proof. unfold in_k8s. solve_ends. Qed.
Lemma ends_GetConfig : ends (GetConfig (BootApi0 := BootApi0)).
Proof. unfold GetConfig. solve_ends. Qed.
#[local] Hint Resolve ends_zone_label ends_in_k8s ends_GetConfig : ends.
Lemma ends_new_client c b : ends (new_client (K := K) c b).
Proof. unfold new_client. solve_ends. Qed.
#[local] Hint Resolve ends_new_client : ends.
Lemma ends_GetCRD : ends (GetCRD (BootApi0 := BootApi0)).
Proof. unfold GetCRD. solve_ends. Qed.
#[local] Hint Resolve ends_GetCRD : ends.

(** Before the server exists. *)
Lemma make_server_spec flags (b : boot) :
  wp (make_server flags) (λ o b',
    st_db (bt_st b') = st_db (bt_st b) ∧ bt_routines b' = bt_routines b ∧ o ≠ Diverge ∧
    (o = Ok tt → AvailablePodIPHighWatermark (st_srv (bt_st b')) = fg_high flags)) b.
Proof.
  assert (∀ o (b' : boot), quiet b b' → o ≠ Diverge → (∀ a, o ≠ Ok a) →
    st_db (bt_st b') = st_db (bt_st b) ∧ bt_routines b' = bt_routines b ∧ o ≠ Diverge ∧
    (o = Ok tt → AvailablePodIPHighWatermark (st_srv (bt_st b')) = fg_high flags)) as Hstop.
  { intros o b' [[E1 _] E2] Hd Ho. split_and!; try done. intros E0. by destruct (Ho tt). }
  unfold make_server.
  do 5 (eapply (wp_quiet_bind _ _ _ b); [done|solve_quietly|exact Hstop|]; intros ? ? ?).
  apply wp_zoom, wp_modify. match goal with H : quiet b _ |- _ => destruct H as [[E1 _] E2] end. done.
Qed.

(** The fields of the server. *)
Lemma init_fields_spec (b : boot) (k : string → list Z → M boot unit) (Q : outcome unit → boot → Prop) :
  (∀ o b', quiet b b' → o ≠ Diverge → (∀ a, o ≠ Ok a) → Q o b') →
  (∀ ver ip b', quiet b b' → wp (k ver ip) Q b') →
  wp (ver ← must (on_st (in_k8s (k_ServerVersion (BootApi := BootApi0))));
      node ← on_proc (Getenv "KUBE_NODE_NAME");
      host ← must (on_st (getKubeNodeLabel node KubeNodeLabelUhostID));
      zone ← must (on_st (zone_label node));
      nodeIp ← must (on_proc (GetNodeIPAddress ""));
      mac ← must (on_proc (GetNodeMacAddress ""));
      env ← on_proc (Getenv "LISTEN_TCP_ADDR");
      on_st (change_srv (set_fields host zone mac (default_tcp nodeIp env)));;
      k ver nodeIp) Q b.
Proof.
  intros Hstop Hk.
  do 7 (eapply (wp_quiet_bind _ _ _ b); [done|solve_quietly|exact Hstop|]; intros ? ? ?).
  eapply (wp_quiet_bind _ _ _ b); [done| |exact Hstop|by intros; apply Hk].
  apply quietly_on_st; [unfold change_srv; solve_ends|done].
Qed.
End stages.

Section start.
Context {H D K E : Type} `{!Database PodNetwork H D} `{!Database CooldownItem H D}
  `{!StoreFrame H D} `{!DatabaseLaws PodNetwork H D} `{!DatabaseLaws CooldownItem H D}
  `{!CloudApi E} `{!VpcLaws E} `{!KubeApi K} `{!BootApi D K E} `{!BootLaws H D K E}.
#[local] Abbreviation boot := (Boot H D K E).
Implicit Types b : boot.

(** What the bolt file holds before the start: each database has its contents, or was
    not made yet and counts as empty. *)
Definition holds_or_fresh {T} `{!Database T H D} `{!DatabaseLaws T H D} (name : string) (d : D) (x : gmap string T) : Prop :=
  (db_fresh (T := T) (db_handle name) d ∧ x = ∅) ∨ db_holds (db_handle name) d x.

Record stored (pools : string → gmap string PodNetwork) (cool : gmap string CooldownItem)
    (net old : gmap string PodNetwork) (d : D) : Prop := {
  sto_pool sub : bucket_is (pool_bucket sub) d (pools sub);
  sto_cool : holds_or_fresh CooldownDBName d cool;
  sto_net : holds_or_fresh NetworkDBName d net;
  sto_old : bucket_is PoolDBName d old
}.

Lemma holds_or_fresh_frame {T} `{!Database T H D} `{!DatabaseLaws T H D} h name d d' (x : gmap string T) :
  only_touches h d d' → h ≠ db_handle name → holds_or_fresh name d x → holds_or_fresh name d' x.
Proof.
  intros Ht Hne [[Hf ->]|Hh]; [left|right].
  - split; [|done]. by eapply db_fresh_frame.
  - by eapply db_holds_frame.
Qed.

Lemma stored_open pools cool net old path d :
  stored pools cool net old d → stored pools cool net old (bolt_Open (BootApi := BootApi0) path d).2.
Proof.
  intros []. assert (∀ name, ∃ h : H, h ≠ db_handle name ∧ only_touches h d (bolt_Open (BootApi := BootApi0) path d).2) as Hall.
  { intros name. exists (db_handle (name +:+ "x")). split; [|apply bolt_Open_touches].
    intros E0%db_handle_inj. apply (f_equal String.length) in E0. rewrite str_length_app in E0. simpl in E0. lia. }
  split.
  - intros sub. destruct (Hall (pool_bucket sub)) as (h & Hne & Ht). by eapply bucket_is_frame.
  - destruct (Hall CooldownDBName) as (h & Hne & Ht). by eapply holds_or_fresh_frame.
  - destruct (Hall NetworkDBName) as (h & Hne & Ht). by eapply holds_or_fresh_frame.
  - destruct (Hall PoolDBName) as (h & Hne & Ht). by eapply bucket_is_frame.
Qed.

Lemma wp_must {A} (c : M boot A) (Q : outcome A → boot → Prop) b :
  wp c (λ o b', match o with Err _ => Q (Panic "os.Exit(1)") b' | _ => Q o b' end) b → wp (must c) Q b.
Proof.
  intros Hc. unfold must. apply wp_bind, wp_attempt. eapply wp_mono; [exact Hc|]. by intros [] b' Ho.
Qed.

Lemma wp_on_db {A} (c : M D A) (Q : outcome A → boot → Prop) b :
  wp c (λ o d, Q o (put_st (set_db d (bt_st b)) b)) (st_db (bt_st b)) → wp (on_st (in_db c)) Q b.
Proof. intros Hc. unfold on_st. apply wp_zoom, wp_in_db. exact Hc. Qed.

Lemma db_New_holds {T} `{!Database T H D} `{!DatabaseLaws T H D} name (x : gmap string T) d :
  holds_or_fresh name d x →
  wp (db_New (T := T) name) (λ o d', only_touches (db_handle name) d d' ∧
    ((o = Ok (db_handle name) ∧ db_holds (db_handle name) d' x) ∨ ∃ e, o = Err e)) d.
Proof.
  intros Hx. eapply wp_mono; [apply db_New_law|]. intros o d' (Ht & Hkeep & Hcase). split; [done|].
  destruct Hcase as [[-> Hnew]|(e & -> & _)]; [left|right; by exists e]. split; [done|].
  destruct Hx as [[Hf ->]|Hh]; auto.
Qed.

(** The state of the daemon once the databases are open. *)
Definition opened pools cool net old (high : Z) (b : boot) : Prop :=
  ∃ a, rep (bt_st b) a ∧ a_pool a = pools ∧ a_cool a = cool ∧ a_net a = net ∧ a_old a = old ∧
    AvailablePodIPHighWatermark (a_cfg a) = high.

Lemma init_dbs_spec pools cool net old b :
  stored pools cool net old (st_db (bt_st b)) →
  wp init_dbs (λ o b', bt_routines b' = bt_routines b ∧ o ≠ Diverge ∧
    (o = Ok tt → opened pools cool net old (AvailablePodIPHighWatermark (st_srv (bt_st b))) b')) b.
Proof.
  intros Hsto. unfold init_dbs. apply wp_bind, wp_must, wp_on_db, run_wp. intros o d1 Hopen.
  assert (st_db (bt_st b) = st_db (bt_st b)) as _ by done.
  assert (d1 = (bolt_Open (BootApi := BootApi0) storageFile (st_db (bt_st b))).2 ∧ returns o = true) as [-> Ho].
  { unfold BoltHandler, call in Hopen. destruct (bolt_Open _ _) as [[] ?]; injection Hopen as <- <-; done. }
  apply (stored_open _ _ _ _ storageFile) in Hsto. set (d1 := (bolt_Open _ _).2) in *.
  destruct o as [u|e|w|]; [|done..]. cbn [kont]. destruct Hsto as [Hpools Hcool Hnet Hold].
  apply wp_bind, wp_must, wp_on_db. cbn [bt_st put_st st_db set_db].
  eapply wp_mono; [by apply (db_New_holds NetworkDBName net)|].
  intros o d2 (Ht2 & Hcase). destruct Hcase as [[-> Hnet2]|[e ->]]; [|done]. cbn [kont].
  apply wp_bind, wp_must, wp_on_db. cbn [bt_st put_st st_db set_db].
  assert (holds_or_fresh CooldownDBName d2 cool) as Hcool2 by (by eapply holds_or_fresh_frame; [|apply handle_ne|]).
  eapply wp_mono; [by apply (db_New_holds CooldownDBName cool)|].
  intros o d3 (Ht3 & Hcase). destruct Hcase as [[-> Hcool3]|[e ->]]; [|done]. cbn [kont].
  apply wp_zoom, wp_modify. split; [done|]. split; [done|]. intros _.
  assert (∀ name p, name ≠ NetworkDBName → name ≠ CooldownDBName → bucket_is name d1 p → bucket_is name d3 p) as Hb.
  { intros name p H1 H2 Hp. eapply bucket_is_frame; [exact Ht3|by apply handle_ne, not_eq_sym|].
    eapply bucket_is_frame; [exact Ht2|by apply handle_ne, not_eq_sym|done]. }
  set (srv' := set_dbs _ _ _). exists (mkAbs srv' (st_k8s (bt_st b)) pools cool net old).
  split; [|done]. split; cbn; try done.
  - intros sub. apply Hb; [done|done|apply Hpools].
  - by eapply db_holds_frame; [exact Ht3|apply handle_ne|].
  - by apply Hb.
Qed.

Lemma opened_proc pools cool net old high b b' :
  same_but_proc (bt_st b) (bt_st b') → opened pools cool net old high b → opened pools cool net old high b'.
Proof. intros Hs (a & Hr & Ha). exists a. split; [by eapply rep_proc|done]. Qed.

Lemma on_proc_spec {A} (c : M (Proc E) A) (Q : outcome A → boot → Prop) b :
  ends c → (∀ o p, o ≠ Diverge → Q o (put_st (set_proc p (bt_st b)) b)) → wp (on_proc c) Q b.
Proof.
  intros He HQ. unfold on_proc, on_st. apply wp_zoom. unfold in_proc. apply wp_zoom, run_wp.
  intros o p Hrun. apply HQ. specialize (He (st_proc (bt_st b))). by rewrite Hrun in He.
Qed.

Lemma ends_cluster : ends (uapiListUK8SCluster : M (St H D K E) string).
Proof. unfold uapiListUK8SCluster, srv, in_proc. solve_ends. Qed.

Lemma init_cidr_spec (Q : outcome (option IPNet) → boot → Prop) b :
  (∀ x b', same_but_proc (bt_st b) (bt_st b') → bt_routines b' = bt_routines b → Q (Ok x) b') →
  (∀ w b', bt_routines b' = bt_routines b → Q (Panic w) b') →
  wp init_cidr Q b.
Proof.
  intros Hok Hp. unfold init_cidr. apply wp_bind, wp_attempt. unfold on_st. apply wp_zoom, run_wp.
  intros o s Hrun. pose proof (leaves_cluster (bt_st b)) as Hl. rewrite Hrun in Hl.
  pose proof (ends_cluster (bt_st b)) as He. rewrite Hrun in He.
  destruct o; try done; cbn [kont]; by (apply wp_ret, Hok || apply Hp).
Qed.

Lemma initServer_spec pools cool net old b :
  stored pools cool net old (st_db (bt_st b)) →
  wp initServer (λ o b', bt_routines b' = bt_routines b ∧ o ≠ Diverge ∧
    (o = Ok tt → opened pools cool net old (AvailablePodIPHighWatermark (st_srv (bt_st b))) b')) b.
Proof.
  intros Hsto. apply (init_fields_spec b (λ ver nodeIp, init_dbs;; cidr ← init_cidr; modify (put_info ver nodeIp cidr))).
  { intros o b' [_ Hr] Hd Ho. split_and!; [done..|]. intros E0. by destruct (Ho tt). }
  intros ver ip b1 [[Hdb Hhi] Hr1]. apply wp_bind. eapply wp_mono; [apply (init_dbs_spec pools cool net old)|].
  { by rewrite Hdb. }
  intros [[]|e|w|] b2 (Hr2 & Hd2 & Hop); cbn [kont]; try done; try (split_and!; [congruence|done|done]).
  apply wp_bind, init_cidr_spec; cbn [kont].
  - intros x b3 Hs3 Hr3. apply wp_modify. split; [cbn; congruence|]. split; [done|]. intros _.
    rewrite <- Hhi. eapply (opened_proc _ _ _ _ _ b2); [exact Hs3|by apply Hop].
  - intros w b3 Hr3. split_and!; [congruence|done|done].
Qed.

(** The later steps. *)
Definition no_server (rs : list routine) : Prop := Forall (λ r, is_server r = false) rs.

Lemma remove_socket_spec b :
  wp remove_socket (λ o b', o = Ok tt ∧ bt_st b' = bt_st b ∧ bt_routines b' = bt_routines b) b.
Proof.
  assert (∀ A (c : M Os A) (b0 : boot), bt_st (on_files c b0).2 = bt_st b0 ∧ bt_routines (on_files c b0).2 = bt_routines b0 ∧
            (on_files c b0).1 = (c (bt_os b0)).1) as Hf.
  { intros A c b0. unfold on_files, zoom. by destruct (c (bt_os b0)). }
  unfold remove_socket. apply wp_bind.
  assert (wp (on_files (pathExist IpamdServiceSocket)) (λ o b', (∃ x, o = Ok x) ∧ bt_st b' = bt_st b ∧ bt_routines b' = bt_routines b) b) as H1.
  { unfold on_files. apply wp_zoom. unfold pathExist. apply wp_bind, wp_attempt. unfold os_Stat. apply syscall_spec.
    - intros e s _ _. cbn [kont]. apply wp_ret. split; [by eexists|done].
    - intros s _ _. apply wp_bind, wp_gets. cbn [kont].
      destruct (stat (os_disk s) IpamdServiceSocket); cbn [of_sum]; [apply wp_throw|apply wp_ret];
        cbn [kont]; apply wp_ret; (split; [by eexists|done]). }
  eapply wp_mono; [exact H1|]. intros o b1 [[x ->] [E1 E2]]. cbn [kont].
  destruct x; [|by apply wp_ret]. unfold ignore. apply wp_bind, wp_attempt. unfold on_files. apply wp_zoom.
  unfold os_Remove. apply syscall_spec.
  - intros e s _ _. cbn [kont]. by apply wp_ret.
  - intros s _ _. apply wp_bind, wp_gets. cbn [kont]. destruct (os_disk s !! IpamdServiceSocket); cbn [of_option].
    + apply wp_bind, wp_ret. cbn [kont]. by apply wp_modify.
    + apply wp_bind, wp_throw. cbn. by apply wp_ret.
Qed.

Lemma device_plugin_spec b :
  wp start_device_plugin (λ o b',
    match o with
    | Ok _ => same_but_proc (bt_st b) (bt_st b') ∧
              ∃ dp, bt_routines b' = bt_routines b ++ dp ∧ (dp = [] ∨ dp = [DevicePluginRoutine])
    | Err _ | Panic _ => bt_routines b' = bt_routines b
    | Diverge => False
    end) b.
Proof.
  unfold start_device_plugin. apply wp_bind, wp_must, on_proc_spec; [apply ends_GetAbility|].
  intros [ab|e|w|] p Hd; cbn [kont]; try done. destruct (ab_SupportUNI ab).
  - apply wp_modify. split; [done|]. exists [DevicePluginRoutine]. split; [done|by right].
  - apply wp_ret. split; [done|]. exists []. rewrite app_nil_r. split; [done|by left].
Qed.

(** A listener: nothing else of the daemon changes. *)
Definition listened (b b' : boot) : Prop :=
  bt_st b' = bt_st b ∧ bt_routines b' = bt_routines b ∧ bt_tcp b ⊆ bt_tcp b'.

Lemma listen_socket_spec (Q : outcome unit → boot → Prop) b :
  (∀ e b', listened b b' → Q (Err e) b') →
  (∀ b', listened b b' → os_disk (bt_os b') !! IpamdServiceSocket = Some Socket → Q (Ok tt) b') →
  wp (on_files (net_Listen IpamdServiceSocket)) Q b.
Proof.
  intros Hf Hok. unfold on_files. apply wp_zoom. unfold net_Listen. apply syscall_spec.
  { intros e s _ _. by apply Hf. }
  intros s _ _. apply wp_bind, wp_gets. cbn [kont].
  destruct (os_disk s !! IpamdServiceSocket); [apply wp_throw; by apply Hf|].
  apply (change_spec (λ _, True)). intros s' Hd _ _ _. apply Hok; [done|]. cbn. by rewrite Hd, lookup_insert_eq.
Qed.

Lemma listen_tcp_spec addr (Q : outcome unit → boot → Prop) b :
  (∀ e b', listened b b' → os_disk (bt_os b') = os_disk (bt_os b) → Q (Err e) b') →
  (∀ b', listened b b' → os_disk (bt_os b') = os_disk (bt_os b) → addr ∈ bt_tcp b' → Q (Ok tt) b') →
  wp (listen_tcp addr) Q b.
Proof.
  intros Hf Hok. unfold listen_tcp. apply wp_bind. unfold on_files. apply wp_zoom, syscall_spec.
  { intros e s _ [Hd _]. cbn [kont]. by apply Hf. }
  intros s [Hd _] _. apply wp_ret. cbn [kont]. apply wp_bind, wp_gets. cbn [kont].
  case_bool_decide; [apply wp_throw; by apply Hf|]. apply wp_modify. apply Hok; [|done|].
  - split_and!; [done|done|]. cbn. apply list_subseteq_app_l. done.
  - cbn. apply elem_of_app. right. by left.
Qed.

Definition served_post (version : error + string) (b : boot) (o : outcome unit) (b' : boot) : Prop :=
  match o with
  | Ok _ =>
      bt_st b' = bt_st b ∧ os_disk (bt_os b') !! IpamdServiceSocket = Some Socket ∧
      tcpAddr (st_srv (bt_st b)) ∈ bt_tcp b' ∧
      ∃ http, bt_routines b' = bt_routines b ++
          [CleanUpOnTermination; ServeSocket; ServeTCP (tcpAddr (st_srv (bt_st b)))] ++ http ∧
        (http = [] ∨ http = [ServeHTTP httpListenAddress version])
  | Err _ | Panic _ => bt_routines b' = bt_routines b
  | Diverge => False
  end.

Lemma start_listeners_spec version b : wp (start_listeners version) (served_post version b) b.
Proof.
  unfold start_listeners. apply wp_bind, wp_must, listen_socket_spec.
  { intros e b1 (_ & Hr & _). done. }
  intros b1 (Hs1 & Hr1 & Ht1) Hsock. cbn [kont]. apply wp_bind, wp_zoom, wp_srv. cbn [kont].
  rewrite Hs1. set (addr := tcpAddr _). set (b1' := put_st _ b1).
  apply wp_bind, wp_must, listen_tcp_spec.
  { intros e b2 (_ & Hr & _) _. change (bt_routines b2 = bt_routines b). by trans (bt_routines b1'). }
  intros b2 (Hs2 & Hr2 & Ht2) Hd2 Hin. cbn [kont]. apply wp_bind, wp_attempt.
  assert (∀ (r : error + unit) b3, listened b2 b3 → os_disk (bt_os b3) = os_disk (bt_os b2) →
    wp (go CleanUpOnTermination;; go ServeSocket;; go (ServeTCP addr);;
        match r with inr _ => go (ServeHTTP httpListenAddress version) | inl _ => mret tt end)
       (served_post version b) b3) as Hgo.
  { intros r b3 (Hs3 & Hr3 & Ht3) Hd3. unfold go. apply wp_bind, wp_modify. cbn [kont].
    apply wp_bind, wp_modify. cbn [kont]. apply wp_bind, wp_modify. cbn [kont].
    assert (bt_routines b3 = bt_routines b) as Hr by (rewrite Hr3, Hr2; exact Hr1).
    assert (bt_st b3 = bt_st b) as Hst by (by rewrite Hs3, Hs2).
    assert (os_disk (bt_os b3) !! IpamdServiceSocket = Some Socket) as Hk by (by rewrite Hd3, Hd2).
    assert (addr ∈ bt_tcp b3) as Hin3 by by apply Ht3.
    destruct r as [e|u]; [apply wp_ret|apply wp_modify]; unfold served_post; cbn.
    - split_and!; [done..|]. exists []. rewrite Hr, <- !app_assoc. split; [done|by left].
    - split_and!; [done..|]. exists [ServeHTTP httpListenAddress version].
      rewrite Hr, <- !app_assoc. split; [done|by right]. }
  apply listen_tcp_spec; [intros e b3 Hl Hd|intros b3 Hl Hd _].
  - exact (Hgo (inl e) b3 Hl Hd).
  - exact (Hgo (inr tt) b3 Hl Hd).
Qed.

(** ** The start *)

(** The pools after the migration of the v1 database. *)
Definition migrated_pools (a : Abs H K) (pools : string → gmap string PodNetwork) (old : gmap string PodNetwork) :=
  <[pool_of a "" := (migrated a <$> old) ∪ pools (pool_of a "")]> pools.

(** The state of a daemon that serves. *)
Definition ready (pools : string → gmap string PodNetwork) (cool : gmap string CooldownItem)
    (net old : gmap string PodNetwork) (high : Z) (b : boot) : Prop :=
  (∃ a, rep (bt_st b) a ∧ a_pool a = migrated_pools a pools old ∧ a_cool a = cool ∧ a_net a = net ∧
     a_old a = ∅ ∧ AvailablePodIPHighWatermark (a_cfg a) = high) ∧
  os_disk (bt_os b) !! IpamdServiceSocket = Some Socket ∧
  tcpAddr (st_srv (bt_st b)) ∈ bt_tcp b ∧
  ∃ dp version http, bt_routines b = [WatermarkManager; Reconcile] ++ dp ++
      [CleanUpOnTermination; ServeSocket; ServeTCP (tcpAddr (st_srv (bt_st b)))] ++ http ∧
    (dp = [] ∨ dp = [DevicePluginRoutine]) ∧ (http = [] ∨ http = [ServeHTTP httpListenAddress version]).

Definition start_post (pools : string → gmap string PodNetwork) (cool : gmap string CooldownItem)
    (net old : gmap string PodNetwork) (high : Z) (o : outcome unit) (b : boot) : Prop :=
  match o with
  | Ok _ => ready pools cool net old high b
  | Err _ | Panic _ => no_server (bt_routines b)
  | Diverge => False
  end.

Lemma start_migrate_spec fuel pools cool net old high b :
  opened pools cool net old high b → (size old < fuel)%nat →
  wp (on_st (migrateV1BoltDB fuel)) (λ o b', bt_routines b' = bt_routines b ∧
    ((o = Ok tt ∧ ∃ a, rep (bt_st b') a ∧ a_pool a = migrated_pools a pools old ∧ a_cool a = cool ∧ a_net a = net ∧
        a_old a = ∅ ∧ AvailablePodIPHighWatermark (a_cfg a) = high) ∨
     (∃ e, o = Err e))) b.
Proof.
  intros (a & Hr & Hp & Hc & Hn & Ho & Hh) Hf. unfold on_st. apply wp_zoom.
  eapply wp_mono; [apply (migrateV1BoltDB_spec fuel _ a); [done|by rewrite Ho]|].
  intros o s Hcase. split; [done|]. destruct Hcase as [[-> Hr']|He]; [left|by right]. split; [done|].
  eexists. split; [exact Hr'|]. unfold migrated_pools. cbn. rewrite <- Hp, Ho. done.
Qed.

Lemma start_spec flags fuel pools cool net old b :
  stored pools cool net old (st_db (bt_st b)) → (size old < fuel)%nat → bt_routines b = [] →
  wp (Start_daemon flags fuel) (start_post pools cool net old (fg_high flags)) b.
Proof.
  intros Hsto Hf Hr0. unfold Start_daemon. apply wp_bind. eapply wp_mono; [apply make_server_spec|].
  intros [[]|e|w|] b1 (Hdb & Hr1 & Hd & Hhi); cbn [kont start_post]; try done; try (by rewrite Hr1, Hr0; constructor).
  specialize (Hhi eq_refl). apply wp_bind. rewrite <- Hdb in Hsto.
  eapply wp_mono; [by apply (initServer_spec pools cool net old)|].
  intros [[]|e|w|] b2 (Hr2 & Hd2 & Hop); cbn [kont start_post]; try done; try (by rewrite Hr2, Hr1, Hr0; constructor).
  specialize (Hop eq_refl). rewrite Hhi in Hop.
  apply wp_bind, wp_attempt, on_proc_spec; [apply ends_ext|].
  assert (∀ version p, wp (with_msg "failed to migrate v1 bolt db" (on_st (migrateV1BoltDB fuel));;
     remove_socket;; go WatermarkManager;; go Reconcile;; start_device_plugin;;
     start_listeners (loadCNIVersion version))
     (start_post pools cool net old (fg_high flags)) (put_st (set_proc p (bt_st b2)) b2)) as Hrest.
  { intros version p. apply wp_bind, wp_with_msg. eapply wp_mono; [apply (start_migrate_spec fuel pools cool net old); [|done]|].
    { by eapply (opened_proc _ _ _ _ _ b2). }
    intros o b3 (Hr3 & [[-> Ha]|[e ->]]); cbn [kont start_post]; cycle 1.
    { rewrite Hr3. cbn. rewrite Hr2, Hr1, Hr0. constructor. }
    apply wp_bind. eapply wp_mono; [apply remove_socket_spec|]. intros o b4 (-> & Hs4 & Hr4). cbn [kont].
    unfold go. apply wp_bind, wp_modify. cbn [kont]. apply wp_bind, wp_modify. cbn [kont].
    set (b5 := put_routines _ _).
    assert (bt_routines b5 = [WatermarkManager; Reconcile]) as Hr5.
    { unfold b5. cbn. rewrite Hr4, Hr3. cbn. by rewrite Hr2, Hr1, Hr0. }
    assert (bt_st b5 = bt_st b3) as Hs5 by done.
    apply wp_bind. eapply wp_mono; [apply device_plugin_spec|].
    intros [[]|e|w|] b6 H6; cbn [kont start_post]; try done; try (rewrite H6, Hr5; by repeat constructor).
    destruct H6 as [Hs6 (dp & Hr6 & Hdp)].
    eapply wp_mono; [apply start_listeners_spec|].
    intros [[]|e|w|] b7 H7; cbn [served_post start_post] in *; try done;
      try (rewrite H7, Hr6, Hr5; destruct Hdp as [->| ->]; by repeat constructor).
    destruct H7 as (Hs7 & Hk7 & Hin7 & http & Hr7 & Hhttp). split; [|split; [done|]].
    - destruct Ha as (a & Hra & Ha). exists a. split; [|done]. rewrite Hs7. eapply rep_proc; [exact Hs6|by rewrite Hs5].
    - rewrite Hs7. split; [done|]. exists dp, (loadCNIVersion version), http. rewrite Hr7, Hr6, Hr5, <- app_assoc. done. }
  intros o p Hdo. destruct o; cbn [kont start_post]; [apply Hrest|apply Hrest|by cbn; rewrite Hr2, Hr1, Hr0; constructor|done].
Qed.

(** Every address that is stored lies under its key in the pool of its subnet. *)
Definition consistent_store (pools : string → gmap string PodNetwork) (old : gmap string PodNetwork) : Prop :=
  (∀ sub k pn, pools sub !! k = Some pn → k = getReservedIPKey pn ∧ pn_SubnetID pn = sub ∧ sub ≠ "") ∧
  (∀ k pn, old !! k = Some pn → k = getReservedIPKey pn).

Lemma migrated_consistent a pools old :
  consistent_store pools old → a_pool a = migrated_pools a pools old → pool_consistent a.
Proof.
  intros [Hp Ho] Ha sub k pn. rewrite Ha. unfold migrated_pools. set (sub0 := pool_of a "").
  assert (∀ sub k pn, pools sub !! k = Some pn → k = getReservedIPKey pn ∧ pool_of a (pn_SubnetID pn) = sub) as Hp'.
  { intros sub1 k1 pn1 H1. destruct (Hp _ _ _ H1) as (? & -> & Hne). split; [done|]. unfold pool_of.
    by destruct (String.eqb_spec sub1 ""). }
  destruct (decide (sub0 = sub)) as [<-|Hne]; [rewrite fn_lookup_insert|rewrite fn_lookup_insert_ne by done; apply Hp'].
  intros [Hk|[_ Hk]]%lookup_union_Some_raw; [|by apply Hp'].
  rewrite lookup_fmap in Hk. destruct (old !! k) as [pn0|] eqn:E0; [|done]. injection Hk as <-.
  split; [by apply Ho in E0|]. unfold sub0, migrated, pool_of. cbn.
  by destruct (String.eqb_spec (ac_subnetId (srv_uapi (a_cfg a))) "") as [->|].
Qed.

Lemma rep_stored (s : St H D K E) a : rep s a → stored (a_pool a) (a_cool a) (a_net a) (a_old a) (st_db s).
Proof. intros []. split; [done|by right|by right|done]. Qed.
End start.

Section served.
Context {H D K E : Type} `{!Database PodNetwork H D} `{!Database CooldownItem H D}
  `{!StoreFrame H D} `{!DatabaseLaws PodNetwork H D} `{!DatabaseLaws CooldownItem H D}
  `{!KubeApi K} `{!KubeLaws K} `{!CloudApi E} `{!VpcLaws E} `{!GoRuntime E} `{!GoRuntimeLaws E}
  `{!RetryApi} `{!RetryLaws} `{!BootApi D K E} `{!BootLaws H D K E}.

(** C24: The start of the daemon ends: either with an error or a fatal log line, and
    then no server was started; or with a daemon that serves on the socket and on its
    TCP address, after the manager, the reconciliation and perhaps the device plugin
    were started. Its state then represents what the bolt file held, with the addresses
    of the v1 database moved to the pool of the node's own subnet, and from there on
    every sequence of operations of the daemon keeps the databases consistent. *)
Theorem Start_correct flags fuel pools cool net old (b : Boot H D K E) :
  stored pools cool net old (st_db (bt_st b)) → consistent_store pools old →
  (size old < fuel)%nat → 0 ≤ fg_high flags → bt_routines b = [] →
  wp (Start_daemon flags fuel) (λ o b',
    start_post pools cool net old (fg_high flags) o b' ∧
    (o = Ok tt → ∀ s, rtc server_step (bt_st b') s → ∃ a, rep s a ∧ pool_consistent a)) b.
Proof.
  intros Hsto Hcons Hf Hhigh Hr0. eapply wp_mono; [by apply (start_spec flags fuel pools cool net old)|].
  intros o b' Hpost. split; [done|]. intros -> s Hsteps. destruct Hpost as [(a & Hr & Ha & _ & _ & _ & Hh) _].
  destruct (server_steps_ok (bt_st b') s a) as (a' & ? & ? & _); [done|by eapply migrated_consistent|by rewrite Hh|done|].
  by exists a'.
Qed.
End served.

(** ** A node that starts *)

#[global] Instance world_boot : BootApi mem_bolt cluster world := {
  rest_InClusterConfig k := (inr tt, k);
  kube_NewForConfig k := (inr tt, k);
  crd_NewForConfig k := (inr tt, k);
  k_ServerVersion k := (inr "v1.28.2", k);
  bolt_Open _ d := (inr tt, d);
  bolt_Close d := (inr tt, d);
  ext_ListUK8SClusterV2 _ w := (inr ["172.17.0.0/16"], w);
  ext_CNIVersion _ w := (inr "ucloud-uk8s-cnivpc version 1.4.1", w)
}.
#[global] Instance world_boot_laws : BootLaws Bolt mem_bolt cluster world.
Proof. split. intros path h d. apply only_touches_refl. Qed.

Definition boot_cluster : cluster :=
  mkCluster [] [mkNode "node-1" {[KubeNodeLabelUhostID := "uhost-1"; KubeNodeZoneTopologyKey := "cn-bj2-02"]}] ∅ ∅ [].
Definition boot_meta : Metadata :=
  mkMetadata "cn-bj2" "cube-1" "cn-bj2-02" "" [mkMDIface "uni-1" "52:54:00:01:02:03" "subnet-a" "uvnet-1" true] "" [].
Definition boot_world : world :=
  mkWorld 1000 {["KUBE_NODE_NAME" := "node-1"; "UCLOUD_UK8S_CLUSTER_ID" := "uk8s-1"]} (Some boot_meta) [] [] [] None [].
(** A stale socket, and a bolt file with an address in the v1 pool. *)
Definition demo_boot : Boot Bolt mem_bolt cluster world :=
  mkBoot (mkSt demo_server (st_db demo_v1) boot_cluster (mkProc boot_world None false))
    (mkClients false false false false false false)
    (mkOs {[IpamdServiceSocket := Socket]} [] [] 18) [] [] "" [] None.
Definition demo_flags : Flags := mkFlags 3 20 false 30.

Example demo_boots :
  let '(o, b) := Start_daemon demo_flags 2 demo_boot in
  (o, bt_tcp b, bt_routines b) =
  (Ok tt, ["10.0.0.9:7312"; "0.0.0.0:7313"],
   [WatermarkManager; Reconcile; CleanUpOnTermination; ServeSocket; ServeTCP "10.0.0.9:7312";
    ServeHTTP "0.0.0.0:7313" (inr "1.4.1")]).
Proof. vm_compute. reflexivity. Qed.

Lemma Start_witness :
  wp (Start_daemon demo_flags 2) (λ o b',
    start_post (λ sub, default ∅ (demo_pools !! sub)) demo_cool demo_net demo_old 20 o b' ∧
    (o = Ok tt → ∀ s, rtc server_step (bt_st b') s → ∃ a, rep s a ∧ pool_consistent a)) demo_boot ∧
  (Start_daemon demo_flags 2 demo_boot).1 = Ok tt.
Proof.
  split; [|vm_compute; reflexivity].
  apply (Start_correct demo_flags 2 (λ sub, default ∅ (demo_pools !! sub)) demo_cool demo_net demo_old demo_boot).
  - exact (rep_stored _ _ demo_v1_rep).
  - split.
    + intros sub k pn. unfold demo_pools. destruct (decide (sub = "subnet-a")) as [->|Hne].
      * rewrite lookup_singleton_eq. simpl. intros [<- <-]%lookup_singleton_Some. done.
      * rewrite lookup_singleton_ne by done. simpl. by rewrite lookup_empty.
    + intros k pn. unfold demo_old. intros [<- <-]%lookup_singleton_Some. done.
  - vm_compute. lia.
  - vm_compute. discriminate.
  - done.
Defined.

(** ** The end *)

(** The version of the plugin is reported by the HTTP endpoint, or a 503. *)
Example version_reply : version_handler (inr "1.4.1") = HttpJSON "1.4.1".
Proof. done. Qed.
