(* ===== verification/ReleaseIp.v ===== *)
(** The tool that releases one secondary address of the node ([cmd/release-ip]). *)
From S2P Require Export IpamdBase World.

(** ** Definitions *)

Section release.
Context {E : Type} `{!CloudApi E}.

(** The request names neither the zone nor the object; the address is looked for in the
    node's own subnet. *)
Definition tool_request (c : ApiClient) (mac ip : string) : SecondaryIpRequest :=
  mkSecReq None (Some mac) (Some ip) None (Some (ac_vpcId c)) (Some (ac_subnetId c)).

Definition releaseIp (ip : string) : M (Proc E) unit :=
  macAddr ← with_wrap "failed to get mac addr" (GetNodeMacAddress "");
  uapiClient ← with_wrap "failed to init uapi client" NewClient;
  with_wrap "failed to init vpc client" (VPCClient uapiClient);;
  '(_, err) ← ext_total (ext_DeleteSecondaryIp (tool_request uapiClient macAddr ip));
  match err with None => mret tt | Some e => throw e end.
End release.

(** ** Properties *)

Section props.
Context {E : Type} `{!CloudApi E} `{!VpcLaws E}.

Definition addrs (p : Proc E) : gset vpc_addr := vpc_addrs (proc_ext p).

(** The node's MAC address and client, as the run finds them. *)
Definition node_identity (p : Proc E) (mac : string) (c : ApiClient) : Prop :=
  ∃ p1 p2, GetNodeMacAddress "" p = (Ok mac, p1) ∧ NewClient p1 = (Ok c, p2).

(** The address of the request is gone, no other one. *)
Definition only_gone (ip : string) (p p' : Proc E) : Prop :=
  ∃ mac c, node_identity p mac c ∧ addrs p' = addrs p ∖ {[(ac_vpcId c, ac_subnetId c, ip, mac)]}.

Definition address_released (ip : string) (p : Proc E) (o : outcome unit) (p' : Proc E) : Prop :=
  match o with
  | Ok _ => only_gone ip p p'
  | _ => addrs p' = addrs p ∨ only_gone ip p p'
  end.

Lemma pkeeps_GetNodeMacAddress dev : pkeeps (GetNodeMacAddress dev).
Proof.
  unfold GetNodeMacAddress, default_dev. apply pkeeps_bind.
  - destruct (String.eqb dev ""); [apply pkeeps_GetMasterInterface|apply pkeeps_ret].
  - intros d. apply pkeeps_bind; [apply pkeeps_ext, vpc_InterfaceByName_keeps|intros i; apply pkeeps_ret].
Qed.

Lemma wp_keeps_tag {A} (c : M (Proc E) A) (Q : outcome A → Proc E → Prop) p :
  pkeeps c → (∀ o p', c p = (o, p') → addrs p' = addrs p → Q o p') → wp c Q p.
Proof. intros Hc HQ. apply run_wp. intros o p' Hrun. apply HQ; [done|]. specialize (Hc p). by rewrite Hrun in Hc. Qed.

(** The tool deletes at most the address it is given, at the node's own MAC address and
    in its own subnet; when it reports no error the address is gone. *)
Theorem releaseIp_correct ip p : wp (releaseIp ip) (address_released ip p) p.
Proof.
  unfold releaseIp. apply wp_bind, wp_with_wrap, wp_keeps_tag; [apply pkeeps_GetNodeMacAddress|].
  intros [mac|e|w|] p1 Hmac E1; cbn [kont address_released]; try (by left).
  apply wp_bind, wp_with_wrap, wp_keeps_tag; [apply pkeeps_NewClient|].
  intros [c|e|w|] p2 Hc E2; cbn [kont address_released]; try (left; congruence).
  apply wp_bind, wp_with_wrap, wp_keeps_tag; [apply pkeeps_VPCClient|].
  intros [[]|e|w|] p3 _ E3; cbn [kont address_released]; try (left; congruence).
  assert (node_identity p mac c) as Hid by (by exists p1, p2).
  apply wp_bind. unfold ext_total. apply wp_zoom.
  destruct (ext_DeleteSecondaryIp (tool_request c mac ip) (proc_ext p3)) as [[code err] e'] eqn:Hdel.
  unfold wp. rewrite Hdel. cbn [fst snd kont].
  destruct (vpc_Delete_law _ _ _ _ _ _ _ _ _ _ Hdel) as [Hgone|(Hsame & Herr & _)].
  - assert (only_gone ip p (set_ext e' p3)) as Hg.
    { exists mac, c. split; [done|]. unfold addrs in *. cbn. rewrite Hgone. congruence. }
    destruct err; [by right|done].
  - destruct err; [|done]. left. unfold addrs in *. cbn. congruence.
Qed.
End props.

(** The node of the other files. *)
Definition demo_release : Proc world :=
  mkProc (mkWorld 1000 ∅ (Some (mkMetadata "cn-bj2" "uhost-1" "cn-bj2-02" "org-1"
    [mkMDIface "uni-1" "52:54:00:01:02:03" "subnet-a" "uvnet-1" true] "" []))
    [mkIpInfo "10.0.0.50" "52:54:00:01:02:03" "uvnet-1" "subnet-a" "10.0.0.1" "255.255.255.0";
     mkIpInfo "10.0.0.51" "52:54:00:01:02:03" "uvnet-1" "subnet-a" "10.0.0.1" "255.255.255.0"]
    [] [] None []) None false.
Example release_one :
  let '(o, p) := releaseIp "10.0.0.50" demo_release in
  (o, ii_Ip <$> w_ips (proc_ext p)) = (Ok tt, ["10.0.0.51"]).
Proof. vm_compute. reflexivity. Qed.
