(* ===== verification/IpRules.v ===== *)
(** The policy routing rules of a pod address ([cmd/cnivpc/if.go]): traffic to the
    address uses the main table, traffic from an address of a secondary interface
    the table of that interface.

    [RuleApi] is netlink's access to the rules of the kernel, [RuleLaws] what it
    promises: a listing shows all of them, adding inserts one, deleting takes one
    out that agrees with everything the given rule specifies. *)
From S2P Require Export Cloud GoNet.

(** ** Definitions *)

(** [netlink.Rule], as far as the program sets or reads it; -1 is unset. *)
Record IpRule : Type := mkIpRule {
  rl_Priority : Z;
  rl_Table : Z;
  rl_Src : option IPNet;
  rl_Dst : option IPNet;
  rl_Mark : Z;
  rl_Mask : Z
}.

Class RuleApi (T : Type) : Type := {
  nl_RuleList : Call T (list IpRule);
  nl_RuleAdd : IpRule → Call T unit;
  nl_RuleDel : IpRule → Call T unit;
  netlink_NewIPNet : list Z → IPNet
}.

Definition MainTableId : Z := 254.
Definition DstRulePriority : Z := 512.
Definition MarkRulePriority : Z := 1024.
Definition SrcRulePriority : Z := 2048.
Definition defaultConnmark : Z := 128.

(** [rule.Dst != nil && rule.Dst.IP.String() == ip], and the same for the source. *)
Definition net_is (n : option IPNet) (ip : string) : bool :=
  match n with Some n => String.eqb (IP_String (net_IP n)) ip | None => false end.
Definition unset (n : option IPNet) : bool := match n with None => true | Some _ => false end.

(** eth1 => 1001, eth15 => 1015; link names are ASCII. *)
Fixpoint digits_of (s : string) : string :=
  match s with
  | EmptyString => ""
  | String a s' => if is_digit a then String a (digits_of s') else digits_of s'
  end.
Definition ifNameToTableId (s : string) : error + Z :=
  match Atoi (digits_of s) with
  | Some num => inr (1000 + num)
  | None => inl (ExtErr "invalid syntax")
  end.

Section ops.
Context {T : Type} `{!RuleApi T}.

(** The loop of the two functions below: rules that [hit] the address and are not
    [good] are deleted, a good one ends it. *)
Fixpoint find_policy (hit good : IpRule → bool) (rules : list IpRule) : M T bool :=
  match rules with
  | [] => mret false
  | rule :: rules' =>
      if hit rule then
        if good rule then mret true
        else ignore (call (nl_RuleDel rule));; find_policy hit good rules'
      else find_policy hit good rules'
  end.

Definition ensureDstIPRoutePolicy (ip : string) : M T unit :=
  rules ← with_msg "ip rules list error" (call nl_RuleList);
  found ← find_policy (λ r, net_is (rl_Dst r) ip)
            (λ r, (rl_Table r =? MainTableId) && unset (rl_Src r)) rules;
  if found : bool then mret tt else
  with_msg "fail to add ip rule"
    (call (nl_RuleAdd (mkIpRule DstRulePriority MainTableId None
             (Some (netlink_NewIPNet (default [] (ParseIP ip)))) (-1) (-1)))).

Definition ensureSrcIPRoutePolicy (ip ifname : string) : M T unit :=
  match ifNameToTableId ifname with
  | inl _ => throw (Errorf "cannot convert link name to number")
  | inr tableId =>
      rules ← with_msg "ip rules list error" (call nl_RuleList);
      found ← find_policy (λ r, net_is (rl_Src r) ip)
                (λ r, (rl_Table r =? tableId) && unset (rl_Dst r)) rules;
      if found : bool then mret tt else
      with_msg "fail to add ip rule"
        (call (nl_RuleAdd (mkIpRule SrcRulePriority tableId
                 (Some (netlink_NewIPNet (default [] (ParseIP ip)))) None (-1) (-1))))
  end.

Definition cleanup_rule (ip : string) (rule : IpRule) : M T unit :=
  (if net_is (rl_Dst rule) ip
   then with_msg "ip rule del from all to ip err" (call (nl_RuleDel rule)) else mret tt);;
  (if net_is (rl_Src rule) ip
   then with_msg "ip rule del from ip err" (call (nl_RuleDel rule)) else mret tt).

Definition cleanUpIPRoutePolicy (ip : string) : M T unit :=
  rules ← with_msg "ip rules list error" (call nl_RuleList);
  for_range rules (cleanup_rule ip).

Definition is_connmark_rule (rule : IpRule) : bool :=
  (rl_Mask rule =? defaultConnmark) && (rl_Mark rule =? defaultConnmark) &&
  (rl_Table rule =? MainTableId) && (rl_Priority rule =? MarkRulePriority).

Definition ensureConnmarkRule : M T unit :=
  rules ← with_msg "ip rules list error" (call nl_RuleList);
  if existsb is_connmark_rule rules then mret tt
  else call (nl_RuleAdd (mkIpRule MarkRulePriority MainTableId None None defaultConnmark defaultConnmark)).
End ops.

Example table_ids : map ifNameToTableId ["eth1"; "eth15"; "net1eth0"; "eth"]
  = [inr 1001; inr 1015; inr 1010; inl (ExtErr "invalid syntax")].
Proof. reflexivity. Qed.

(** ** The rules of the kernel *)

(** What a listing shows of a rule: networks by their printed address. *)
Definition net_text (n : option IPNet) : option string := (λ n, IP_String (net_IP n)) <$> n.
Definition rule_key (r : IpRule) : Z * Z * option string * option string * Z * Z :=
  (rl_Priority r, rl_Table r, net_text (rl_Src r), net_text (rl_Dst r), rl_Mark r, rl_Mask r).

(** Deleting [r] may take out [r']: they agree on all that [r] specifies. *)
Definition covers (r r' : IpRule) : Prop :=
  (rl_Priority r = -1 ∨ rl_Priority r = rl_Priority r') ∧
  (rl_Table r = 0 ∨ rl_Table r = rl_Table r') ∧
  (rl_Src r = None ∨ net_text (rl_Src r) = net_text (rl_Src r')) ∧
  (rl_Dst r = None ∨ net_text (rl_Dst r) = net_text (rl_Dst r')) ∧
  (rl_Mark r = -1 ∨ rl_Mark r = rl_Mark r') ∧
  (rl_Mask r = -1 ∨ rl_Mask r = rl_Mask r').

Class RuleLaws (T : Type) `{!RuleApi T} : Type := {
  ip_rules : T → list IpRule;
  NewIPNet_IP ip : net_IP (netlink_NewIPNet ip) = ip;
  RuleList_keeps t : ip_rules (nl_RuleList t).2 = ip_rules t;
  RuleList_law t l : (nl_RuleList t).1 = inr l → l = ip_rules t;
  RuleAdd_law r t :
    (∃ e, (nl_RuleAdd r t).1 = inl e ∧ ip_rules (nl_RuleAdd r t).2 = ip_rules t) ∨
    ((nl_RuleAdd r t).1 = inr tt ∧ ∃ l1 l2 r', ip_rules t = l1 ++ l2 ∧ rule_key r' = rule_key r ∧
       ip_rules (nl_RuleAdd r t).2 = l1 ++ r' :: l2);
  RuleDel_law r t :
    (∃ e, (nl_RuleDel r t).1 = inl e ∧ ip_rules (nl_RuleDel r t).2 = ip_rules t) ∨
    ((nl_RuleDel r t).1 = inr tt ∧ ∃ l1 l2 r', ip_rules t = l1 ++ r' :: l2 ∧ covers r r' ∧
       ip_rules (nl_RuleDel r t).2 = l1 ++ l2)
}.

(** ** Lemmas *)

(** The rules of an address, and the others. *)
Definition about (ip : string) (r : IpRule) : Prop := net_is (rl_Dst r) ip = true ∨ net_is (rl_Src r) ip = true.
#[global] Instance about_dec ip r : Decision (about ip r).
Proof. unfold about. apply _. Defined.
Definition others (ip : string) (l : list IpRule) : list IpRule := filter (λ r, ¬ about ip r) l.

Lemma net_is_text n ip : net_is n ip = true ↔ net_text n = Some ip.
Proof.
  unfold net_is, net_text. destruct n; simpl; [|done]. rewrite String.eqb_eq. naive_solver.
Qed.

Lemma covers_dst r r' ip : covers r r' → net_is (rl_Dst r) ip = true → net_is (rl_Dst r') ip = true.
Proof. rewrite !net_is_text. intros (_ & _ & _ & [Hn|Hn] & _); rewrite Hn; [done|]. congruence. Qed.
Lemma covers_src r r' ip : covers r r' → net_is (rl_Src r) ip = true → net_is (rl_Src r') ip = true.
Proof. rewrite !net_is_text. intros (_ & _ & [Hn|Hn] & _); rewrite Hn; [done|]. congruence. Qed.
Lemma covers_about r r' ip : covers r r' → about ip r → about ip r'.
Proof. intros Hc [?|?]; [left; by eapply covers_dst|right; by eapply covers_src]. Qed.

Section rules.
Context {T : Type} `{!RuleApi T, !RuleLaws T}.
Implicit Types t : T.

Lemma wp_RuleList (Q : outcome (list IpRule) → T → Prop) t :
  (∀ t', ip_rules t' = ip_rules t → Q (Ok (ip_rules t)) t') →
  (∀ e t', ip_rules t' = ip_rules t → Q (Err e) t') →
  wp (call nl_RuleList) Q t.
Proof.
  intros Hok Herr. pose proof (RuleList_keeps t) as Hk. pose proof (RuleList_law t) as Hl.
  unfold wp, call. destruct (nl_RuleList t) as [[e|l] t']; simpl in *; [by apply Herr|].
  rewrite (Hl l eq_refl). by apply Hok.
Qed.

(** A deletion of a rule about [ip] leaves the others and takes at least one. *)
Lemma wp_RuleDel ip r (Q : outcome unit → T → Prop) t :
  about ip r →
  (∀ t' l1 l2 r', ip_rules t = l1 ++ r' :: l2 → ip_rules t' = l1 ++ l2 → covers r r' → about ip r' → Q (Ok tt) t') →
  (∀ e t', ip_rules t' = ip_rules t → Q (Err e) t') →
  wp (call (nl_RuleDel r)) Q t.
Proof.
  intros Ha Hok Herr. pose proof (RuleDel_law r t) as Hd. unfold wp, call.
  destruct (nl_RuleDel r t) as [[e|[]] t']; simpl in *.
  - destruct Hd as [(e' & [= <-] & Hd)|[[=] _]]. by apply Herr.
  - destruct Hd as [(e' & [=] & _)|[_ (l1 & l2 & r' & H1 & Hc & H2)]].
    eapply Hok; eauto using covers_about.
Qed.

Lemma wp_RuleAdd r (Q : outcome unit → T → Prop) t :
  (∀ t' l1 l2 r', ip_rules t = l1 ++ l2 → rule_key r' = rule_key r → ip_rules t' = l1 ++ r' :: l2 → Q (Ok tt) t') →
  (∀ e t', ip_rules t' = ip_rules t → Q (Err e) t') →
  wp (call (nl_RuleAdd r)) Q t.
Proof.
  intros Hok Herr. pose proof (RuleAdd_law r t) as Hd. unfold wp, call.
  destruct (nl_RuleAdd r t) as [[e|[]] t']; simpl in *.
  - destruct Hd as [(e' & [= <-] & Hd)|[[=] _]]. by apply Herr.
  - destruct Hd as [(e' & [=] & _)|[_ (l1 & l2 & r' & H1 & Hc & H2)]]. by eapply Hok.
Qed.

Lemma others_app ip l1 l2 : others ip (l1 ++ l2) = others ip l1 ++ others ip l2.
Proof. apply filter_app. Qed.
Lemma others_skip ip l1 l2 r : about ip r → others ip (l1 ++ r :: l2) = others ip (l1 ++ l2).
Proof. intros Ha. rewrite !others_app. unfold others at 2. by rewrite filter_cons_False by (by intros []). Qed.

Definition pending (ip : string) (l : list IpRule) : nat := length (filter (about ip) l).
Lemma pending_skip ip l1 l2 r : about ip r → pending ip (l1 ++ r :: l2) = S (pending ip (l1 ++ l2)).
Proof.
  intros Ha. unfold pending. rewrite !filter_app, filter_cons_True by done. rewrite !length_app. simpl. lia.
Qed.

(** *** Cleaning up *)

Lemma cleanup_rule_spec ip r t :
  wp (cleanup_rule ip r) (λ o t', returns o = true ∧ others ip (ip_rules t') = others ip (ip_rules t) ∧
    (pending ip (ip_rules t') ≤ pending ip (ip_rules t))%nat ∧
    (o = Ok tt → about ip r → (pending ip (ip_rules t') < pending ip (ip_rules t))%nat)) t.
Proof.
  unfold cleanup_rule. wp_step.
  apply (wp_mono _ (λ o t', returns o = true ∧ others ip (ip_rules t') = others ip (ip_rules t) ∧
    (pending ip (ip_rules t') ≤ pending ip (ip_rules t))%nat ∧
    (o = Ok tt → net_is (rl_Dst r) ip = true → (pending ip (ip_rules t') < pending ip (ip_rules t))%nat))).
  - destruct (net_is (rl_Dst r) ip) eqn:Ed; [|by wp_steps]. wp_step.
    apply (wp_RuleDel ip); [by left| |].
    + intros t' l1 l2 r' -> -> _ Hr'. rewrite others_skip, pending_skip by done. split_and!; auto; intros; lia.
    + intros e t' ->. split_and!; auto; done.
  - intros [[]|e| |] t1 (Hret & Ho & Hp & Hlt); [|by cbn [kont]; split_and!|done|done]; cbn [kont].
    destruct (net_is (rl_Src r) ip) eqn:Es.
    + wp_step. apply (wp_RuleDel ip); [by right| |].
      * intros t' l1 l2 r' E1 E2 _ Hr'. rewrite E1 in *. rewrite E2. rewrite others_skip, pending_skip in * by done.
        split_and!; auto; intros; lia.
      * intros e t' ->. split_and!; auto; done.
    + wp_steps. split_and!; auto. intros _ [Hd|Hs]; [auto|congruence].
Qed.

Lemma cleanup_loop_spec ip l t :
  wp (for_range l (cleanup_rule ip)) (λ o t', returns o = true ∧
    others ip (ip_rules t') = others ip (ip_rules t) ∧
    (o = Ok tt → (pending ip (ip_rules t') ≤ pending ip (ip_rules t) - pending ip l)%nat)) t.
Proof.
  revert t. induction l as [|r l IH]; intros t; simpl.
  { wp_steps. split_and!; auto. intros _. unfold pending at 3. simpl. lia. }
  wp_step. wp_use cleanup_rule_spec as (Hret & Ho & Hp & Hlt).
  destruct o as [[]|e| |]; [|by cbn [kont]; split_and!|done|done]; cbn [kont].
  wp_use IH as (Hret2 & Ho2 & Hp2). rewrite Ho2, Ho. split_and!; try done.
  intros ->. specialize (Hp2 eq_refl). specialize (Hlt eq_refl).
  unfold pending in Hp2 |- * at 3. rewrite filter_cons. case_decide as Ha; simpl.
  - specialize (Hlt Ha). unfold pending in *. lia.
  - unfold pending in *. lia.
Qed.

Lemma pending_0 ip l r : (pending ip l ≤ 0)%nat → r ∈ l → ¬ about ip r.
Proof.
  intros Hp Hr Ha. unfold pending in Hp. destruct (filter (about ip) l) as [|x xs] eqn:E; [|simpl in Hp; lia].
  assert (r ∈ filter (about ip) l) as Hin by (by apply list_elem_of_filter). rewrite E in Hin. by apply elem_of_nil in Hin.
Qed.

(** *** Ensuring a rule *)

(** Deleting a rule that is not good does not take a good one out. *)
Definition keeps_good (hit good : IpRule → bool) (rules : list IpRule) : Prop :=
  ∀ r r', r ∈ rules → hit r = true → good r = false → covers r r' → good r' = false.

Lemma find_policy_spec ip hit good l t :
  (∀ r, hit r = true → about ip r) → keeps_good hit good l →
  (∀ r, r ∈ l → hit r = true → good r = true → r ∈ ip_rules t) →
  wp (find_policy hit good l) (λ o t', others ip (ip_rules t') = others ip (ip_rules t) ∧
    ∃ b, o = Ok b ∧ (b = true → ∃ r, r ∈ ip_rules t' ∧ hit r = true ∧ good r = true)) t.
Proof.
  intros Hhit. revert t. induction l as [|r l IH]; intros t Hg Hin; simpl.
  { wp_steps. split; [done|]. by exists false. }
  assert (keeps_good hit good l) as Hg'.
  { intros x x' Hx. apply Hg. by apply list_elem_of_further. }
  assert (∀ x, x ∈ l → hit x = true → good x = true → x ∈ ip_rules t) as Hin'.
  { intros x Hx. apply Hin. by apply list_elem_of_further. }
  destruct (hit r) eqn:Er; [|by apply IH]. destruct (good r) eqn:Egr.
  { wp_steps. split; [done|]. exists true. split; [done|]. intros _. exists r.
    split; [apply Hin; [apply list_elem_of_here|done|done]|done]. }
  do 4 wp_step. apply (wp_RuleDel ip); [by apply Hhit|..]; cbn [kont].
  - intros t' l1 l2 r' E1 E2 Hc Ha. wp_step. cbn [kont]. eapply wp_mono.
    + apply IH; [done|]. intros x Hx Hhx Hgx. specialize (Hin' x Hx Hhx Hgx).
      rewrite E1 in Hin'. rewrite E2. rewrite elem_of_app, elem_of_cons in Hin'. rewrite elem_of_app.
      destruct Hin' as [?|[->|?]]; [by left| |by right].
      rewrite (Hg r r') in Hgx; [discriminate|apply list_elem_of_here|done..].
    + intros o t2 [Ho Hb]. split; [|done]. by rewrite Ho, E1, E2, others_skip.
  - intros e t' E. wp_step. cbn [kont]. eapply wp_mono.
    + apply IH; [done|]. by rewrite E.
    + intros o t2 [Ho Hb]. split; [|done]. by rewrite Ho, E.
Qed.

(** Listed rules of the address name a table. *)
Definition tables_named (ip : string) (l : list IpRule) : Prop := ∀ r, r ∈ l → about ip r → rl_Table r ≠ 0.

Lemma unset_text n : unset n = true ↔ net_text n = None.
Proof. by destruct n. Qed.

Lemma keeps_good_dst ip l :
  tables_named ip l →
  keeps_good (λ r, net_is (rl_Dst r) ip) (λ r, (rl_Table r =? MainTableId) && unset (rl_Src r)) l.
Proof.
  intros Ht r r' Hr Hhit Hbad (_ & Htb & Hs & _). specialize (Ht r Hr (or_introl Hhit)).
  destruct Htb as [?|Htb]; [done|]. rewrite <- Htb. apply andb_false_iff in Hbad as [->|Hbad]; [done|].
  apply andb_false_iff. right. destruct Hs as [Hs|Hs]; [by rewrite Hs in Hbad|].
  destruct (rl_Src r), (rl_Src r'); done.
Qed.

Lemma keeps_good_src ip tableId l :
  tables_named ip l →
  keeps_good (λ r, net_is (rl_Src r) ip) (λ r, (rl_Table r =? tableId) && unset (rl_Dst r)) l.
Proof.
  intros Ht r r' Hr Hhit Hbad (_ & Htb & _ & Hs & _). specialize (Ht r Hr (or_intror Hhit)).
  destruct Htb as [?|Htb]; [done|]. rewrite <- Htb. apply andb_false_iff in Hbad as [->|Hbad]; [done|].
  apply andb_false_iff. right. destruct Hs as [Hs|Hs]; [by rewrite Hs in Hbad|].
  destruct (rl_Dst r), (rl_Dst r'); done.
Qed.

(** An address in the form in which the kernel's rules are printed. *)
Definition canonical_ip (ip : string) : Prop := IP_String (default [] (ParseIP ip)) = ip.

Lemma NewIPNet_text ip : canonical_ip ip → net_text (Some (netlink_NewIPNet (default [] (ParseIP ip)))) = Some ip.
Proof. intros Hip. unfold net_text. simpl. by rewrite NewIPNet_IP, Hip. Qed.

Lemma ensureDst_spec ip t :
  canonical_ip ip → tables_named ip (ip_rules t) →
  wp (ensureDstIPRoutePolicy ip) (λ o t', returns o = true ∧
    others ip (ip_rules t') = others ip (ip_rules t) ∧
    (o = Ok tt → ∃ r, r ∈ ip_rules t' ∧ net_is (rl_Dst r) ip = true ∧ rl_Table r = MainTableId ∧ rl_Src r = None)) t.
Proof.
  intros Hip Ht. unfold ensureDstIPRoutePolicy. do 2 wp_step. apply wp_RuleList; intros; cbn [kont]; [|rewrite H; by split_and!].
  wp_step. eapply wp_mono.
  { apply (find_policy_spec ip); [by left|by apply keeps_good_dst|]. by rewrite H. }
  intros o t1 (Ho & b & -> & Hb). rewrite H in Ho. cbn [kont]. destruct b.
  - wp_steps. split_and!; auto. intros _. destruct (Hb eq_refl) as (r & Hr & Hd & [Htb Hs]%andb_true_iff).
    exists r. split_and!; try done; [by apply Z.eqb_eq|by destruct (rl_Src r)].
  - wp_step. apply wp_RuleAdd; [|intros e t2 E; rewrite E; by split_and!].
    intros t2 l1 l2 r' E1 [= Hp Htb Hs Hd Hm Hk] E2.
    assert (net_is (rl_Dst r') ip = true) as Hdst.
    { apply net_is_text. rewrite Hd. by apply (NewIPNet_text ip). }
    split; [done|]. split.
    { rewrite <- Ho, E1, E2. apply others_skip. by left. }
    intros _. exists r'. rewrite E2. split; [set_solver|]. split_and!; try done. by destruct (rl_Src r').
Qed.

Lemma ensureSrc_spec ip ifname t :
  canonical_ip ip → tables_named ip (ip_rules t) →
  wp (ensureSrcIPRoutePolicy ip ifname) (λ o t', returns o = true ∧
    others ip (ip_rules t') = others ip (ip_rules t) ∧
    (o = Ok tt → ∃ r, r ∈ ip_rules t' ∧ net_is (rl_Src r) ip = true ∧
       ifNameToTableId ifname = inr (rl_Table r) ∧ rl_Dst r = None)) t.
Proof.
  intros Hip Ht. unfold ensureSrcIPRoutePolicy. destruct (ifNameToTableId ifname) as [e|tableId]; [by wp_steps|].
  do 2 wp_step. apply wp_RuleList; intros; cbn [kont]; [|rewrite H; by split_and!].
  wp_step. eapply wp_mono.
  { apply (find_policy_spec ip); [by right|by apply keeps_good_src|]. by rewrite H. }
  intros o t1 (Ho & b & -> & Hb). rewrite H in Ho. cbn [kont]. destruct b.
  - wp_steps. split_and!; auto. intros _. destruct (Hb eq_refl) as (r & Hr & Hd & [Htb Hs]%andb_true_iff).
    exists r. split_and!; try done; [by apply Z.eqb_eq in Htb as ->|by destruct (rl_Dst r)].
  - wp_step. apply wp_RuleAdd; [|intros e t2 E; rewrite E; by split_and!].
    intros t2 l1 l2 r' E1 [= Hp Htb Hs Hd Hm Hk] E2.
    assert (net_is (rl_Src r') ip = true) as Hsrc.
    { apply net_is_text. rewrite Hs. by apply (NewIPNet_text ip). }
    split; [done|]. split.
    { rewrite <- Ho, E1, E2. apply others_skip. by right. }
    intros _. exists r'. rewrite E2. split; [set_solver|]. split_and!; try done; [by rewrite Htb|].
    by destruct (rl_Dst r').
Qed.

(** ** Theorems *)

(** Ensuring the policy rules of a pod address leaves the rules of other addresses
    as they are and, on success, there is a rule to the address into the main table and
    one from it into the table of the interface. *)
Theorem ensure_policies_correct ip ifname t :
  canonical_ip ip → tables_named ip (ip_rules t) →
  wp (ensureDstIPRoutePolicy ip) (λ o t', returns o = true ∧
    others ip (ip_rules t') = others ip (ip_rules t) ∧
    (o = Ok tt → ∃ r, r ∈ ip_rules t' ∧ net_is (rl_Dst r) ip = true ∧ rl_Table r = MainTableId ∧ rl_Src r = None)) t ∧
  wp (ensureSrcIPRoutePolicy ip ifname) (λ o t', returns o = true ∧
    others ip (ip_rules t') = others ip (ip_rules t) ∧
    (o = Ok tt → ∃ r, r ∈ ip_rules t' ∧ net_is (rl_Src r) ip = true ∧
       ifNameToTableId ifname = inr (rl_Table r) ∧ rl_Dst r = None)) t.
Proof. intros Hip Ht. split; [by apply ensureDst_spec|by apply ensureSrc_spec]. Qed.

(** Cleaning up takes out every rule from or to the address, and no other. *)
Theorem cleanUpIPRoutePolicy_correct ip t :
  wp (cleanUpIPRoutePolicy ip) (λ o t', returns o = true ∧
    others ip (ip_rules t') = others ip (ip_rules t) ∧
    (o = Ok tt → ∀ r, r ∈ ip_rules t' → net_is (rl_Dst r) ip = false ∧ net_is (rl_Src r) ip = false)) t.
Proof.
  unfold cleanUpIPRoutePolicy. do 2 wp_step. apply wp_RuleList; intros; cbn [kont]; [|rewrite H; by split_and!].
  wp_use cleanup_loop_spec as (Hret & Ho & Hp). rewrite Ho, H. split_and!; try done.
  intros -> r Hr. specialize (Hp eq_refl). rewrite H in Hp. apply (pending_0 ip) in Hr; [|lia].
  unfold about in Hr. destruct (net_is (rl_Dst r) ip), (net_is (rl_Src r) ip); naive_solver.
Qed.

(** ensureConnmarkRule is idempotent. *)
Lemma ensureConnmarkRule_spec t :
  wp ensureConnmarkRule (λ o t', returns o = true ∧
    (∀ r, r ∈ ip_rules t → r ∈ ip_rules t') ∧
    (o = Ok tt → existsb is_connmark_rule (ip_rules t') = true) ∧
    (existsb is_connmark_rule (ip_rules t) = true → ip_rules t' = ip_rules t)) t.
Proof.
  unfold ensureConnmarkRule. do 2 wp_step. apply wp_RuleList; intros t' E; cbn [kont].
  2:{ intros ->. split_and!; auto; done. }
  destruct (existsb is_connmark_rule (ip_rules t)) eqn:Ex.
  { wp_steps. split_and!; auto; [by rewrite E|by rewrite E]. }
  apply wp_RuleAdd; [|intros e t2 ->; rewrite E; split_and!; auto; done].
  intros t2 l1 l2 r' E1 [= Hp Htb Hs Hd Hm Hk] E2. rewrite <- E, E1, E2. split_and!; [done|set_solver| |].
  - intros _. apply existsb_exists. exists r'. split; [apply list_elem_of_In; set_solver|].
    unfold is_connmark_rule. by rewrite Hp, Htb, Hm, Hk.
  - rewrite E, E1 in *. congruence.
Qed.
End rules.

(** ** A kernel with nothing but rules *)

#[global] Instance rule_list_api : RuleApi (list IpRule) := {
  nl_RuleList l := (inr l, l);
  nl_RuleAdd r l := (inr tt, l ++ [r]);
  nl_RuleDel r l :=
    match list_find (λ r', rule_key r' = rule_key r) l with
    | Some (i, _) => (inr tt, delete i l)
    | None => (inl (ExtErr "no such process"), l)
    end;
  netlink_NewIPNet ip := mkIPNet ip [255; 255; 255; 255]
}.

#[global] Instance rule_list_laws : RuleLaws (list IpRule).
Proof.
  refine {| ip_rules := λ l, l |}; simpl; auto.
  - by intros t l [= ->].
  - intros r t. right. split; [done|]. exists t, [], r. by rewrite app_nil_r.
  - intros r t. destruct (list_find _ t) as [[i r']|] eqn:E; [right|left; eauto].
    apply list_find_Some in E as (Hi & Hk & _). split; [done|].
    exists (take i t), (drop (S i) t), r'. split_and!.
    + by rewrite take_drop_middle.
    + injection Hk as H1 H2 H3 H4 H5 H6. unfold covers. by rewrite H1, H2, H3, H4, H5, H6; auto 10.
    + apply delete_take_drop.
Defined.

Definition demo_ip_rules : list IpRule :=
  [mkIpRule 0 255 None None (-1) (-1);
   mkIpRule 2048 1002 (Some (mkIPNet [10; 9; 0; 7] [255; 255; 255; 255])) None (-1) (-1);
   mkIpRule 512 1002 None (Some (mkIPNet [10; 9; 0; 7] [255; 255; 255; 255])) (-1) (-1);
   mkIpRule 32766 254 None None (-1) (-1)].

Lemma ensure_policies_witness :
  wp (ensureDstIPRoutePolicy "10.9.0.7") (λ o t', returns o = true ∧
    others "10.9.0.7" (ip_rules t') = others "10.9.0.7" (ip_rules demo_ip_rules) ∧
    (o = Ok tt → ∃ r, r ∈ ip_rules t' ∧ net_is (rl_Dst r) "10.9.0.7" = true ∧ rl_Table r = MainTableId ∧ rl_Src r = None))
    demo_ip_rules.
Proof.
  apply (ensure_policies_correct (T := list IpRule) "10.9.0.7" "eth2" demo_ip_rules); [reflexivity|].
  intros r Hr _. unfold demo_ip_rules in Hr. simpl in Hr.
  repeat (apply elem_of_cons in Hr as [->|Hr]; [discriminate|]). by apply elem_of_nil in Hr.
Defined.

Example add_then_clean :
  (ensureDstIPRoutePolicy "10.9.0.7";; ensureSrcIPRoutePolicy "10.9.0.7" "eth1";; cleanUpIPRoutePolicy "10.9.0.7") demo_ip_rules
  = (Ok tt, [mkIpRule 0 255 None None (-1) (-1); mkIpRule 32766 254 None None (-1) (-1)]).
Proof. reflexivity. Qed.
