(* ===== verification/GoNetProps.v ===== *)
(** Addresses and their texts: [ParseIP] yields bytes, and an IPv4 address is
    what parsing its text gives. *)
From S2P Require Export GoNet.
From Stdlib Require Import Ascii.

Definition is_octet (v : Z) : Prop := 0 ≤ v < 256.

Lemma digits_val_nonneg s acc v : 0 ≤ acc → digits_val s acc = Some v → 0 ≤ v.
Proof.
  revert acc. induction s as [|a s IH]; simpl; intros acc Ha H; [by injection H as <-|].
  destruct (is_digit a) eqn:E; [|done]. eapply IH; [|exact H].
  unfold is_digit in E. apply andb_true_iff in E as [E%N.leb_le _]. lia.
Qed.

Lemma ipv4_field_octet f v : ipv4_field f = Some v → is_octet v.
Proof.
  intros H. assert (∃ x, digits_val f 0 = Some x ∧ (if x <=? 255 then Some x else None) = Some v) as (x & Hd & Hv).
  { assert ((if (String.length f <=? 3)%nat
             then x ← digits_val f 0; if x <=? 255 then Some x else None else None) = Some v) as H'.
    { destruct f as [|a f]; [done|]. unfold ipv4_field in H.
      destruct a as [[] [] [] [] [] [] [] []], f; try exact H; done. }
    destruct (String.length f <=? 3)%nat; [|done]. by apply bind_Some in H'. }
  apply digits_val_nonneg in Hd; [|done]. destruct (Z.leb_spec x 255); [|done].
  injection Hv as <-. unfold is_octet. lia.
Qed.

Lemma parseIPv4_octets s q : parseIPv4 s = Some q → length q = 4%nat ∧ Forall is_octet q.
Proof.
  unfold parseIPv4. destruct (Split s "."%char) as [|a [|b [|c [|d [|]]]]]; try done. intros H.
  apply bind_Some in H as (va & Ha%ipv4_field_octet & H). apply bind_Some in H as (vb & Hb%ipv4_field_octet & H).
  apply bind_Some in H as (vc & Hc%ipv4_field_octet & H). apply bind_Some in H as (vd & Hd%ipv4_field_octet & [= <-]).
  split; [done|]. by repeat apply Forall_cons_2.
Qed.

Lemma hex_val_bounds a v : hex_val a = Some v → 0 ≤ v < 16.
Proof. unfold hex_val. intros H. repeat case_match; simplify_eq; lia. Qed.

Lemma hex_group_range s n acc k v r :
  hex_group s n acc = (k, v, r) → 0 ≤ acc → (n ≤ k)%nat ∧ 0 ≤ v < (acc + 1) * 16 ^ (Z.of_nat (k - n)).
Proof.
  revert n acc. induction s as [|a s IH]; simpl; intros n acc H Ha.
  { injection H as <- <- <-. rewrite Nat.sub_diag. change (16 ^ Z.of_nat 0) with 1. lia. }
  destruct (hex_val a) as [x|] eqn:E.
  - apply hex_val_bounds in E. destruct (IH _ _ H) as [Hk Hv]; [lia|]. split; [lia|].
    replace (Z.of_nat (k - n)) with (1 + Z.of_nat (k - S n)) by lia. rewrite Z.pow_add_r by lia.
    pose proof (Z.pow_pos_nonneg 16 (Z.of_nat (k - S n))). nia.
  - injection H as <- <- <-. rewrite Nat.sub_diag. change (16 ^ Z.of_nat 0) with 1. lia.
Qed.

Lemma group_octets v : 0 ≤ v < 65536 → Forall is_octet [v / 256; v mod 256].
Proof. intros H. repeat constructor; unfold is_octet; Z.to_euclidean_division_equations; lia. Qed.

Lemma ipv6_groups_octets fuel s ip ell ip' ell' :
  ipv6_groups fuel s ip ell = Some (ip', ell') → Forall is_octet ip → Forall is_octet ip'.
Proof.
  revert s ip ell. induction fuel as [|fuel IH]; [done|]. intros s ip ell H Hip. cbn [ipv6_groups] in H.
  destruct (16 <=? length ip)%nat; [by case_match; simplify_eq|].
  destruct (hex_group s 0 0) as [[off acc] rest] eqn:Eg.
  destruct ((off =? 0)%nat || (4 <? off)%nat) eqn:Eo; [done|].
  apply orb_false_iff in Eo as [_ Eo%Nat.ltb_ge].
  destruct (hex_group_range _ _ _ _ _ _ Eg) as [_ Hv]; [done|].
  assert (Forall is_octet (ip ++ [acc / 256; acc mod 256])) as Hip2.
  { apply Forall_app_2; [done|]. apply group_octets. rewrite Nat.sub_0_r in Hv.
    assert (16 ^ Z.of_nat off ≤ 16 ^ 4) by (apply Z.pow_le_mono_r; lia).
    change (16 ^ 4) with 65536 in *. lia. }
  clear Eg Eo Hv. revert H.
  repeat case_match; intros; simplify_eq; try done; eauto;
    match goal with H : _ = Some (ip', ell') |- _ => apply bind_Some in H as (q & [_ Hq]%parseIPv4_octets & [= <- <-]) end;
    by apply Forall_app_2.
Qed.

Lemma ParseIP_octets s ip : ParseIP s = Some ip → Forall is_octet ip.
Proof.
  assert (Forall is_octet (replicate 16 0)) as Hz by (apply Forall_replicate; unfold is_octet; lia).
  unfold ParseIP. destruct (ip_kind s) as [[]|]; [| |done]; intros H.
  - apply bind_Some in H as (q & [_ Hq]%parseIPv4_octets & [= <-]).
    repeat apply Forall_cons_2; try done; unfold is_octet; lia.
  - unfold parseIPv6 in H. destruct (match s with String ":" (String ":" r) => (Some 0%nat, r) | _ => (None, s) end) as [ell s'].
    assert ((∃ x, ipv6_groups 9 s' [] ell = Some x ∧
      (let '(ip0, ell') := x in match ell' with
       | None => if (length ip0 =? 16)%nat then Some ip0 else None
       | Some k => if (length ip0 <? 16)%nat
                   then Some (take k ip0 ++ replicate (16 - length ip0) 0 ++ drop k ip0) else None end) = Some ip)
      ∨ ip = replicate 16 0) as [([ip0 ell'] & Hx & Hr)|Hip]; [|  |by rewrite Hip].
    { destruct ell, s'; try (left; by apply bind_Some in H). right. by injection H. }
    apply ipv6_groups_octets in Hx; [|constructor]. destruct ell' as [k|]; case_match; try done; injection Hr as <-; [|done].
    repeat apply Forall_app_2; [by apply Forall_take|apply Forall_replicate; unfold is_octet; lia|by apply Forall_drop].
Qed.

Lemma To4_octets ip q : To4 ip = Some q → Forall is_octet ip → length q = 4%nat ∧ Forall is_octet q.
Proof.
  unfold To4. destruct (Nat.eqb_spec (length ip) 4); [by intros [= <-]|].
  destruct (Nat.eqb_spec (length ip) 16); simpl; [|done]. case_bool_decide; [|done].
  intros [= <-] Hip. rewrite length_drop. split; [lia|by apply Forall_drop].
Qed.

Lemma To4_four q : length q = 4%nat → To4 q = Some q.
Proof. unfold To4. by intros ->. Qed.

(** *** Parsing the text of an IPv4 address *)

Lemma ipv4_field_Itoa v : is_octet v → ipv4_field (Itoa v) = Some v.
Proof.
  intros Hv. assert (Forall (λ v, ipv4_field (Itoa v) = Some v) (seqZ 0 256)) as Hall.
  { apply (bool_decide_unpack _). vm_compute. done. }
  rewrite Forall_forall in Hall. apply Hall. apply elem_of_seqZ. unfold is_octet in Hv. lia.
Qed.

Lemma ip_kind_cons a s :
  ip_kind (String a s) = if Ascii.eqb a "." then Some true else if Ascii.eqb a ":" then Some false
                         else if Ascii.eqb a "%" then None else ip_kind s.
Proof. by destruct a as [[] [] [] [] [] [] [] []]. Qed.

Lemma ip_kind_dot p r :
  str_elem "."%char p = false → str_elem ":"%char p = false → str_elem "%"%char p = false →
  ip_kind (p +:+ String "." r) = Some true.
Proof.
  induction p as [|a p IH]; simpl str_elem; [done|].
  intros [Ha H1]%orb_false_iff [Hb H2]%orb_false_iff [Hc H3]%orb_false_iff.
  change (String a p +:+ String "." r) with (String a (p +:+ String "." r)).
  rewrite ip_kind_cons, Ha, Hb, Hc. by apply IH.
Qed.

Lemma parseIPv4_quad q : length q = 4%nat → Forall is_octet q → parseIPv4 (quad_string q) = Some q.
Proof.
  intros Hlen Hq. unfold parseIPv4, quad_string.
  rewrite (Split_Join (Itoa <$> q)) by (try (by destruct q); apply Forall_fmap, Forall_true; intros; by apply Itoa_elem).
  destruct q as [|a [|b [|c [|d [|]]]]]; try done.
  apply Forall_cons in Hq as [Ha Hq]. apply Forall_cons in Hq as [Hb Hq].
  apply Forall_cons in Hq as [Hc Hq]. apply Forall_cons in Hq as [Hd _].
  simpl. by rewrite !ipv4_field_Itoa.
Qed.

Lemma ParseIP_quad q : length q = 4%nat → Forall is_octet q → ParseIP (quad_string q) = Some (v4_in_v6 ++ q).
Proof.
  intros Hlen Hq. unfold ParseIP. rewrite (parseIPv4_quad q) by done.
  assert (ip_kind (quad_string q) = Some true) as ->; [|done].
  destruct q as [|a [|b q]]; try done. unfold quad_string.
  change (Join (Itoa <$> a :: b :: q) ".") with (Itoa a +:+ String "." (Join (Itoa <$> b :: q) ".")).
  by apply ip_kind_dot; apply Itoa_elem.
Qed.

(** The IPv4 address of a text, and back. *)
Lemma ParseIP_IP_String q :
  length q = 4%nat → Forall is_octet q → ParseIP (IP_String q) ≫= To4 = Some q.
Proof.
  intros Hlen Hq. unfold IP_String. rewrite To4_four by done. rewrite ParseIP_quad by done.
  change (To4 (v4_in_v6 ++ q) = Some q). unfold To4. rewrite length_app, Hlen. reflexivity.
Qed.

Lemma IP_String_inj q q' :
  length q = 4%nat → Forall is_octet q → length q' = 4%nat → Forall is_octet q' →
  IP_String q = IP_String q' → q = q'.
Proof.
  intros H1 H2 H3 H4 E. pose proof (ParseIP_IP_String q H1 H2) as P. rewrite E, ParseIP_IP_String in P by done.
  by injection P.
Qed.
