(* ===== verification/Sha1.v ===== *)
(** [crypto/sha1], for the names of the host interfaces: the
    padding, the message schedule and the eighty rounds on words of 32 bits. *)
From S2P Require Export GoNet.
From Stdlib Require Import Ascii.

(** ** Words *)

Definition w32 (x : Z) : Z := Z.land x 4294967295.
Definition add32 (x y : Z) : Z := w32 (x + y).
Definition rotl32 (k x : Z) : Z := Z.lor (w32 (Z.shiftl x k)) (Z.shiftr x (32 - k)).

(** Big-endian bytes. *)
Definition be_word (bytes : list Z) : Z := foldl (λ a b, 256 * a + b) 0 bytes.
Fixpoint be_bytes (n : nat) (x : Z) : list Z :=
  match n with
  | O => []
  | S n' => Z.land (Z.shiftr x (8 * Z.of_nat n')) 255 :: be_bytes n' x
  end.

(** ** The digest *)

Definition pad (msg : list Z) : list Z :=
  let len := Z.of_nat (length msg) in
  msg ++ 128 :: replicate (Z.to_nat ((55 - len) mod 64)) 0 ++ be_bytes 8 (8 * len).

Fixpoint chunks (fuel n : nat) (l : list Z) : list (list Z) :=
  match fuel with
  | O => []
  | S fuel' => match l with [] => [] | _ => take n l :: chunks fuel' n (drop n l) end
  end.

(** The schedule, last word first. *)
Fixpoint extend (n : nat) (w : list Z) : list Z :=
  match n with
  | O => w
  | S n' =>
      let x k := nth k w 0 in
      extend n' (rotl32 1 (Z.lxor (Z.lxor (x 2%nat) (x 7%nat)) (Z.lxor (x 13%nat) (x 15%nat))) :: w)
  end.

Definition state : Type := Z * Z * Z * Z * Z.
Definition sha1_init : state := (1732584193, 4023233417, 2562383102, 271733878, 3285377520).

Definition round (s : state) (tw : nat * Z) : state :=
  let '(a, b, c, d, e) := s in
  let '(t, w) := tw in
  let '(f, k) :=
    if (t <? 20)%nat then (Z.lor (Z.land b c) (Z.land (Z.lxor b 4294967295) d), 1518500249)
    else if (t <? 40)%nat then (Z.lxor (Z.lxor b c) d, 1859775393)
    else if (t <? 60)%nat then (Z.lor (Z.lor (Z.land b c) (Z.land b d)) (Z.land c d), 2400959708)
    else (Z.lxor (Z.lxor b c) d, 3395469782) in
  (add32 (add32 (add32 (rotl32 5 a) f) (add32 e k)) w, a, rotl32 30 b, c, d).

Definition block (s : state) (chunk : list Z) : state :=
  let words := be_word <$> chunks 16 4 chunk in
  let w := reverse (extend 64 (reverse words)) in
  let '(a, b, c, d, e) := s in
  let '(a', b', c', d', e') := foldl round s (imap pair w) in
  (add32 a a', add32 b b', add32 c c', add32 d d', add32 e e').

Definition sha1_sum (msg : list Z) : list Z :=
  let padded := pad msg in
  let '(a, b, c, d, e) := foldl block sha1_init (chunks (length padded) 64 padded) in
  be_bytes 4 a ++ be_bytes 4 b ++ be_bytes 4 c ++ be_bytes 4 d ++ be_bytes 4 e.

(** ** Test vectors *)

Fixpoint string_bytes (s : string) : list Z :=
  match s with
  | EmptyString => []
  | String a s' => Z.of_nat (nat_of_ascii a) :: string_bytes s'
  end.

Example sha1_abc :
  hex_bytes (sha1_sum (string_bytes "abc")) = "a9993e364706816aba3e25717850c26c9cd0d89d".
Proof. vm_compute. reflexivity. Qed.
Example sha1_empty :
  hex_bytes (sha1_sum []) = "da39a3ee5e6b4b0d3255bfef95601890afd80709".
Proof. vm_compute. reflexivity. Qed.
(** Two blocks. *)
Example sha1_long :
  hex_bytes (sha1_sum (string_bytes "abcdbcdecdefdefgefghfghighijhijkijkljklmklmnlmnomnopnopq"))
  = "84983e441c3bd26ebaae4aa1f95129e5e54670f1".
Proof. vm_compute. reflexivity. Qed.

(** ** Lengths *)

Lemma be_bytes_length n x : length (be_bytes n x) = n.
Proof. induction n; simpl; congruence. Qed.

(** A digest has twenty bytes. *)
Lemma sha1_sum_length msg : length (sha1_sum msg) = 20%nat.
Proof.
  unfold sha1_sum. destruct (foldl _ _ _) as [[[[a b] c] d] e].
  rewrite !length_app, !be_bytes_length. done.
Qed.

Lemma hex_bytes_length bytes : String.length (hex_bytes bytes) = (2 * length bytes)%nat.
Proof. induction bytes as [|b l IH]; [done|]. cbn [length]. transitivity (2 + String.length (hex_bytes l))%nat; [done|lia]. Qed.

(** Only the digits of a hexadecimal number. *)
Definition is_hex (a : ascii) : bool :=
  let n := nat_of_ascii a in ((48 <=? n) && (n <=? 57))%nat || ((97 <=? n) && (n <=? 102))%nat.
Lemma digit_char_hex x : 0 ≤ x < 16 → is_hex (digit_char x) = true.
Proof.
  intros Hx. assert (x ∈ seqZ 0 16) as Hin by (apply elem_of_seqZ; lia).
  assert (Forall (λ x, is_hex (digit_char x) = true) (seqZ 0 16)) as Hall by (by repeat constructor).
  rewrite Forall_forall in Hall. by apply Hall.
Qed.

Lemma be_bytes_octets n x : Forall (λ b, 0 ≤ b < 256) (be_bytes n x).
Proof.
  induction n as [|n IH]; cbn [be_bytes]; [constructor|]. constructor; [|done].
  change 255 with (Z.ones 8). rewrite Z.land_ones by lia. apply Z.mod_pos_bound. lia.
Qed.
Lemma sha1_sum_octets msg : Forall (λ b, 0 ≤ b < 256) (sha1_sum msg).
Proof.
  unfold sha1_sum. destruct (foldl _ _ _) as [[[[a b] c] d] e].
  rewrite !Forall_app. split_and!; apply be_bytes_octets.
Qed.

Lemma hex_bytes_hex bytes : Forall (λ b, 0 ≤ b < 256) bytes → all_chars is_hex (hex_bytes bytes) = true.
Proof.
  induction 1 as [|b l Hb _ IH]; [done|].
  change (is_hex (digit_char (b / 16)) && (is_hex (digit_char (b mod 16)) && all_chars is_hex (hex_bytes l)) = true).
  rewrite IH, !digit_char_hex; [done| |].
  - apply Z.mod_pos_bound. lia.
  - split; [apply Z.div_pos; lia|]. apply Z.div_lt_upper_bound; lia.
Qed.
