(* ===== verification/CniBase.v ===== *)
(** The CNI plugin ([cmd/cnivpc]): the state its code runs on, its outside
    interfaces, the clients of the API server ([pkg/kubeclient/client.go]) and the
    records of pod networks ([rpc.go], second half).

    A record goes to the daemon over gRPC when it answers a ping, and else to the
    bolt file directly.  Daemon and plugin use the same file and bucket, so the
    type [G] is both the daemon and that file: [IpamdClient] and [BoltApi].
    [RecordLaws] is what the daemon promises of its record calls, stated on the
    contents of the bucket; [CniDaemon] discharges it with the handlers of
    [IpamdRpc]. *)
From S2P Require Export IpamdBase Database.

(** ** Invariants of a computation, whatever its outcome *)

Definition maintains {S A} (I : S → Prop) (m : M S A) : Prop := ∀ s, I s → I (m s).2.

Section maintains.
Context {S : Type} (I : S → Prop).

Lemma maintains_ret {A} (a : A) : maintains I (mret a).
Proof. by intros s. Qed.
Lemma maintains_throw {A} e : maintains I (throw e : M S A).
Proof. by intros s. Qed.
Lemma maintains_panic {A} w : maintains I (panic w : M S A).
Proof. by intros s. Qed.
Lemma maintains_gets {A} (g : S → A) : maintains I (gets g).
Proof. by intros s. Qed.
Lemma maintains_bind {A B} (m : M S A) (k : A → M S B) :
  maintains I m → (∀ a, maintains I (k a)) → maintains I (x ← m; k x).
Proof.
  intros Hm Hk s Hs. cbv [mbind M_bind]. specialize (Hm s Hs). destruct (m s) as [[] s']; try done.
  by apply Hk.
Qed.
Lemma maintains_attempt {A} (m : M S A) : maintains I m → maintains I (attempt m).
Proof. intros Hm s Hs. specialize (Hm s Hs). unfold attempt. destruct (m s) as [[] ?]; exact Hm. Qed.
Lemma maintains_ignore {A} (m : M S A) : maintains I m → maintains I (ignore m).
Proof. intros Hm. apply maintains_bind; [by apply maintains_attempt|]. intros _. apply maintains_ret. Qed.
Lemma maintains_with_msg {A} msg (m : M S A) : maintains I m → maintains I (with_msg msg m).
Proof. intros Hm s Hs. specialize (Hm s Hs). unfold with_msg. destruct (m s) as [[] ?]; exact Hm. Qed.
Lemma maintains_with_wrap {A} msg (m : M S A) : maintains I m → maintains I (with_wrap msg m).
Proof. intros Hm s Hs. specialize (Hm s Hs). unfold with_wrap. destruct (m s) as [[] ?]; exact Hm. Qed.
Lemma maintains_for_range {A} (l : list A) (body : A → M S unit) :
  (∀ x, maintains I (body x)) → maintains I (for_range l body).
Proof.
  intros Hb. induction l as [|x l IH]; [apply maintains_ret|]. apply maintains_bind; [apply Hb|]. intros _. exact IH.
Qed.
Lemma maintains_zoom {T A} (get : S → T) (put : T → S → S) (m : M T A) :
  (∀ t s, I s → I (put t s)) → maintains I (zoom get put m).
Proof. intros Hp s Hs. unfold zoom. destruct (m (get s)). by apply Hp. Qed.
Lemma maintains_zoom_in {T A} (J : T → Prop) (get : S → T) (put : T → S → S) (m : M T A) :
  (∀ t s, J t → I (put t s)) → (∀ s, I s → J (get s)) → maintains J m → maintains I (zoom get put m).
Proof. intros Hp Hg Hm s Hs. unfold zoom. specialize (Hm _ (Hg _ Hs)). destruct (m (get s)). by apply Hp. Qed.
Lemma wp_maintains {A} (m : M S A) s : maintains I m → I s → wp m (λ _ s', I s') s.
Proof. intros Hm. apply Hm. Qed.
Lemma wp_maintains_of {A} (m : M S A) (Q : outcome A → S → Prop) s :
  maintains I m → I s → wp m Q s → wp m (λ o s', Q o s' ∧ I s') s.
Proof. intros Hm Hs Hw. split; [exact Hw|by apply Hm]. Qed.
End maintains.

Create HintDb recs.
Ltac solve_maintains :=
  intros; repeat first
  [ progress intros
  | assumption
  | match goal with
    | H : ∀ _, maintains _ _ |- _ => apply H
    | H : ∀ _ _, maintains _ _ |- _ => apply H
    | H : ∀ _ _ _, maintains _ _ |- _ => apply H
    | H : ∀ _ _ _ _, maintains _ _ |- _ => apply H
    end
  | apply maintains_ret | apply maintains_throw | apply maintains_panic | apply maintains_gets
  | apply maintains_bind | apply maintains_attempt | apply maintains_ignore
  | apply maintains_with_msg | apply maintains_with_wrap | apply maintains_for_range
  | match goal with |- maintains _ (match ?x with _ => _ end) => destruct x end
  | match goal with |- maintains _ (if ?x then _ else _) => destruct x end ].

(** ** Interfaces *)

(** The API server and the files of its clients, beside [KubeApi]. *)
Class CniKubeApi (K : Type) : Type := {
  ck_Stat : string → Call K unit;
  ck_IsNotExist : error → bool;
  ck_BuildConfig : string → Call K unit;
  ck_NewForConfig : Call K unit;
  ck_GetPodNetworking : string → Call K PodNetworking;
  ck_ListPodNetworkings : Call K (list PodNetworking)
}.

(** [rpc.CNIIpamClient], with [grpc.Dial]. *)
Class IpamdClient (G : Type) : Type := {
  grpc_Dial : Call G unit;
  ig_Ping : Call G unit;
  ig_SupportMultiSubnet : Call G bool;
  ig_AddPodNetwork : AddPodNetworkRequest → Call G (Response (option PodNetwork));
  ig_DelPodNetwork : option PodNetwork → Call G (Response unit);
  ig_AddPodNetworkRecord : option PodNetwork → Call G (Response unit);
  ig_DelPodNetworkRecord : string → string → string → Call G (Response unit);
  ig_GetPodNetworkRecord : string → string → string → Call G (Response (option PodNetwork));
  ig_ListPodNetworkRecord : Call G (Response (list PodNetwork));
  bolt_Open : Call G unit       (* fails while another process has the file open *)
}.

(** ** The state *)

(** The process with the VPC, iptables, the rest of the node's network, the API
    server, and the daemon with the bolt file. *)
Record Cni (E T N K G : Type) : Type := mkCni {
  cn_proc : Proc E; cn_ipt : T; cn_net : N; cn_k8s : K; cn_node : G
}.
Arguments mkCni {E T N K G} _ _ _ _ _.
Arguments cn_proc {E T N K G} _.
Arguments cn_ipt {E T N K G} _.
Arguments cn_net {E T N K G} _.
Arguments cn_k8s {E T N K G} _.
Arguments cn_node {E T N K G} _.

Section zooms.
Context {E T N K G : Type}.
#[local] Abbreviation S := (Cni E T N K G).

Definition c_set_proc (v : Proc E) (s : S) : S := mkCni v (cn_ipt s) (cn_net s) (cn_k8s s) (cn_node s).
Definition c_set_ipt (v : T) (s : S) : S := mkCni (cn_proc s) v (cn_net s) (cn_k8s s) (cn_node s).
Definition c_set_net (v : N) (s : S) : S := mkCni (cn_proc s) (cn_ipt s) v (cn_k8s s) (cn_node s).
Definition c_set_k8s (v : K) (s : S) : S := mkCni (cn_proc s) (cn_ipt s) (cn_net s) v (cn_node s).
Definition c_set_node (v : G) (s : S) : S := mkCni (cn_proc s) (cn_ipt s) (cn_net s) (cn_k8s s) v.

Definition c_proc {A} (p : M (Proc E) A) : M S A := zoom cn_proc c_set_proc p.
Definition c_ipt {A} (p : M T A) : M S A := zoom cn_ipt c_set_ipt p.
Definition c_net {A} (p : M N A) : M S A := zoom cn_net c_set_net p.
Definition c_k8s {A} (p : M K A) : M S A := zoom cn_k8s c_set_k8s p.
Definition c_node {A} (p : M G A) : M S A := zoom cn_node c_set_node p.

Lemma wp_c_proc {A} (p : M (Proc E) A) (Q : outcome A → S → Prop) (s : S) :
  wp p (λ o v, Q o (c_set_proc v s)) (cn_proc s) → wp (c_proc p) Q s.
Proof. apply wp_zoom. Qed.
Lemma wp_c_ipt {A} (p : M T A) (Q : outcome A → S → Prop) (s : S) :
  wp p (λ o v, Q o (c_set_ipt v s)) (cn_ipt s) → wp (c_ipt p) Q s.
Proof. apply wp_zoom. Qed.
Lemma wp_c_net {A} (p : M N A) (Q : outcome A → S → Prop) (s : S) :
  wp p (λ o v, Q o (c_set_net v s)) (cn_net s) → wp (c_net p) Q s.
Proof. apply wp_zoom. Qed.
Lemma wp_c_k8s {A} (p : M K A) (Q : outcome A → S → Prop) (s : S) :
  wp p (λ o v, Q o (c_set_k8s v s)) (cn_k8s s) → wp (c_k8s p) Q s.
Proof. apply wp_zoom. Qed.
Lemma wp_c_node {A} (p : M G A) (Q : outcome A → S → Prop) (s : S) :
  wp p (λ o v, Q o (c_set_node v s)) (cn_node s) → wp (c_node p) Q s.
Proof. apply wp_zoom. Qed.
End zooms.

(** ** client.go *)

Definition nodeKubeConfigPaths : list string :=
  ["/etc/kubernetes/cnivpc.kubeconfig"; "/etc/kubernetes/kubelet.kubeconfig"].

Definition AnnotationPodNetworkingName : string := "network.kubernetes.io/ucloud-pod-networking-name".
Definition AnnotationPodNetworkingDisable : string := "network.kubernetes.io/ucloud-pod-networking-disable".
Definition CNIVpcDbName : string := "cni-vpc-network".
Definition DefaultPodNetworkingName : string := "default".

Section kubeclient.
Context {K : Type} `{!CniKubeApi K}.

(** The loop of [GetNodeClient] and [GetNodeCRDClient]. *)
Fixpoint node_client (paths : list string) : M K unit :=
  match paths with
  | [] => throw (Errorf "no available kubeconfig in node")
  | path :: paths' =>
      r ← attempt (call (ck_Stat path));
      match r with
      | inl err => if ck_IsNotExist err then node_client paths' else throw err
      | inr _ =>
          with_msg "failed to read kube config" (call (ck_BuildConfig path));;
          call ck_NewForConfig
      end
  end.
Definition GetNodeClient : M K unit := node_client nodeKubeConfigPaths.
Definition GetNodeCRDClient : M K unit := node_client nodeKubeConfigPaths.
End kubeclient.

(** ** Records *)

Section records.
Context {G : Type} `{!IpamdClient G, !BoltApi G, !JsonCodec PodNetwork}.

Definition accessToPodNetworkDB (dbName : string) : M G Bolt := call bolt_Open;; NewBolt dbName.

Definition enabledIpamd : M G bool :=
  r ← attempt (call ig_Ping); mret (match r with inl _ => false | inr _ => true end).

Definition ipamdSupportMultiSubnet : M G bool :=
  r ← attempt (call ig_SupportMultiSubnet); mret (match r with inl _ => false | inr b => b end).

(** Whether the daemon can be dialled and answers a ping. *)
Definition reach_ipamd : M G bool :=
  conn ← attempt (call grpc_Dial);
  match conn with inl _ => mret false | inr _ => enabledIpamd end.

(** The two ways of a record function. *)
Definition with_ipamd {A} (local_ : M G A) (remote : M G A) : M G A :=
  ok ← reach_ipamd; if ok : bool then remote else local_.

(** [if r.Code != CNISuccess { return fmt.Errorf(msg) }]. *)
Definition checked {A} (msg : string) (r : Response A) : M G A :=
  if bool_decide (resp_Code r = CNISuccess) then mret (resp_payload r) else throw (Errorf msg).

Definition addPodNetworkRecordFromIpamd (pn : PodNetwork) : M G unit :=
  r ← call (ig_AddPodNetworkRecord (Some pn)); checked "gRPC AddPodNetworkRecord failed" r.

Definition delPodNetworkRecordLocal (podName podNS sandBoxID : string) : M G unit :=
  db ← accessToPodNetworkDB CNIVpcDbName;
  Bolt_Delete db (PodKey podName podNS sandBoxID).
Definition delPodNetworkRecordFromIpamd (podName podNS sandBoxID : string) : M G unit :=
  r ← call (ig_DelPodNetworkRecord podName podNS sandBoxID); checked "gRPC DelPodNetworkRecord failed" r.
Definition delPodNetworkRecord (podName podNS sandBoxID : string) : M G unit :=
  with_ipamd (delPodNetworkRecordLocal podName podNS sandBoxID)
             (delPodNetworkRecordFromIpamd podName podNS sandBoxID).

Definition listPodNetworkRecords : M G (list PodNetwork) :=
  with_ipamd
    (db ← accessToPodNetworkDB CNIVpcDbName;
     records ← with_wrap "main.listPodNetworkRecords list local database" (Bolt_List db);
     mret (Values records))
    (response ← with_wrap "main.listPodNetworkRecords list from ipamd" (call ig_ListPodNetworkRecord);
     checked "main.listPodNetworkRecords ipamd returned code" response).

(** The record is a pointer: the daemon answers nil when it has none. *)
Definition getPodNetworkRecordLocal (podName podNS sandBoxID : string) : M G (option PodNetwork) :=
  db ← accessToPodNetworkDB CNIVpcDbName;
  p ← Bolt_Get db (PodKey podName podNS sandBoxID); mret (Some p).
Definition getPodNetworkRecordFromIpamd (podName podNS sandBoxID : string) : M G (option PodNetwork) :=
  r ← call (ig_GetPodNetworkRecord podName podNS sandBoxID); checked "gRPC GetPodNetworkRecord failed" r.
Definition getPodNetworkRecord (podName podNS sandBoxID : string) : M G (option PodNetwork) :=
  with_ipamd (getPodNetworkRecordLocal podName podNS sandBoxID)
             (getPodNetworkRecordFromIpamd podName podNS sandBoxID).
End records.

(** ** The promise of the daemon *)

Definition recordBolt : Bolt := mkBolt CNIVpcDbName.

(** [records g m]: the daemon and the file are in order, and the record bucket
    holds [m].  The calls of the daemon and the direct accesses to the bucket do on
    [m] what they say; a remote call that fails may or may not have been carried
    out.  Assigning and releasing an address, dialling, pinging and opening the file
    leave the records alone. *)
Class RecordLaws (G : Type) `{!IpamdClient G, !BoltApi G, !JsonCodec PodNetwork} : Type := {
  records : G → gmap string PodNetwork → Prop;
  rec_Dial_law g m : records g m → wp (call grpc_Dial) (λ _ g', records g' m) g;
  rec_Ping_law g m : records g m → wp (call ig_Ping) (λ _ g', records g' m) g;
  rec_Multi_law g m : records g m → wp (call ig_SupportMultiSubnet) (λ _ g', records g' m) g;
  rec_Open_law g m : records g m → wp (call bolt_Open) (λ _ g', records g' m) g;
  rec_AddPod_law req g m :
    records g m →
    wp (call (ig_AddPodNetwork req)) (λ o g', records g' m ∧
      ∀ r, o = Ok r → resp_Code r = CNISuccess → ∃ pn, resp_payload r = Some pn ∧
        record_key pn = PodKey (ar_PodName req) (ar_PodNamespace req) (ar_SandboxID req)) g;
  rec_DelPod_law pn g m : records g m → wp (call (ig_DelPodNetwork pn)) (λ _ g', records g' m) g;
  rec_Add_law pn g m :
    records g m →
    wp (call (ig_AddPodNetworkRecord (Some pn))) (λ o g',
      records g' (<[record_key pn := pn]> m) ∨
      (records g' m ∧ ∀ r, o = Ok r → resp_Code r ≠ CNISuccess)) g;
  rec_Del_law n ns sb g m :
    records g m →
    wp (call (ig_DelPodNetworkRecord n ns sb)) (λ o g',
      records g' (delete (PodKey n ns sb) m) ∨
      (records g' m ∧ ∀ r, o = Ok r → resp_Code r ≠ CNISuccess)) g;
  rec_Get_law n ns sb g m :
    records g m →
    wp (call (ig_GetPodNetworkRecord n ns sb)) (λ o g', records g' m ∧
      ∀ r, o = Ok r → resp_Code r = CNISuccess → resp_payload r = m !! PodKey n ns sb) g;
  rec_List_law g m :
    records g m →
    wp (call ig_ListPodNetworkRecord) (λ o g', records g' m ∧
      ∀ r, o = Ok r → resp_Code r = CNISuccess → resp_payload r ≡ₚ (map_to_list m).*2) g;
  file_New_law g m :
    records g m →
    wp (NewBolt CNIVpcDbName) (λ o g', records g' m ∧ (o = Ok recordBolt ∨ ∃ e, o = Err e)) g;
  file_Put_law k v g m :
    records g m →
    wp (Bolt_Put recordBolt k v) (λ o g', returns o = true ∧
      (records g' (<[k := v]> m) ∨ (records g' m ∧ o ≠ Ok tt))) g;
  file_Delete_law k g m :
    records g m →
    wp (Bolt_Delete recordBolt k) (λ o g', returns o = true ∧
      (records g' (delete k m) ∨ (records g' m ∧ o ≠ Ok tt))) g;
  file_Get_law k g m :
    records g m →
    wp (Bolt_Get recordBolt k) (λ o g', returns o = true ∧ records g' m ∧
      ∀ v, o = Ok v → m !! k = Some v) g;
  file_List_law g m :
    records g m →
    wp (Bolt_List recordBolt) (λ o g', returns o = true ∧ records g' m ∧
      ∀ kvs, o = Ok kvs → Values kvs ≡ₚ (map_to_list m).*2) g
}.

Lemma wp_keeps {S X A} (v : S → X) (c : Call S A) (Q : outcome A → S → Prop) s :
  keeps v c → (∀ o s', returns o = true → v s' = v s → Q o s') → wp (call c) Q s.
Proof.
  intros Hk HQ. specialize (Hk s). unfold wp, call. destruct (c s) as [[e|a] s']; by apply HQ.
Qed.

(** A call returns. *)
Lemma wp_call_returns {S A} (c : Call S A) (Q : outcome A → S → Prop) s :
  wp (call c) Q s → wp (call c) (λ o s', returns o = true ∧ Q o s') s.
Proof. unfold wp, call. by destruct (c s) as [[] ?]. Qed.

Section record_props.
Context {G : Type} `{!IpamdClient G, !BoltApi G, !JsonCodec PodNetwork, !RecordLaws G}.
Implicit Types (g : G) (m : gmap string PodNetwork).

(** The rule of a call that leaves the records alone. *)
Lemma wp_quiet_call {A} (c : Call G A) m (Q : outcome A → G → Prop) g :
  wp (call c) (λ _ g', records g' m) g →
  (∀ o g', returns o = true → records g' m → Q o g') → wp (call c) Q g.
Proof. intros Hc HQ. unfold wp, call in *. by destruct (c g) as [[e|a] g']; apply HQ. Qed.

Lemma reach_ipamd_spec g m :
  records g m → wp reach_ipamd (λ o g', (∃ b, o = Ok b) ∧ records g' m) g.
Proof.
  intros Hm. unfold reach_ipamd. do 2 wp_step.
  apply (wp_quiet_call _ m); [by apply rec_Dial_law|]. intros o g1 Ho Hm1.
  destruct o as [[]|e| |]; [| |done|done]; cbn [kont]; [|wp_step; by eauto].
  unfold enabledIpamd. do 2 wp_step.
  apply (wp_quiet_call _ m); [by apply rec_Ping_law|]. intros o g2 Ho2 Hm2.
  destruct o as [[]|e| |]; [| |done|done]; cbn [kont]; wp_step; by eauto.
Qed.

Lemma wp_with_ipamd {A} (local_ remote : M G A) m (Q : outcome A → G → Prop) g :
  records g m →
  (∀ g', records g' m → wp local_ Q g') → (∀ g', records g' m → wp remote Q g') →
  wp (with_ipamd local_ remote) Q g.
Proof.
  intros Hm Hl Hr. unfold with_ipamd. wp_step. eapply wp_mono; [by apply (reach_ipamd_spec _ m)|].
  intros o g1 [([] & ->) Hm1]; cbn [kont]; auto.
Qed.

Lemma wp_access m (Q : outcome Bolt → G → Prop) g :
  records g m →
  (∀ g', records g' m → Q (Ok recordBolt) g') → (∀ e g', records g' m → Q (Err e) g') →
  wp (accessToPodNetworkDB CNIVpcDbName) Q g.
Proof.
  intros Hm Hok Herr. unfold accessToPodNetworkDB. wp_step.
  apply (wp_quiet_call _ m); [by apply rec_Open_law|]. intros o g1 Ho Hm1.
  destruct o as [[]|e| |]; [| |done|done]; cbn [kont]; [|by apply Herr].
  eapply wp_mono; [by apply (file_New_law _ m)|]. intros o g2 [Hm2 [->|[e ->]]]; auto.
Qed.

Lemma checked_spec {A} msg (r : Response A) g (Q : outcome A → G → Prop) :
  (resp_Code r = CNISuccess → Q (Ok (resp_payload r)) g) →
  (resp_Code r ≠ CNISuccess → Q (Err (Errorf msg)) g) →
  wp (checked msg r) Q g.
Proof. intros H1 H2. unfold checked. case_bool_decide; [apply wp_ret|apply wp_throw]; auto. Qed.

Lemma getPodNetworkRecord_spec n ns sb g m :
  records g m →
  wp (getPodNetworkRecord n ns sb) (λ o g', returns o = true ∧ records g' m ∧
    ∀ p, o = Ok p → p = m !! PodKey n ns sb) g.
Proof.
  intros Hm. apply (wp_with_ipamd _ _ m); [done|clear g Hm; intros g Hm..].
  - unfold getPodNetworkRecordLocal. wp_step. eapply wp_access; [exact Hm| |].
    + intros g2 H2. cbn [kont]. wp_step. eapply wp_mono; [by apply file_Get_law|].
      intros o g3 (Hr & H3 & Hc). destruct o as [v|e| |]; [| |done|done]; cbn [kont]; try wp_step;
        (split; [done|]); (split; [done|]); intros p [=]. subst. symmetry. by apply Hc.
    + intros e g2 H2. cbn [kont]. split; [done|]. split; [done|]. intros p [=].
  - unfold getPodNetworkRecordFromIpamd. wp_step.
    eapply wp_mono; [apply wp_call_returns; by apply rec_Get_law|].
    intros o g2 (Hret & H2 & Hr). destruct o as [r|e| |]; [| |done|done]; cbn [kont].
    + apply checked_spec; intros Hc; (split; [done|]); (split; [done|]); intros p [= <-]. by apply Hr.
    + split; [done|]. split; [done|]. intros p [=].
Qed.

Lemma delPodNetworkRecord_spec n ns sb g m :
  records g m →
  wp (delPodNetworkRecord n ns sb) (λ o g', returns o = true ∧
    (records g' (delete (PodKey n ns sb) m) ∨ (records g' m ∧ o ≠ Ok tt))) g.
Proof.
  intros Hm. apply (wp_with_ipamd _ _ m); [done|clear g Hm; intros g Hm..].
  - unfold delPodNetworkRecordLocal. wp_step. eapply wp_access; [exact Hm| |].
    + intros g2 H2. cbn [kont]. by apply file_Delete_law.
    + intros e g2 H2. cbn [kont]. split; [done|]. by right.
  - unfold delPodNetworkRecordFromIpamd. wp_step.
    eapply wp_mono; [apply wp_call_returns; by apply rec_Del_law|].
    intros o g2 (Hret & Hr). destruct o as [r|e| |]; [| |done|done]; cbn [kont].
    + apply checked_spec; intros Hc; (split; [done|]).
      * destruct Hr as [Hr|[Hr Hne]]; [by left|]. by destruct (Hne r).
      * destruct Hr as [Hr|[Hr Hne]]; [by left|by right].
    + split; [done|]. destruct Hr as [Hr|[Hr Hne]]; [by left|by right].
Qed.

Lemma addPodNetworkRecordFromIpamd_spec pn g m :
  records g m →
  wp (addPodNetworkRecordFromIpamd pn) (λ o g', returns o = true ∧
    (records g' (<[record_key pn := pn]> m) ∨ (records g' m ∧ o ≠ Ok tt))) g.
Proof.
  intros Hm. unfold addPodNetworkRecordFromIpamd. wp_step.
  eapply wp_mono; [apply wp_call_returns; by apply rec_Add_law|].
  intros o g2 (Hret & Hr). destruct o as [r|e| |]; [| |done|done]; cbn [kont].
  - apply checked_spec; intros Hc; (split; [done|]).
    + destruct Hr as [Hr|[Hr Hne]]; [by left|]. by destruct (Hne r).
    + destruct Hr as [Hr|[Hr Hne]]; [by left|by right].
  - split; [done|]. destruct Hr as [Hr|[Hr Hne]]; [by left|by right].
Qed.

Lemma listPodNetworkRecords_spec g m :
  records g m →
  wp listPodNetworkRecords (λ o g', returns o = true ∧ records g' m ∧
    ∀ l, o = Ok l → l ≡ₚ (map_to_list m).*2) g.
Proof.
  intros Hm. apply (wp_with_ipamd _ _ m); [done|clear g Hm; intros g Hm..].
  - wp_step. eapply wp_access; [exact Hm| |].
    + intros g2 H2. cbn [kont]. do 2 wp_step. eapply wp_mono; [by apply file_List_law|].
      intros o g3 (Hr & H3 & Hl). destruct o as [kvs|e| |]; [| |done|done]; cbn [kont]; try wp_step;
        (split; [done|]); (split; [done|]); intros l [=]. subst l. by apply Hl.
    + intros e g2 H2. cbn [kont]. split; [done|]. split; [done|]. intros l [=].
  - do 2 wp_step. eapply wp_mono; [apply wp_call_returns; by apply rec_List_law|].
    intros o g2 (Hret & H2 & Hr). destruct o as [r|e| |]; [| |done|done]; cbn [kont].
    + apply checked_spec; intros Hc; (split; [done|]); (split; [done|]); intros l [= <-]. by apply Hr.
    + split; [done|]. split; [done|]. intros l [=].
Qed.
End record_props.
