(* ===== verification/NatOutgoing.v ===== *)
(** NAT gateway outgoing ([cmd/cnivpc/nat_outgoing.go]) and the update of the node
    rules that uses it ([if.go], 355-413).

    The ipset holds the pod addresses whose outbound NAT the gateway does.
    [IpsetApi] is what the program uses of netlink's ipset calls, [IpsetLaws] their
    behaviour on the members of the sets. *)
From S2P Require Export CniBase IptRules GoNetProps.

(** ** Definitions *)

Class IpsetApi (N : Type) : Type := {
  ipset_Create : string → Call N unit;              (* hash:ip, Replace *)
  ipset_Add : string → list Z → Call N unit;
  ipset_Del : string → list Z → Call N unit;        (* Replace *)
  ipset_List : string → Call N (list (list Z));     (* the addresses of the entries *)
  is_ipset_exist : error → bool;                    (* errors.Is(err, IPSET_ERR_EXIST) *)
  is_enoent : error → bool
}.

Definition natGWOutgoingIPSetEntry (podIP : string) : error + list Z :=
  match ParseIP podIP ≫= To4 with
  | Some ip => inr ip
  | None => inl (Errorf "main.natGWOutgoingIPSetEntry invalid IPv4 address")
  end.

(** [podsByName] and [podNetworkingPolicies]: later entries win. *)
Definition index_by {A B X} `{Countable X} (key : A → X) (val : A → B) (l : list A) : gmap X B :=
  foldl (λ m x, <[key x := val x]> m) ∅ l.
Definition pod_key (p : Pod) : string * string := (pod_Namespace p, pod_Name p).

(** The body of the loop of [desiredNATGWOutgoingIPs]: the member for a record. *)
Definition desired_member (podsByName : gmap (string * string) Pod) (policies : gmap string bool)
    (network : PodNetwork) : option string :=
  match podsByName !! (pn_PodNS network, pn_PodName network) with
  | None => None
  | Some pod =>
      if negb (String.eqb (pn_PodUID network) "") && negb (String.eqb (pn_PodUID network) (pod_UID pod)) then None
      else if String.eqb (default "" (pod_Annotations pod !! AnnotationPodNetworkingDisable)) "true" then None
      else
        let name := default "" (pod_Annotations pod !! AnnotationPodNetworkingName) in
        let name := if String.eqb name "" then DefaultPodNetworkingName else name in
        match policies !! name with
        | Some true =>
            match natGWOutgoingIPSetEntry (pn_VPCIP network) with
            | inr entry => Some (IP_String entry)
            | inl _ => None
            end
        | _ => None
        end
  end.

Definition desiredNATGWOutgoingIPs (networks : list PodNetwork) (podsByName : gmap (string * string) Pod)
    (policies : gmap string bool) : gset string :=
  list_to_set (omap (desired_member podsByName policies) networks).

(** Entries that are no IPv4 address are left out. *)
Definition currentNATGWOutgoingIPs (entries : list (list Z)) : gset string :=
  list_to_set (omap (λ e, IP_String <$> To4 e) entries).

Section ipset.
Context {N : Type} `{!IpsetApi N}.

Definition ensureNATGWOutgoingIPSet : M N unit :=
  with_wrap "main.ensureNATGWOutgoingIPSet create" (call (ipset_Create natGWOutgoingEnabledIPSetName)).

Definition syncNATGWOutgoingIP (podIP : string) (natGWOutgoingEnabled : bool) : M N bool :=
  if negb natGWOutgoingEnabled then mret false else
  ensureNATGWOutgoingIPSet;;
  match natGWOutgoingIPSetEntry podIP with
  | inl err => throw err
  | inr entry =>
      r ← attempt (call (ipset_Add natGWOutgoingEnabledIPSetName entry));
      match r with
      | inr _ => mret true
      | inl err => if is_ipset_exist err then mret false else throw (Wrap "main.syncNATGWOutgoingIP add" err)
      end
  end.

Definition deleteNATGWOutgoingIP (podIP : string) : M N unit :=
  match natGWOutgoingIPSetEntry podIP with
  | inl err => throw err
  | inr entry =>
      r ← attempt (call (ipset_Del natGWOutgoingEnabledIPSetName entry));
      match r with
      | inr _ => mret tt
      | inl err => if is_enoent err then mret tt else throw (Wrap "main.deleteNATGWOutgoingIP delete" err)
      end
  end.
End ipset.

Section migrate.
Context {E T N K G : Type} `{!GoRuntime E, !IptApi T, !IptMoreApi T, !IpsetApi N, !KubeApi K, !CniKubeApi K}
  `{!IpamdClient G, !BoltApi G, !JsonCodec PodNetwork}.
#[local] Abbreviation m := (M (Cni E T N K G)).

(** [for x := range set]. *)
Definition range_set (s : gset string) : m (list string) := c_proc (ext_total (rt_range (elements s))).

(** What the API server says of the pods and policies of the node. *)
Definition node_policies (nodeName : string) : m (gmap (string * string) Pod * gmap string bool) :=
  with_wrap "main.migrateLegacyNATGWOutgoingIPs get Kubernetes client" (c_k8s GetNodeClient);;
  pods ← with_wrap "main.migrateLegacyNATGWOutgoingIPs list Pods on node" (c_k8s (call (k_ListPodsOnNode nodeName)));
  with_wrap "main.migrateLegacyNATGWOutgoingIPs get CRD client" (c_k8s GetNodeCRDClient);;
  podNetworkings ← with_wrap "main.migrateLegacyNATGWOutgoingIPs list PodNetworkings" (c_k8s (call ck_ListPodNetworkings));
  mret (index_by pod_key id pods,
        index_by pnw_Name (λ p, pns_NATGWOutgoingEnabled (pnw_Spec p)) podNetworkings).

(** The part of the migration after the API server has been read. *)
Definition converge (desired : gset string) : m unit :=
  currentIPSet ← with_wrap "main.migrateLegacyNATGWOutgoingIPs list current ipset"
                   (c_net (call (ipset_List natGWOutgoingEnabledIPSetName)));
  let current := currentNATGWOutgoingIPs currentIPSet in
  toAdd ← range_set (desired ∖ current);
  for_range toAdd (λ podIP, _ ← c_net (syncNATGWOutgoingIP podIP true); mret tt);;
  toDelete ← range_set (current ∖ desired);
  for_range toDelete (λ podIP, c_net (deleteNATGWOutgoingIP podIP)).

Definition migrateLegacyNATGWOutgoingIPs (nodeName : string) : m unit :=
  if String.eqb nodeName "" then throw (Errorf "main.migrateLegacyNATGWOutgoingIPs missing node name") else
  networks ← c_node listPodNetworkRecords;
  '(podsByName, policies) ← node_policies nodeName;
  converge (desiredNATGWOutgoingIPs networks podsByName policies).

(** *** if.go *)

Definition tryEnableNATGWOutgoing (nodeName : string) : m unit :=
  c_net ensureNATGWOutgoingIPSet;;
  needsMigration ← c_ipt needsNATGWOutgoingMigration;
  if negb needsMigration then mret tt else
  migrateLegacyNATGWOutgoingIPs nodeName;;
  c_ipt (updateIptablesRules bypass_rules).

Definition updateRules (rm : iptablesRulesManager) (nodeName : string) (natGWOutgoingEnabled : bool) : m unit :=
  c_ipt (update_base_rules rm);;
  (if natGWOutgoingEnabled then ignore (tryEnableNATGWOutgoing nodeName) else mret tt);;
  c_ipt (updateIptablesRules buildConnmarkPreroutingRules).
End migrate.

Example entry_of_pod : natGWOutgoingIPSetEntry "10.9.0.7" = inr [10; 9; 0; 7].
Proof. reflexivity. Qed.
Example entry_of_v6 : natGWOutgoingIPSetEntry "fe80::1" = inl (Errorf "main.natGWOutgoingIPSetEntry invalid IPv4 address").
Proof. reflexivity. Qed.

(** ** The members of the set *)

Class IpsetLaws (N : Type) `{!IpsetApi N} : Type := {
  ipsets : N → gmap string (gset (list Z));
  ipset_octets n name s e q :
    ipsets n !! name = Some s → e ∈ s → To4 e = Some q → e = q ∧ Forall is_octet q;
  ipset_Create_law name n :
    wp (call (ipset_Create name)) (λ o n',
      (ipsets n' = ipsets n ∨ (ipsets n !! name = None ∧ ipsets n' = <[name := ∅]> (ipsets n))) ∧
      (o = Ok tt → is_Some (ipsets n' !! name))) n;
  ipset_Add_law name e n :
    wp (call (ipset_Add name e)) (λ o n',
      match o with
      | Ok _ => ∃ s, ipsets n !! name = Some s ∧ (e ∉ s) ∧ ipsets n' = <[name := {[e]} ∪ s]> (ipsets n)
      | Err err => ipsets n' = ipsets n ∧
          (is_ipset_exist err = true → ∃ s, ipsets n !! name = Some s ∧ e ∈ s)
      | _ => True
      end) n;
  ipset_Del_law name e n :
    wp (call (ipset_Del name e)) (λ o n',
      match o with
      | Ok _ => ∃ s, ipsets n !! name = Some s ∧ ipsets n' = <[name := s ∖ {[e]}]> (ipsets n)
      | Err err => ipsets n' = ipsets n ∧ (is_enoent err = true → ipsets n !! name = None)
      | _ => True
      end) n;
  ipset_List_law name n :
    wp (call (ipset_List name)) (λ o n', ipsets n' = ipsets n ∧
      ∀ l, o = Ok l → ipsets n !! name = Some (list_to_set l)) n
}.

Lemma elem_current t l :
  t ∈ currentNATGWOutgoingIPs l ↔ ∃ e q, e ∈ l ∧ To4 e = Some q ∧ t = IP_String q.
Proof.
  unfold currentNATGWOutgoingIPs. rewrite elem_of_list_to_set, list_elem_of_omap. split.
  - intros (e & He & (q & Hq & Ht)%fmap_Some_1). eauto.
  - intros (e & q & He & Hq & ->). exists e. by rewrite Hq.
Qed.

(** A text that denotes an IPv4 address and is printed in the usual form. *)
Definition ipv4_text (t : string) : Prop := ∃ q, length q = 4%nat ∧ Forall is_octet q ∧ t = IP_String q.

Lemma entry_of_text q :
  length q = 4%nat → Forall is_octet q → natGWOutgoingIPSetEntry (IP_String q) = inr q.
Proof. intros. unfold natGWOutgoingIPSetEntry. by rewrite ParseIP_IP_String. Qed.

Lemma entry_octets podIP q :
  natGWOutgoingIPSetEntry podIP = inr q → length q = 4%nat ∧ Forall is_octet q.
Proof.
  unfold natGWOutgoingIPSetEntry. destruct (ParseIP podIP) as [ip|] eqn:E; simpl; [|done].
  destruct (To4 ip) as [q'|] eqn:E4; [|done]. intros [= <-].
  eapply To4_octets; [exact E4|by eapply ParseIP_octets].
Qed.

Lemma desired_texts networks pods policies t :
  t ∈ desiredNATGWOutgoingIPs networks pods policies → ipv4_text t.
Proof.
  unfold desiredNATGWOutgoingIPs. rewrite elem_of_list_to_set, list_elem_of_omap.
  intros (n & _ & Hn). unfold desired_member in Hn. repeat case_match; simplify_eq;
    match goal with H : natGWOutgoingIPSetEntry _ = inr _ |- _ => destruct (entry_octets _ _ H) end;
    eexists; eauto.
Qed.

Section members.
Context {N : Type} `{!IpsetApi N, !IpsetLaws N}.
Implicit Types n : N.

Definition members n : gset (list Z) := default ∅ (ipsets n !! natGWOutgoingEnabledIPSetName).
(** The IPv4 members, printed. *)
Definition texts (s : gset (list Z)) : gset string := currentNATGWOutgoingIPs (elements s).

Lemma elem_texts t s : t ∈ texts s ↔ ∃ e q, e ∈ s ∧ To4 e = Some q ∧ t = IP_String q.
Proof. unfold texts. rewrite elem_current. by setoid_rewrite elem_of_elements. Qed.

Lemma texts_add q s : length q = 4%nat → texts ({[q]} ∪ s) = {[IP_String q]} ∪ texts s.
Proof.
  intros Hq. apply set_eq. intros t. rewrite elem_of_union, elem_of_singleton, !elem_texts. split.
  - intros (e & q' & [->%elem_of_singleton|He]%elem_of_union & H4 & ->); [|by right; eauto].
    rewrite To4_four in H4 by done. injection H4 as <-. by left.
  - intros [->|(e & q' & He & H4 & ->)].
    + exists q, q. rewrite To4_four by done. set_solver.
    + exists e, q'. set_solver.
Qed.

Lemma texts_remove n q :
  length q = 4%nat → Forall is_octet q →
  texts (members n ∖ {[q]}) = texts (members n) ∖ {[IP_String q]}.
Proof.
  intros Hl Hq. apply set_eq. intros t. rewrite elem_of_difference, elem_of_singleton, !elem_texts.
  unfold members. destruct (ipsets n !! _) as [s|] eqn:E; simpl.
  2:{ split; [intros (e & ? & He & _)|intros [(e & ? & He & _) _]]; set_solver. }
  split.
  - intros (e & q' & [He Hne]%elem_of_difference & H4 & ->). split; [eauto|]. intros Heq.
    destruct (ipset_octets _ _ _ _ _ E He H4) as [-> Hq']. apply Hne, elem_of_singleton.
    apply IP_String_inj; try done. by eapply To4_octets.
  - intros [(e & q' & He & H4 & ->) Hne]. exists e, q'. split_and!; try done.
    apply elem_of_difference. split; [done|]. intros ->%elem_of_singleton.
    rewrite To4_four in H4 by done. by injection H4 as ->.
Qed.

Lemma sync_spec podIP n :
  wp (syncNATGWOutgoingIP podIP true) (λ o n', returns o = true ∧
    match o with
    | Ok true => ∃ q, natGWOutgoingIPSetEntry podIP = inr q ∧ (q ∉ members n) ∧ members n' = {[q]} ∪ members n
    | Ok false => ∃ q, natGWOutgoingIPSetEntry podIP = inr q ∧ q ∈ members n ∧ members n' = members n
    | _ => members n' = members n
    end) n.
Proof.
  unfold syncNATGWOutgoingIP, ensureNATGWOutgoingIPSet. cbn [negb]. do 2 wp_step.
  eapply wp_mono; [apply wp_call_returns, ipset_Create_law|]. intros o n1 (Ho & Hc & Hs).
  assert (members n1 = members n) as E1.
  { unfold members. destruct Hc as [->|[Hn ->]]; [done|]. by rewrite lookup_insert_eq, Hn. }
  destruct o as [[]|e| |]; [|by cbn [kont]|done|done]. cbn [kont].
  destruct (natGWOutgoingIPSetEntry podIP) as [err|entry]; wp_step; [done|]. wp_step.
  eapply wp_mono; [apply wp_call_returns, ipset_Add_law|]. intros o n2 [Ho2 Ha].
  destruct o as [[]|e| |]; try done; cbn [kont].
  - wp_step. destruct Ha as (s & Es & Hne & E2). split; [done|]. exists entry.
    rewrite <- E1. unfold members. rewrite E2, lookup_insert_eq, Es. done.
  - destruct Ha as [E2 He]. assert (members n2 = members n) as Em by (unfold members in *; by rewrite E2).
    destruct (is_ipset_exist e); wp_step; (split; [done|]); [|done].
    destruct He as (s & Es & Hin); [done|]. exists entry. split; [done|]. split; [|done].
    rewrite <- E1. unfold members. by rewrite Es.
Qed.

Lemma delete_spec podIP n :
  wp (deleteNATGWOutgoingIP podIP) (λ o n', returns o = true ∧
    match o with
    | Ok _ => ∃ q, natGWOutgoingIPSetEntry podIP = inr q ∧ members n' = members n ∖ {[q]}
    | _ => members n' = members n
    end) n.
Proof.
  unfold deleteNATGWOutgoingIP.
  destruct (natGWOutgoingIPSetEntry podIP) as [err|entry]; wp_step; [done|]. wp_step.
  eapply wp_mono; [apply wp_call_returns, ipset_Del_law|]. intros o n2 [Ho2 Ha].
  destruct o as [[]|e| |]; try done; cbn [kont].
  - wp_step. destruct Ha as (s & Es & E2). split; [done|]. exists entry. split; [done|].
    unfold members. by rewrite E2, lookup_insert_eq, Es.
  - destruct Ha as [E2 He]. assert (members n2 = members n) as Em by (unfold members; by rewrite E2).
    destruct (is_enoent e); wp_step; (split; [done|]); [|done].
    exists entry. split; [done|]. rewrite Em. unfold members. rewrite He by done. set_solver.
Qed.
End members.

Section converge.
Context {E T N K G : Type} `{!CloudApi E, !GoRuntime E, !GoRuntimeLaws E, !IpsetApi N, !IpsetLaws N}.
Implicit Types s : Cni E T N K G.

Definition cn_texts s : gset string := texts (members (cn_net s)).

Lemma range_set_spec (X : gset string) s :
  wp (range_set X) (λ o s', ∃ l, o = Ok l ∧ l ≡ₚ elements X ∧ cn_net s' = cn_net s) s.
Proof.
  unfold range_set. apply wp_c_proc. unfold wp, ext_total, zoom. simpl.
  pose proof (rt_range_perm _ (elements X) (proc_ext (cn_proc s))) as Hp.
  destruct (rt_range (elements X) (proc_ext (cn_proc s))) as [l e']. simpl in *. by exists l.
Qed.

Lemma add_loop l s :
  Forall ipv4_text l →
  wp (for_range l (λ podIP, _ ← c_net (syncNATGWOutgoingIP podIP true); mret tt)) (λ o s',
    returns o = true ∧ cn_texts s ⊆ cn_texts s' ∧ cn_texts s' ⊆ cn_texts s ∪ list_to_set l ∧
    (o = Ok tt → list_to_set l ⊆ cn_texts s')) s.
Proof.
  intros Hl. revert s. induction Hl as [|t l (q & Hq & Ho & ->) Hl IH]; intros s; simpl.
  { wp_step. split_and!; [done|set_solver..]. }
  do 2 wp_step. apply wp_c_net. eapply wp_mono; [apply sync_spec|]. intros o v [Hret Hm].
  assert (∀ b, o = Ok b → texts (members v) = {[IP_String q]} ∪ cn_texts s) as Hadd.
  { intros b ->. unfold cn_texts. destruct b; destruct Hm as (q' & He & Hin & Em);
      rewrite entry_of_text in He by done; injection He as <-; rewrite Em, <- texts_add by done; [done|].
    f_equal. set_solver. }
  destruct o as [b|e| |]; [|cbn [kont]; split_and!; [done|unfold cn_texts; simpl; rewrite Hm; set_solver..]|done|done].
  specialize (Hadd b eq_refl). clear Hm. cbn [kont]. wp_step. cbn [kont].
  eapply wp_mono; [apply IH|]. intros o s' (Hr & H1 & H2 & H3).
  change (cn_texts (c_set_net v s)) with (texts (members v)) in *. rewrite Hadd in *.
  split_and!; [done|set_solver..].
Qed.

Lemma delete_loop l s :
  Forall ipv4_text l →
  wp (for_range l (λ podIP, c_net (deleteNATGWOutgoingIP podIP))) (λ o s',
    returns o = true ∧ cn_texts s' ⊆ cn_texts s ∧ cn_texts s ∖ list_to_set l ⊆ cn_texts s' ∧
    (o = Ok tt → cn_texts s' ## list_to_set l)) s.
Proof.
  intros Hl. revert s. induction Hl as [|t l (q & Hq & Ho & ->) Hl IH]; intros s; simpl.
  { wp_step. split_and!; [done|set_solver..]. }
  wp_step. apply wp_c_net. eapply wp_mono; [apply delete_spec|]. intros o v [Hret Hm].
  destruct o as [[]|e| |]; [|cbn [kont]; split_and!; [done|unfold cn_texts; simpl; rewrite Hm; set_solver..]|done|done].
  destruct Hm as (q' & He & Em). rewrite entry_of_text in He by done. injection He as <-.
  apply (f_equal texts) in Em. rewrite texts_remove in Em by done.
  cbn [kont]. eapply wp_mono; [apply IH|]. intros o s' (Hr & H1 & H2 & H3).
  change (cn_texts (c_set_net v s)) with (texts (members v)) in *. rewrite Em in *. fold (cn_texts s) in *.
  split_and!; [done|set_solver..].
Qed.

(** The set that is left after adding and deleting the two differences. *)
Lemma converge_sets (cur des mid fin : gset string) :
  cur ⊆ mid → mid ⊆ cur ∪ (des ∖ cur) → des ∖ cur ⊆ mid → fin ⊆ mid → mid ∖ (cur ∖ des) ⊆ fin →
  cur ∩ des ⊆ fin ∧ fin ⊆ cur ∪ des ∧ (fin ## cur ∖ des → fin = des).
Proof.
  intros A1 A2 A3 D1 D2. split_and!; [set_solver|set_solver|].
  intros D3. apply set_eq. intros t. destruct (decide (t ∈ cur)), (decide (t ∈ des)); set_solver.
Qed.

Lemma converge_spec (desired : gset string) s :
  set_Forall ipv4_text desired →
  wp (converge desired) (λ o s', returns o = true ∧
    cn_texts s ∩ desired ⊆ cn_texts s' ∧ cn_texts s' ⊆ cn_texts s ∪ desired ∧
    (o = Ok tt → cn_texts s' = desired)) s.
Proof.
  intros Hd. unfold converge. do 2 wp_step. apply wp_c_net.
  eapply wp_mono; [apply wp_call_returns, ipset_List_law|]. intros o v (Hret & Ev & Hl).
  assert (texts (members v) = cn_texts s) as E1 by (unfold cn_texts, members; by rewrite Ev).
  destruct o as [l|e| |]; cbn [kont]; try done.
  2:{ change (cn_texts (c_set_net v s)) with (texts (members v)). rewrite E1. split_and!; [done|set_solver..]. }
  specialize (Hl l eq_refl).
  assert (currentNATGWOutgoingIPs l = cn_texts s) as ->.
  { apply set_eq. intros t. unfold cn_texts, members. rewrite Hl, elem_texts, elem_current. simpl.
    by setoid_rewrite elem_of_list_to_set. }
  assert (∀ t, t ∈ cn_texts s → ipv4_text t) as Hcur.
  { intros t (e & q & He & H4 & ->)%elem_texts. unfold members in He. rewrite Hl in He.
    destruct (ipset_octets _ _ _ _ _ Hl He H4) as [-> Hq]. exists q. split_and!; try done. by eapply To4_octets. }
  wp_step. eapply wp_mono; [apply range_set_spec|]. intros o s1 (toAdd & -> & Hadd & En1). cbn [kont].
  assert (cn_texts s1 = cn_texts s) as Es1.
  { unfold cn_texts at 1. rewrite En1. exact E1. }
  assert (list_to_set toAdd = desired ∖ cn_texts s) as Eadd by (rewrite Hadd; apply list_to_set_elements_L).
  wp_step. eapply wp_mono; [apply add_loop|].
  { apply Forall_forall. intros t Ht. apply Hd. rewrite Hadd, elem_of_elements in Ht. set_solver. }
  intros o s2 (Hr2 & A1 & A2 & A3). rewrite Es1, Eadd in *.
  destruct o as [[]|e| |]; [|cbn [kont]; split_and!; [done|set_solver..]|done|done]. cbn [kont]. specialize (A3 eq_refl).
  wp_step. eapply wp_mono; [apply range_set_spec|]. intros o s3 (toDel & -> & Hdel & En3). cbn [kont].
  assert (cn_texts s3 = cn_texts s2) as Es3 by (unfold cn_texts at 1; by rewrite En3).
  assert (list_to_set toDel = cn_texts s ∖ desired) as Edel by (rewrite Hdel; apply list_to_set_elements_L).
  eapply wp_mono; [apply delete_loop|].
  { apply Forall_forall. intros t Ht. apply Hcur. rewrite Hdel, elem_of_elements in Ht. set_solver. }
  intros o s4 (Hr4 & D1 & D2 & D3). rewrite Es3, Edel in *.
  destruct (converge_sets _ _ _ _ A1 A2 A3 D1 D2) as (F1 & F2 & F3). split_and!; auto.
Qed.
End converge.

Section migration.
Context {E T N K G : Type} `{!CloudApi E, !GoRuntime E, !GoRuntimeLaws E} `{!IptApi T, !IptMoreApi T, !IptLaws T, !IptMoreLaws T}
  `{!IpsetApi N, !IpsetLaws N, !KubeApi K, !CniKubeApi K}
  `{!IpamdClient G, !BoltApi G, !JsonCodec PodNetwork, !RecordLaws G}.
Implicit Types s : Cni E T N K G.

(** The pods and policies that the API server gives for the node. *)
Definition policies_read (nodeName : string) (k : K) (pods : gmap (string * string) Pod)
    (policies : gmap string bool) : Prop :=
  ∃ s1 s2, cn_k8s s1 = k ∧ node_policies nodeName (s1 : Cni E T N K G) = (Ok (pods, policies), s2).

(** The members that the records and the API server ask for. *)
Definition wanted_members (nodeName : string) (s : Cni E T N K G) (m : gmap string PodNetwork) (X : gset string) : Prop :=
  ∃ pods policies, policies_read nodeName (cn_k8s s) pods policies ∧
    X = desiredNATGWOutgoingIPs (map_to_list m).*2 pods policies.

Lemma keeping_node_policies {X} (f : Cni E T N K G → X) nodeName :
  (∀ v s, f (c_set_k8s v s) = f s) → keeping f (node_policies nodeName).
Proof. intros Hf. unfold node_policies, c_k8s. solve_keeping; by apply keeping_zoom. Qed.

Lemma desired_perm l l' pods policies :
  l ≡ₚ l' → desiredNATGWOutgoingIPs l pods policies = desiredNATGWOutgoingIPs l' pods policies.
Proof. intros Hp. unfold desiredNATGWOutgoingIPs. by rewrite Hp. Qed.

Lemma safe_k8s {A} (p : M K A) : safe p → safe (c_k8s p : M (Cni E T N K G) A).
Proof. apply safe_zoom. Qed.
Lemma safe_node_client paths : safe (node_client (K := K) paths).
Proof. induction paths; simpl; solve_safe. Qed.
Lemma safe_node_policies nodeName : safe (node_policies (E := E) (T := T) (N := N) (K := K) (G := G) nodeName).
Proof.
  unfold node_policies, GetNodeClient, GetNodeCRDClient. pose proof safe_node_client.
  repeat first [apply safe_k8s|progress solve_safe].
Qed.

(** An early error: nothing was done. *)
#[local] Ltac unmoved := cbn [kont]; repeat split; try done; by left.

Lemma migrate_spec nodeName s m :
  records (cn_node s) m →
  wp (migrateLegacyNATGWOutgoingIPs nodeName) (λ o s', returns o = true ∧
    records (cn_node s') m ∧ cn_ipt s' = cn_ipt s ∧
    ((o ≠ Ok tt ∧ cn_texts s' = cn_texts s) ∨
     (∃ X, wanted_members nodeName s m X ∧ cn_texts s ∩ X ⊆ cn_texts s' ∧ cn_texts s' ⊆ cn_texts s ∪ X ∧
        (o = Ok tt → cn_texts s' = X)))) s.
Proof.
  intros Hm. unfold migrateLegacyNATGWOutgoingIPs. destruct (String.eqb nodeName ""); [wp_step; unmoved|].
  wp_step. apply wp_c_node. eapply wp_mono; [by apply listPodNetworkRecords_spec|].
  intros o g (Hret & Hm1 & Hl). destruct o as [networks|e| |]; [|unmoved|done|done].
  specialize (Hl _ eq_refl). cbn [kont]. set (s1 := c_set_node g s) in *.
  wp_step. apply run_wp. intros o s2 Hpol.
  assert (cn_net s2 = cn_net s ∧ cn_ipt s2 = cn_ipt s ∧ cn_node s2 = g) as (En & Ei & Eg).
  { pose proof (keeping_node_policies cn_net nodeName (λ _ _, eq_refl) s1) as H1.
    pose proof (keeping_node_policies cn_ipt nodeName (λ _ _, eq_refl) s1) as H2.
    pose proof (keeping_node_policies cn_node nodeName (λ _ _, eq_refl) s1) as H3. by rewrite Hpol in *. }
  pose proof (safe_node_policies nodeName s1) as Hsafe. rewrite Hpol in Hsafe.
  assert (cn_texts s2 = cn_texts s) as Et by (unfold cn_texts; by rewrite En).
  destruct o as [[pods policies]|e| |]; [|cbn [kont]; rewrite Et, Eg, Ei; unmoved|done|done]. cbn [kont].
  rewrite (desired_perm _ _ _ _ Hl). set (X := desiredNATGWOutgoingIPs _ _ _).
  assert (wanted_members nodeName s m X) as HX by (exists pods, policies; split; [by exists s1, s2|done]).
  eapply wp_mono; [apply wp_keeping_of with (f := λ s, (cn_ipt s, cn_node s)), converge_spec|].
  { unfold converge, range_set, c_net, c_proc. solve_keeping. }
  { intros t Ht. by eapply desired_texts. }
  intros o s3 [(Hr & H1 & H2 & H3) [= E1 E2]]. rewrite E1, E2, Eg, Ei, Et in *. split_and!; try done.
  right. by exists X.
Qed.

Lemma try_enable_spec nodeName s m :
  records (cn_node s) m →
  wp (tryEnableNATGWOutgoing nodeName) (λ o s', returns o = true ∧
    records (cn_node s') m ∧
    (tables (cn_ipt s') = tables (cn_ipt s) ∨
     (∃ X, wanted_members nodeName s m X ∧ cn_texts s' = X ∧
        ∃ t, tables t = tables (cn_ipt s) ∧ cn_ipt s' = (updateIptablesRules bypass_rules t).2))) s.
Proof.
  intros Hm. unfold tryEnableNATGWOutgoing, ensureNATGWOutgoingIPSet. wp_step. apply wp_c_net. wp_step.
  eapply wp_mono; [apply wp_call_returns, ipset_Create_law|]. intros o n (Hret & _).
  destruct o as [[]|e| |]; [|unmoved|done|done]. cbn [kont]. wp_step. apply wp_c_ipt.
  unfold needsNATGWOutgoingMigration. do 2 wp_step.
  apply (wp_keeps tables); [intros t; apply ipt_ChainExists_keeps|]. intros o t1 Hret1 Et1. simpl in Et1.
  destruct o as [ex|e| |]; [|unmoved|done|done]. cbn [kont].
  apply (wp_mono _ (λ o t2, tables t2 = tables (cn_ipt s) ∧ returns o = true)).
  { destruct ex; cbn [negb]; [|by wp_step]. do 2 wp_step.
    apply wp_ipt_Exists; intros; cbn [kont]; try wp_step; (split; [congruence|done]). }
  clear t1 Et1 Hret1. intros o t2 [Et2 Hret2]. destruct o as [b|e| |]; [|unmoved|done|done].
  cbn [kont]. destruct (negb b); [wp_step; unmoved|].
  wp_step. eapply wp_mono; [apply (migrate_spec _ _ m)|]; [done|].
  intros o s3 (Hr3 & Hm3 & Ei3 & Hcase). simpl in Ei3.
  destruct o as [[]|e| |]; [|cbn [kont]; rewrite Ei3; unmoved|done|done]. cbn [kont].
  destruct Hcase as [[? _]|(X & HX & _ & _ & Et)]; [done|]. specialize (Et eq_refl).
  apply wp_c_ipt. unfold wp. pose proof (updateIptablesRules_spec bypass_rules (cn_ipt s3)) as (Hru & _).
  split; [done|]. split; [done|]. right. exists X. split; [done|]. split; [done|]. exists t2. by rewrite Ei3.
Qed.

(** ** Theorems *)

(** C20: The migration makes the members of the ipset the wanted addresses; when it
    breaks off, every wanted member that was there still is and every member was there
    before or is wanted, in whatever order the sets are ranged over; records and
    iptables are not touched. *)
Theorem migrate_correct nodeName s m :
  records (cn_node s) m →
  wp (migrateLegacyNATGWOutgoingIPs nodeName) (λ o s', returns o = true ∧
    records (cn_node s') m ∧ cn_ipt s' = cn_ipt s ∧
    ((o ≠ Ok tt ∧ cn_texts s' = cn_texts s) ∨
     (∃ X, wanted_members nodeName s m X ∧ cn_texts s ∩ X ⊆ cn_texts s' ∧ cn_texts s' ⊆ cn_texts s ∪ X ∧
        (o = Ok tt → cn_texts s' = X)))) s.
Proof. apply migrate_spec. Qed.

(** The rules of the update other than the bypass rule are printed differently from it. *)
Definition bypass_alone (rm : iptablesRulesManager) : Prop :=
  ¬ added_by (snat_rules rm ++ connmark_rules rm) connmark_key (canon natGWOutgoingBypassRule).

Lemma wanted_same nodeName s s' m X : cn_k8s s' = cn_k8s s → wanted_members nodeName s' m X → wanted_members nodeName s m X.
Proof. unfold wanted_members. by intros ->. Qed.

Lemma bypass_not_prerouting : ¬ added_by buildConnmarkPreroutingRules connmark_key (canon natGWOutgoingBypassRule).
Proof.
  intros (r & Hr & Hk & _).
  assert (Forall (λ r, rule_at r ≠ connmark_key) buildConnmarkPreroutingRules) as Hall.
  { unfold buildConnmarkPreroutingRules. repeat (apply Forall_cons; split; [done|]). constructor. }
  rewrite Forall_forall in Hall. by eapply Hall.
Qed.

(** The last step of [updateRules] adds no bypass rule. *)
Lemma reattach_spec rm s :
  rules_differ rm → vpc_first rm (tables (cn_ipt s)) →
  wp (c_ipt (updateIptablesRules buildConnmarkPreroutingRules)) (λ o s', returns o = true ∧
    cn_node s' = cn_node s ∧ cn_texts s' = cn_texts s ∧ vpc_first rm (tables (cn_ipt s')) ∧
    (canon natGWOutgoingBypassRule ∈ rules_at connmark_key (tables (cn_ipt s')) →
       canon natGWOutgoingBypassRule ∈ rules_at connmark_key (tables (cn_ipt s)))) s.
Proof.
  intros Hd [H1 H2]. apply wp_c_ipt.
  pose proof (update_rules_elem buildConnmarkPreroutingRules connmark_key (canon natGWOutgoingBypassRule) (cn_ipt s)) as He.
  pose proof (update_rules_ordered _ _ _ _ _ (prerouting_fit _ _ (or_introl eq_refl)) H1) as [Hr H1'].
  pose proof (update_rules_ordered _ _ _ _ _ (prerouting_fit _ _ (or_intror eq_refl)) H2) as [_ H2'].
  split; [exact Hr|]. split; [done|]. split; [done|]. split; [by split|].
  intros Hin. destruct (He Hin) as [?|?%bypass_not_prerouting]; done.
Qed.

Lemma bypass_ordered rm t :
  rules_differ rm → vpc_first rm (tables t) → vpc_first rm (tables (updateIptablesRules bypass_rules t).2).
Proof.
  intros [_ Hd] [H1 H2]. split.
  - by apply (update_rules_ordered _ _ _ _ _ (bypass_fit _ _ (or_intror eq_refl)) H1).
  - refine (proj2 (update_rules_ordered _ _ _ _ _ (bypass_fit _ _ (or_introl (conj eq_refl _))) H2)).
    intros Heq. apply Hd. rewrite <- Heq. apply list_elem_of_here.
Qed.

(** C13: When updateRules starts without the bypass rule in the mark chain and leaves it
    there, NAT gateway outgoing is enabled and the ipset has exactly the addresses that
    records, pods and pod networkings ask for; rule order and records are kept at
    whatever call it fails. *)
Theorem updateRules_correct rm nodeName enabled s m :
  records (cn_node s) m → rules_differ rm → bypass_alone rm →
  vpc_first rm (tables (cn_ipt s)) →
  canon natGWOutgoingBypassRule ∉ rules_at connmark_key (tables (cn_ipt s)) →
  wp (updateRules rm nodeName enabled) (λ o s', returns o = true ∧
    records (cn_node s') m ∧ vpc_first rm (tables (cn_ipt s')) ∧
    (canon natGWOutgoingBypassRule ∈ rules_at connmark_key (tables (cn_ipt s')) →
       enabled = true ∧ wanted_members nodeName s m (cn_texts s'))) s.
Proof.
  intros Hm Hd Ha Ho Hno. unfold updateRules. wp_step. apply wp_c_ipt.
  pose proof (update_base_rules_elem rm connmark_key (canon natGWOutgoingBypassRule) (cn_ipt s)) as Hb.
  pose proof (update_base_rules_ordered rm _ Hd Ho) as [Hr1 Ho1]. unfold wp in *.
  destruct (update_base_rules rm (cn_ipt s)) as [o t1]. cbn [fst snd] in *.
  assert (canon natGWOutgoingBypassRule ∉ rules_at connmark_key (tables t1)) as Hno1.
  { intros Hin. by destruct (Hb Hin). }
  clear Hb Hno. destruct o as [[]|e| |]; [|cbn [kont]; by split_and!|done|done]. cbn [kont]. wp_step.
  apply (wp_mono _ (λ o s2, o = Ok tt ∧ records (cn_node s2) m ∧ vpc_first rm (tables (cn_ipt s2)) ∧
    (canon natGWOutgoingBypassRule ∈ rules_at connmark_key (tables (cn_ipt s2)) →
       enabled = true ∧ wanted_members nodeName s m (cn_texts s2)))).
  - destruct enabled; [|by wp_step; split_and!]. do 3 wp_step.
    eapply wp_mono; [by apply (try_enable_spec nodeName (c_set_ipt t1 s) m)|].
    intros o s2 (Hr2 & Hm2 & Hcase).
    assert (vpc_first rm (tables (cn_ipt s2)) ∧
      (canon natGWOutgoingBypassRule ∈ rules_at connmark_key (tables (cn_ipt s2)) →
         true = true ∧ wanted_members nodeName s m (cn_texts s2))) as [Hv2 Hby].
    { destruct Hcase as [Et|(X & HX & -> & t & Et & ->)].
      - change (cn_ipt (c_set_ipt t1 s)) with t1 in Et. rewrite Et. by split.
      - change (cn_ipt (c_set_ipt t1 s)) with t1 in Et. rewrite <- Et in Ho1. split; [|by split].
        by apply bypass_ordered. }
    destruct o as [[]|e| |]; try done; cbn [kont]; wp_step; done.
  - intros o s2 (-> & Hm2 & Hv2 & Hby). cbn [kont]. eapply wp_mono; [by apply (reattach_spec rm)|].
    intros o s3 (Hr3 & En & Et & Hv3 & Hby3). rewrite En, Et. split_and!; try done. auto.
Qed.
End migration.
