(* ===== verification/UniRoutes.v ===== *)
(** The routes of a network interface ([cmd/cnivpc/if.go], 132-271): source policy,
    MTU, address, link state, reverse path filter, and the gateway and default route
    in the table of the interface.

    [RouteApi] is what the program uses of netlink and of the ARP library,
    [RouteLaws] the behaviour of the routing table, a map from table, scope and
    destination to the next hop. *)
From S2P Require Export CniBase IpRules Rps Iputils.

(** ** Definitions *)

(** [netlink.Route]; a link is given by its name, no destination is the default route. *)
Record Route : Type := mkRoute {
  ro_Link : string;
  ro_Dst : option IPNet;
  ro_Gw : list Z;
  ro_Table : Z;
  ro_ScopeLink : bool;      (* SCOPE_LINK, else SCOPE_UNIVERSE *)
  ro_Onlink : bool
}.

Class RouteApi (N : Type) : Type := {
  nl_RouteList : string → Call N (list Route);
  nl_RouteReplace : Route → Call N unit;
  nl_RouteAdd : Route → Call N unit;
  nl_RouteDel : Route → Call N unit;
  nl_LinkSetMTU : string → Z → Call N unit;
  nl_LinkSetUp : string → Call N unit;
  netlink_ParseAddr : string → error + IPNet;
  nl_AddrReplace : string → IPNet → Call N unit;
  arping_Gratuitous : list Z → string → Call N unit
}.

Definition rpFilterOff : string := "0".
Definition rpFilterStrict : string := "1".
Definition rpFilterLoose : string := "2".
Definition defaultNetClassPath : string := "/sys/class/net".

(** [h, _ := net.IPMask(net.ParseIP(netmask).To4()).Size()]. *)
Definition mask_size (netmask : string) : Z :=
  default 0 (simpleMaskLength (default [] (ParseIP netmask ≫= To4)) 0).

Section sys.
Context {N : Type} `{!SysfsApi N}.
Definition setProcSys (key value : string) : M N unit := call (os_WriteFile key value).
Definition rp_filter_key (ifName : string) : string :=
  "/proc/sys/net/ipv4/conf/" +:+ ifName +:+ "/rp_filter".
Definition ensureAllRPFilterOff : M N unit := setProcSys "/proc/sys/net/ipv4/conf/all/rp_filter" rpFilterOff.
Definition ensureUNIRpFilter (ifName : string) : M N unit := setProcSys (rp_filter_key ifName) rpFilterStrict.
Definition ensureMasterInterfaceRpFilter (masterInterface : string) : M N unit :=
  setProcSys (rp_filter_key masterInterface) rpFilterLoose.
End sys.

Section uni.
Context {E T N K G : Type} `{!CloudApi E, !SysfsApi N, !RuleApi N, !RouteApi N}.
#[local] Abbreviation m := (M (Cni E T N K G)).

Definition ensureLinkRPS (linkName : string) : m unit :=
  cpus ← c_proc (gets (λ p, ext_NumCPU (proc_ext p)));
  c_net (ensureLinkRPSWithCPUCount linkName defaultNetClassPath cpus).

(** The routes that are in another table than [tableId] are deleted. *)
Definition drop_other_route (tableId : Z) (route : Route) : M N unit :=
  if ro_Table route =? tableId then mret tt else ignore (call (nl_RouteDel route)).

Definition gateway_route (linkName gateway : string) (tableId : Z) : Route :=
  mkRoute linkName (Some (netlink_NewIPNet (default [] (ParseIP gateway)))) [] tableId true false.
Definition default_route (linkName gateway : string) (tableId : Z) : Route :=
  mkRoute linkName None (default [] (ParseIP gateway)) tableId false false.

(** MTU, address and link state of the interface. *)
Definition configure_link (linkName primaryIP netmask : string) : m unit :=
  masterName ← c_proc GetMasterInterface;
  masterIface ← with_msg "get master interface MTU error" (c_proc (ext (ext_InterfaceByName masterName)));
  with_msg "set MTU error" (c_net (call (nl_LinkSetMTU linkName (if_MTU masterIface))));;
  match netlink_ParseAddr (primaryIP +:+ "/" +:+ Itoa (mask_size netmask)) with
  | inl _ => throw (Errorf "parse addr failed")
  | inr addr =>
      with_msg "cannot add ip to dev" (c_net (call (nl_AddrReplace linkName addr)));;
      with_msg "cannot set link up" (c_net (call (nl_LinkSetUp linkName)))
  end.

(** The reverse path filter and the two routes. *)
Definition install_routes (linkName gateway : string) (tableId : Z) : M N unit :=
  with_msg "failed to ensure rp_filter" (ensureUNIRpFilter linkName);;
  with_msg "unable to add route to gateway" (call (nl_RouteReplace (gateway_route linkName gateway tableId)));;
  with_msg "unable to add default route to gateway" (call (nl_RouteReplace (default_route linkName gateway tableId))).

Definition announce (primaryIP linkName : string) : M N unit :=
  for_range [0; 1; 2] (λ _, ignore (call (arping_Gratuitous (default [] (ParseIP primaryIP)) linkName))).

Definition ensureUNIPrimaryIPRoute (primaryIP mac gateway netmask : string) : m unit :=
  link ← c_proc (GetLinkByMac mac);
  let linkName := if_Name link in
  ignore (ensureLinkRPS linkName);;
  match ifNameToTableId linkName with
  | inl _ => throw (Errorf "cannot convert link name to number")
  | inr tableId =>
      c_net (ensureSrcIPRoutePolicy primaryIP linkName);;
      routes ← with_msg "list ip routes error" (c_net (call (nl_RouteList linkName)));
      if existsb (λ r, String.eqb (IP_String (ro_Gw r)) gateway && (ro_Table r =? tableId)) routes
      then mret tt else
      configure_link linkName primaryIP netmask;;
      routes ← c_net (call (nl_RouteList linkName));
      c_net (for_range routes (drop_other_route tableId));;
      c_net (install_routes linkName gateway tableId);;
      c_net (announce primaryIP linkName)
  end.
End uni.

Example mask_size_24 : mask_size "255.255.255.0" = 24.
Proof. reflexivity. Qed.
Example mask_size_bad : map mask_size ["255.0.255.0"; ""] = [0; 0].
Proof. reflexivity. Qed.

(** ** The routing table *)

Definition route_key (r : Route) : Z * option string := (ro_Table r, net_text (ro_Dst r)).

(** Replacing puts a route under its key, deleting takes at most a route with the
    same table out; the calls that are not about rules leave the policy rules alone. *)
Class RouteLaws (N : Type) `{!SysfsApi N, !RuleApi N, !RuleLaws N, !RouteApi N} : Type := {
  routes : N → gmap (Z * option string) Route;
  RouteReplace_law r n :
    wp (call (nl_RouteReplace r)) (λ o n', ip_rules n' = ip_rules n ∧
      (o = Ok tt ∧ routes n' = <[route_key r := r]> (routes n) ∨
       o ≠ Ok tt ∧ routes n' = routes n)) n;
  RouteList_rules l n : ip_rules (nl_RouteList l n).2 = ip_rules n;
  RouteList_law l n rs :
    (nl_RouteList l n).1 = inr rs → ∀ r, r ∈ rs → routes n !! route_key r = Some r ∧ ro_Link r = l;
  RouteList_routes l n : routes (nl_RouteList l n).2 = routes n;
  RouteDel_rules r n : ip_rules (nl_RouteDel r n).2 = ip_rules n;
  LinkSetMTU_rules l v n : ip_rules (nl_LinkSetMTU l v n).2 = ip_rules n;
  LinkSetUp_rules l n : ip_rules (nl_LinkSetUp l n).2 = ip_rules n;
  AddrReplace_rules l a n : ip_rules (nl_AddrReplace l a n).2 = ip_rules n;
  Gratuitous_keeps ip l n :
    ip_rules (arping_Gratuitous ip l n).2 = ip_rules n ∧ routes (arping_Gratuitous ip l n).2 = routes n;
  sysfs_Glob_rules p n : ip_rules (os_Glob p n).2 = ip_rules n;
  sysfs_ReadFile_rules f n : ip_rules (os_ReadFile f n).2 = ip_rules n;
  sysfs_WriteFile_rules f c n : ip_rules (os_WriteFile f c n).2 = ip_rules n
}.

Section spec.
Context {E T N K G : Type} `{!CloudApi E, !SysfsApi N, !RuleApi N, !RuleLaws N, !RouteApi N, !RouteLaws N}.
Implicit Types s : Cni E T N K G.

#[local] Ltac keep_call := first
  [ apply keeping_call; intros ?; first [ apply RouteList_rules | apply RouteDel_rules | apply LinkSetMTU_rules
    | apply LinkSetUp_rules | apply AddrReplace_rules | apply Gratuitous_keeps | apply sysfs_Glob_rules
    | apply sysfs_ReadFile_rules | apply sysfs_WriteFile_rules ] ].

Definition cn_rules s : list IpRule := ip_rules (cn_net s).

Lemma keeping_c_net {A} (p : M N A) : keeping ip_rules p → keeping cn_rules (c_net p : M (Cni E T N K G) A).
Proof. intros Hp. by apply (keeping_zoom_in _ ip_rules). Qed.
Lemma keeping_c_proc {A} (p : M (Proc E) A) : keeping cn_rules (c_proc p : M (Cni E T N K G) A).
Proof. by apply keeping_zoom. Qed.

Lemma ensureLinkRPS_rules l : keeping cn_rules (ensureLinkRPS (E := E) (T := T) (K := K) (G := G) l).
Proof.
  unfold ensureLinkRPS. apply keeping_bind; [apply keeping_c_proc|]. intros n. apply keeping_c_net.
  unfold ensureLinkRPSWithCPUCount, rps_one. repeat first [keep_call | progress solve_keeping].
Qed.

Lemma configure_link_rules l ip mask : keeping cn_rules (configure_link (E := E) (T := T) (K := K) (G := G) l ip mask).
Proof.
  unfold configure_link.
  repeat first [apply keeping_c_proc | apply keeping_c_net; keep_call | progress solve_keeping].
Qed.

(** The routes that a successful configuration leaves. *)
Definition routed (linkName gateway : string) (tableId : Z) (n : N) : Prop :=
  routes n !! route_key (gateway_route linkName gateway tableId) = Some (gateway_route linkName gateway tableId) ∧
  routes n !! route_key (default_route linkName gateway tableId) = Some (default_route linkName gateway tableId).

Lemma wp_RouteReplace r (Q : outcome unit → N → Prop) n :
  (∀ n', ip_rules n' = ip_rules n → routes n' = <[route_key r := r]> (routes n) → Q (Ok tt) n') →
  (∀ e n', ip_rules n' = ip_rules n → Q (Err e) n') →
  wp (call (nl_RouteReplace r)) Q n.
Proof.
  intros Hok Herr. pose proof (RouteReplace_law r n) as Hl. unfold wp, call in *.
  destruct (nl_RouteReplace r n) as [[e|[]] n']; simpl in *; destruct Hl as [Hk [[H1 H2]|[H1 H2]]]; auto; done.
Qed.

Lemma install_routes_spec l gw tb n :
  wp (install_routes l gw tb) (λ o n', returns o = true ∧ ip_rules n' = ip_rules n ∧ (o = Ok tt → routed l gw tb n')) n.
Proof.
  unfold install_routes, ensureUNIRpFilter, setProcSys. do 2 wp_step.
  apply (wp_keeps ip_rules); [intros ?; apply sysfs_WriteFile_rules|]. intros o n1 Ho E1.
  destruct o as [[]|e| |]; [|cbn [kont]; by split_and!|done|done]. cbn [kont]. do 2 wp_step.
  apply wp_RouteReplace; [|intros e n2 E2; cbn [kont]; split_and!; [done|congruence|done]].
  intros n2 E2 R2. cbn [kont]. wp_step.
  apply wp_RouteReplace; [|intros e n3 E3; split_and!; [done|congruence|done]].
  intros n3 E3 R3. split_and!; [done|congruence|]. intros _. unfold routed. rewrite R3. split.
  - rewrite lookup_insert_ne by done. by rewrite R2, lookup_insert_eq.
  - by rewrite lookup_insert_eq.
Qed.

Lemma announce_spec ip l n :
  wp (announce ip l) (λ o n', o = Ok tt ∧ ip_rules n' = ip_rules n ∧ routes n' = routes n) n.
Proof.
  unfold announce. apply (wp_for_range _ _ (λ _ n', ip_rules n' = ip_rules n ∧ routes n' = routes n)); [done| |by auto].
  intros x l' n1 [E1 E2]. do 3 wp_step.
  apply (wp_keeps (λ n, (ip_rules n, routes n))); [intros n2; by destruct (Gratuitous_keeps (default [] (ParseIP ip)) l n2) as [-> ->]|].
  intros o n2 Ho [= E3 E4]. destruct o as [[]|e| |]; [| |done|done]; cbn [kont]; wp_step; cbn [kont];
    (split; congruence).
Qed.

(** The second half of [ensureUNIPrimaryIPRoute]. *)
Lemma set_up_spec linkName primaryIP gateway netmask tableId s :
  wp (configure_link linkName primaryIP netmask;;
      routes ← c_net (call (nl_RouteList linkName));
      c_net (for_range routes (drop_other_route tableId));;
      c_net (install_routes linkName gateway tableId);;
      c_net (announce primaryIP linkName)) (λ o s', cn_rules s' = cn_rules s ∧
    (o = Ok tt → routed linkName gateway tableId (cn_net s'))) s.
Proof.
  wp_step. eapply wp_mono; [apply (wp_keep cn_rules), configure_link_rules|]. intros o s5 E5. rewrite <- E5. clear E5 s.
  destruct o as [[]|e|w|]; cbn [kont]; try done. wp_step.
  eapply wp_mono; [apply (wp_keep cn_rules), keeping_c_net; keep_call|]. intros o s6 E6. rewrite <- E6. clear E6 s5.
  destruct o as [rs2|e|w|]; cbn [kont]; try done. wp_step.
  eapply wp_mono; [apply (wp_keep cn_rules), keeping_c_net; unfold drop_other_route; repeat first [keep_call | progress solve_keeping]|].
  intros o s7 E7. rewrite <- E7. clear E7 s6. destruct o as [[]|e|w|]; cbn [kont]; try done.
  wp_step. apply wp_c_net. eapply wp_mono; [apply install_routes_spec|]. intros o n8 (Hr8 & E8 & Hi).
  change (cn_rules s7) with (ip_rules (cn_net s7)). rewrite <- E8.
  destruct o as [[]|e|w|]; cbn [kont]; try done. specialize (Hi eq_refl).
  apply wp_c_net. eapply wp_mono; [apply announce_spec|]. intros o n9 (-> & E9 & R9). simpl in E9, R9.
  unfold cn_rules, routed in *. simpl. by rewrite E9, R9.
Qed.

(** The interface of the node with the given MAC. *)
Definition mac_link (mac : string) (v : Proc E) (link : NetIface) : Prop :=
  ∃ links v', ext ext_LinkList v = (Ok links, v') ∧ link ∈ links ∧
    EqualFold (HardwareAddr_String (if_HardwareAddr link)) mac = true.
Lemma GetLinkByMac_link mac v link v' : GetLinkByMac mac v = (Ok link, v') → mac_link mac v link.
Proof.
  unfold GetLinkByMac, mac_link. cbv [mbind M_bind]. destruct (ext ext_LinkList v) as [[links|e|w|] v1]; try done.
  destruct (head _) as [l|] eqn:Eh; [|done]. intros [= -> <-]. exists links, v1.
  apply head_Some_elem_of, list_elem_of_filter in Eh as [? ?]. by split_and!.
Qed.

(** ** Theorem *)

(** C23: ensureUNIPrimaryIPRoute leaves the policy rules of other addresses alone; after
    success there is a rule from the given address into the table of the interface that
    has the given MAC, and that table routes over this interface to the gateway, by the
    routes it installed or by one that it found there. *)
Theorem ensureUNIPrimaryIPRoute_correct primaryIP mac gateway netmask s :
  canonical_ip primaryIP → tables_named primaryIP (cn_rules s) →
  wp (ensureUNIPrimaryIPRoute primaryIP mac gateway netmask) (λ o s',
    others primaryIP (cn_rules s') = others primaryIP (cn_rules s) ∧
    (o = Ok tt → ∃ link tableId, mac_link mac (cn_proc s) link ∧ ifNameToTableId (if_Name link) = inr tableId ∧
       (∃ r, r ∈ cn_rules s' ∧ net_is (rl_Src r) primaryIP = true ∧ rl_Table r = tableId ∧ rl_Dst r = None) ∧
       (routed (if_Name link) gateway tableId (cn_net s') ∨
        ∃ r, routes (cn_net s') !! route_key r = Some r ∧ ro_Link r = if_Name link ∧
          IP_String (ro_Gw r) = gateway ∧ ro_Table r = tableId))) s.
Proof.
  intros Hip Ht. unfold ensureUNIPrimaryIPRoute. wp_step. apply wp_c_proc, run_wp. intros o p' Elink.
  set (v := cn_proc s) in *. clearbody v.
  set (s1 := c_set_proc p' s). change (cn_rules s) with (cn_rules s1) in *. clearbody s1. clear s.
  destruct o as [link|e|w|]; cbn [kont]; try done. apply GetLinkByMac_link in Elink. clear p'. wp_step.
  eapply wp_mono; [apply (wp_keep cn_rules), keeping_ignore, ensureLinkRPS_rules|]. intros o s2 E2. rewrite <- E2 in *. clear E2 s1.
  destruct o as [[]|e|w|]; cbn [kont]; try done.
  destruct (ifNameToTableId (if_Name link)) as [e|tableId] eqn:Etb; [by wp_step|]. wp_step. apply wp_c_net.
  eapply wp_mono; [by apply (ensureSrc_spec primaryIP (if_Name link))|]. intros o n3 (Hr3 & Ho3 & Hok3).
  destruct o as [[]|e|w|]; cbn [kont]; try done. destruct (Hok3 eq_refl) as (r & Hr & Hsrc & Htb & Hdst). clear Hok3.
  assert (∃ r, r ∈ ip_rules n3 ∧ net_is (rl_Src r) primaryIP = true ∧ rl_Table r = tableId ∧ rl_Dst r = None) as Hpol.
  { exists r. split_and!; try done. congruence. }
  clear r Hr Hsrc Htb Hdst. do 2 wp_step. apply wp_c_net.
  apply run_wp. intros o n4 E4. cbn [cn_net c_set_net] in E4.
  assert (ip_rules n4 = ip_rules n3 ∧ routes n4 = routes n3 ∧
    ∀ rs, o = Ok rs → ∀ r, r ∈ rs → routes n4 !! route_key r = Some r ∧ ro_Link r = if_Name link) as (E4r & E4t & Hl).
  { unfold call in E4. pose proof (RouteList_rules (if_Name link) n3) as H1.
    pose proof (RouteList_routes (if_Name link) n3) as H2. pose proof (RouteList_law (if_Name link) n3) as H3.
    destruct (nl_RouteList (if_Name link) n3) as [[e|rs] n]; injection E4 as <- <-; simpl in *; [done|].
    split_and!; try done. intros rs' [= <-] x Hx. rewrite H2. by eapply H3. }
  rewrite <- E4r in *. clear E4. set (s4 := c_set_net n4 _). change (ip_rules n4) with (cn_rules s4) in *.
  destruct o as [rs|e|w|]; cbn [kont]; try done. specialize (Hl rs eq_refl).
  destruct (existsb _ rs) eqn:Eex.
  { wp_step. split; [done|]. intros _. exists link, tableId. do 3 (split; [done|]). right.
    apply existsb_exists in Eex as (r & Hr%list_elem_of_In & [Hg%String.eqb_eq Hx%Z.eqb_eq]%andb_true_iff).
    destruct (Hl r Hr). exists r. auto. }
  eapply wp_mono; [apply set_up_spec|]. intros o s5 [E5 Hr5]. rewrite E5. split.
  { exact Ho3. }
  intros Ho. exists link, tableId. do 3 (split; [done|]). left. by apply Hr5.
Qed.
End spec.
