(* ===== verification/CniUni.v ===== *)
(** Subnets, network interfaces and secondary addresses of the plugin
    ([cmd/cnivpc/rpc.go], 210-265 and 315-652): the choice of a subnet, the interface
    of that subnet, and the direct calls of the VPC when there is no daemon.

    [UniApi] has the calls on network interfaces, beside [CloudApi]. *)
From S2P Require Export CniBase Iputils.

(** ** Definitions *)

Record NetworkInterface : Type := mkNI {
  ni_InterfaceId : string; ni_SubnetId : string; ni_MacAddress : string;
  ni_PrivateIpSet : list string; ni_Gateway : string; ni_Netmask : string;
  ni_AttachInstanceId : string
}.
Record CreateUNIRequest : Type := mkUNIReq {
  ur_VPCId : string; ur_SubnetId : string;
  ur_PrioritySecGroup : list (Z * string); ur_SecurityMode : option Z
}.

(** The replies have their [RetCode]; [ext_UNITicks] is the number of ticks that the
    wait for the metadata takes before its timeout. *)
Class UniApi (E : Type) : Type := {
  ext_CreateNetworkInterface : CreateUNIRequest → Call E (Z * NetworkInterface);
  ext_DeleteNetworkInterface : string → Call E Z;
  ext_AttachNetworkInterface : string → string → Call E Z;
  ext_DescribeNetworkInterface : string → Call E (Z * list NetworkInterface);
  ext_UNITicks : E → nat * E
}.

Record subnetAvailableIP : Type := mkSubnetIP { sa_id : string; sa_availableIPs : Z }.

Definition validateSubnetAllocationStrategy (strategy : string) : option error :=
  if String.eqb strategy "" || String.eqb strategy SubnetAllocationStrategySequential ||
     String.eqb strategy SubnetAllocationStrategyBalanced
  then None else Some (Errorf "invalid podnetworking subnet allocation strategy").

(** [slices.MaxFunc] with [cmp.Compare] on the free addresses: the first maximum. *)
Definition max_subnet (s : subnetAvailableIP) (l : list subnetAvailableIP) : subnetAvailableIP :=
  foldl (λ m x, if sa_availableIPs m <? sa_availableIPs x then x else m) s l.

Definition selectSubnetByAllocationStrategy (strategy : string) (subnets : list subnetAvailableIP)
    : error + option subnetAvailableIP :=
  match validateSubnetAllocationStrategy strategy with
  | Some err => inl err
  | None =>
      match subnets with
      | [] => inr None
      | s :: rest =>
          if String.eqb strategy "" || String.eqb strategy SubnetAllocationStrategySequential
          then inr (Some s)
          else if String.eqb strategy SubnetAllocationStrategyBalanced
          then inr (Some (max_subnet s rest)) else inr (Some s)
      end
  end.

Definition formatSubnetAvailableIPs (subnets : list subnetAvailableIP) : string :=
  if (length subnets =? 0)%nat then "none"
  else Join ((λ s, sa_id s +:+ "=" +:+ Itoa (sa_availableIPs s)) <$> subnets) ", ".

(** The first interface of the metadata in the subnet that is not the default one. *)
Definition find_uni (subnetId : string) (l : list MDNetworkInterface) : option string :=
  md_Id <$> head (filter (λ i, md_SubnetId i = subnetId ∧ md_Default i = false) l).

(** The security groups of the request, numbered from 1. *)
Definition sec_groups (secGroupIds : list string) : list (Z * string) :=
  imap (λ i g, (Z.of_nat i + 1, g)) (filter (λ g, HasPrefix g "secgroup-" = true) secGroupIds).
Definition create_request (vpcId subnet : string) (secGroupIds : list string) : CreateUNIRequest :=
  let groups := sec_groups secGroupIds in
  mkUNIReq vpcId subnet groups (if (0 <? length groups)%nat then Some 1 else None).

Section uni.
Context {E : Type} `{!CloudApi E, !UniApi E}.
#[local] Abbreviation P := (M (Proc E)).

Definition getSubnetAvailableIPs (vpc subnet : string) : P Z :=
  resp ← with_msg "DescribeSubnet from unetwork api service error" (ext (ext_DescribeSubnet (mkSubnetReq subnet vpc)));
  match resp with
  | [] => throw (Errorf "DescribeSubnet returned empty DataSet")
  | availableIPs :: _ => mret availableIPs
  end.

(** The candidates with free addresses; one that cannot be read is skipped. *)
Fixpoint available_subnets (vpcId : string) (subnetIds : list string) : P (list subnetAvailableIP) :=
  match subnetIds with
  | [] => mret []
  | id :: rest =>
      r ← attempt (getSubnetAvailableIPs vpcId id);
      more ← available_subnets vpcId rest;
      mret (match r with
            | inl _ => more
            | inr n => if n <=? 0 then more else mkSubnetIP id n :: more
            end)
  end.

Definition createNetworkInterface (vpcId subnet : string) (secGroupIds : list string) : P NetworkInterface :=
  '(code, ni) ← with_msg "CreateNetworkInterface from unetwork api service error"
    (ext (ext_CreateNetworkInterface (create_request vpcId subnet secGroupIds)));
  if negb (code =? 0) then throw (Errorf "CreateNetworkInterface from unetwork api error") else mret ni.

(** A failure is only logged. *)
Definition deleteNetworkInterface (interfaceId : string) : P unit :=
  ignore (ext (ext_DeleteNetworkInterface interfaceId)).

Definition describeNetworkInterface (interfaceId : string) : P NetworkInterface :=
  '(code, l) ← with_msg "DescribeNetworkInterface from unetwork api service error"
    (ext (ext_DescribeNetworkInterface interfaceId));
  if negb (code =? 0) then throw (Errorf "DescribeNetworkInterface from unetwork api error") else
  match l with
  | [] => throw (Errorf "DescribeNetworkInterface returned empty NetworkInterfaceSet")
  | ni :: _ => mret ni
  end.

Definition attachNetworkInterface (interfaceId instanceId : string) : P unit :=
  code ← with_msg "AttachNetworkInterface from unetwork api service error"
           (ext (ext_AttachNetworkInterface interfaceId instanceId));
  done ← (if code =? 58205 then
            r ← attempt (describeNetworkInterface interfaceId);
            mret (match r with inr uni => String.eqb (ni_AttachInstanceId uni) instanceId | inl _ => false end)
          else mret false);
  if done : bool then mret tt
  else if negb (code =? 0) then throw (Errorf "AttachNetworkInterface from unetwork api error") else mret tt.

(** The loop over the ticks: the metadata is loaded again until it shows the interface. *)
Fixpoint wait_uni (ticks : nat) (subnetId : string) : P (option string) :=
  match ticks with
  | O => mret None
  | S ticks' =>
      r ← attempt ReloadMeta;
      match r with
      | inl _ => wait_uni ticks' subnetId
      | inr meta =>
          match find_uni subnetId (md_UHost_NetworkInterfaces meta) with
          | Some id => mret (Some id)
          | None => wait_uni ticks' subnetId
          end
      end
  end.

(** Creating, attaching and waiting for an interface of the subnet: its id, or none
    after the timeout. *)
Definition new_uni (vpcId instanceId subnetId : string) (secGroupIds : list string) : P (option string) :=
  newUni ← createNetworkInterface vpcId subnetId secGroupIds;
  if (length (ni_PrivateIpSet newUni) =? 0)%nat then
    deleteNetworkInterface (ni_InterfaceId newUni);; throw (Errorf "created new UNI with no ip")
  else
    r ← attempt (attachNetworkInterface (ni_InterfaceId newUni) instanceId);
    match r with
    | inl err => deleteNetworkInterface (ni_InterfaceId newUni);; throw err
    | inr _ =>
        ticks ← ext_total ext_UNITicks;
        id ← wait_uni ticks subnetId;
        match id with
        | Some id => mret (Some id)
        | None => deleteNetworkInterface (ni_InterfaceId newUni);; mret None
        end
    end.

(** [interfaceId] at the return of the body, before the deferred function. *)
Definition subnet_uni_id (vpcId instanceId : string) (subnetIds secGroupIds : list string) (strategy : string)
    : P (option string) :=
  mp ← with_msg "get metadata error" GetMeta;
  meta ← deref mp;
  availableSubnets ← available_subnets vpcId subnetIds;
  match selectSubnetByAllocationStrategy strategy availableSubnets with
  | inl err => throw err
  | inr None => throw (Errorf "no available subnet")
  | inr (Some selected) =>
      match find_uni (sa_id selected) (md_UHost_NetworkInterfaces meta) with
      | Some id => mret (Some id)
      | None =>
          uniLimit ← GetNodeUNILimits;
          if uniLimit <=? Z.of_nat (length (md_UHost_NetworkInterfaces meta))
          then throw (Errorf "cannot attach more UNI")
          else new_uni vpcId instanceId (sa_id selected) secGroupIds
      end
  end.

(** The deferred function describes the interface that was found.  After the
    timeout there is none, and the result is nil with a nil error. *)
Definition ensureSubnetUNI (vpcId instanceId : string) (subnetIds secGroupIds : list string) (strategy : string)
    : P (option NetworkInterface) :=
  id ← subnet_uni_id vpcId instanceId subnetIds secGroupIds strategy;
  match id with
  | Some id => if String.eqb id "" then mret None else uni ← describeNetworkInterface id; mret (Some uni)
  | None => mret None
  end.

(** *** Secondary addresses *)

(** Subnet, object and MAC of a request: of the interface, or of the node. *)
Definition address_owner (client : ApiClient) (uni : option NetworkInterface) : P (string * string * string) :=
  match uni with
  | Some uni => mret (ni_SubnetId uni, ni_InterfaceId uni, ni_MacAddress uni)
  | None =>
      macAddr ← with_msg "failed to get addr" (GetNodeMacAddress "");
      r ← attempt GetObjectIDForSecondaryIP;
      mret (ac_subnetId client, match r with inl _ => ac_instanceId client | inr id => id end, macAddr)
  end.

Definition allocateSecondaryIP (uni : option NetworkInterface) (podName podNS sandboxID : string) : P PodNetwork :=
  client ← with_msg "failed to init uapi client" NewClient;
  with_msg "failed to init vpc client" (VPCClient client);;
  '(subnetId, objectId, macAddr) ← address_owner client uni;
  '(ip, _, err) ← ext_total (ext_AllocateSecondaryIp
     (mkSecReq (Some (ac_zoneId client)) (Some macAddr) None (Some objectId) (Some (ac_vpcId client)) (Some subnetId)));
  match err with
  | Some _ => throw (Errorf "failed to call api")
  | None =>
      now ← Now;
      mret (mkPodNetwork podName podNS "" sandboxID "" (ii_Ip ip) (ii_VPCId ip) (ii_SubnetId ip) (ii_Gateway ip)
              (ii_Mask ip) (ii_Mac ip) false (if HasPrefix objectId "uni-" then objectId else "") "" now 0 false)
  end.

Definition cni_checkSecondaryIPExist (ip mac subnet : string) : P bool :=
  uapi ← NewClient;
  VPCClient uapi;;
  resp ← ext (ext_DescribeSecondaryIp
    (mkSecReq (Some (ac_zoneId uapi)) (Some mac) (Some ip) None (Some (ac_vpcId uapi)) (Some subnet)));
  mret (0 <? length resp)%nat.

(** The deletion proper, for the MAC that the address has. *)
Definition delete_address (pn : PodNetwork) (mac : string) : P unit :=
  client ← NewClient;
  VPCClient client;;
  objectId ← (if String.eqb (pn_InterfaceID pn) "" then
                r ← attempt GetObjectIDForSecondaryIP;
                mret (match r with inl _ => ac_instanceId client | inr id => id end)
              else mret (pn_InterfaceID pn));
  '(retCode, err) ← ext_total (ext_DeleteSecondaryIp
     (mkSecReq (Some (ac_zoneId client)) (Some mac) (Some (pn_VPCIP pn)) (Some objectId)
        (Some (pn_VPCID pn)) (Some (pn_SubnetID pn))));
  match err with
  | Some e => if retCode =? UAPIErrorIPNotExst then mret tt else throw e
  | None => mret tt
  end.

Definition deallocateSecondaryIP (pn : PodNetwork) : P unit :=
  mac ← (if String.eqb (pn_MacAddress pn) ""
         then with_msg "cannot get default mac address" (GetNodeMacAddress "")
         else mret (pn_MacAddress pn));
  exist ← with_msg "cannot find secondary ip" (cni_checkSecondaryIPExist (pn_VPCIP pn) mac (pn_SubnetID pn));
  if negb exist then mret tt else delete_address pn mac.
End uni.

Example balanced_first : selectSubnetByAllocationStrategy "balanced"
    [mkSubnetIP "a" 3; mkSubnetIP "b" 7; mkSubnetIP "c" 7] = inr (Some (mkSubnetIP "b" 7)).
Proof. reflexivity. Qed.
Example groups_numbered : sec_groups ["secgroup-a"; "fw-x"; "secgroup-b"] = [(1, "secgroup-a"); (2, "secgroup-b")].
Proof. reflexivity. Qed.

(** ** The interfaces that exist *)

(** A ghost view of the VPC: the interfaces, and how many creations broke off and
    deletions failed so far (after which an interface may be left over).  The other
    calls that the code makes in between change neither. *)
Class UniLaws (E : Type) `{!CloudApi E, !UniApi E} : Type := {
  unis : E → gset string;
  uni_faults : E → nat;
  uni_view (e : E) : gset string * nat := (unis e, uni_faults e);
  CreateUNI_law req e :
    match ext_CreateNetworkInterface req e with
    | (inr (code, ni), e') =>
        uni_faults e' = uni_faults e ∧
        (if code =? 0 then unis e' = {[ni_InterfaceId ni]} ∪ unis e ∧ (ni_InterfaceId ni ∉ unis e) else unis e' = unis e)
    | (inl _, e') => uni_faults e' = S (uni_faults e)
    end;
  DeleteUNI_law id e :
    match ext_DeleteNetworkInterface id e with
    | (inr code, e') =>
        if code =? 0 then uni_faults e' = uni_faults e ∧ unis e' = unis e ∖ {[id]} else uni_faults e' = S (uni_faults e)
    | (inl _, e') => uni_faults e' = S (uni_faults e)
    end;
  AttachUNI_keeps id inst : keeps uni_view (ext_AttachNetworkInterface id inst);
  DescribeUNI_keeps id : keeps uni_view (ext_DescribeNetworkInterface id);
  UNITicks_keeps e : uni_view (ext_UNITicks e).2 = uni_view e;
  Identity_keeps : keeps uni_view ext_GetInstanceIdentityDocument;
  DescribeSubnet_keeps r : keeps uni_view (ext_DescribeSubnet r);
  Metadata_keeps key : keeps uni_view (ext_GetMetadata key)
}.

(** ** Lemmas *)

Lemma validate_spec strategy :
  match validateSubnetAllocationStrategy strategy with
  | None => strategy = "" ∨ strategy = SubnetAllocationStrategySequential ∨ strategy = SubnetAllocationStrategyBalanced
  | Some _ => strategy ≠ "" ∧ strategy ≠ SubnetAllocationStrategySequential ∧ strategy ≠ SubnetAllocationStrategyBalanced
  end.
Proof.
  unfold validateSubnetAllocationStrategy.
  destruct (String.eqb_spec strategy ""), (String.eqb_spec strategy SubnetAllocationStrategySequential),
    (String.eqb_spec strategy SubnetAllocationStrategyBalanced); simpl; auto.
Qed.

Lemma max_subnet_spec s l :
  ∃ before after, s :: l = before ++ max_subnet s l :: after ∧
    (∀ x, x ∈ s :: l → sa_availableIPs x ≤ sa_availableIPs (max_subnet s l)) ∧
    (∀ x, x ∈ before → sa_availableIPs x < sa_availableIPs (max_subnet s l)).
Proof.
  unfold max_subnet. induction l as [|y l IH] using rev_ind.
  { exists [], []. simpl. split; [done|]. split; [|by intros x ?%not_elem_of_nil].
    intros x ->%list_elem_of_singleton. lia. }
  destruct IH as (before & after & Heq & Hall & Hbefore). rewrite foldl_app. simpl.
  set (m := foldl _ s l) in *. destruct (Z.ltb_spec (sa_availableIPs m) (sa_availableIPs y)).
  - exists (s :: l), []. split; [done|]. rewrite app_comm_cons. split.
    + intros x [Hx| ->%list_elem_of_singleton]%elem_of_app; [|lia]. apply Hall in Hx. lia.
    + intros x Hx. apply Hall in Hx. lia.
  - exists before, (after ++ [y]). rewrite app_comm_cons, Heq. split; [by rewrite <- app_assoc|]. split; [|done].
    intros x [Hx| ->%list_elem_of_singleton]%elem_of_app; [|lia]. apply Hall. by rewrite Heq.
Qed.

Section props.
Context {E : Type} `{!CloudApi E, !UniApi E, !UniLaws E}.
Implicit Types p : Proc E.

Definition p_view p : gset string * nat := uni_view (proc_ext p).

(** The candidates that are left have free addresses and are among the given subnets. *)
Lemma available_subnets_spec vpcId ids p :
  wp (available_subnets vpcId ids) (λ o p', ∃ l, o = Ok l ∧
    Forall (λ s, sa_id s ∈ ids ∧ 0 < sa_availableIPs s) l ∧
    p_view p' = p_view p ∧ proc_meta p' = proc_meta p) p.
Proof.
  revert p. induction ids as [|id ids IH]; intros p; cbn [available_subnets]; [wp_step; by eauto|].
  do 2 wp_step. apply (wp_mono _ (λ o p1, returns o = true ∧ p_view p1 = p_view p ∧ proc_meta p1 = proc_meta p)).
  { unfold getSubnetAvailableIPs. do 2 wp_step. unfold ext. wp_step.
    apply (wp_keeps uni_view); [apply DescribeSubnet_keeps|]. intros o e Hr He.
    destruct o as [[|n l]|err| |]; try done; cbn [kont]; try wp_step; done. }
  intros o p1 (Hr & Hv & Hm).
  assert (∀ r, wp (more ← available_subnets vpcId ids; mret (match r : error + Z with
    | inl _ => more | inr n => if n <=? 0 then more else mkSubnetIP id n :: more end))
    (λ o p', ∃ l, o = Ok l ∧ Forall (λ s, sa_id s ∈ id :: ids ∧ 0 < sa_availableIPs s) l ∧
      p_view p' = p_view p ∧ proc_meta p' = proc_meta p) p1) as Hrest.
  { intros r. wp_step. eapply wp_mono; [apply IH|]. intros o2 p2 (l & -> & Hl & Hv2 & Hm2). cbn [kont]. wp_step.
    eexists. split; [done|]. rewrite Hv2, Hm2. split; [|done].
    assert (Forall (λ s, sa_id s ∈ id :: ids ∧ 0 < sa_availableIPs s) l).
    { eapply Forall_impl; [exact Hl|]. intros s [? ?]. split; [by apply list_elem_of_further|done]. }
    destruct r as [e|n]; [done|]. destruct (Z.leb_spec n 0); [done|]. constructor; [|done]. split; [apply list_elem_of_here|done]. }
  destruct o as [n|e| |]; [| |done|done]; cbn [kont]; [apply (Hrest (inr n))|apply (Hrest (inl e))].
Qed.

(** The calls that only read change neither the interfaces nor the metadata. *)
Lemma describe_view id p :
  wp (describeNetworkInterface id) (λ o p', returns o = true ∧ p_view p' = p_view p ∧ proc_meta p' = proc_meta p) p.
Proof.
  unfold describeNetworkInterface. do 2 wp_step. unfold ext. wp_step.
  apply (wp_keeps uni_view); [apply DescribeUNI_keeps|]. intros o e Hr He.
  destruct o as [[code l]|err| |]; [| |done|done]; cbn [kont]; [|done].
  destruct (negb (code =? 0)); [wp_step; done|]. destruct l; wp_step; done.
Qed.

Lemma attach_view id inst p :
  wp (attachNetworkInterface id inst) (λ o p', returns o = true ∧ p_view p' = p_view p ∧ proc_meta p' = proc_meta p) p.
Proof.
  unfold attachNetworkInterface. do 2 wp_step. unfold ext. wp_step.
  apply (wp_keeps uni_view); [apply AttachUNI_keeps|]. intros o e Hr He.
  destruct o as [code|err| |]; [| |done|done]; cbn [kont]; [|done]. wp_step.
  apply (wp_mono _ (λ o p', (∃ b, o = Ok b) ∧ p_view p' = p_view p ∧ proc_meta p' = proc_meta p)).
  { destruct (code =? 58205); [|wp_step; by eauto]. do 2 wp_step.
    eapply wp_mono; [apply describe_view|]. intros o p2 (Hr2 & Hv2 & Hm2).
    destruct o as [ni|err| |]; [| |done|done]; cbn [kont]; wp_step; rewrite Hv2, Hm2; by eauto. }
  intros o p2 ([b ->] & ?). cbn [kont]. destruct b; [by wp_step|]. destruct (negb (code =? 0)); wp_step; done.
Qed.

(** Deleting the interface [id] that was the one new interface. *)
Lemma delete_uni_spec id before p :
  unis (proc_ext p) = {[id]} ∪ before → id ∉ before →
  wp (deleteNetworkInterface id) (λ o p', o = Ok tt ∧ proc_meta p' = proc_meta p ∧
    (uni_faults (proc_ext p') = uni_faults (proc_ext p) → unis (proc_ext p') = before) ∧
    (uni_faults (proc_ext p) ≤ uni_faults (proc_ext p'))%nat) p.
Proof.
  intros Hu Hn. unfold deleteNetworkInterface, ext. do 3 wp_step. wp_step. pose proof (DeleteUNI_law id (proc_ext p)) as Hl.
  unfold wp, call. destruct (ext_DeleteNetworkInterface id (proc_ext p)) as [[e|code] e']; cbn [fst snd kont]; wp_step; simpl.
  - split_and!; [done|done|lia|lia].
  - destruct (code =? 0).
    + destruct Hl as [-> ->]. split_and!; [done|done| |lia]. intros _. rewrite Hu. set_solver.
    + split_and!; [done|done|lia|lia].
Qed.

Lemma wait_uni_spec ticks subnetId p :
  wp (wait_uni ticks subnetId) (λ o p', p_view p' = p_view p ∧
    (o = Ok None ∨ ∃ id meta, o = Ok (Some id) ∧ proc_meta p' = Some meta ∧
       find_uni subnetId (md_UHost_NetworkInterfaces meta) = Some id)) p.
Proof.
  revert p. induction ticks as [|n IH]; intros p; cbn [wait_uni]; [wp_step; auto|]. do 2 wp_step.
  apply (wp_mono _ (λ o p', p_view p' = p_view p ∧ returns o = true ∧ ∀ meta, o = Ok meta → proc_meta p' = Some meta)).
  { unfold ReloadMeta, ext. do 2 wp_step.
    apply (wp_keeps uni_view); [apply Identity_keeps|]. intros o e Hr He.
    destruct o as [meta|err| |]; [| |done|done]; cbn [kont]; [|split_and!; [done|done|]; by intros ? [=]].
    do 2 wp_step. cbn [kont]. wp_step. split_and!; [done|done|]. by intros ? [= ->]. }
  intros o p1 (Hv & Hr & Hm). destruct o as [meta|err| |]; [| |done|done]; cbn [kont].
  - destruct (find_uni subnetId _) as [id|] eqn:Ef.
    + wp_step. split; [done|]. right. exists id, meta. split; [done|]. split; [by apply Hm|done].
    + eapply wp_mono; [apply IH|]. intros o2 p2 [Hv2 H2]. by rewrite Hv2.
  - eapply wp_mono; [apply IH|]. intros o2 p2 [Hv2 H2]. by rewrite Hv2.
Qed.

Lemma new_uni_spec vpcId inst subnetId groups p :
  wp (new_uni vpcId inst subnetId groups) (λ o p',
    (uni_faults (proc_ext p') = uni_faults (proc_ext p) →
       match o with
       | Ok (Some _) => ∃ id, (id ∉ unis (proc_ext p)) ∧ unis (proc_ext p') = {[id]} ∪ unis (proc_ext p)
       | _ => unis (proc_ext p') = unis (proc_ext p)
       end) ∧
    (∀ id, o = Ok (Some id) → ∃ meta, proc_meta p' = Some meta ∧
       find_uni subnetId (md_UHost_NetworkInterfaces meta) = Some id)) p.
Proof.
  unfold new_uni, createNetworkInterface. wp_step. wp_step. wp_step. unfold ext. wp_step.
  pose proof (CreateUNI_law (create_request vpcId subnetId groups) (proc_ext p)) as Hl.
  unfold wp at 1, call. destruct (ext_CreateNetworkInterface _ _) as [[e|[code ni]] e1]; cbn [fst snd kont].
  { simpl. split; [lia|done]. }
  destruct Hl as [Hf Hl]. destruct (code =? 0); cbn [negb]; [|wp_step; simpl; split; [done|]; by intros ? [=]].
  destruct Hl as [Hu Hn]. wp_step. cbn [kont]. set (p1 := set_ext e1 p).
  assert (∀ p2, p_view p2 = p_view p1 → ∀ (k : M (Proc E) (option string)),
    (∀ p3, wp k (λ o p', (∀ x, o ≠ Ok (Some x)) ∧ p' = p3) p3) →
    wp (deleteNetworkInterface (ni_InterfaceId ni);; k) (λ o p',
      (uni_faults (proc_ext p') = uni_faults (proc_ext p) →
         match o with
         | Ok (Some _) => ∃ id, (id ∉ unis (proc_ext p)) ∧ unis (proc_ext p') = {[id]} ∪ unis (proc_ext p)
         | _ => unis (proc_ext p') = unis (proc_ext p)
         end) ∧
      (∀ id, o = Ok (Some id) → ∃ meta, proc_meta p' = Some meta ∧
         find_uni subnetId (md_UHost_NetworkInterfaces meta) = Some id)) p2) as Hdel.
  { intros p2 [= Hu2 Hf2] k Hk. simpl in Hu2, Hf2. wp_step. eapply wp_mono; [apply (delete_uni_spec _ (unis (proc_ext p))); [congruence|done]|].
    intros o p3 (-> & _ & Hd & Hle). cbn [kont]. eapply wp_mono; [apply Hk|]. intros o p4 [Ho ->].
    split; [|intros id ->; by destruct (Ho id)].
    intros Hfe. destruct o as [[x|]|e| |]; try (apply Hd; lia). by destruct (Ho x). }
  destruct (length (ni_PrivateIpSet ni) =? 0)%nat.
  { apply Hdel; [done|]. intros p3. by wp_step. }
  do 2 wp_step. eapply wp_mono; [apply attach_view|]. intros o p2 (Hr2 & Hv2 & Hm2).
  destruct o as [[]|e| |]; [| |done|done]; cbn [kont]; [|apply Hdel; [done|]; intros p3; by wp_step].
  wp_step. unfold ext_total. wp_step. unfold wp at 1. pose proof (UNITicks_keeps (proc_ext p2)) as Ht.
  destruct (ext_UNITicks (proc_ext p2)) as [ticks e3]. simpl in Ht. cbn [fst snd kont].
  wp_step. eapply wp_mono; [apply wait_uni_spec|]. intros o p4 [Hv4 Ho].
  assert (p_view p4 = p_view p1) as Hv by (rewrite Hv4; unfold p_view in *; simpl in *; congruence).
  destruct Ho as [->|(id & meta & -> & Hmeta & Hfind)]; cbn [kont].
  - apply Hdel; [done|]. intros p5. by wp_step.
  - wp_step. injection Hv as Hu4 Hf4. simpl in *. split.
    + intros _. exists (ni_InterfaceId ni). split; [done|]. congruence.
    + intros id' [= <-]. by exists meta.
Qed.

Lemma GetMeta_spec p :
  wp GetMeta (λ o p', p_view p' = p_view p ∧ ∀ mp, o = Ok mp → proc_meta p' = mp) p.
Proof.
  unfold GetMeta, ext. wp_step. wp_step. destruct (proc_metaOnce p).
  { cbn [kont]. wp_step. split; [done|]. by intros ? [= ->]. }
  cbn [kont]. do 2 wp_step. cbn [kont]. do 2 wp_step.
  apply (wp_keeps uni_view); [apply Identity_keeps|]. intros o e Hr He.
  destruct o as [meta|err| |]; [| |done|done]; cbn [kont]; [|split; [done|]; by intros ? [=]].
  do 2 wp_step. cbn [kont]. wp_step. split; [done|]. by intros ? [= ->].
Qed.

Lemma limits_view p :
  wp GetNodeUNILimits (λ o p', returns o = true ∧ p_view p' = p_view p) p.
Proof.
  unfold GetNodeUNILimits, ext. do 3 wp_step.
  apply (wp_keeps uni_view); [apply Metadata_keeps|]. intros o e Hr He.
  destruct o as [cpu|err| |]; [| |done|done]; cbn [kont]; [|wp_step; done].
  do 2 wp_step. cbn [kont]. wp_step. done.
Qed.

Lemma select_spec strategy subnets s :
  selectSubnetByAllocationStrategy strategy subnets = inr (Some s) → s ∈ subnets.
Proof.
  unfold selectSubnetByAllocationStrategy. intros H. repeat case_match; simplify_eq; try apply list_elem_of_here.
  destruct (max_subnet_spec s0 l) as (before & after & Heq & _). rewrite Heq. set_solver.
Qed.

(** ** Theorems *)

(** The sequential strategy selects the first candidate, the balanced one the first
    candidate with the most free addresses; no subnet is selected only without
    candidates, and exactly the unknown strategies are refused. *)
Theorem selectSubnet_correct strategy subnets :
  match selectSubnetByAllocationStrategy strategy subnets with
  | inl _ => strategy ≠ "" ∧ strategy ≠ SubnetAllocationStrategySequential ∧ strategy ≠ SubnetAllocationStrategyBalanced
  | inr None => subnets = []
  | inr (Some s) => ∃ before after, subnets = before ++ s :: after ∧
      (strategy ≠ SubnetAllocationStrategyBalanced → before = []) ∧
      (strategy = SubnetAllocationStrategyBalanced →
         (∀ x, x ∈ subnets → sa_availableIPs x ≤ sa_availableIPs s) ∧
         (∀ x, x ∈ before → sa_availableIPs x < sa_availableIPs s))
  end.
Proof.
  unfold selectSubnetByAllocationStrategy. pose proof (validate_spec strategy) as Hv.
  destruct (validateSubnetAllocationStrategy strategy); [done|]. destruct subnets as [|s rest]; [done|].
  destruct (String.eqb_spec strategy ""); [|destruct (String.eqb_spec strategy SubnetAllocationStrategySequential)]; simpl.
  - exists [], rest. split; [done|]. split; [done|]. by subst.
  - exists [], rest. split; [done|]. split; [done|]. by subst.
  - destruct (String.eqb_spec strategy SubnetAllocationStrategyBalanced) as [Hb|Hb]; [|naive_solver].
    destruct (max_subnet_spec s rest) as (before & after & Heq & H1 & H2). exists before, after. done.
Qed.

(** When no creation broke off and no deletion failed, the interfaces are as before,
    but for one new one when an interface was found; and an interface that was found
    is one that the metadata lists, not the default one, in a candidate subnet. *)
Definition uni_post (subnetIds : list string) p (o : outcome (option string)) p' : Prop :=
  (uni_faults (proc_ext p') = uni_faults (proc_ext p) →
     match o with
     | Ok (Some _) => unis (proc_ext p') = unis (proc_ext p) ∨
         ∃ id, (id ∉ unis (proc_ext p)) ∧ unis (proc_ext p') = {[id]} ∪ unis (proc_ext p)
     | _ => unis (proc_ext p') = unis (proc_ext p)
     end) ∧
  (∀ id, o = Ok (Some id) → ∃ meta subnetId, proc_meta p' = Some meta ∧ subnetId ∈ subnetIds ∧
     find_uni subnetId (md_UHost_NetworkInterfaces meta) = Some id).

(** C21: Unless a creation or deletion call of the VPC failed on the way, a run that
    yields no network interface has created none that still exists, and one that yields
    an interface has created at most one; the interface is the one that the metadata
    show in one of the given subnets. *)
Theorem subnet_uni_correct vpcId inst subnetIds groups strategy p :
  wp (subnet_uni_id vpcId inst subnetIds groups strategy) (uni_post subnetIds p) p.
Proof.
  assert (∀ (o : outcome (option string)) p', p_view p' = p_view p → (∀ id, o ≠ Ok (Some id)) →
    uni_post subnetIds p o p') as Hend.
  { intros o p' [= Hu Hf] Ho. split; [|intros id ->; by destruct (Ho id)]. intros _.
    destruct o as [[id|]|e|w|]; try done. by destruct (Ho id). }
  unfold subnet_uni_id, deref. do 2 wp_step. eapply wp_mono; [apply GetMeta_spec|]. intros o p1 [Hv1 Hm1].
  destruct o as [mp|e|w|]; cbn [kont]; try (apply Hend; congruence). specialize (Hm1 _ eq_refl).
  destruct mp as [meta|]; [|apply (Hend (Panic _)); [done|congruence]]. do 2 wp_step. cbn [kont].
  wp_step. eapply wp_mono; [apply available_subnets_spec|]. intros o p2 (l & -> & Hl & Hv2 & Hm2). cbn [kont].
  destruct (selectSubnetByAllocationStrategy strategy l) as [err|[sel|]] eqn:Esel;
    try (wp_step; apply Hend; congruence).
  assert (sa_id sel ∈ subnetIds) as Hsel.
  { apply select_spec in Esel. rewrite Forall_forall in Hl. by apply Hl in Esel as [? _]. }
  destruct (find_uni (sa_id sel) (md_UHost_NetworkInterfaces meta)) as [id|] eqn:Ef.
  { wp_step. rewrite Hv1 in Hv2. injection Hv2 as Hu Hf. split; [by left|]. intros id' [= <-].
    exists meta, (sa_id sel). rewrite Hm2. done. }
  wp_step. eapply wp_mono; [apply limits_view|]. intros o p3 (Hr3 & Hv3).
  destruct o as [n|e|w|]; cbn [kont]; try (apply Hend; congruence).
  destruct (n <=? _); [wp_step; apply Hend; congruence|].
  eapply wp_mono; [apply new_uni_spec|]. intros o p4 [H1 H2].
  assert (p_view p3 = p_view p) as [= Hu Hf] by congruence. rewrite Hu, Hf in H1. split.
  - intros Hfe. specialize (H1 Hfe). destruct o as [[id|]|e|w|]; try done. by right.
  - intros id ->. destruct (H2 _ eq_refl) as (meta' & ? & ?). by exists meta', (sa_id sel).
Qed.
End props.

(** ** Secondary addresses *)

Section addresses.
Context {E : Type} `{!CloudApi E, !UniApi E, !VpcLaws E}.
Implicit Types p : Proc E.

Definition p_vpc p : gset vpc_addr := vpc_addrs (proc_ext p).

#[local] Hint Resolve pkeeps_GetMeta pkeeps_NewClient pkeeps_VPCClient : pkeeps.
Lemma pkeeps_ObjectID : pkeeps (E := E) GetObjectIDForSecondaryIP.
Proof.
  unfold GetObjectIDForSecondaryIP, UHostClient, CreateCredential, Getenv.
  solve_pkeeps.
Qed.
#[local] Hint Resolve pkeeps_ObjectID pkeeps_GetMasterInterface : pkeeps.
Lemma pkeeps_NodeMac dev : pkeeps (E := E) (GetNodeMacAddress dev).
Proof. unfold GetNodeMacAddress, default_dev. solve_pkeeps. Qed.

Lemma wp_pkeeps {A} (m : M (Proc E) A) p : pkeeps m → wp m (λ _ p', p_vpc p' = p_vpc p) p.
Proof. intros Hm. apply Hm. Qed.

(** The address of a record, under a VPC and a MAC. *)
Definition pn_addr (v mac : string) (pn : PodNetwork) : vpc_addr := (v, pn_SubnetID pn, pn_VPCIP pn, mac).

(** A VPC that a client reported. *)
Definition client_vpc (v : string) : Prop := ∃ c p p', NewClient (p : Proc E) = (Ok c, p') ∧ ac_vpcId c = v.

Lemma check_exist_spec pn mac p :
  wp (cni_checkSecondaryIPExist (pn_VPCIP pn) mac (pn_SubnetID pn)) (λ o p', p_vpc p' = p_vpc p ∧
    (o = Ok false → ∃ v, client_vpc v ∧ (pn_addr v mac pn ∉ p_vpc p'))) p.
Proof.
  unfold cni_checkSecondaryIPExist. wp_step. apply run_wp. intros o p1 E1.
  pose proof (pkeeps_NewClient p) as Hk. rewrite E1 in Hk. change (p_vpc p1 = p_vpc p) in Hk.
  destruct o as [c|e|w|]; cbn [kont]; try (split; [exact Hk|done]). wp_step.
  eapply wp_mono; [apply wp_pkeeps, pkeeps_VPCClient|]. intros o p2 H2.
  destruct o as [[]|e|w|]; cbn [kont]; try (split; [congruence|done]). wp_step. unfold ext. wp_step.
  set (req := mkSecReq _ _ _ _ _ _). pose proof (vpc_Describe_keeps req (proc_ext p2)) as Hd.
  unfold wp, call. destruct (ext_DescribeSecondaryIp req (proc_ext p2)) as [[e|l] e3] eqn:Eq; simpl in Hd; cbn [fst snd kont].
  { unfold p_vpc in *. simpl. split; [congruence|done]. }
  wp_step. unfold p_vpc in *. simpl. split; [congruence|]. intros [= Hl].
  exists (ac_vpcId c). split; [by exists c, p, p1|]. unfold pn_addr. rewrite Hd.
  apply vpc_Describe_law in Eq. rewrite <- Eq. intros (i & Hi & _).
  destruct l; [by apply not_elem_of_nil in Hi|done].
Qed.

Lemma delete_address_spec pn mac p :
  wp (delete_address pn mac) (λ o p',
    (p_vpc p' = p_vpc p ∖ {[pn_addr (pn_VPCID pn) mac pn]} ∨ (p_vpc p' = p_vpc p ∧ o ≠ Ok tt))) p.
Proof.
  unfold delete_address. wp_step. eapply wp_mono; [apply wp_pkeeps, pkeeps_NewClient|]. intros o p1 H1.
  destruct o as [c|e|w|]; cbn [kont]; try by right. wp_step.
  eapply wp_mono; [apply wp_pkeeps, pkeeps_VPCClient|]. intros o p2 H2.
  destruct o as [[]|e|w|]; cbn [kont]; try (right; split; [congruence|done]). wp_step.
  eapply wp_mono; [apply wp_pkeeps; solve_pkeeps|]. intros o p3 H3.
  destruct o as [obj|e|w|]; cbn [kont]; try (right; split; [congruence|done]). wp_step.
  unfold ext_total. wp_step. unfold wp at 1. set (req := mkSecReq _ _ _ _ _ _).
  destruct (ext_DeleteSecondaryIp req (proc_ext p3)) as [[code err] e4] eqn:Eq. cbn [fst snd kont].
  apply vpc_Delete_law in Eq. assert (p_vpc p3 = p_vpc p) as H by congruence. unfold p_vpc in *. rewrite H in Eq.
  destruct err as [e|]; [destruct (Z.eqb_spec code UAPIErrorIPNotExst)|]; wp_step; simpl;
    (destruct Eq as [Eq|(Eq & Hne & Hcode)]; [by left|]); [done|by right|done].
Qed.

(** deallocateSecondaryIP takes at most the address of the given network out of the
    VPC, with the MAC of the network when it has one; after success that address is not
    allocated in the VPC that was asked. *)
Theorem deallocateSecondaryIP_correct pn p :
  wp (deallocateSecondaryIP pn) (λ o p',
    (∃ mac, (pn_MacAddress pn ≠ "" → mac = pn_MacAddress pn) ∧
       (p_vpc p' = p_vpc p ∨ p_vpc p' = p_vpc p ∖ {[pn_addr (pn_VPCID pn) mac pn]}) ∧
       (o = Ok tt → ∃ v, (v = pn_VPCID pn ∨ client_vpc v) ∧ (pn_addr v mac pn ∉ p_vpc p')))) p.
Proof.
  unfold deallocateSecondaryIP. wp_step.
  apply (wp_mono _ (λ o p', p_vpc p' = p_vpc p ∧ ∀ mac, o = Ok mac → pn_MacAddress pn ≠ "" → mac = pn_MacAddress pn)).
  { destruct (String.eqb_spec (pn_MacAddress pn) "").
    - split; [apply pkeeps_with_msg, pkeeps_NodeMac|by intros].
    - wp_step. split; [done|]. by intros mac [= ->]. }
  intros o p1 [H1 Hmac]. destruct o as [mac|e|w|]; cbn [kont];
    try (exists (pn_MacAddress pn); split; [done|]; split; [by left|done]).
  specialize (Hmac mac eq_refl). do 2 wp_step. eapply wp_mono; [apply check_exist_spec|]. intros o p2 [H2 Hex].
  destruct o as [[]|e|w|]; cbn [kont]; try (exists mac; split; [done|]; split; [left; congruence|done]).
  - cbn [negb]. eapply wp_mono; [apply delete_address_spec|]. intros o p3 Hd. exists mac. split; [done|].
    rewrite H2, H1 in Hd. destruct Hd as [->|[-> Hne]]; [|split; [by left|done]]. split; [by right|]. intros _.
    exists (pn_VPCID pn). split; [by left|]. set_solver.
  - cbn [negb]. wp_step. exists mac. split; [done|]. split; [left; congruence|]. intros _.
    destruct (Hex eq_refl) as (v & Hv & Hn). eauto.
Qed.
End addresses.
