(* ===== verification/CniAlloc.v ===== *)
(** Assigning and releasing the address of a pod ([cmd/cnivpc/rpc.go], 67-313, 674-764):
    the pod's configuration, the set-up of its interface, the choice between the
    daemon and the VPC, and the record of the network. *)
From S2P Require Export NatOutgoing UniRoutes CniUni VpcClaim.

(** ** Definitions *)

Record podIPAssignment : Type := mkAssignment {
  pa_network : option PodNetwork;
  pa_fromIPAMD : bool;
  pa_natGWOutgoingEnabled : bool
}.

Definition clear_secgroups (p : PodNetworking) : PodNetworking :=
  let s := pnw_Spec p in
  mkPodNetworking (pnw_Name p) (mkPodNetworkingSpec [] (pns_SubnetIds s) (pns_Strategy s) (pns_NATGWOutgoingEnabled s)).

(** The checks of [getPodNetworkingConfig] on the object it got. *)
Definition check_podnet (secGroup : bool) (podnet : PodNetworking) : error + PodNetworking :=
  let groups := pns_SecurityGroupIds (pnw_Spec podnet) in
  if (length (pns_SubnetIds (pnw_Spec podnet)) =? 0)%nat then inl (Errorf "podnetworking has no subnet")
  else if (length groups =? 0)%nat && secGroup
  then inl (Errorf "inconsistency error: node has secgroup but podnetworking config has not")
  else if (0 <? length groups)%nat && negb secGroup then inr (clear_secgroups podnet)
  else inr podnet.

Section alloc.
Context {E T N K G : Type} `{!CloudApi E, !GoRuntime E, !UniApi E, !IptApi T, !IptMoreApi T}
  `{!IpsetApi N, !SysfsApi N, !RuleApi N, !RouteApi N, !KubeApi K, !CniKubeApi K}
  `{!IpamdClient G, !BoltApi G, !JsonCodec PodNetwork}.
#[local] Abbreviation m := (M (Cni E T N K G)).

Definition getPodNetworkingConfig (podName podNS : string) : m (option PodNetworking * string) :=
  ability ← with_msg "failed to get instance ability" (c_proc GetAbility);
  if negb (ab_SupportUNI ability) then mret (None, "") else
  pod ← with_msg "failed to get pod" (c_k8s (call (k_GetPod podNS podName)));
  let nodeName := pod_NodeName pod in
  if String.eqb (default "" (pod_Annotations pod !! AnnotationPodNetworkingDisable)) "true"
  then mret (None, nodeName) else
  let pnName := default "" (pod_Annotations pod !! AnnotationPodNetworkingName) in
  let pnName := if String.eqb pnName "" then DefaultPodNetworkingName else pnName in
  with_msg "failed to get crd kube client" (c_k8s GetNodeCRDClient);;
  r ← attempt (c_k8s (call (ck_GetPodNetworking pnName)));
  match r with
  | inl err =>
      if k8serr_is NotFound err && String.eqb pnName DefaultPodNetworkingName then mret (None, nodeName)
      else throw (Errorf "failed to get podnetworking")
  | inr podnet =>
      match check_podnet (ab_SecGroup ability) podnet with
      | inl err => throw err
      | inr podnet => mret (Some podnet, nodeName)
      end
  end.

(** A nil interface is dereferenced, an empty address list indexed. *)
Definition initPodNetworking (pnConfig : PodNetworking) (nodeName : string) : m NetworkInterface :=
  let spec := pnw_Spec pnConfig in
  client ← with_msg "failed to init uapi client" (c_proc NewClient);
  with_msg "failed to init vpc client" (c_proc (VPCClient client));;
  uni ← with_msg "failed to ensure UNI attached"
    (c_proc (ensureSubnetUNI (ac_vpcId client) (ac_instanceId client) (pns_SubnetIds spec)
               (pns_SecurityGroupIds spec) (pns_Strategy spec)));
  uni ← deref uni;
  match ni_PrivateIpSet uni with
  | [] => panic "index out of range"
  | ip :: _ =>
      ensureUNIPrimaryIPRoute ip (ni_MacAddress uni) (ni_Gateway uni) (ni_Netmask uni);;
      '(primaryIP, _) ← with_msg "failed to get master interface addr" (c_proc (GetNodeAddress ""));
      masterIface ← c_proc GetMasterInterface;
      with_msg "failed to ensure master interface rp_filter" (c_net (ensureMasterInterfaceRpFilter masterIface));;
      manager ← c_ipt (newIptablesRulesManager primaryIP masterIface);
      updateRules manager nodeName (pns_NATGWOutgoingEnabled spec);;
      with_msg "failed to ensure connmark rule" (c_net ensureConnmarkRule);;
      mret uni
  end.

(** Whether the daemon is used: it answers and has support for several subnets. *)
Definition use_ipamd : M G bool :=
  ok ← reach_ipamd;
  if ok : bool then ipamdSupportMultiSubnet else mret false.

Definition allocateSecondaryIPFromIpamd (uni : option NetworkInterface)
    (podName podNS netNS sandboxID : string) : M G (option PodNetwork) :=
  let req := match uni with
             | Some uni => mkAddReq podName podNS sandboxID netNS (ni_SubnetId uni) (ni_MacAddress uni) (ni_InterfaceId uni)
             | None => mkAddReq podName podNS sandboxID netNS "" "" ""
             end in
  r ← call (ig_AddPodNetwork req);
  checked "gRPC AddPodNetwork failed" r.

Definition deallocateSecondaryIPFromIpamd (pn : PodNetwork) : M G unit :=
  r ← call (ig_DelPodNetwork (Some pn));
  checked "DelPodNetwork Code" r.

(** The interface of the pod, when it has a configuration. *)
Definition pod_interface (podName podNS : string) : m (option NetworkInterface * bool) :=
  '(pnConfig, nodeName) ← getPodNetworkingConfig podName podNS;
  match pnConfig with
  | None => mret (None, false)
  | Some pnConfig =>
      uni ← initPodNetworking pnConfig nodeName;
      mret (Some uni, pns_NATGWOutgoingEnabled (pnw_Spec pnConfig))
  end.

(** Allocating without the daemon. *)
Definition assign_direct (uni : option NetworkInterface) (nat : bool) (podName podNS sandboxId : string)
    : m podIPAssignment :=
  pod ← with_msg "failed to check pod static ip enable" (c_k8s (call (k_GetPod podNS podName)));
  if static_ip_enabled pod then throw (Errorf "pod enable static ip, but ipamd is not enabled") else
  ip ← with_msg "failed to setup secondary ip" (c_proc (allocateSecondaryIP uni podName podNS sandboxId));
  mret (mkAssignment (Some ip) false nat).

Definition assignPodIp (podName podNS netNS sandboxId : string) : m podIPAssignment :=
  with_msg "failed to get node kube client" (c_k8s GetNodeClient);;
  '(uni, natGWOutgoingEnabled) ← pod_interface podName podNS;
  ipamd ← c_node use_ipamd;
  if ipamd : bool then
    ip ← with_msg "failed to call ipamd"
           (c_node (allocateSecondaryIPFromIpamd uni podName podNS netNS sandboxId));
    mret (mkAssignment ip true natGWOutgoingEnabled)
  else assign_direct uni natGWOutgoingEnabled podName podNS sandboxId.

Definition releasePodIp (pn : PodNetwork) : m unit :=
  ipamd ← c_node use_ipamd;
  if ipamd : bool then c_node (deallocateSecondaryIPFromIpamd pn) else c_proc (deallocateSecondaryIP pn).

Definition addPodNetworkRecordLocal (podName podNS sandBoxID : string) (pn : PodNetwork) : m unit :=
  r ← attempt (c_node (accessToPodNetworkDB CNIVpcDbName));
  match r with
  | inl err => ignore (releasePodIp pn);; throw err
  | inr db => c_node (Bolt_Put db (PodKey podName podNS sandBoxID) pn)
  end.

Definition addPodNetworkRecord (podName podNS sandBoxID : string) (pn : PodNetwork) : m unit :=
  ok ← c_node reach_ipamd;
  if ok : bool then c_node (addPodNetworkRecordFromIpamd pn)
  else addPodNetworkRecordLocal podName podNS sandBoxID pn.
End alloc.

(** ** Lemmas *)

Section props.
Context {E T N K G : Type} `{!CloudApi E, !GoRuntime E, !UniApi E, !IptApi T, !IptMoreApi T}
  `{!IpsetApi N, !SysfsApi N, !RuleApi N, !RouteApi N, !KubeApi K, !CniKubeApi K}
  `{!IpamdClient G, !BoltApi G, !JsonCodec PodNetwork, !RecordLaws G}.
Implicit Types s : Cni E T N K G.

(** The records of the node are [m]. *)
Definition recs (m : gmap string PodNetwork) s : Prop := records (cn_node s) m.

Lemma recs_node {A} m (p : M G A) :
  maintains (λ g, records g m) p → maintains (recs m) (c_node p : M (Cni E T N K G) A).
Proof. intros Hp. by apply (maintains_zoom_in _ (λ g, records g m)). Qed.
Lemma recs_proc {A} m (p : M (Proc E) A) : maintains (recs m) (c_proc p : M (Cni E T N K G) A).
Proof. by apply maintains_zoom. Qed.
Lemma recs_ipt {A} m (p : M T A) : maintains (recs m) (c_ipt p : M (Cni E T N K G) A).
Proof. by apply maintains_zoom. Qed.
Lemma recs_net {A} m (p : M N A) : maintains (recs m) (c_net p : M (Cni E T N K G) A).
Proof. by apply maintains_zoom. Qed.
Lemma recs_k8s {A} m (p : M K A) : maintains (recs m) (c_k8s p : M (Cni E T N K G) A).
Proof. by apply maintains_zoom. Qed.

End props.

Ltac solve_recs :=
  repeat first [ apply recs_proc | apply recs_ipt | apply recs_net | apply recs_k8s
    | solve [eauto with recs nocore] | progress solve_maintains ].

Section alloc_props.
Context {E T N K G : Type} `{!CloudApi E, !GoRuntime E, !UniApi E, !IptApi T, !IptMoreApi T}
  `{!IpsetApi N, !SysfsApi N, !RuleApi N, !RouteApi N, !KubeApi K, !CniKubeApi K}
  `{!IpamdClient G, !BoltApi G, !JsonCodec PodNetwork, !RecordLaws G}.
Implicit Types s : Cni E T N K G.

Lemma checked_maintains {A} (I : G → Prop) msg (r : Response A) : maintains I (checked msg r).
Proof. unfold checked. solve_maintains. Qed.

Lemma list_maintains m : maintains (λ g : G, records g m) listPodNetworkRecords.
Proof. intros g Hm. apply (listPodNetworkRecords_spec g m Hm). Qed.
Lemma get_maintains m n ns sb : maintains (λ g : G, records g m) (getPodNetworkRecord n ns sb).
Proof. intros g Hm. apply (getPodNetworkRecord_spec n ns sb g m Hm). Qed.
Lemma reach_maintains m : maintains (λ g : G, records g m) reach_ipamd.
Proof. intros g Hm. apply (reach_ipamd_spec g m Hm). Qed.
Lemma use_maintains m : maintains (λ g : G, records g m) use_ipamd.
Proof.
  unfold use_ipamd, ipamdSupportMultiSubnet. apply maintains_bind; [apply reach_maintains|]. intros b.
  solve_maintains. intros g. apply rec_Multi_law.
Qed.
Lemma release_maintains m pn : maintains (λ g : G, records g m) (deallocateSecondaryIPFromIpamd pn).
Proof.
  unfold deallocateSecondaryIPFromIpamd. apply maintains_bind; [intros g; apply rec_DelPod_law|].
  intros r. apply checked_maintains.
Qed.
Lemma assign_maintains m uni n ns netns sb : maintains (λ g : G, records g m) (allocateSecondaryIPFromIpamd uni n ns netns sb).
Proof.
  unfold allocateSecondaryIPFromIpamd. apply maintains_bind; [intros g Hg; by apply rec_AddPod_law|].
  intros r. apply checked_maintains.
Qed.

Lemma migrate_recs m nodeName : maintains (recs m) (migrateLegacyNATGWOutgoingIPs (E := E) (T := T) (N := N) (K := K) nodeName).
Proof.
  unfold migrateLegacyNATGWOutgoingIPs, node_policies, converge, range_set.
  pose proof (recs_node (E := E) (T := T) (N := N) (K := K) m _ (list_maintains m)). solve_recs.
Qed.
Lemma updateRules_recs m rm nodeName b : maintains (recs m) (updateRules (E := E) (T := T) (N := N) (K := K) rm nodeName b).
Proof. unfold updateRules, tryEnableNATGWOutgoing. pose proof (migrate_recs m nodeName). solve_recs. Qed.

Lemma pod_interface_recs m n ns : maintains (recs m) (pod_interface (E := E) (T := T) (N := N) (K := K) n ns).
Proof.
  unfold pod_interface, getPodNetworkingConfig, initPodNetworking, deref, ensureUNIPrimaryIPRoute, ensureLinkRPS, configure_link.
  pose proof (updateRules_recs m). solve_recs.
Qed.

Lemma assignPodIp_recs m n ns netns sb : maintains (recs m) (assignPodIp (E := E) (T := T) (N := N) (K := K) n ns netns sb).
Proof.
  unfold assignPodIp, assign_direct. pose proof (pod_interface_recs m n ns).
  pose proof (recs_node (E := E) (T := T) (N := N) (K := K) m _ (use_maintains m)).
  assert (∀ uni, maintains (recs m) (c_node (allocateSecondaryIPFromIpamd uni n ns netns sb) : M (Cni E T N K G) _))
    by (intros; apply recs_node, assign_maintains). solve_recs.
Qed.
Lemma assign_direct_recs m uni nat n ns sb : maintains (recs m) (assign_direct (E := E) (T := T) (N := N) (K := K) uni nat n ns sb).
Proof. unfold assign_direct. solve_recs. Qed.
Lemma releasePodIp_recs m pn : maintains (recs m) (releasePodIp (E := E) (T := T) (N := N) (K := K) pn).
Proof.
  unfold releasePodIp. pose proof (recs_node (E := E) (T := T) (N := N) (K := K) m _ (use_maintains m)).
  pose proof (recs_node (E := E) (T := T) (N := N) (K := K) m _ (release_maintains m pn)). solve_recs.
Qed.

(** What a direct allocation gives: the identity of the pod, and the pod was not static. *)
Lemma allocateSecondaryIP_spec uni n ns sb (p : Proc E) :
  wp (allocateSecondaryIP uni n ns sb) (λ o _, ∀ pn, o = Ok pn →
    pn_PodName pn = n ∧ pn_PodNS pn = ns ∧ pn_SandboxID pn = sb) p.
Proof.
  unfold allocateSecondaryIP. do 2 wp_step. apply run_wp. intros o p1 _. destruct o as [c|e|w|]; cbn [kont]; try by intros.
  do 2 wp_step. apply run_wp. intros o p2 _. destruct o as [[]|e|w|]; cbn [kont]; try by intros.
  wp_step. apply run_wp. intros o p3 _. destruct o as [[[sub obj] mac]|e|w|]; cbn [kont]; try by intros.
  wp_step. apply run_wp. intros o p4 _. destruct o as [[[ip code] [err|]]|e|w|]; cbn [kont]; try by intros.
  wp_step. apply run_wp. intros o p5 _. destruct o as [now|e|w|]; cbn [kont]; try by intros.
  wp_step. intros pn [= <-]. done.
Qed.

(** The last that the API server answered, before it was in the state [k'], was the pod,
    without a static address. *)
Definition not_static (podName podNS : string) (k' : K) : Prop :=
  ∃ k pod, k_GetPod podNS podName k = (inr pod, k') ∧ static_ip_enabled pod = false.

Lemma assign_direct_spec uni nat n ns sb s :
  wp (assign_direct uni nat n ns sb) (λ o s', ∀ a, o = Ok a →
    pa_fromIPAMD a = false ∧ not_static n ns (cn_k8s s') ∧
    ∃ pn, pa_network a = Some pn ∧ record_key pn = PodKey n ns sb) s.
Proof.
  unfold assign_direct. do 2 wp_step. apply wp_c_k8s. unfold wp, call.
  destruct (k_GetPod ns n (cn_k8s s)) as [[e|pod] k'] eqn:Ek; cbn [fst snd kont]; [by intros|].
  destruct (static_ip_enabled pod) eqn:Es; [wp_step; by intros|]. do 2 wp_step. apply wp_c_proc.
  eapply wp_mono; [apply allocateSecondaryIP_spec|]. intros o p Ho.
  destruct o as [pn|e|w|]; cbn [kont]; try by intros. wp_step. intros a [= <-].
  destruct (Ho pn eq_refl) as (Hn & Hns & Hsb). split; [done|]. split; [by exists (cn_k8s s), pod|].
  exists pn. split; [done|]. unfold record_key. by rewrite Hn, Hns, Hsb.
Qed.

(** What the daemon gives. *)
Lemma allocateFromIpamd_spec uni n ns netns sb (g : G) m :
  records g m →
  wp (allocateSecondaryIPFromIpamd uni n ns netns sb) (λ o g', records g' m ∧
    ∀ p, o = Ok p → ∃ pn, p = Some pn ∧ record_key pn = PodKey n ns sb) g.
Proof.
  intros Hm. unfold allocateSecondaryIPFromIpamd. wp_step.
  eapply wp_mono; [by apply wp_call_returns, rec_AddPod_law|]. intros o g' (Hr & Hm' & Hp).
  destruct o as [r|e| |]; [|cbn [kont]; by split|done|done]. cbn [kont].
  apply checked_spec; intros Hc; (split; [done|]); intros p [= <-]. destruct (Hp r eq_refl Hc) as (pn & Ep & Ek).
  exists pn. split; [done|]. by destruct uni.
Qed.

Lemma assignPodIp_spec podName podNS netNS sandboxId s m :
  recs m s →
  wp (assignPodIp podName podNS netNS sandboxId) (λ o s', recs m s' ∧
    ∀ a, o = Ok a → (pa_fromIPAMD a = false → not_static podName podNS (cn_k8s s')) ∧
      ∃ pn, pa_network a = Some pn ∧ record_key pn = PodKey podName podNS sandboxId) s.
Proof.
  intros Hm. unfold assignPodIp.
  wp_step. eapply wp_mono; [apply (wp_maintains (recs m)); [|exact Hm]|].
  { intros s0. apply maintains_with_msg, recs_k8s. }
  intros o s1 Hm1. destruct o as [[]|e|w|]; cbn [kont]; try (by split).
  wp_step. eapply wp_mono; [apply (wp_maintains (recs m)); [apply pod_interface_recs|exact Hm1]|].
  intros o s2 Hm2. destruct o as [[uni nat]|e|w|]; cbn [kont]; try (by split).
  wp_step. apply wp_c_node. eapply wp_mono; [apply (wp_maintains (λ g, records g m)); [apply use_maintains|exact Hm2]|].
  intros o g3 Hm3. destruct o as [b|e|w|]; cbn [kont]; try (by split). destruct b.
  - do 2 wp_step. apply wp_c_node. eapply wp_mono; [by apply (allocateFromIpamd_spec _ _ _ _ _ _ m)|].
    intros o g4 [Hm4 Hp]. destruct o as [ip|e|w|]; cbn [kont]; try (by split). wp_step. split; [exact Hm4|].
    intros a [= <-]. split; [done|]. by apply Hp.
  - eapply wp_mono; [apply (wp_maintains_of (recs m)); [apply assign_direct_recs|exact Hm3|apply assign_direct_spec]|].
    intros o s4 [H Hm4]. split; [done|]. intros a Ha. by destruct (H a Ha) as (_ & ? & ?).
Qed.

(** The record is stored under the key of the pod, unless the function fails. *)
Lemma addPodNetworkRecord_spec n ns sb pn s m :
  recs m s → record_key pn = PodKey n ns sb →
  wp (addPodNetworkRecord n ns sb pn) (λ o s',
    recs (<[PodKey n ns sb := pn]> m) s' ∨ (recs m s' ∧ o ≠ Ok tt)) s.
Proof.
  intros Hm Hkey. unfold addPodNetworkRecord. wp_step. apply wp_c_node.
  eapply wp_mono; [by apply (reach_ipamd_spec _ m)|]. intros o g [[b ->] Hg]. cbn [kont]. destruct b.
  - apply wp_c_node. eapply wp_mono; [by apply (addPodNetworkRecordFromIpamd_spec _ _ m)|].
    intros o g' [_ H]. rewrite Hkey in H. exact H.
  - unfold addPodNetworkRecordLocal. do 2 wp_step. apply wp_c_node. eapply wp_access; [exact Hg| |].
    + intros g' Hg'. cbn [kont]. apply wp_c_node. eapply wp_mono; [by apply (file_Put_law _ _ _ m)|].
      intros o g2 [_ H]. exact H.
    + intros e g' Hg'. cbn [kont]. wp_step.
      eapply wp_mono; [apply (wp_maintains (recs m)); [apply maintains_ignore, releasePodIp_recs|exact Hg']|].
      intros o s' Hs'. destruct o as [[]|e'|w|]; cbn [kont]; try (by right).
Qed.

(** ** Theorems *)

(** C22: assignPodIp changes no record, and an address that it returns bears the name,
    namespace and sandbox of the pod; an address that was allocated without the daemon
    goes only to a pod that the API server showed without a static address. *)
Theorem assignPodIp_correct podName podNS netNS sandboxId s m :
  recs m s →
  wp (assignPodIp podName podNS netNS sandboxId) (λ o s', recs m s' ∧
    ∀ a, o = Ok a → (pa_fromIPAMD a = false → not_static podName podNS (cn_k8s s')) ∧
      ∃ pn, pa_network a = Some pn ∧ record_key pn = PodKey podName podNS sandboxId) s.
Proof. apply assignPodIp_spec. Qed.
End alloc_props.
