(* ===== verification/CniVeth.v ===== *)
(** The veth pair of a pod and its host route ([cmd/cnivpc/veth.go], [runcmd.go]), and
    the diagnostic snapshots taken when the route fails ([pkg/snapshot]).

    [VethApi] is what the program uses of netlink, of the network namespaces, of the
    CNI plugin library and of the file system, beside [RouteApi] and [SysfsApi]; a
    namespace is given by its path.  [VethLaws] states the behaviour on the veth pairs. *)
From S2P Require Export CniAlloc Portmap Sha1 GoTime.
From Stdlib Require Import Ascii.

(** ** Definitions *)

Definition hostVethPrefix : string := "ucni".

Class VethApi (N : Type) : Type := {
  ns_GetNS : string → Call N unit;
  ns_Do : string → Call N unit;              (* the switch to the namespace *)
  (* namespace, container name, host name, MTU; gives the host and container ends *)
  ip_SetupVethWithName : string → string → string → Z → Call N (NetIface * NetIface);
  ns_LinkByName : string → string → Call N NetIface;
  ns_AddrAdd : string → string → IPNet → Call N unit;
  ns_DefaultRouteAdd : string → string → list Z → Call N unit;    (* on link *)
  ns_NeighAdd : string → string → list Z → list Z → Call N unit;  (* permanent *)
  ns_LinkDel : string → string → Call N unit;
  ns_Bash : string → string → Call N unit;
  nl_LinkByName : string → Call N NetIface;
  nl_LinkDel : string → Call N unit;
  is_LinkNotFoundError : error → bool;
  ip_ErrLinkNotFound : error;
  os_IsExist : error → bool;
  os_IsNotExist : error → bool;
  os_Truncate : string → Call N unit;
  os_OpenAppend : string → Call N unit;
  os_Append : string → string → Call N unit;
  os_IsDir : string → Call N bool;           (* Stat *)
  os_MkdirAll : string → Call N unit;
  exec_Run : string → list string → N → (string * option error) * N;
  error_Error : error → string               (* the text of an error *)
}.

(** *** snapshot.go *)

Definition snapshotDir : string := "/opt/cni/snapshot".
Definition line_end : string := String "010" "".

Record Snapshot : Type := mkSnapshot {
  sn_name : string; sn_cmds : list (string * list string); sn_err : option error; sn_desc : string
}.

Section snapshot.
Context {N : Type} `{!VethApi N}.

Definition ensure_dir (dir : string) : M N unit :=
  stat ← attempt (call (os_IsDir dir));
  match stat with
  | inl err =>
      if os_IsNotExist err then with_msg "Create directory for snapshot error" (call (os_MkdirAll dir))
      else throw (Errorf "Read directory for snapshot error")
  | inr isDir => if isDir : bool then mret tt else throw (Errorf "Ensure snapshot directory: is a file")
  end.

(** What a command adds to the text. *)
Definition run_cmd (cmd : string * list string) : M N string := λ n,
  let '((out, err), n') := exec_Run cmd.1 cmd.2 n in
  (Ok (">>> " +:+ cmd.1 +:+ " " +:+ Join cmd.2 " " +:+ line_end +:+ out +:+
       match err with Some e => ">>> Bad exec: " +:+ error_Error e +:+ line_end | None => "" end +:+ line_end), n').

Fixpoint run_cmds (cmds : list (string * list string)) : M N string :=
  match cmds with
  | [] => mret ""
  | cmd :: cmds' => text ← run_cmd cmd; rest ← run_cmds cmds'; mret (text +:+ rest)
  end.

Definition snapshot_header (version now : string) (s : Snapshot) : string :=
  "UCloud VPC CNI Snapshot - version " +:+ version +:+ line_end +:+
  "Name: " +:+ sn_name s +:+ line_end +:+ "Time: " +:+ now +:+ line_end +:+
  (if String.eqb (sn_desc s) "" then "" else "Description: " +:+ sn_desc s +:+ line_end) +:+
  match sn_err s with Some e => "Error: " +:+ error_Error e +:+ line_end | None => "" end +:+ line_end.

Definition snapshot_save (version now : string) (s : Snapshot) : M N unit :=
  ensure_dir snapshotDir;;
  if (length (sn_cmds s) =? 0)%nat then throw (Errorf "No command to take snapshot") else
  text ← run_cmds (sn_cmds s);
  let path := snapshotDir +:+ "/" +:+ sn_name s in
  with_msg "Open snapshot file error" (call (os_OpenAppend path));;
  with_msg "Write snapshot file error" (call (os_Append path (snapshot_header version now s +:+ text))).

Definition Save (version now : string) (s : Snapshot) : M N unit := ignore (snapshot_save version now s).
End snapshot.

(** *** veth.go *)

Definition generateHostVethName (prefix namespace podname : string) : string :=
  prefix +:+ String.substring 0 11 (hex_bytes (sha1_sum (string_bytes (namespace +:+ "." +:+ podname)))).

Section veth_net.
Context {N : Type} `{!RuleApi N, !RouteApi N, !VethApi N}.

(** A route without a table goes to the main one. *)
Definition addRouteRuleForPodIp (hostVeth ip : string) : M N unit :=
  link ← call (nl_LinkByName hostVeth);
  match ParseCIDR (ip +:+ "/32") with
  | inl err => throw err
  | inr (_, dstcidr) =>
      r ← attempt (call (nl_RouteAdd (mkRoute (if_Name link) (Some dstcidr) [] 0 true false)));
      match r with
      | inl err => if os_IsExist err then mret tt else throw (Errorf "add route error")
      | inr _ => mret tt
      end;;
      ensureDstIPRoutePolicy ip
  end.

Definition ensureProxyArp (dev : string) : M N unit :=
  let file := "/proc/sys/net/ipv4/conf/" +:+ dev +:+ "/proxy_arp" in
  call (os_Truncate file);;
  call (os_OpenAppend file);;
  ignore (call (os_Append file "1")).

(** A link that cannot be looked up is taken for absent. *)
Definition checkAndCleanOldVeth (hostVethName : string) : M N unit :=
  r ← attempt (call (nl_LinkByName hostVethName));
  match r with
  | inr _ => with_msg "failed to delete old hostVeth" (call (nl_LinkDel hostVethName))
  | inl _ => mret tt
  end.

(** The closure of [netns.Do]: the error of the look-up of the container's end is
    dropped, and its nil result dereferenced. *)
Definition in_namespace (netns ifName hostVethName : string) (mtu : Z) (gateway : list Z) (containerIp : string)
    : M N (Interface * Interface) :=
  '(hostVeth, contVeth0) ← call (ip_SetupVethWithName netns ifName hostVethName mtu);
  r ← attempt (call (ns_LinkByName netns (if_Name contVeth0)));
  match r with
  | inl _ => panic "nil pointer dereference"
  | inr iface =>
      match netlink_ParseAddr containerIp with
      | inl err => throw err
      | inr addr =>
          call (ns_AddrAdd netns (if_Name iface) addr);;
          contVeth ← with_msg "failed to look up" (call (ns_LinkByName netns ifName));
          with_msg "failed to add default route on eth0" (call (ns_DefaultRouteAdd netns (if_Name contVeth) gateway));;
          with_msg "failed to add a neigh entry for veth of uhost's ns"
            (call (ns_NeighAdd netns (if_Name contVeth) gateway (if_HardwareAddr hostVeth)));;
          mret (mkInterface (if_Name hostVeth) (HardwareAddr_String (if_HardwareAddr hostVeth)) "",
                mkInterface (if_Name contVeth0) (HardwareAddr_String (if_HardwareAddr iface)) netns)
      end
  end.

Definition setupVethPair (netns ifName hostVethName : string) (mtu : Z) (hostAddrs : list (list Z))
    (containerIp : string) : M N (Interface * Interface) :=
  checkAndCleanOldVeth hostVethName;;
  call (ns_Do netns);;
  in_namespace netns ifName hostVethName mtu (default [] (head hostAddrs)) containerIp.
End veth_net.

Section veth.
Context {E T N K G : Type} `{!CloudApi E, !GoRuntime E, !UniApi E}
  `{!RuleApi N, !RouteApi N, !VethApi N, !IpamdClient G}.
#[local] Abbreviation m := (M (Cni E T N K G)).

(** [CNIVersion] of [pkg/version] is set by the build. *)
Variable CNIVersion : string.

(** A failure after which the address is given back. *)
Definition or_release {A} (pn : PodNetwork) (msg : string) (p : m A) : m A :=
  r ← attempt p;
  match r with
  | inr a => mret a
  | inl _ => ignore (releasePodIp pn);; throw (Errorf msg)
  end.
(** The same, with the error as it is. *)
Definition or_release_err {A} (pn : PodNetwork) (p : m A) : m A :=
  r ← attempt p;
  match r with
  | inr a => mret a
  | inl err => ignore (releasePodIp pn);; throw err
  end.

Definition host_addrs (mface : NetIface) : m (list (list Z)) :=
  l ← c_proc (ext (ext_AddrListV4 mface));
  match l with [] => throw (Errorf "no address") | _ => mret l end.

Definition ip_commands : list (string * list string) :=
  [("ip", ["addr"]); ("ip", ["link"]); ("ip", ["route"]); ("ip", ["netns"; "list-id"])].

Definition take_snapshot (pn : PodNetwork) (veth : string) (err : error) : m unit :=
  now ← c_proc Now;
  offset ← c_proc (gets (λ p, ext_TZOffset now (proc_ext p)));
  c_net (Save CNIVersion (FormatDateTime offset now)
    (mkSnapshot ("ip_route_" +:+ pn_VPCIP pn) ip_commands (Some err) ("Adding route rule failure, veth name: " +:+ veth))).

Definition setupPodVethNetwork (podName podNS netNS sandBoxId nic : string) (pn : PodNetwork) (mtu : Z) : m unit :=
  or_release pn "failed to open netns" (c_net (call (ns_GetNS netNS)));;
  mface ← or_release pn "failed to lookup" (c_proc (ext (ext_LinkByName nic)));
  hostAddrs ← or_release pn "failed to get host ip addresses" (host_addrs mface);
  ifName ← c_proc (Getenv "CNI_IFNAME");
  '(hostVeth, _) ← or_release_err pn
    (c_net (setupVethPair netNS ifName (generateHostVethName hostVethPrefix podNS podName) mtu hostAddrs
              (pn_VPCIP pn +:+ "/32")));
  r ← attempt (c_net (addRouteRuleForPodIp (itf_Name hostVeth) (pn_VPCIP pn)));
  match r with
  | inl err => take_snapshot pn (itf_Name hostVeth) err;; throw err
  | inr _ =>
      if negb (String.eqb nic UHostMasterInterface) && HasPrefix (pn_InterfaceID pn) "uni-"
      then c_net (ensureSrcIPRoutePolicy (pn_VPCIP pn) nic) else mret tt
  end.

(** *** runcmd.go *)

Definition setNodePortRange (netNS : string) (pn : PodNetwork) : m unit :=
  or_release pn "failed to open netns" (c_net (call (ns_GetNS netNS)));;
  ignore (c_net (call (ns_Do netNS);;
    ignore (call (ns_Bash netNS "sed -i 's/^.*net.ipv4.ip_local_port_range.*$/net.ipv4.ip_local_port_range = 32768 60999/' /etc/sysctl.conf"));;
    ignore (call (ns_Bash netNS "sysctl -p")))).
End veth.

Example veth_name : generateHostVethName "ucni" "default" "web-0" = "ucni" +:+ "0d7763386da".
Proof. vm_compute. reflexivity. Qed.

(** ** The name of the host interface *)

Lemma substring_take n s : String.length s = n → ∀ k, (k ≤ n)%nat → String.length (String.substring 0 k s) = k.
Proof.
  revert n. induction s as [|a s IH]; intros n <- k Hk.
  - destruct k; [done|]. simpl in Hk. lia.
  - destruct k; [done|]. cbn [String.length] in Hk. cbn [String.substring String.length]. f_equal.
    apply (IH (String.length s)); [done|lia].
Qed.
Lemma all_chars_substring p s k : all_chars p s = true → all_chars p (String.substring 0 k s) = true.
Proof.
  revert k. induction s as [|a s IH]; intros k; [by destruct k|]. destruct k; [done|].
  cbn [all_chars String.substring]. intros [H1 H2]%andb_prop. rewrite H1. by apply IH.
Qed.

(** The name of a host interface is its prefix and 11 hexadecimal digits of the
    SHA-1 of namespace and pod name: with the prefix of the plugin 15 characters, the
    most that the kernel allows. *)
Theorem generateHostVethName_correct prefix namespace podname :
  ∃ h, generateHostVethName prefix namespace podname = prefix +:+ h ∧
    String.length h = 11%nat ∧ all_chars is_hex h = true ∧
    String.length (generateHostVethName hostVethPrefix namespace podname) = 15%nat.
Proof.
  pose proof (sha1_sum_octets (string_bytes (namespace +:+ "." +:+ podname))) as Ho.
  pose proof (hex_bytes_length (sha1_sum (string_bytes (namespace +:+ "." +:+ podname)))) as Hl.
  rewrite sha1_sum_length in Hl.
  assert (String.length (String.substring 0 11 (hex_bytes (sha1_sum (string_bytes (namespace +:+ "." +:+ podname)))))
    = 11%nat) as H11 by (apply (substring_take _ _ Hl); lia).
  pose proof (all_chars_substring _ _ 11 (hex_bytes_hex _ Ho)) as Hh. unfold generateHostVethName.
  set (h := String.substring 0 11 _) in *. clearbody h. exists h. split_and!; try done.
  change (4 + String.length h = 15)%nat. by rewrite H11.
Qed.

(** ** The veth pairs *)

(** [veths]: the host ends that were set up, each with the namespace, name and
    addresses of its other end. *)
Class VethLaws (N : Type) `{!IpsetApi N, !IpsetLaws N, !SysfsApi N, !RuleApi N, !RuleLaws N, !RouteApi N, !VethApi N} : Type := {
  veths : N → gmap string (string * string * list string);
  net_view (n : N) := (ip_rules n, veths n, ipsets n);
  ParseAddr_law ip a :
    netlink_ParseAddr (N := N) (ip +:+ "/32") = inr a → IP_String (net_IP a) = IP_String (default [] (ParseIP ip));
  SetupVeth_law ns ifn host mtu n :
    wp (call (ip_SetupVethWithName ns ifn host mtu)) (λ o n', ip_rules n' = ip_rules n ∧ ipsets n' = ipsets n ∧
      ∀ h c, o = Ok (h, c) → if_Name h = host ∧ if_Name c = ifn ∧ veths n' = <[host := (ns, ifn, [])]> (veths n)) n;
  ns_LinkByName_law ns name n :
    wp (call (ns_LinkByName ns name)) (λ o n', net_view n' = net_view n ∧ ∀ i, o = Ok i → if_Name i = name) n;
  ns_AddrAdd_law ns link a n :
    wp (call (ns_AddrAdd ns link a)) (λ o n', ip_rules n' = ip_rules n ∧ ipsets n' = ipsets n ∧
      (o = Ok tt → ∀ host l, veths n !! host = Some (ns, link, l) →
         veths n' !! host = Some (ns, link, l ++ [IP_String (net_IP a)]))) n;
  LinkDel_keeps name : keeps (λ n, (ip_rules n, ipsets n)) (nl_LinkDel name);
  ns_LinkDel_keeps ns name : keeps (λ n, (ip_rules n, ipsets n)) (ns_LinkDel ns name);
  GetNS_keeps ns : keeps net_view (ns_GetNS ns);
  ns_Do_keeps ns : keeps net_view (ns_Do ns);
  ns_Route_keeps ns l gw : keeps net_view (ns_DefaultRouteAdd ns l gw);
  ns_Neigh_keeps ns l ip hw : keeps net_view (ns_NeighAdd ns l ip hw);
  ns_Bash_keeps ns c : keeps net_view (ns_Bash ns c);
  LinkByName_law name n :
    wp (call (nl_LinkByName name)) (λ o n', net_view n' = net_view n ∧ ∀ i, o = Ok i → if_Name i = name) n;
  RouteAdd_keeps r : keeps net_view (nl_RouteAdd r);
  RouteList_keeps l : keeps net_view (nl_RouteList l);
  ReadFile_keeps f : keeps net_view (os_ReadFile f);
  Truncate_keeps f : keeps net_view (os_Truncate f);
  OpenAppend_keeps f : keeps net_view (os_OpenAppend f);
  Append_keeps f c : keeps net_view (os_Append f c);
  IsDir_keeps f : keeps net_view (os_IsDir f);
  MkdirAll_keeps f : keeps net_view (os_MkdirAll f);
  exec_keeps c a n : net_view (exec_Run c a n).2 = net_view n;
  RuleList_rest : keeps (λ n, (veths n, ipsets n)) nl_RuleList;
  RuleAdd_rest r : keeps (λ n, (veths n, ipsets n)) (nl_RuleAdd r);
  RuleDel_rest r : keeps (λ n, (veths n, ipsets n)) (nl_RuleDel r);
  ipset_Create_rest name : keeps (λ n, (ip_rules n, veths n)) (ipset_Create name);
  ipset_Add_rest name e : keeps (λ n, (ip_rules n, veths n)) (ipset_Add name e);
  ipset_Del_rest name e : keeps (λ n, (ip_rules n, veths n)) (ipset_Del name e);
  ipset_List_rest name : keeps (λ n, (ip_rules n, veths n)) (ipset_List name)
}.

Section spec.
Context {N : Type} `{!IpsetApi N, !IpsetLaws N, !SysfsApi N, !RuleApi N, !RuleLaws N, !RouteApi N, !VethApi N, !VethLaws N}.
Implicit Types n : N.

Lemma keeping_view {A} (c : Call N A) : keeps net_view c → keeping net_view (call c).
Proof. apply keeping_call. Qed.

(** The policy rules change no veth pair and no ipset. *)
Definition rules_rest n := (veths n, ipsets n).
Lemma find_policy_rest hit good rules : keeping (S := N) rules_rest (find_policy hit good rules).
Proof.
  induction rules as [|r rules IH]; cbn [find_policy]; solve_keeping;
    first [exact IH | apply keeping_call, RuleDel_rest].
Qed.
#[local] Ltac rule_calls := repeat first
  [ apply find_policy_rest | apply keeping_call, RuleList_rest | apply keeping_call, RuleAdd_rest
  | progress solve_keeping ].
Lemma ensureDst_rest ip : keeping (S := N) rules_rest (ensureDstIPRoutePolicy ip).
Proof. unfold ensureDstIPRoutePolicy. rule_calls. Qed.
Lemma ensureSrc_rest ip nic : keeping (S := N) rules_rest (ensureSrcIPRoutePolicy ip nic).
Proof. unfold ensureSrcIPRoutePolicy. rule_calls. Qed.
Lemma ensureDst_veths ip : keeping (S := N) veths (ensureDstIPRoutePolicy ip).
Proof. intros n. by injection (ensureDst_rest ip n). Qed.
Lemma ensureSrc_veths ip nic : keeping (S := N) veths (ensureSrcIPRoutePolicy ip nic).
Proof. intros n. by injection (ensureSrc_rest ip nic n). Qed.

(** The host end [host] leads into the namespace, to an interface with the address. *)
Definition wired (netns ifn host ip : string) n : Prop :=
  veths n !! host = Some (netns, ifn, [IP_String (default [] (ParseIP ip))]).

Lemma view_split n n' : net_view n' = net_view n → ip_rules n' = ip_rules n ∧ veths n' = veths n.
Proof. by intros [= ? ? ?]. Qed.

Lemma in_namespace_spec netns ifn host mtu gw ip n :
  wp (in_namespace netns ifn host mtu gw (ip +:+ "/32")) (λ o n', ip_rules n' = ip_rules n ∧
    ∀ h c, o = Ok (h, c) → itf_Name h = host ∧ wired netns ifn host ip n') n.
Proof.
  unfold in_namespace. wp_step. eapply wp_mono; [apply wp_call_returns, SetupVeth_law|].
  intros o n1 (Hr1 & E1 & _ & H1). destruct o as [[h c]|e| |]; [|cbn [kont]; by split|done|done].
  destruct (H1 _ _ eq_refl) as (Eh & Ec & Ev). cbn [kont]. clear H1. do 2 wp_step.
  eapply wp_mono; [apply wp_call_returns, ns_LinkByName_law|]. intros o n2 (Hr2 & [E2 V2]%view_split & H2).
  destruct o as [iface|e| |]; [|cbn [kont]; split; [cbn; congruence|by intros ?? [=]]|done|done].
  specialize (H2 _ eq_refl). cbn [kont]. destruct (netlink_ParseAddr _) as [e|addr] eqn:Ea.
  { wp_step. split; [congruence|by intros ?? [=]]. }
  wp_step. eapply wp_mono; [apply wp_call_returns, ns_AddrAdd_law|]. intros o n3 (Hr3 & E3 & _ & H3).
  destruct o as [[]|e| |]; [|cbn [kont]; split; [congruence|by intros ?? [=]]|done|done]. cbn [kont].
  assert (wired netns ifn host ip n3) as Hw.
  { unfold wired. apply ParseAddr_law in Ea. rewrite <- Ea. rewrite H2, Ec in H3.
    apply (H3 eq_refl host []). by rewrite V2, Ev, lookup_insert_eq. }
  assert (ip_rules n3 = ip_rules n) as E by congruence. clear H3 E3 E2 E1 Ev V2.
  do 2 wp_step. eapply wp_mono; [apply wp_call_returns, ns_LinkByName_law|]. intros o n4 (Hr4 & [E4 V4]%view_split & _).
  destruct o as [cv|e| |]; [|cbn [kont]; split; [congruence|by intros ?? [=]]|done|done]. cbn [kont].
  do 2 wp_step. apply (wp_keeps net_view); [apply ns_Route_keeps|]. intros o n5 Hr5 [E5 V5]%view_split.
  destruct o as [[]|e| |]; [|cbn [kont]; split; [congruence|by intros ?? [=]]|done|done]. cbn [kont].
  do 2 wp_step. apply (wp_keeps net_view); [apply ns_Neigh_keeps|]. intros o n6 Hr6 [E6 V6]%view_split.
  destruct o as [[]|e| |]; [|cbn [kont]; split; [congruence|by intros ?? [=]]|done|done]. cbn [kont].
  wp_step. split; [congruence|]. intros h' c' [= <- <-]. split; [done|]. unfold wired in *. congruence.
Qed.

Lemma setupVethPair_spec netns ifn host mtu addrs ip n :
  wp (setupVethPair netns ifn host mtu addrs (ip +:+ "/32")) (λ o n', ip_rules n' = ip_rules n ∧
    ∀ h c, o = Ok (h, c) → itf_Name h = host ∧ wired netns ifn host ip n') n.
Proof.
  unfold setupVethPair, checkAndCleanOldVeth. wp_step.
  apply (wp_mono _ (λ o n', returns o = true ∧ ip_rules n' = ip_rules n)).
  { do 2 wp_step. eapply wp_mono; [apply wp_call_returns, LinkByName_law|]. intros o n1 (Hr & [E _]%view_split & _).
    destruct o as [i|e| |]; [| |done|done]; cbn [kont]; [|by wp_step]. wp_step.
    apply (wp_keeps (λ n, (ip_rules n, ipsets n))); [apply LinkDel_keeps|]. intros o n2 Hr2 [= E2 _].
    destruct o; (split; [done|congruence]). }
  intros o n1 [Hr1 E1]. destruct o as [[]|e| |]; [|cbn [kont]; by split|done|done]. cbn [kont]. wp_step.
  apply (wp_keeps net_view); [apply ns_Do_keeps|]. intros o n2 Hr2 [E2 V2]%view_split.
  destruct o as [[]|e| |]; [|cbn [kont]; split; [congruence|by intros ?? [=]]|done|done]. cbn [kont].
  eapply wp_mono; [apply in_namespace_spec|]. intros o n3 [E3 H3]. split; [congruence|done].
Qed.

(** The rule to the address. *)
Definition to_main (ip : string) (l : list IpRule) : Prop :=
  ∃ r, r ∈ l ∧ net_is (rl_Dst r) ip = true ∧ rl_Table r = MainTableId ∧ rl_Src r = None.

(** The tables of the rules about an address stay named. *)
Lemma named_RuleDel ip r : maintains (S := N) (λ n, tables_named ip (ip_rules n)) (call (nl_RuleDel r)).
Proof.
  intros n Hn. unfold call. pose proof (RuleDel_law r n) as Hl. destruct (nl_RuleDel r n) as [[e|[]] n']; simpl in *.
  - destruct Hl as [(? & _ & ->)|[[=] _]]; done.
  - destruct Hl as [(? & [=] & _)|(_ & l1 & l2 & r' & E & _ & ->)]. intros x Hx. apply Hn. rewrite E. set_solver.
Qed.
Lemma named_RuleAdd ip r : rl_Table r ≠ 0 → maintains (S := N) (λ n, tables_named ip (ip_rules n)) (call (nl_RuleAdd r)).
Proof.
  intros Hr n Hn. unfold call. pose proof (RuleAdd_law r n) as Hl. destruct (nl_RuleAdd r n) as [[e|[]] n']; simpl in *.
  - destruct Hl as [(? & _ & ->)|[[=] _]]; done.
  - destruct Hl as [(? & [=] & _)|(_ & l1 & l2 & r' & E & [= _ Htb _ _ _ _] & ->)].
    intros x Hx. rewrite E in Hn. apply elem_of_app in Hx as [Hx|[->|Hx]%elem_of_cons].
    + apply Hn. set_solver.
    + by rewrite Htb.
    + apply Hn. set_solver.
Qed.
Lemma ensureDst_named ip : maintains (S := N) (λ n, tables_named ip (ip_rules n)) (ensureDstIPRoutePolicy ip).
Proof.
  assert (∀ hit good rules, maintains (S := N) (λ n, tables_named ip (ip_rules n)) (find_policy hit good rules)) as Hf.
  { intros hit good rules. induction rules as [|r rules IH]; cbn [find_policy]; solve_maintains.
    apply named_RuleDel. }
  unfold ensureDstIPRoutePolicy. solve_maintains; first [apply named_RuleAdd; discriminate | idtac].
  intros n Hn. unfold call. pose proof (RuleList_keeps n) as Hk. destruct (nl_RuleList n) as [[] n']; simpl in *; by rewrite Hk.
Qed.

Lemma addRoute_spec veth ip n :
  canonical_ip ip → tables_named ip (ip_rules n) →
  wp (addRouteRuleForPodIp veth ip) (λ o n', returns o = true ∧ veths n' = veths n ∧
    others ip (ip_rules n') = others ip (ip_rules n) ∧ tables_named ip (ip_rules n') ∧
    (o = Ok tt → to_main ip (ip_rules n'))) n.
Proof.
  intros Hip Ht. unfold addRouteRuleForPodIp. wp_step. eapply wp_mono; [apply wp_call_returns, LinkByName_law|].
  intros o n1 (Hr & [E1 V1]%view_split & _). destruct o as [i|e| |]; [|cbn [kont]; rewrite E1; by split_and!|done|done].
  cbn [kont]. destruct (ParseCIDR _) as [e|[a dst]]; [wp_step; rewrite E1; by split_and!|]. do 2 wp_step.
  apply (wp_keeps net_view); [apply RouteAdd_keeps|]. intros o n2 Hr2 [E2 V2]%view_split.
  rewrite E1 in E2. rewrite V1 in V2. clear E1 V1 Hr. rewrite <- E2 in Ht. rewrite <- E2, <- V2.
  assert (wp (ensureDstIPRoutePolicy ip) (λ o n', returns o = true ∧ veths n' = veths n2 ∧
    others ip (ip_rules n') = others ip (ip_rules n2) ∧ tables_named ip (ip_rules n') ∧
    (o = Ok tt → to_main ip (ip_rules n'))) n2) as Hend.
  { destruct (ensureDst_spec ip n2 Hip Ht) as (Hr3 & Ho & Hok).
    split_and!; [exact Hr3|apply ensureDst_veths|exact Ho|by apply ensureDst_named|exact Hok]. }
  destruct o as [[]|e| |]; [| |done|done]; cbn [kont]; wp_step; [by wp_step|].
  destruct (os_IsExist e); wp_step; [done|cbn [kont]; by split_and!].
Qed.

(** The rules from an address do not touch the rule to it. *)
Lemma to_main_RuleDel ip r : net_is (rl_Src r) ip = true → maintains (S := N) (λ n, to_main ip (ip_rules n)) (call (nl_RuleDel r)).
Proof.
  intros Hs n (r0 & Hin & Hd & Htb & Hs0). unfold call. pose proof (RuleDel_law r n) as Hl.
  destruct (nl_RuleDel r n) as [[e|[]] n']; simpl in *.
  - destruct Hl as [(? & _ & ->)|[[=] _]]. by exists r0.
  - destruct Hl as [(? & [=] & _)|(_ & l1 & l2 & r' & E & Hc & ->)]. exists r0. split; [|done].
    rewrite E in Hin. apply elem_of_app in Hin as [Hin|[->|Hin]%elem_of_cons]; [set_solver| |set_solver].
    apply (covers_src _ _ _ Hc) in Hs. by rewrite Hs0 in Hs.
Qed.
Lemma to_main_RuleAdd ip r : maintains (S := N) (λ n, to_main ip (ip_rules n)) (call (nl_RuleAdd r)).
Proof.
  intros n (r0 & Hin & H). unfold call. pose proof (RuleAdd_law r n) as Hl. destruct (nl_RuleAdd r n) as [[e|[]] n']; simpl in *.
  - destruct Hl as [(? & _ & ->)|[[=] _]]. by exists r0.
  - destruct Hl as [(? & [=] & _)|(_ & l1 & l2 & r' & E & _ & ->)]. exists r0. split; [|done].
    rewrite E in Hin. rewrite elem_of_app, elem_of_cons. apply elem_of_app in Hin. tauto.
Qed.
Lemma ensureSrc_main ip nic : maintains (S := N) (λ n, to_main ip (ip_rules n)) (ensureSrcIPRoutePolicy ip nic).
Proof.
  assert (∀ good rules, maintains (S := N) (λ n, to_main ip (ip_rules n)) (find_policy (λ r, net_is (rl_Src r) ip) good rules)) as Hf.
  { intros good rules. induction rules as [|r rules IH]; cbn [find_policy]; [solve_maintains|].
    destruct (net_is (rl_Src r) ip) eqn:Hs; [|exact IH]. destruct (good r); [solve_maintains|].
    apply maintains_bind; [apply maintains_ignore; by apply to_main_RuleDel|]. intros _. exact IH. }
  unfold ensureSrcIPRoutePolicy. solve_maintains; first [apply to_main_RuleAdd | apply Hf | idtac].
  intros n Hn. unfold call. pose proof (RuleList_keeps n) as Hk. destruct (nl_RuleList n) as [[] n']; simpl in *; by rewrite Hk.
Qed.

Lemma Save_keeps v now sn : keeping (S := N) net_view (Save v now sn).
Proof.
  assert (∀ cmds, keeping (S := N) net_view (run_cmds cmds)) as Hc.
  { intros cmds. induction cmds as [|c cmds IH]; cbn [run_cmds]; [solve_keeping|].
    apply keeping_bind; [|intros x; apply keeping_bind; [exact IH|solve_keeping]]. intros n. unfold run_cmd. pose proof (exec_keeps c.1 c.2 n) as Hk.
    by destruct (exec_Run c.1 c.2 n) as [[out err] n']. }
  unfold Save, snapshot_save, ensure_dir. solve_keeping; first
    [ apply Hc | apply keeping_view; first [apply IsDir_keeps | apply MkdirAll_keeps | apply OpenAppend_keeps | apply Append_keeps] ].
Qed.
End spec.

(** ** The network of a pod *)

Section pod.
Context {E T N K G : Type} `{!CloudApi E, !GoRuntime E, !UniApi E, !IpamdClient G}
  `{!IpsetApi N, !IpsetLaws N, !SysfsApi N, !RuleApi N, !RuleLaws N, !RouteApi N, !VethApi N, !VethLaws N}.
Implicit Types s : Cni E T N K G.

Definition cn_view s := net_view (cn_net s).

Lemma releasePodIp_net pn : keeping cn_net (releasePodIp pn : M (Cni E T N K G) unit).
Proof. unfold releasePodIp, c_node, c_proc. solve_keeping; by apply keeping_zoom. Qed.

(** A step that gives the address back when it fails, and what follows it. *)
Definition release_rule {A B} (p : M (Cni E T N K G) A) (k : A → M (Cni E T N K G) B)
    (Q : outcome B → Cni E T N K G → Prop) s : Prop :=
  wp p (λ o s', match o with
    | Ok a => wp (k a) Q s'
    | _ => ∀ (o' : outcome B) s2, (∀ b, o' ≠ Ok b) → cn_net s2 = cn_net s' → Q o' s2
    end) s.
Lemma or_release_then {A B} pn msg (p : M (Cni E T N K G) A) (k : A → M (Cni E T N K G) B) Q s :
  release_rule p k Q s → wp (x ← or_release pn msg p; k x) Q s.
Proof.
  unfold release_rule. intros Hp. wp_step. unfold or_release. do 2 wp_step. eapply wp_mono; [exact Hp|]. intros o s1 H1.
  destruct o as [a|e|w|]; cbn [kont]; [by wp_step| |by apply H1..].
  wp_step. eapply wp_mono; [apply (wp_keep cn_net), keeping_ignore, releasePodIp_net|]. intros o s2 E2.
  destruct o as [[]|e'|w|]; cbn [kont]; by apply H1.
Qed.
Lemma or_release_err_then {A B} pn (p : M (Cni E T N K G) A) (k : A → M (Cni E T N K G) B) Q s :
  release_rule p k Q s → wp (x ← or_release_err pn p; k x) Q s.
Proof.
  unfold release_rule. intros Hp. wp_step. unfold or_release_err. do 2 wp_step. eapply wp_mono; [exact Hp|]. intros o s1 H1.
  destruct o as [a|e|w|]; cbn [kont]; [by wp_step| |by apply H1..].
  wp_step. eapply wp_mono; [apply (wp_keep cn_net), keeping_ignore, releasePodIp_net|]. intros o s2 E2.
  destruct o as [[]|e'|w|]; cbn [kont]; by apply H1.
Qed.

(** What the set-up of a pod leaves. *)
Definition pod_wired (podName podNS netNS nic : string) (pn : PodNetwork) s : Prop :=
  (∃ ifn, wired netNS ifn (generateHostVethName hostVethPrefix podNS podName) (pn_VPCIP pn) (cn_net s)) ∧
  to_main (pn_VPCIP pn) (cn_rules s) ∧
  (nic ≠ UHostMasterInterface → HasPrefix (pn_InterfaceID pn) "uni-" = true →
     ∃ r, r ∈ cn_rules s ∧ net_is (rl_Src r) (pn_VPCIP pn) = true ∧
       ifNameToTableId nic = inr (rl_Table r) ∧ rl_Dst r = None).

Definition setup_post (podName podNS netNS nic : string) (pn : PodNetwork) s (o : outcome unit) s' : Prop :=
  others (pn_VPCIP pn) (cn_rules s') = others (pn_VPCIP pn) (cn_rules s) ∧
  (o = Ok tt → pod_wired podName podNS netNS nic pn s').

Variable CNIVersion : string.

Lemma take_snapshot_view pn veth err :
  keeping cn_view (take_snapshot CNIVersion pn veth err : M (Cni E T N K G) unit).
Proof.
  unfold take_snapshot, c_proc, c_net. apply keeping_bind; [by apply keeping_zoom|]. intros now.
  apply keeping_bind; [by apply keeping_zoom|]. intros off.
  apply (keeping_zoom_in _ net_view); [done|done|apply Save_keeps].
Qed.

Lemma setupPodVethNetwork_spec podName podNS netNS sb nic pn mtu s :
  canonical_ip (pn_VPCIP pn) → tables_named (pn_VPCIP pn) (cn_rules s) →
  wp (setupPodVethNetwork CNIVersion podName podNS netNS sb nic pn mtu) (setup_post podName podNS netNS nic pn s) s.
Proof.
  intros Hip Ht. unfold setupPodVethNetwork.
  assert (∀ (o : outcome unit) s2, (∀ a, o ≠ Ok a) → cn_rules s2 = cn_rules s → setup_post podName podNS netNS nic pn s o s2) as Hend.
  { intros o s2 Ho Er. split; [by rewrite Er|]. intros ->. by destruct (Ho tt). }
  assert (∀ s', cn_rules s' = cn_rules s → ∀ (o : outcome unit) s2, (∀ a, o ≠ Ok a) → cn_net s2 = cn_net s' →
    setup_post podName podNS netNS nic pn s o s2) as Hfail.
  { intros s' Es o s2 Ho En. apply Hend; [done|]. unfold cn_rules in *. by rewrite En. }
  apply or_release_then. apply wp_c_net, (wp_keeps net_view); [apply GetNS_keeps|]. intros o n1 Hr1 [E1 _]%view_split.
  change (ip_rules n1 = ip_rules (cn_net s)) with (cn_rules (c_set_net n1 s) = cn_rules s) in E1.
  destruct o as [[]|e|w|]; try (by apply Hfail). set (s1 := c_set_net n1 s) in *. clearbody s1. clear Hr1 n1.
  apply or_release_then. apply wp_c_proc, run_wp. intros o p2 _. destruct o as [mface|e|w|]; try (by apply Hfail).
  apply or_release_then. eapply wp_mono; [apply (wp_keep cn_net); unfold host_addrs, c_proc; solve_keeping|]. intros o s3 E3.
  assert (cn_rules s3 = cn_rules s) as E3r by (unfold cn_rules in *; by rewrite E3). clear E1 E3 s1 p2.
  destruct o as [addrs|e|w|]; try (by apply Hfail).
  wp_step. apply wp_c_proc, run_wp. intros o p4 _.
  change (cn_rules s3) with (cn_rules (c_set_proc p4 s3)) in E3r. set (s4 := c_set_proc p4 s3) in *. clearbody s4. clear s3 p4.
  destruct o as [ifn|e|w|]; cbn [kont]; try (by apply Hend). apply or_release_err_then, wp_c_net.
  eapply wp_mono; [apply setupVethPair_spec|]. intros o n5 [E5 H5].
  change (ip_rules n5 = cn_rules s4) in E5. rewrite E3r in E5.
  change (ip_rules n5) with (cn_rules (c_set_net n5 s4)) in E5.
  destruct o as [[hv cv]|e|w|]; try (by apply Hfail). destruct (H5 _ _ eq_refl) as [Eh Hw]. clear H5.
  change n5 with (cn_net (c_set_net n5 s4)) in Hw. set (s5 := c_set_net n5 s4) in *. clearbody s5. clear s4 n5 E3r.
  rewrite <- E5 in Ht. do 2 wp_step. apply wp_c_net. eapply wp_mono; [by apply addRoute_spec|].
  intros o n6 (Hr6 & V6 & O6 & T6 & M6). change (ip_rules (cn_net s5)) with (cn_rules s5) in O6. rewrite E5 in O6.
  destruct o as [[]|e|w|]; [| |done|done]; cbn [kont].
  - apply (wp_mono _ (λ o s', others (pn_VPCIP pn) (cn_rules s') = others (pn_VPCIP pn) (ip_rules n6) ∧
      veths (cn_net s') = veths n6 ∧ to_main (pn_VPCIP pn) (cn_rules s') ∧
      (o = Ok tt → nic ≠ UHostMasterInterface → HasPrefix (pn_InterfaceID pn) "uni-" = true →
        ∃ r, r ∈ cn_rules s' ∧ net_is (rl_Src r) (pn_VPCIP pn) = true ∧
          ifNameToTableId nic = inr (rl_Table r) ∧ rl_Dst r = None))).
    + specialize (M6 eq_refl). destruct (negb _ && _) eqn:Ec.
      * apply wp_c_net. destruct (ensureSrc_spec (pn_VPCIP pn) nic n6 Hip T6) as (_ & Ho & Hok).
        split_and!; [exact Ho|apply ensureSrc_veths|by apply ensureSrc_main|intros Hoo _ _; by apply Hok].
      * wp_step. split_and!; try done. intros _ Hn Hu. rewrite Hu, andb_true_r in Ec.
        apply negb_false_iff, String.eqb_eq in Ec. done.
    + intros o s7 (O7 & V7 & M7 & S7). split; [by rewrite O7, O6|]. intros Ho. split_and!.
      * exists ifn. unfold wired. rewrite V7, V6. exact Hw.
      * exact M7.
      * by apply S7.
  - wp_step. eapply wp_mono; [apply (wp_keep cn_view), take_snapshot_view|].
    intros o s7 [E7 _]%view_split. change (cn_rules s7 = ip_rules n6) in E7.
    assert (∀ o' : outcome unit, (∀ a, o' ≠ Ok a) → setup_post podName podNS netNS nic pn s o' s7) as Hlast.
    { intros o' Ho'. split; [by rewrite E7|]. intros ->. by destruct (Ho' tt). }
    destruct o as [[]|e'|w|]; cbn [kont]; by apply Hlast.
Qed.

(** *** What the steps leave alone *)

Definition cn_sets s : gmap string (gset (list Z)) := ipsets (cn_net s).

Lemma view_keeping {X} (f : N → X) (p : M N unit) :
  (∀ n n', net_view n' = net_view n → f n' = f n) → keeping net_view p → keeping f p.
Proof. intros Hf Hp n. by apply Hf. Qed.
Lemma sets_of_view {A} (c : Call N A) : keeps net_view c → keeping ipsets (call c).
Proof. intros Hc n. pose proof (keeping_call net_view c Hc n) as [= _ _ E3]. exact E3. Qed.

Lemma LinkByName_sets name : keeping (S := N) ipsets (call (nl_LinkByName name)).
Proof. intros n. destruct (LinkByName_law name n) as [V _]. exact (f_equal snd V). Qed.
Lemma ns_LinkByName_sets ns name : keeping (S := N) ipsets (call (ns_LinkByName ns name)).
Proof. intros n. destruct (ns_LinkByName_law ns name n) as [V _]. exact (f_equal snd V). Qed.
Lemma LinkDel_sets name : keeping (S := N) ipsets (call (nl_LinkDel name)).
Proof. intros n. exact (f_equal snd (keeping_call _ _ (LinkDel_keeps name) n)). Qed.
Lemma SetupVeth_sets ns ifn host mtu : keeping (S := N) ipsets (call (ip_SetupVethWithName ns ifn host mtu)).
Proof. intros n. apply (SetupVeth_law ns ifn host mtu n). Qed.
Lemma AddrAdd_sets ns link a : keeping (S := N) ipsets (call (ns_AddrAdd ns link a)).
Proof. intros n. apply (ns_AddrAdd_law ns link a n). Qed.
Lemma ensureDst_sets ip : keeping (S := N) ipsets (ensureDstIPRoutePolicy ip).
Proof. intros n. exact (f_equal snd (ensureDst_rest ip n)). Qed.
Lemma ensureSrc_sets ip nic : keeping (S := N) ipsets (ensureSrcIPRoutePolicy ip nic).
Proof. intros n. exact (f_equal snd (ensureSrc_rest ip nic n)). Qed.
#[local] Hint Resolve LinkByName_sets ns_LinkByName_sets LinkDel_sets SetupVeth_sets AddrAdd_sets ensureDst_sets ensureSrc_sets : keep.
#[local] Hint Resolve sets_of_view ns_Do_keeps ns_Route_keeps ns_Neigh_keeps RouteAdd_keeps GetNS_keeps : keep.

Lemma setupVethPair_sets netns ifn host mtu addrs cidr :
  keeping (S := N) ipsets (setupVethPair netns ifn host mtu addrs cidr).
Proof. unfold setupVethPair, checkAndCleanOldVeth, in_namespace. solve_keeping. Qed.
Lemma addRoute_sets veth ip : keeping (S := N) ipsets (addRouteRuleForPodIp veth ip).
Proof. unfold addRouteRuleForPodIp. solve_keeping. Qed.
#[local] Hint Resolve setupVethPair_sets addRoute_sets : keep.

Lemma releasePodIp_sets pn : keeping cn_sets (releasePodIp pn : M (Cni E T N K G) unit).
Proof. intros s. unfold cn_sets. by rewrite (releasePodIp_net pn s). Qed.
Lemma release_sets {A} pn msg (p : M (Cni E T N K G) A) : keeping cn_sets p → keeping cn_sets (or_release pn msg p).
Proof.
  intros Hp. pose proof (releasePodIp_sets pn). unfold or_release. solve_keeping.
Qed.
Lemma release_err_sets {A} pn (p : M (Cni E T N K G) A) : keeping cn_sets p → keeping cn_sets (or_release_err pn p).
Proof.
  intros Hp. pose proof (releasePodIp_sets pn). unfold or_release_err. solve_keeping.
Qed.
Lemma c_net_sets {A} (p : M N A) : keeping ipsets p → keeping cn_sets (c_net p : M (Cni E T N K G) A).
Proof. by apply keeping_zoom_in. Qed.
Lemma c_proc_sets {A} (p : M (Proc E) A) : keeping cn_sets (c_proc p : M (Cni E T N K G) A).
Proof. by apply keeping_zoom. Qed.

Lemma setupPodVethNetwork_sets podName podNS netNS sb nic pn mtu :
  keeping cn_sets (setupPodVethNetwork (T := T) (K := K) (G := G) CNIVersion podName podNS netNS sb nic pn mtu).
Proof.
  assert (∀ h e, keeping cn_sets (take_snapshot CNIVersion pn h e : M (Cni E T N K G) unit)) as Hs.
  { intros h e s. exact (f_equal snd (take_snapshot_view pn h e s)). }
  unfold setupPodVethNetwork, host_addrs. repeat first
    [ apply release_sets | apply release_err_sets | apply c_proc_sets
    | apply c_net_sets; solve [eauto with keep nocore] | apply Hs | progress solve_keeping ].
Qed.

Lemma setNodePortRange_view netNS pn : keeping cn_view (setNodePortRange (T := T) (K := K) (G := G) netNS pn).
Proof.
  assert (∀ c : Call N unit, keeps net_view c → keeping cn_view (c_net (call c) : M (Cni E T N K G) unit)) as Hc.
  { intros c Hk. apply (keeping_zoom_in _ net_view); [done|done|by apply keeping_call]. }
  assert (keeping cn_view (releasePodIp pn : M (Cni E T N K G) unit)).
  { intros s. unfold cn_view. by rewrite (releasePodIp_net pn s). }
  unfold setNodePortRange, or_release. solve_keeping; first [apply Hc, GetNS_keeps | idtac].
  apply (keeping_zoom_in _ net_view); [done|done|]. solve_keeping; apply keeping_call;
    first [apply ns_Do_keeps | apply ns_Bash_keeps].
Qed.
End pod.
