(* ===== verification/CniMain.v ===== *)
(** The ADD and DEL commands of the plugin ([cmd/cnivpc/main.go]), the plugin
    configuration ([config/cnivpc.go]) and the lock that serialises the commands
    ([pkg/lockfile]).

    A command runs the parts of the plugin in the order of the code, with its
    deferred functions: the rollback of the NAT gateway member on an error, and the
    release of the lock. *)
From S2P Require Export CniVeth PortmapProps DnsConfig.
From Stdlib Require Import Ascii.

(** ** Definitions *)

(** [skel.CmdArgs], the fields that are used. *)
Record CmdArgs : Type := mkCmdArgs {
  ca_ContainerID : string; ca_IfName : string; ca_Args : string; ca_StdinData : string
}.

(** [CNI_ARGS]: pairs "K=V" separated by ";"; the last pair of a key wins. *)
Definition sandbox_arg (ret : gmap string string) (pair : string) : gmap string string :=
  match Split pair "="%char with
  | [key; value] => <[key := value]> ret
  | _ => ret
  end.
Definition loadSandboxArgs (args : string) : gmap string string :=
  foldl sandbox_arg ∅ (Split args ";"%char).
Definition arg (args : gmap string string) (key : string) : string := default "" (args !! key).

Definition of_outcome {S A} (o : outcome A) : M S A := λ s, (o, s).
Definition ParsePlugin {S} `{!JsonCodec Plugin} (data : string) : M S Plugin :=
  with_msg "failed to parse cnivpc config" (of_outcome (json_Unmarshal data)).

(** *** lockfile.go *)

Class LockApi (E : Type) : Type := {
  lock_TryLock : Call E unit;
  lock_Unlock : Call E unit;
  is_ErrBusy : error → bool
}.

Section lock.
Context {E : Type} `{!LockApi E}.

Definition lock_tries : nat := Z.to_nat 80000.
Fixpoint acquireLock (tries : nat) : M (Proc E) unit :=
  match tries with
  | O | S O => throw (Errorf "lockfile not acquired, aborting")
  | S tries' =>
      r ← attempt (ext lock_TryLock);
      match r with
      | inr _ => mret tt
      | inl err => if is_ErrBusy err then acquireLock tries' else throw err
      end
  end.
(** An error exits the process. *)
Definition handleErr (m : M (Proc E) unit) : M (Proc E) unit :=
  r ← attempt m; match r with inl _ => panic "os.Exit(1)" | inr _ => mret tt end.
Definition MustAcquire : M (Proc E) unit := handleErr (acquireLock lock_tries).
Definition releaseLock : M (Proc E) unit := handleErr (ext lock_Unlock).
End lock.

(** [defer fin()]: also after a panic. *)
Definition deferred {S A} (fin : M S unit) (body : M S A) : M S A := λ s,
  let '(o, s1) := body s in
  match o with
  | Diverge => (Diverge, s1)
  | _ => match fin s1 with
         | (Ok _, s2) | (Err _, s2) => (o, s2)
         | (Panic w, s2) => (Panic w, s2)
         | (Diverge, s2) => (Diverge, s2)
         end
  end.

(** [errors.CombineErrors]: the first error, with the second one attached. *)
Definition CombineErrors (err : error) (other : option error) : error := err.

Section main.
Context {E T N K G : Type} `{!CloudApi E, !GoRuntime E, !UniApi E, !LockApi E, !IptApi T, !IptMoreApi T, !HostApi T}
  `{!IpsetApi N, !SysfsApi N, !RuleApi N, !RouteApi N, !VethApi N, !KubeApi K, !CniKubeApi K}
  `{!IpamdClient G, !BoltApi G, !JsonCodec PodNetwork, !JsonCodec Plugin}.
#[local] Abbreviation m := (M (Cni E T N K G)).
Variable CNIVersion : string.

Definition locked {A} (body : m A) : m A := c_proc MustAcquire;; deferred (c_proc releaseLock) body.

(** *** The result *)

Definition parseDNSConfig : m DnsConfig :=
  file ← attempt (c_net (call (os_ReadFile "/etc/resolve.conf")));
  of_outcome (dnsReadConfig file).

Definition types_route (r : Route) : IPNet * list Z := (default (mkIPNet [] []) (ro_Dst r), ro_Gw r).

(** The routes up to the first error, and the error. *)
Fixpoint link_routes (links : list NetIface) : m (list (IPNet * list Z) * option error) :=
  match links with
  | [] => mret ([], None)
  | link :: links' =>
      r ← attempt (c_net (call (nl_RouteList (if_Name link))));
      match r with
      | inl err => mret ([], Some err)
      | inr rs => '(routes, err) ← link_routes links'; mret ((types_route <$> rs) ++ routes, err)
      end
  end.
Definition getRoutes : m (list (IPNet * list Z) * option error) :=
  links ← attempt (c_proc (ext ext_LinkList));
  match links with
  | inl err => mret ([], Some err)
  | inr links => link_routes links
  end.

(** The routes are set when there was an error. *)
Definition cni_result (netNS : string) (pn : PodNetwork) (dns : DnsConfig)
    (routes : list (IPNet * list Z)) (err : option error) : Result :=
  mkResult
    [mkInterface "eth0" (pn_MacAddress pn) netNS]
    [mkIPConfig "4" (mkIPNet (default [] (ParseIP (pn_VPCIP pn))) (default [] (ParseIP (pn_Mask pn))))
       (default [] (ParseIP (pn_Gateway pn))) (Some 0)]
    (match err with Some _ => routes | None => [] end)
    (Servers dns) (Search_ dns).

(** *** Rollback *)

(** The error of the rollback, and [natGWOutgoingIPAdded] after it. *)
Definition rollbackNATGWOutgoingIP (pn : PodNetwork) (added : bool) : m (option error * bool) :=
  if negb added then mret (None, false) else
  r ← attempt (c_net (deleteNATGWOutgoingIP (pn_VPCIP pn)));
  mret (match r with inl err => (Some err, true) | inr _ => (None, false) end).

(** Returning [err]: the deferred rollback. *)
Definition return_err {A} (pn : PodNetwork) (added : bool) (err : error) : m A :=
  '(other, _) ← rollbackNATGWOutgoingIP pn added; throw (CombineErrors err other).

Definition rollbackReleaseIP (pn : PodNetwork) (added : bool) : m bool :=
  '(_, added) ← rollbackNATGWOutgoingIP pn added;
  ignore (releasePodIp pn);;
  mret added.

(** A step whose failure releases the address and is returned. *)
Definition or_rollback {A} (pn : PodNetwork) (added : bool) (msg : string) (p : m A) : m A :=
  r ← attempt p;
  match r with
  | inr a => mret a
  | inl _ => added ← rollbackReleaseIP pn added; return_err pn added (Errorf msg)
  end.

(** *** ADD *)

Definition pod_master_interface (pn : PodNetwork) : m string :=
  name ← (if HasPrefix (pn_InterfaceID pn) "uni-" then
            r ← attempt (c_proc (GetLinkByMac (pn_MacAddress pn)));
            mret (match r with inr link => if_Name link | inl _ => "" end)
          else mret "");
  if String.eqb name "" then c_proc GetMasterInterface else mret name.

(** The checks of an address that the daemon has not checked. *)
Definition check_direct (masterInterface : string) (pn : PodNetwork) : m unit :=
  or_rollback pn false "failed to enable proxy arp" (c_net (ensureProxyArp masterInterface));;
  conflict ← or_rollback pn false "failed to detect conflict"
    (c_proc (DetectIpConflictWithGratuitousArp (default [] (ParseIP (pn_VPCIP pn))) masterInterface));
  if conflict : bool
  then added ← rollbackReleaseIP pn false; return_err pn added ErrIPConflict
  else mret tt.

(** From the assigned address to the wired pod; whether a NAT member was added. *)
Definition wire_pod (podName podNS netNS sandBoxId : string) (assignment : podIPAssignment) (pn : PodNetwork) : m bool :=
  masterInterface ← pod_master_interface pn;
  mface ← or_rollback pn false "failed to get interface MTU" (c_proc (ext (ext_InterfaceByName masterInterface)));
  (if negb (pa_fromIPAMD assignment) then check_direct masterInterface pn else mret tt);;
  r ← attempt (c_net (syncNATGWOutgoingIP (pn_VPCIP pn) (pa_natGWOutgoingEnabled assignment)));
  let added := match r with inr added => added | inl _ => false end in
  or_rollback pn added "failed to setup veth network"
    (setupPodVethNetwork CNIVersion podName podNS netNS sandBoxId masterInterface pn (if_MTU mface));;
  or_rollback pn added "failed to set node port" (setNodePortRange netNS pn);;
  mret added.

(** A failure from here on is returned without giving the address back. *)
Definition finish_add (args : CmdArgs) (conf : Plugin) (podName podNS netNS sandBoxId : string)
    (pn : PodNetwork) (added : bool) : m unit :=
  dns ← parseDNSConfig;
  '(routes, err) ← getRoutes;
  let result := cni_result netNS pn dns routes err in
  r ← attempt (addPodNetworkRecord podName podNS sandBoxId pn);
  match r with
  | inl _ => return_err pn added (Errorf "failed to add pod network record")
  | inr _ =>
      r ← attempt (c_ipt (CmdAdd (ca_ContainerID args) (ca_IfName args) (set_PrevResult (Some result) conf)));
      match r with
      | inl _ => return_err pn added (Errorf "portmap add error")
      | inr _ => mret tt
      end
  end.

Definition add_pod (args : CmdArgs) (conf : Plugin) (podName podNS netNS sandBoxId : string)
    (assignment : podIPAssignment) : m unit :=
  pn ← deref (pa_network assignment);
  added ← wire_pod podName podNS netNS sandBoxId assignment pn;
  finish_add args conf podName podNS netNS sandBoxId pn added.

Definition cmdAdd (args : CmdArgs) : m unit := locked (
  conf ← with_msg "failed to parse cmdadd config" (ParsePlugin (ca_StdinData args));
  c_ipt ensurePodMetadataBlocked;;
  let podArgs := loadSandboxArgs (ca_Args args) in
  let podName := arg podArgs "K8S_POD_NAME" in
  let podNS := arg podArgs "K8S_POD_NAMESPACE" in
  let sandBoxId := arg podArgs "K8S_POD_INFRA_CONTAINER_ID" in
  netNS ← c_proc (Getenv "CNI_NETNS");
  assignment ← with_msg "failed to assign ip" (assignPodIp podName podNS netNS sandBoxId);
  add_pod args conf podName podNS netNS sandBoxId assignment).

(** *** DEL *)

(** A failure to delete the member or the record is only logged. *)
Definition forget_pod (podName podNS sandBoxId : string) (pn : PodNetwork) : m unit :=
  ignore (c_net (deleteNATGWOutgoingIP (pn_VPCIP pn)));;
  with_msg "fail to clean up ip rules" (c_net (cleanUpIPRoutePolicy (pn_VPCIP pn)));;
  with_msg "failed to release pod ip" (releasePodIp pn);;
  ignore (c_node (delPodNetworkRecord podName podNS sandBoxId)).

(** The closure of [ns.WithNetNSPath]. *)
Definition delete_interface (netNS ifname : string) : M N unit :=
  call (ns_GetNS netNS);;
  call (ns_Do netNS);;
  r ← attempt (call (ns_LinkByName netNS ifname));
  match r with
  | inl err => if is_LinkNotFoundError err then mret tt else throw (Errorf "failed to get netlink")
  | inr iface =>
      r ← attempt (call (ns_LinkDel netNS (if_Name iface)));
      match r with
      | inl err => if bool_decide (err = ip_ErrLinkNotFound) then mret tt else throw err
      | inr _ => mret tt
      end
  end.

Definition del_pod (args : CmdArgs) (conf : Plugin) (netNS : string) : m unit :=
  c_ipt (CmdDel (ca_ContainerID args) (ca_IfName args) conf);;
  ifname ← c_proc (Getenv "CNI_IFNAME");
  if negb (String.eqb netNS "") && negb (String.eqb ifname "")
  then with_msg "failed to delete interface" (c_net (delete_interface netNS ifname))
  else mret tt.

(** A record that cannot be read ends the command with success. *)
Definition cmdDel (args : CmdArgs) : m unit := locked (
  conf ← ParsePlugin (ca_StdinData args);
  let podArgs := loadSandboxArgs (ca_Args args) in
  let podName := arg podArgs "K8S_POD_NAME" in
  let podNS := arg podArgs "K8S_POD_NAMESPACE" in
  netNS ← c_proc (Getenv "CNI_NETNS");
  let sandBoxId := arg podArgs "K8S_POD_INFRA_CONTAINER_ID" in
  pn ← attempt (c_node (getPodNetworkRecord podName podNS sandBoxId));
  match pn with
  | inl _ => mret tt
  | inr pn =>
      match pn with
      | Some pn => if negb (String.eqb (pn_VPCIP pn) "") then forget_pod podName podNS sandBoxId pn else mret tt
      | None => mret tt
      end;;
      del_pod args conf netNS
  end).
End main.

Example sandbox_args :
  loadSandboxArgs "IgnoreUnknown=1;K8S_POD_NAMESPACE=default;K8S_POD_NAME=web-0;X;Y=1=2;K8S_POD_NAME=web-1"
  = {["IgnoreUnknown" := "1"; "K8S_POD_NAMESPACE" := "default"; "K8S_POD_NAME" := "web-1"]}.
Proof. vm_compute. reflexivity. Qed.
