(* ===== verification/CniMainProps.v ===== *)
(** What the commands of the plugin guarantee: an ADD that succeeds has recorded and
    wired the address it got, one that fails has undone what it did up to the record;
    a DEL removes the policy rules and the record of its pod only. *)
From S2P Require Export CniMain.
From Stdlib Require Import Ascii.

(** ** The tables of the policy rules *)

Section named.
Context {N : Type} `{!IpsetApi N, !IpsetLaws N, !SysfsApi N, !RuleApi N, !RuleLaws N, !RouteApi N, !RouteLaws N, !VethApi N, !VethLaws N}.
Implicit Types n : N.

(** Every rule for a source or a destination names a table. *)
Definition all_named n : Prop :=
  ∀ r, r ∈ ip_rules n → rl_Src r ≠ None ∨ rl_Dst r ≠ None → rl_Table r ≠ 0.

Lemma all_named_tables n ip : all_named n → tables_named ip (ip_rules n).
Proof.
  intros Hn r Hr Ha. apply Hn; [done|]. unfold about, net_is in Ha.
  destruct (rl_Src r), (rl_Dst r); naive_solver.
Qed.

Lemma named_call {A} (c : Call N A) : keeps ip_rules c → maintains all_named (call c).
Proof. intros Hc n Hn. unfold all_named. by rewrite (keeping_call ip_rules c Hc n). Qed.
Lemma named_del r : maintains all_named (call (nl_RuleDel (T := N) r)).
Proof.
  intros n Hn. unfold call. pose proof (RuleDel_law r n) as Hl. destruct (nl_RuleDel r n) as [[e|[]] n']; simpl in *.
  - destruct Hl as [(? & _ & E)|[[=] _]]. unfold all_named. by rewrite E.
  - destruct Hl as [(? & [=] & _)|(_ & l1 & l2 & r' & E & _ & E')]. intros x Hx. apply Hn.
    rewrite E. rewrite E' in Hx. rewrite elem_of_app, elem_of_cons. apply elem_of_app in Hx. tauto.
Qed.
Lemma named_add r : rl_Table r ≠ 0 → maintains all_named (call (nl_RuleAdd (T := N) r)).
Proof.
  intros Hr n Hn. unfold call. pose proof (RuleAdd_law r n) as Hl. destruct (nl_RuleAdd r n) as [[e|[]] n']; simpl in *.
  - destruct Hl as [(? & _ & E)|[[=] _]]. unfold all_named. by rewrite E.
  - destruct Hl as [(? & [=] & _)|(_ & l1 & l2 & r' & E & [= _ Htb _ _ _ _] & E')].
    intros x Hx. rewrite E' in Hx. apply elem_of_app in Hx as [Hx|[->|Hx]%elem_of_cons].
    + apply Hn. rewrite E, elem_of_app. by left.
    + intros _. by rewrite Htb.
    + apply Hn. rewrite E, elem_of_app. by right.
Qed.
Lemma named_list : maintains all_named (call (nl_RuleList (T := N))).
Proof. apply named_call. exact RuleList_keeps. Qed.

Lemma digits_of_first s a r : digits_of s = String a r → is_digit a = true.
Proof.
  induction s as [|c s IH]; cbn [digits_of]; [done|]. destruct (is_digit c) eqn:Hc; [|done].
  by intros [= <- _].
Qed.
Lemma digits_nonneg s a : Atoi (digits_of s) = Some a → 0 ≤ a.
Proof.
  destruct (digits_of s) as [|c r] eqn:E; [done|]. apply digits_of_first in E.
  assert (Atoi (String c r) = (v ← digits_val (String c r) 0;
    if (- 2 ^ 63 <=? v) && (v <? 2 ^ 63) then Some v else None)) as ->.
  { destruct c as [[] [] [] [] [] [] [] []]; try discriminate E; reflexivity. }
  destruct (digits_val (String c r) 0) as [v|] eqn:Ev; [|done]. cbn.
  apply digits_val_nonneg in Ev; [|done]. destruct (_ && _); [|done]. by intros [= <-].
Qed.

Lemma tableId_positive s t : ifNameToTableId s = inr t → t ≠ 0.
Proof.
  unfold ifNameToTableId. destruct (Atoi _) as [a|] eqn:Ea; [|done]. intros [= <-].
  apply digits_nonneg in Ea. lia.
Qed.
End named.

Section named_cni.
Context {E T N K G : Type} `{!CloudApi E, !GoRuntime E, !UniApi E, !IptApi T, !IptMoreApi T}
  `{!IpsetApi N, !IpsetLaws N, !SysfsApi N, !RuleApi N, !RuleLaws N, !RouteApi N, !RouteLaws N, !VethApi N, !VethLaws N}
  `{!KubeApi K, !CniKubeApi K, !IpamdClient G, !BoltApi G, !JsonCodec PodNetwork}.

Definition named (s : Cni E T N K G) : Prop := all_named (cn_net s).

Lemma named_net {A} (p : M N A) : maintains all_named p → maintains named (c_net p).
Proof. intros Hp. by apply (maintains_zoom_in _ all_named). Qed.
Lemma named_proc {A} (p : M (Proc E) A) : maintains named (c_proc p).
Proof. by apply maintains_zoom. Qed.
Lemma named_ipt {A} (p : M T A) : maintains named (c_ipt p).
Proof. by apply maintains_zoom. Qed.
Lemma named_k8s {A} (p : M K A) : maintains named (c_k8s p).
Proof. by apply maintains_zoom. Qed.
Lemma named_node {A} (p : M G A) : maintains named (c_node p).
Proof. by apply maintains_zoom. Qed.

Lemma fst_keeps {X Y A} (f : N → X) (g : N → Y) (c : Call N A) : keeps (λ n, (f n, g n)) c → keeps f c.
Proof. intros Hc n. exact (f_equal fst (Hc n)). Qed.

#[local] Ltac named_calls := repeat first
  [ apply named_net | apply named_proc | apply named_ipt | apply named_k8s | apply named_node
  | apply named_list | apply named_del | apply named_add; first [discriminate | by eapply tableId_positive]
  | apply named_call; first
      [ intros ?; first [ apply RouteList_rules | apply RouteDel_rules | apply LinkSetMTU_rules | apply LinkSetUp_rules
        | apply AddrReplace_rules | apply Gratuitous_keeps | apply sysfs_Glob_rules | apply sysfs_ReadFile_rules
        | apply sysfs_WriteFile_rules
        | match goal with |- context [nl_RouteReplace ?r ?n] => destruct (RouteReplace_law r n) as [V _];
            unfold call in V; by destruct (nl_RouteReplace r n) as [[] ?] end ]
      | eapply fst_keeps; first [ apply ipset_Create_rest | apply ipset_Add_rest | apply ipset_Del_rest | apply ipset_List_rest ] ]
  | progress solve_maintains ].

Lemma find_policy_named hit good rules : maintains (S := N) all_named (find_policy hit good rules).
Proof. induction rules as [|r rules IH]; cbn [find_policy]; named_calls. Qed.
Lemma ensureDst_all ip : maintains (S := N) all_named (ensureDstIPRoutePolicy ip).
Proof. unfold ensureDstIPRoutePolicy. pose proof find_policy_named. named_calls. Qed.
Lemma ensureSrc_all ip nic : maintains (S := N) all_named (ensureSrcIPRoutePolicy ip nic).
Proof.
  unfold ensureSrcIPRoutePolicy. pose proof find_policy_named.
  destruct (ifNameToTableId nic) eqn:Et; named_calls.
Qed.

Lemma configure_named l ip mask : maintains named (configure_link (E := E) (T := T) (K := K) (G := G) l ip mask).
Proof. unfold configure_link. named_calls. Qed.
Lemma install_named l gw tb : maintains (S := N) all_named (install_routes l gw tb).
Proof. unfold install_routes, ensureUNIRpFilter, setProcSys. named_calls. Qed.
Lemma uni_route_named ip mac gw mask : maintains named (ensureUNIPrimaryIPRoute (E := E) (T := T) (K := K) (G := G) ip mac gw mask).
Proof.
  unfold ensureUNIPrimaryIPRoute, ensureLinkRPS, ensureLinkRPSWithCPUCount, rps_one, drop_other_route, announce.
  pose proof ensureSrc_all. pose proof configure_named. pose proof install_named. named_calls.
Qed.
Lemma sync_named ip b : maintains (S := N) all_named (syncNATGWOutgoingIP ip b).
Proof. unfold syncNATGWOutgoingIP, ensureNATGWOutgoingIPSet. named_calls. Qed.
Lemma delete_named ip : maintains (S := N) all_named (deleteNATGWOutgoingIP ip).
Proof. unfold deleteNATGWOutgoingIP. named_calls. Qed.
Lemma migrate_named nodeName : maintains named (migrateLegacyNATGWOutgoingIPs nodeName).
Proof.
  unfold migrateLegacyNATGWOutgoingIPs, node_policies, converge, range_set.
  pose proof sync_named. pose proof delete_named. named_calls.
Qed.
Lemma updateRules_named rm nodeName b : maintains named (updateRules rm nodeName b).
Proof.
  unfold updateRules, tryEnableNATGWOutgoing, ensureNATGWOutgoingIPSet. pose proof migrate_named. named_calls.
Qed.
Lemma pod_interface_named n ns : maintains named (pod_interface n ns).
Proof.
  unfold pod_interface, getPodNetworkingConfig, initPodNetworking, deref.
  unfold ensureMasterInterfaceRpFilter, ensureAllRPFilterOff, setProcSys, ensureConnmarkRule.
  pose proof uni_route_named. pose proof updateRules_named. named_calls.
Qed.
Lemma assignPodIp_named n ns netns sb : maintains named (assignPodIp n ns netns sb).
Proof. unfold assignPodIp, assign_direct. pose proof pod_interface_named. named_calls. Qed.

(** The rest of the two commands. *)
Context `{!LockApi E, !HostApi T, !JsonCodec Plugin}.
Variable CNIVersion : string.

Lemma view_named {A} (c : Call N A) : keeps net_view c → maintains all_named (call c).
Proof. intros Hc. apply named_call. intros n. exact (f_equal (λ x, x.1.1) (Hc n)). Qed.
Lemma wp_named {A} (c : Call N A) :
  (∀ n, wp (call c) (λ _ n', ip_rules n' = ip_rules n) n) → maintains all_named (call c).
Proof. intros Hc n Hn. specialize (Hc n). unfold wp in Hc. unfold all_named. by rewrite Hc. Qed.

#[local] Ltac veth_calls := repeat first
  [ apply view_named; first [ apply GetNS_keeps | apply ns_Do_keeps | apply ns_Route_keeps | apply ns_Neigh_keeps
      | apply ns_Bash_keeps | apply RouteAdd_keeps | apply RouteList_keeps | apply ReadFile_keeps | apply Truncate_keeps
      | apply OpenAppend_keeps | apply Append_keeps | apply IsDir_keeps | apply MkdirAll_keeps ]
  | apply named_call; eapply fst_keeps; first [ apply LinkDel_keeps | apply ns_LinkDel_keeps ]
  | apply wp_named; intros ?; eapply wp_mono;
      [ first [ apply LinkByName_law | apply ns_LinkByName_law | apply SetupVeth_law | apply ns_AddrAdd_law ]
      | intros ? ? [V _]; first [ exact V | exact (f_equal (λ x, x.1.1) V) ] ]
  | progress named_calls ].

Lemma run_cmds_named cmds : maintains (S := N) all_named (run_cmds cmds).
Proof.
  induction cmds as [|c cmds IH]; cbn [run_cmds]; [apply maintains_ret|]. apply maintains_bind.
  - intros n Hn. unfold run_cmd, all_named. pose proof (exec_keeps c.1 c.2 n) as V.
    destruct (exec_Run c.1 c.2 n) as [[out err] n']. apply (f_equal (λ x, x.1.1)) in V. simpl in V |- *. by rewrite V.
  - intros text. apply maintains_bind; [exact IH|]. intros rest. apply maintains_ret.
Qed.
Lemma Save_named v now sn : maintains (S := N) all_named (Save v now sn).
Proof. unfold Save, snapshot_save, ensure_dir. pose proof run_cmds_named. veth_calls. Qed.
Lemma setup_named n ns netNS sb nic pn mtu : maintains named (setupPodVethNetwork CNIVersion n ns netNS sb nic pn mtu).
Proof.
  unfold setupPodVethNetwork, or_release, or_release_err, host_addrs, take_snapshot, releasePodIp.
  unfold setupVethPair, checkAndCleanOldVeth, in_namespace, addRouteRuleForPodIp.
  pose proof ensureSrc_all. pose proof ensureDst_all. pose proof Save_named. veth_calls.
Qed.
Lemma rollback_named pn added : maintains named (rollbackNATGWOutgoingIP pn added).
Proof. unfold rollbackNATGWOutgoingIP. pose proof delete_named. veth_calls. Qed.
Lemma or_rollback_named {A} pn added msg (p : M _ A) : maintains named p → maintains named (or_rollback pn added msg p).
Proof.
  intros Hp. unfold or_rollback, rollbackReleaseIP, return_err, releasePodIp. pose proof rollback_named. veth_calls.
Qed.
Lemma wire_pod_named n ns netNS sb asg pn : maintains named (wire_pod CNIVersion n ns netNS sb asg pn).
Proof.
  unfold wire_pod, pod_master_interface, check_direct, ensureProxyArp, setNodePortRange, or_release.
  assert (∀ added nic mtu, maintains named (or_rollback pn added "failed to setup veth network"
    (setupPodVethNetwork CNIVersion n ns netNS sb nic pn mtu))) by (intros; apply or_rollback_named, setup_named).
  pose proof rollback_named. pose proof sync_named. unfold or_rollback at 1 2 3 5. unfold rollbackReleaseIP, return_err, releasePodIp.
  veth_calls.
Qed.
Lemma finish_add_named args conf n ns netNS sb pn added : maintains named (finish_add args conf n ns netNS sb pn added).
Proof.
  assert (∀ links, maintains named (link_routes links)) as Hlinks.
  { induction links as [|l links IH]; cbn [link_routes]; veth_calls. }
  unfold finish_add, parseDNSConfig, getRoutes, return_err, addPodNetworkRecord, addPodNetworkRecordLocal, releasePodIp.
  pose proof rollback_named. veth_calls. by intros s0.
Qed.
Lemma cleanUp_all ip : maintains (S := N) all_named (cleanUpIPRoutePolicy ip).
Proof. unfold cleanUpIPRoutePolicy, cleanup_rule. veth_calls. Qed.
Lemma forget_pod_named n ns sb pn : maintains named (forget_pod n ns sb pn).
Proof. unfold forget_pod, releasePodIp. pose proof delete_named. pose proof cleanUp_all. veth_calls. Qed.
Lemma del_pod_named args conf netNS : maintains named (del_pod args conf netNS).
Proof. unfold del_pod, delete_interface. veth_calls. Qed.
End named_cni.

(** ** Rollback *)

Section rollback.
Context {E T N K G : Type} `{!CloudApi E, !GoRuntime E, !UniApi E, !IpamdClient G}
  `{!IpsetApi N, !IpsetLaws N, !SysfsApi N, !RuleApi N, !RuleLaws N, !RouteApi N, !RouteLaws N, !VethApi N, !VethLaws N}.
#[local] Abbreviation S := (Cni E T N K G).
Implicit Types (s : S) (X : gset (list Z)).

Definition cn_members s : gset (list Z) := members (cn_net s).

(** The members [X] are [X0], with the address of the pod when it was added. *)
Definition nat_state (pn : PodNetwork) (added : bool) X0 X : Prop :=
  if added then ∃ q, natGWOutgoingIPSetEntry (pn_VPCIP pn) = inr q ∧ (q ∉ X0) ∧ X = {[q]} ∪ X0 else X = X0.

(** The last that happened to the node's network: the kernel refused to delete the
    member. *)
Definition delete_failed (pn : PodNetwork) s : Prop :=
  ∃ n e, deleteNATGWOutgoingIP (pn_VPCIP pn) n = (Err e, cn_net s).

(** The members are as before, unless the kernel refused. *)
Definition undone (pn : PodNetwork) X0 s : Prop :=
  cn_members s = X0 ∨ (delete_failed pn s ∧ nat_state pn true X0 (cn_members s)).

(** The daemon went through a release of the address. *)
Definition release_step (pn : PodNetwork) (g g' : G) : Prop :=
  ∃ s1 s2 o, releasePodIp pn s1 = (o, s2) ∧ cn_node s1 = g ∧ cn_node s2 = g'.
Definition only_releases (pn : PodNetwork) (g : G) s : Prop := rtc (release_step pn) g (cn_node s).

(** Since [g] the daemon has seen nothing but releases of the address, and the last thing
    that happened to the VPC and to the daemon was one that ended in [o]. *)
Definition release_ends (pn : PodNetwork) (g : G) (o : outcome unit) s : Prop :=
  ∃ s1 s2, only_releases pn g s1 ∧ releasePodIp pn s1 = (o, s2) ∧ cn_proc s = cn_proc s2 ∧ cn_node s = cn_node s2.
Definition released pn g s : Prop := release_ends pn g (Ok tt) s.
Definition release_failed pn g s : Prop := ∃ e, release_ends pn g (Err e) s.

Lemma only_releases_release pn g : maintains (only_releases pn g) (releasePodIp pn : M S unit).
Proof.
  intros s Hs. eapply rtc_r; [exact Hs|]. exists s, (releasePodIp pn s).2, (releasePodIp pn s).1.
  by destruct (releasePodIp pn s).
Qed.
Lemma only_releases_net {A} pn g (p : M N A) : maintains (only_releases pn g) (c_net p : M S A).
Proof. by apply maintains_zoom. Qed.
Lemma only_releases_proc {A} pn g (p : M (Proc E) A) : maintains (only_releases pn g) (c_proc p : M S A).
Proof. by apply maintains_zoom. Qed.
Lemma only_releases_setup CNIVersion pn g n ns netNS sb nic mtu :
  maintains (only_releases pn g) (setupPodVethNetwork CNIVersion n ns netNS sb nic pn mtu : M S unit).
Proof.
  unfold setupPodVethNetwork, or_release, or_release_err, host_addrs, take_snapshot.
  pose proof (only_releases_release pn g).
  solve_maintains; first [apply only_releases_net|apply only_releases_proc].
Qed.
Lemma only_releases_ports pn g netNS : maintains (only_releases pn g) (setNodePortRange netNS pn : M S unit).
Proof.
  unfold setNodePortRange, or_release.
  pose proof (only_releases_release pn g).
  solve_maintains; first [apply only_releases_net|apply only_releases_proc].
Qed.

(** During the set-up from [g] and the members [X0]. *)
Definition in_setup (pn : PodNetwork) (g : G) (added : bool) X0 s : Prop :=
  nat_state pn added X0 (cn_members s) ∧ only_releases pn g s.

Lemma rollbackNAT_spec pn added X0 s :
  nat_state pn added X0 (cn_members s) →
  wp (rollbackNATGWOutgoingIP pn added) (λ o s', cn_proc s' = cn_proc s ∧ cn_node s' = cn_node s ∧
    ∃ other added', o = Ok (other, added') ∧ nat_state pn added' X0 (cn_members s') ∧
      (added' = true → delete_failed pn s')) s.
Proof.
  intros Hn. unfold rollbackNATGWOutgoingIP. destruct added; cbn [negb].
  2:{ wp_step. split; [done|]. split; [done|]. by eexists _, _. }
  do 2 wp_step. apply wp_c_net, run_wp. intros o n' E1.
  pose proof (wp_run _ _ _ _ _ (delete_spec (pn_VPCIP pn) (cn_net s)) E1) as [Hr Hd].
  destruct Hn as (q & Hq & Hnin & HX). unfold cn_members in HX.
  destruct o as [[]|e|w|]; try done; cbn [kont]; wp_step; (split; [done|]); (split; [done|]); eexists _, _; (split; [done|]).
  - split; [|done]. destruct Hd as (q' & Hq' & Hm). rewrite Hq in Hq'. injection Hq' as <-.
    unfold nat_state, cn_members. simpl. rewrite Hm, HX. set_solver.
  - split; [|intros _; by exists (cn_net s), e]. exists q. unfold cn_members. simpl. by rewrite Hd.
Qed.

(** Returning an error undoes the member. *)
Lemma return_err_spec {A} pn added X0 err s :
  nat_state pn added X0 (cn_members s) →
  wp (return_err pn added err : M S A) (λ o s', cn_proc s' = cn_proc s ∧ cn_node s' = cn_node s ∧
    o = Err err ∧ undone pn X0 s') s.
Proof.
  intros Hn. unfold return_err. wp_step. eapply wp_mono; [by apply rollbackNAT_spec|].
  intros o s' (E1 & E2 & other & added' & -> & Hn' & Hd). cbn [kont]. wp_step. split_and!; try done.
  destruct added'; [|by left]. right. split; [by apply Hd|done].
Qed.

(** What an error of a step with rollback leaves. *)
Definition rolled_back (pn : PodNetwork) (g : G) X0 s : Prop :=
  (released pn g s ∨ release_failed pn g s) ∧ undone pn X0 s.

Lemma give_back_spec {A} pn g added X0 err s :
  in_setup pn g added X0 s →
  wp (added ← rollbackReleaseIP pn added; return_err pn added err : M S A) (λ o s',
    (∀ e, o = Err e → e = err ∧ rolled_back pn g X0 s') ∧ (∀ a, o ≠ Ok a)) s.
Proof.
  intros [Hn Hg]. wp_step. unfold rollbackReleaseIP. wp_step. eapply wp_mono; [by apply rollbackNAT_spec|].
  intros o s1 (E1 & E2 & other & added' & -> & Hn1 & Hd). cbn [kont]. wp_step.
  unfold ignore. do 2 wp_step. apply run_wp. intros o s2 Hrel.
  assert (cn_net s2 = cn_net s1) as En by (pose proof (releasePodIp_net pn s1) as H; by rewrite Hrel in H).
  assert (nat_state pn added' X0 (cn_members s2)) as Hn2 by (unfold cn_members in *; by rewrite En).
  assert (only_releases pn g s1) as Hg1 by (unfold only_releases in *; by rewrite E2).
  assert (released pn g s2 ∨ release_failed pn g s2 ∨ returns o = false) as Hdone.
  { destruct o as [[]|e|w|]; [left|right; left; exists e|by right; right..]; by exists s1, s2. }
  assert (returns o = true → wp (return_err pn added' err : M S A)
    (λ o s', (∀ e, o = Err e → e = err ∧ rolled_back pn g X0 s') ∧ (∀ a, o ≠ Ok a)) s2) as Hend.
  { intros Ho. assert (∀ o s3, cn_proc s3 = cn_proc s2 → cn_node s3 = cn_node s2 → release_ends pn g o s2 → release_ends pn g o s3) as Hmv.
    { intros o' s3 Ep En' (s4 & s5 & ? & ? & ? & ?). exists s4, s5. rewrite Ep, En'. by split_and!. }
    eapply wp_mono; [by apply return_err_spec|]. intros o' s3 (E4 & E5 & -> & Hu). split; [|done].
    intros e [= <-]. split; [done|]. split; [|done]. destruct Hdone as [Hx|[[e Hx]|Hx]]; [left|right; exists e|congruence];
      by apply Hmv. }
  destruct o as [[]|e|w|]; cbn [kont]; [do 2 wp_step; by apply Hend..|by split|by split].
Qed.

(** A step with rollback: its result, or an error with everything undone. *)
Lemma or_rollback_spec {A} pn g added msg (p : M S A) X0 (R : A → S → Prop) s :
  wp p (λ o s', in_setup pn g added X0 s' ∧ ∀ a, o = Ok a → R a s') s →
  wp (or_rollback pn added msg p) (λ o s',
    (∀ e, o = Err e → e = Errorf msg ∧ rolled_back pn g X0 s') ∧
    (∀ a, o = Ok a → in_setup pn g added X0 s' ∧ R a s')) s.
Proof.
  intros Hp. unfold or_rollback. do 2 wp_step. eapply wp_mono; [exact Hp|]. intros o s1 [Hn HR].
  destruct o as [a|e|w|]; cbn [kont]; [wp_step; split; [done|]; intros a' [= <-]; auto| |by split..].
  eapply wp_mono; [by apply give_back_spec|]. intros o s2 [He Hne]. split; [done|]. intros a ->. by destruct (Hne a).
Qed.
End rollback.

(** ** Wiring a pod *)

Section wiring.
Context {E T N K G : Type} `{!CloudApi E, !GoRuntime E, !UniApi E, !LockApi E, !IptApi T, !IptMoreApi T, !HostApi T}
  `{!IpsetApi N, !IpsetLaws N, !SysfsApi N, !RuleApi N, !RuleLaws N, !RouteApi N, !RouteLaws N, !VethApi N, !VethLaws N}
  `{!KubeApi K, !CniKubeApi K, !IpamdClient G, !BoltApi G, !JsonCodec PodNetwork, !JsonCodec Plugin}.
#[local] Abbreviation S := (Cni E T N K G).
Implicit Types (s : S) (X : gset (list Z)).
Variable CNIVersion : string.

Definition never_fails {A} (p : M (Proc E) A) : Prop := ∀ v, wp p (λ o _, ∀ e, o ≠ Err e) v.

Lemma GetMasterInterface_never_fails : never_fails GetMasterInterface.
Proof.
  intros v. unfold GetMasterInterface. do 2 wp_step. apply run_wp. intros o v1 _.
  destruct o as [l|e|w|]; cbn [kont]; [|by wp_step|done|done].
  do 2 wp_step. apply run_wp. intros o v2 _. destruct o as [mp|e|w|]; cbn [kont]; [|by wp_step|done|done].
  wp_step. destruct mp as [meta|]; [|done]. cbn [deref]. wp_step. cbn [kont].
  destruct (HasPrefix _ _); [|by wp_step]. destruct (md_UPHost_NetworkInterfaces meta); [by wp_step|].
  destruct (head _); by wp_step.
Qed.

(** The interface that the traffic of the pod goes over, when the command looks it up in
    [v]: on a secondary interface the one that has the MAC of the network, as long as the
    node has it under a name, the master interface otherwise. *)
Definition pod_nic (pn : PodNetwork) (v : Proc E) (nic : string) : Prop :=
  let '(r, v1) := GetLinkByMac (pn_MacAddress pn) v in
  if HasPrefix (pn_InterfaceID pn) "uni-"
  then (∃ link, r = Ok link ∧ if_Name link = nic ∧ nic ≠ "") ∨
       ((∀ link, r = Ok link → if_Name link = "") ∧ (GetMasterInterface v1).1 = Ok nic)
  else (GetMasterInterface v).1 = Ok nic.

Lemma pod_master_interface_spec pn s :
  wp (pod_master_interface pn) (λ o s', cn_net s' = cn_net s ∧ cn_node s' = cn_node s ∧ (∀ e, o ≠ Err e) ∧
    ∀ nic, o = Ok nic → pod_nic pn (cn_proc s) nic) s.
Proof.
  unfold pod_master_interface, pod_nic.
  assert (∀ s1, wp (c_proc GetMasterInterface) (λ o s', cn_net s' = cn_net s1 ∧ cn_node s' = cn_node s1 ∧
    (∀ e, o ≠ Err e) ∧ ∀ nic, o = Ok nic → (GetMasterInterface (cn_proc s1)).1 = Ok nic) s1) as Hg.
  { intros s1. apply wp_c_proc. split_and!; [done..|apply GetMasterInterface_never_fails|done]. }
  destruct (GetLinkByMac (pn_MacAddress pn) (cn_proc s)) as [r v] eqn:El. wp_step. destruct (HasPrefix _ _).
  - do 2 wp_step. apply wp_c_proc, run_wp. intros o v' Eo. rewrite El in Eo. injection Eo as <- <-.
    assert ((∀ link, r = Ok link → if_Name link = "") → wp (c_proc GetMasterInterface)
      (λ o s', cn_net s' = cn_net s ∧ cn_node s' = cn_node s ∧ (∀ e, o ≠ Err e) ∧ ∀ nic, o = Ok nic →
        (∃ link, r = Ok link ∧ if_Name link = nic ∧ nic ≠ "") ∨
        ((∀ link, r = Ok link → if_Name link = "") ∧ (GetMasterInterface v).1 = Ok nic)) (c_set_proc v s)) as Hm.
    { intros Hno. eapply wp_mono; [apply Hg|]. intros o s' (? & ? & ? & H). split_and!; [done..|]. intros nic Hn. right. by split; [|apply H]. }
    destruct r as [l|e|w|]; cbn [kont]; [| |by split_and!..]; wp_step; cbn [kont].
    + destruct (String.eqb_spec (if_Name l) "") as [E0|E0]; [apply Hm; by intros link [= <-]|].
      wp_step. split_and!; [done..|]. intros nic [= <-]. left. by exists l.
    + by apply Hm.
  - wp_step. cbn [kont]. apply Hg.
Qed.

Lemma members_of_view s s' : cn_view s' = cn_view s → cn_members s' = cn_members s.
Proof. intros [= _ _ E3]. unfold cn_members, members. by rewrite E3. Qed.
Lemma members_of_sets s s' : cn_sets s' = cn_sets s → cn_members s' = cn_members s.
Proof. intros E3. unfold cn_sets in E3. unfold cn_members, members. by rewrite E3. Qed.
Lemma named_of_view s s' : cn_view s' = cn_view s → named s → named s'.
Proof. intros [= E1 _ _]. unfold named, all_named. by rewrite E1. Qed.
Lemma pod_wired_view podName podNS netNS nic pn s s' :
  cn_view s' = cn_view s → pod_wired podName podNS netNS nic pn s → pod_wired podName podNS netNS nic pn s'.
Proof. intros [= E1 E2 _]. unfold pod_wired, wired, cn_rules. by rewrite E1, E2. Qed.

Lemma ensureProxyArp_view dev : keeping cn_view (c_net (ensureProxyArp dev) : M S unit).
Proof.
  apply (keeping_zoom_in _ net_view); [done|done|]. unfold ensureProxyArp. solve_keeping; apply keeping_call;
    first [apply Truncate_keeps | apply OpenAppend_keeps | apply Append_keeps].
Qed.
Lemma c_proc_view {A} (p : M (Proc E) A) : keeping cn_view (c_proc p : M S A).
Proof. by apply keeping_zoom. Qed.
Lemma c_proc_seen {A} (p : M (Proc E) A) : keeping (λ s, (cn_view s, cn_node s)) (c_proc p : M S A).
Proof. by apply keeping_zoom. Qed.

(** Network and daemon together. *)
Definition cn_seen s := (cn_view s, cn_node s).
Lemma cn_seen_split s s' : cn_seen s = cn_seen s' → cn_view s = cn_view s' ∧ cn_node s = cn_node s'.
Proof. intros Hs. split; [exact (f_equal fst Hs)|exact (f_equal snd Hs)]. Qed.
Lemma in_setup_start pn s0 s : cn_seen s = cn_seen s0 → in_setup pn (cn_node s0) false (cn_members s0) s.
Proof. intros [E1 E2]%cn_seen_split. split; [by apply members_of_view|]. unfold only_releases. by rewrite E2. Qed.
Lemma seen_of_view {A} (p : M S A) : keeping cn_view p → keeping cn_node p → keeping cn_seen p.
Proof. intros H1 H2 s. unfold cn_seen. by rewrite H1, H2. Qed.

(** A step with rollback that leaves the network alone. *)
Lemma or_rollback_quiet {A} pn msg (p : M S A) s0 s :
  keeping cn_seen p → cn_seen s = cn_seen s0 →
  wp (or_rollback pn false msg p) (λ o s',
    (∀ e, o = Err e → rolled_back pn (cn_node s0) (cn_members s0) s') ∧
    (∀ a, o = Ok a → cn_seen s' = cn_seen s0)) s.
Proof.
  intros Hp Hs. eapply wp_mono; [apply (or_rollback_spec pn (cn_node s0) false msg p (cn_members s0) (λ _ s', cn_seen s' = cn_seen s0))|].
  - eapply wp_mono; [by apply (wp_keep cn_seen)|]. intros o s' E1. rewrite Hs in E1.
    split; [by apply in_setup_start|done].
  - intros o s' [H1 H2]. split; [intros e He; by destruct (H1 e He)|intros a Ha; by destruct (H2 a Ha)].
Qed.

Lemma check_direct_spec nic pn s0 s :
  cn_seen s = cn_seen s0 →
  wp (check_direct nic pn) (λ o s',
    (∀ e, o = Err e → rolled_back pn (cn_node s0) (cn_members s0) s') ∧
    (∀ a, o = Ok a → cn_seen s' = cn_seen s0)) s.
Proof.
  intros Hs. unfold check_direct. wp_step.
  eapply wp_mono; [apply (or_rollback_quiet _ _ _ s0), Hs; apply seen_of_view; [apply ensureProxyArp_view|by apply keeping_zoom]|]. intros o s1 [H1 H2].
  destruct o as [[]|e|w|]; cbn [kont]; [|by split; [|done]; intros e' [= <-]; exact (H1 e eq_refl)|by split..].
  specialize (H2 _ eq_refl). wp_step.
  eapply wp_mono; [apply (or_rollback_quiet _ _ _ s0), H2; apply c_proc_seen|]. intros o s2 [H3 H4].
  destruct o as [b|e|w|]; cbn [kont]; [|by split; [|done]; intros e' [= <-]; exact (H3 e eq_refl)|by split..].
  specialize (H4 _ eq_refl). destruct b; [|by wp_step; split].
  eapply wp_mono; [by apply (give_back_spec pn (cn_node s0) false (cn_members s0)), in_setup_start|].
  intros o s3 [H5 H6]. split; [intros e He; by destruct (H5 e He)|]. intros a ->. by destruct (H6 a).
Qed.

(** The member that the sync adds. *)
Lemma sync_state pn enabled s :
  named s →
  wp (attempt (c_net (syncNATGWOutgoingIP (pn_VPCIP pn) enabled))) (λ o s', ∃ r, o = Ok r ∧ named s' ∧
    nat_state pn (match r with inr added => added | inl _ => false end) (cn_members s) (cn_members s')) s.
Proof.
  intros Hn. wp_step. apply wp_c_net, run_wp. intros o n' E1.
  assert (all_named n') as Hn'.
  { pose proof (sync_named (pn_VPCIP pn) enabled (cn_net s) Hn) as H. by rewrite E1 in H. }
  destruct enabled.
  - pose proof (wp_run _ _ _ _ _ (sync_spec (pn_VPCIP pn) (cn_net s)) E1) as [Hr Hc].
    destruct o as [[]|e| |]; try done; eexists; (split; [done|]); (split; [done|]); simpl.
    + destruct Hc as (q & ? & ? & ?). by exists q.
    + by destruct Hc as (q & ? & ? & ?).
    + done.
  - unfold syncNATGWOutgoingIP in E1. cbn [negb] in E1. cbv [mret M_ret] in E1. injection E1 as <- <-.
    by eexists.
Qed.

(** What [wire_pod] leaves, from [s]. *)
Definition wire_post (podName podNS netNS : string) (pn : PodNetwork) s (o : outcome bool) s' : Prop :=
  (∀ e, o = Err e → rolled_back pn (cn_node s) (cn_members s) s') ∧
  (∀ added, o = Ok added → nat_state pn added (cn_members s) (cn_members s') ∧
     (canonical_ip (pn_VPCIP pn) → ∃ nic, pod_nic pn (cn_proc s) nic ∧ pod_wired podName podNS netNS nic pn s')).

Lemma setup_state podName podNS netNS sb nic pn mtu g added X0 s :
  named s → in_setup pn g added X0 s →
  wp (setupPodVethNetwork CNIVersion podName podNS netNS sb nic pn mtu) (λ o s',
    in_setup pn g added X0 s' ∧
    ∀ a, o = Ok a → canonical_ip (pn_VPCIP pn) → pod_wired podName podNS netNS nic pn s') s.
Proof.
  intros Hn [Hs Hg]. split.
  - split; [|by apply only_releases_setup]. rewrite (members_of_sets s); [done|]. apply setupPodVethNetwork_sets.
  - intros [] Ho Hip.
    destruct (setupPodVethNetwork_spec CNIVersion podName podNS netNS sb nic pn mtu s Hip) as [_ H]; [|by apply H].
    by apply all_named_tables.
Qed.

Lemma wire_pod_spec podName podNS netNS sb asg pn s :
  named s →
  wp (wire_pod CNIVersion podName podNS netNS sb asg pn) (wire_post podName podNS netNS pn s) s.
Proof.
  intros Hn. unfold wire_pod. wp_step. eapply wp_mono; [apply pod_master_interface_spec|]. intros o s1 (E1 & G1 & Hne & Hnic).
  assert (cn_seen s1 = cn_seen s) as V1 by (unfold cn_seen, cn_view; by rewrite E1, G1). clear E1 G1.
  destruct o as [nic|e|w|]; cbn [kont]; [|by destruct (Hne e)|by split..]. specialize (Hnic nic eq_refl).
  unfold wire_post. set (v := cn_proc s) in *. clearbody v. wp_step.
  eapply wp_mono; [apply (or_rollback_quiet _ _ _ s), V1; apply c_proc_seen|]. intros o s2 [H1 H2].
  destruct o as [mface|e|w|]; cbn [kont]; [|by split; [|done]; intros e' [= <-]; exact (H1 e eq_refl)|by split..].
  specialize (H2 _ eq_refl). clear H1. wp_step.
  apply (wp_mono _ (λ o s', (∀ e, o = Err e → rolled_back pn (cn_node s) (cn_members s) s') ∧ (∀ a, o = Ok a → cn_seen s' = cn_seen s))).
  { destruct (negb _); [by apply check_direct_spec|]. wp_step. by split. }
  intros o s3 [H3 H4]. destruct o as [[]|e|w|]; cbn [kont]; [|by split; [|done]; intros e' [= <-]; exact (H3 e eq_refl)|by split..].
  specialize (H4 _ eq_refl). clear H3 H2 V1 s1 s2. apply cn_seen_split in H4 as [V4 G4]. rewrite <- (members_of_view _ _ V4), <- G4.
  apply (named_of_view _ _ V4) in Hn. clear V4 G4 s. wp_step.
  eapply wp_mono; [apply (wp_keeping_of cn_node); [apply keeping_attempt; by apply keeping_zoom|by apply sync_state]|].
  intros o s4 [(r & -> & Hn4 & Hst0) G4]. cbn [kont].
  set (added := match r with inr added => added | inl _ => false end) in *.
  assert (in_setup pn (cn_node s3) added (cn_members s3) s4) as Hst.
  { split; [exact Hst0|]. unfold only_releases. by rewrite G4. }
  clear Hst0 G4. wp_step.
  eapply wp_mono; [apply or_rollback_spec, setup_state; [exact Hn4|exact Hst]|]. intros o s5 [H5 H6].
  destruct o as [[]|e|w|]; cbn [kont]; [|by split; [|done]; intros e' [= <-]; exact (proj2 (H5 e eq_refl))|by split..].
  destruct (H6 _ eq_refl) as [Hst5 Hw5]. wp_step.
  eapply wp_mono; [apply (or_rollback_spec pn (cn_node s3) added _ _ (cn_members s3) (λ _ s', cn_view s' = cn_view s5))|].
  { destruct Hst5 as [Hst5 Hg5]. eapply wp_mono.
    { apply (wp_maintains_of (only_releases pn (cn_node s3))); [apply only_releases_ports|exact Hg5|].
      apply (wp_keep cn_view), setNodePortRange_view. }
    intros o s6 [V6 Hg6]. split; [|done]. split; [|done]. by rewrite (members_of_view _ _ V6). }
  intros o s6 [H7 H8]. destruct o as [[]|e|w|]; cbn [kont]; [|by split; [|done]; intros e' [= <-]; exact (proj2 (H7 e eq_refl))|by split..].
  destruct (H8 _ eq_refl) as [[Hst6 _] V6]. wp_step. split; [done|]. intros a [= <-]. split; [done|].
  intros Hip. exists nic. split; [done|]. apply (pod_wired_view _ _ _ _ _ _ _ V6). by apply Hw5.
Qed.
End wiring.
