(* ===== verification/CniCommands.v ===== *)
(** The ADD and DEL commands as a whole ([cmdAdd] and [cmdDel] of
    [cmd/cnivpc/main.go]): what a command that succeeds has done to the records, to
    the policy rules and to the veth pairs, and what one that fails leaves. *)
From S2P Require Export CniMainProps.

(** ** The lock and the deferred release *)

Lemma wp_deferred {S A} (fin : M S unit) (body : M S A) (Q : outcome A → S → Prop) s :
  wp body (λ o s1, match o with
    | Diverge => Q Diverge s1
    | _ => wp fin (λ o2 s2, match o2 with
             | Ok _ | Err _ => Q o s2 | Panic w => Q (Panic w) s2 | Diverge => Q Diverge s2 end) s1
    end) s →
  wp (deferred fin body) Q s.
Proof.
  unfold wp, deferred. destruct (body s) as [[a|e|w|] s1]; simpl; [..|done];
    destruct (fin s1) as [[] s2]; done.
Qed.

Section locked.
Context {E T N K G : Type} `{!LockApi E}.
#[local] Abbreviation S := (Cni E T N K G).

(** The lock only acts on the process, and is never an error of the command. *)
Lemma wp_locked {A} (body : M S A) (Q : outcome A → S → Prop) s :
  (∀ o v s1, Q o s1 → Q o (c_set_proc v s1)) →
  (∀ w s1, Q (Panic w) s1) → (∀ s1, Q Diverge s1) →
  (∀ v, wp body Q (c_set_proc v s)) → wp (locked body) Q s.
Proof.
  intros Hset Hp Hd Hb. unfold locked. wp_step. apply wp_c_proc.
  assert (∀ (p : M (Proc E) unit) v, wp (handleErr p) (λ o _, ∀ e, o ≠ Err e) v) as Hh.
  { intros p v. unfold handleErr. do 2 wp_step. apply run_wp. intros o v' _. by destruct o. }
  eapply wp_mono; [apply Hh|]. intros o v Ho. destruct o as [[]|e|w|]; cbn [kont]; [|by destruct (Ho e)|done|done].
  apply wp_deferred. eapply wp_mono; [apply Hb|]. intros o1 s1 H1.
  destruct o1 as [a|e|w|]; [..|done]; apply wp_c_proc; (eapply wp_mono; [apply Hh|]); intros o2 v2 H2;
    destruct o2 as [[]|e2|w2|]; first [by destruct (H2 e2) | done | by apply Hset].
Qed.
End locked.

(** ** ADD *)

Section add.
Context {E T N K G : Type} `{!CloudApi E, !GoRuntime E, !UniApi E, !LockApi E, !IptApi T, !IptMoreApi T, !HostApi T}
  `{!IpsetApi N, !IpsetLaws N, !SysfsApi N, !RuleApi N, !RuleLaws N, !RouteApi N, !RouteLaws N, !VethApi N, !VethLaws N}
  `{!KubeApi K, !CniKubeApi K, !IpamdClient G, !BoltApi G, !JsonCodec PodNetwork, !JsonCodec Plugin, !RecordLaws G}.
#[local] Abbreviation S := (Cni E T N K G).
Implicit Types (s : S) (m : gmap string PodNetwork).
Variable CNIVersion : string.

(** *** The records during the set-up *)

#[local] Ltac step_recs m :=
  pose proof (recs_node (E := E) (T := T) (N := N) (K := K) m _ (use_maintains m));
  assert (∀ pn, maintains (recs m) (c_node (deallocateSecondaryIPFromIpamd pn) : M S unit))
    by (intros; apply recs_node, release_maintains);
  solve_recs.

Lemma rollback_recs m pn added : maintains (recs m) (rollbackNATGWOutgoingIP pn added : M S _).
Proof. unfold rollbackNATGWOutgoingIP. solve_recs. Qed.
Lemma return_err_recs {A} m pn added err : maintains (recs m) (return_err pn added err : M S A).
Proof. unfold return_err. pose proof (rollback_recs m). solve_recs. Qed.
Lemma wire_pod_recs m n ns netns sb asg pn : maintains (recs m) (wire_pod CNIVersion n ns netns sb asg pn : M S bool).
Proof.
  unfold wire_pod, pod_master_interface, check_direct, setupPodVethNetwork, setNodePortRange, host_addrs, take_snapshot.
  pose proof (rollback_recs m). step_recs m.
Qed.

(** *** From the wired pod to the end *)

Lemma c_net_view {A} (c : Call N A) : keeps net_view c → keeping cn_view (c_net (call c) : M S A).
Proof. intros Hc. apply (keeping_zoom_in _ net_view); [done|done|by apply keeping_call]. Qed.

Lemma parseDNSConfig_spec s :
  wp parseDNSConfig (λ o s', cn_view s' = cn_view s ∧ cn_node s' = cn_node s ∧ ∀ e, o ≠ Err e) s.
Proof.
  unfold parseDNSConfig. do 2 wp_step. apply wp_c_net, (wp_keeps net_view); [apply ReadFile_keeps|].
  assert (∀ (f : error + string) n', net_view n' = net_view (cn_net s) →
    wp (of_outcome (dnsReadConfig f)) (λ o s', cn_view s' = cn_view s ∧ cn_node s' = cn_node s ∧ ∀ e, o ≠ Err e)
      (c_set_net n' s)) as Hd.
  { intros f n' V. unfold wp, of_outcome. split; [exact V|]. split; [done|]. intros e. simpl.
    unfold dnsReadConfig. destruct f as [err|content]; [done|]. by destruct (scan_lines _) as [l []]. }
  intros o n' Hr V. destruct o as [text|e| |]; [| |done|done]; cbn [kont]; by apply Hd.
Qed.

Lemma link_routes_spec links s :
  wp (link_routes links) (λ o s', cn_view s' = cn_view s ∧ cn_node s' = cn_node s ∧ ∃ r, o = Ok r) s.
Proof.
  revert s. induction links as [|l links IH]; intros s; cbn [link_routes]; [wp_step; by eauto|].
  do 2 wp_step. apply wp_c_net, (wp_keeps net_view); [apply RouteList_keeps|]. intros o n' Hr V.
  destruct o as [rs|e| |]; [| |done|done]; cbn [kont]; [|wp_step; split; [exact V|]; by eauto].
  wp_step. eapply wp_mono; [apply IH|]. intros o s' (E1 & E2 & r & ->). cbn [kont].
  destruct r as [routes err]. wp_step. split; [rewrite E1; exact V|]. by eauto.
Qed.
Lemma getRoutes_spec s :
  wp getRoutes (λ o s', cn_view s' = cn_view s ∧ cn_node s' = cn_node s ∧ ∀ e, o ≠ Err e) s.
Proof.
  unfold getRoutes. do 2 wp_step. apply wp_c_proc, run_wp. intros o v _.
  destruct o as [links|e|w|]; cbn [kont]; [|wp_step; by split_and!|by split_and!..].
  eapply wp_mono; [apply link_routes_spec|]. intros o s' (E1 & E2 & r & ->). by split_and!.
Qed.

Lemma addPodNetworkRecord_net n ns sb pn : keeping cn_net (addPodNetworkRecord n ns sb pn : M S unit).
Proof.
  unfold addPodNetworkRecord, addPodNetworkRecordLocal, c_node. pose proof (releasePodIp_net (E := E) (T := T) (N := N) (K := K) (G := G) pn).
  solve_keeping; try assumption; by apply keeping_zoom.
Qed.

Definition late_error (e : error) : Prop :=
  e = Errorf "failed to add pod network record" ∨ e = Errorf "portmap add error".

(** What [finish_add] leaves. *)
Definition finish_post (k : string) (pn : PodNetwork) m X0 s (o : outcome unit) s' : Prop :=
  (o = Ok tt → recs (<[k := pn]> m) s' ∧ cn_view s' = cn_view s) ∧
  (∀ e, o = Err e → late_error e ∧ (recs m s' ∨ recs (<[k := pn]> m) s') ∧ undone pn X0 s').

(** A late error: the member is taken out, the records stay. *)
Lemma late_spec k pn added e m1 m X0 s0 s :
  late_error e → recs m1 s → (m1 = m ∨ m1 = <[k := pn]> m) → nat_state pn added X0 (cn_members s) →
  wp (return_err pn added e) (finish_post k pn m X0 s0) s.
Proof.
  intros He Hm H1 Hn. eapply wp_mono; [apply (wp_maintains_of (recs m1)); [apply return_err_recs|exact Hm|by apply return_err_spec]|].
  intros o s' [(_ & _ & -> & Hu) Hm']. split; [done|]. intros e' [= <-]. split; [done|]. split; [|done].
  destruct H1 as [-> | ->]; [by left|by right].
Qed.

Lemma finish_add_spec args conf n ns netns sb pn added X0 m s :
  recs m s → record_key pn = PodKey n ns sb → nat_state pn added X0 (cn_members s) →
  wp (finish_add args conf n ns netns sb pn added) (finish_post (PodKey n ns sb) pn m X0 s) s.
Proof.
  intros Hm Hk Hn. unfold finish_add. wp_step. eapply wp_mono; [apply parseDNSConfig_spec|]. intros o s1 (V1 & G1 & Hne).
  destruct o as [dns|e|w|]; cbn [kont]; [|by destruct (Hne e)|by split..]. clear Hne. wp_step.
  eapply wp_mono; [apply getRoutes_spec|]. intros o s2 (V2 & G2 & Hne).
  destruct o as [[routes err]|e|w|]; cbn [kont]; [|by destruct (Hne e)|by split..]. clear Hne.
  assert (cn_view s2 = cn_view s) as V by congruence.
  assert (recs m s2) as Hm2 by (unfold recs in *; by rewrite G2, G1).
  rewrite <- (members_of_view _ _ V) in Hn. clear V1 V2 G1 G2 Hm s1. do 2 wp_step.
  eapply wp_mono; [apply (wp_keeping_of cn_net); [apply addPodNetworkRecord_net|by apply (addPodNetworkRecord_spec _ _ _ _ _ m)]|].
  intros o s3 [H3 E3].
  assert (nat_state pn added X0 (cn_members s3)) as Hn3 by (unfold cn_members in *; by rewrite E3).
  assert (cn_view s3 = cn_view s) as V3 by (unfold cn_view in *; by rewrite E3).
  destruct o as [[]|e|w|]; cbn [kont]; [|destruct H3 as [H3|[H3 _]];
    (eapply late_spec; [by left|exact H3|auto|done])|by split..].
  destruct H3 as [H3|[_ ?]]; [|done]. do 2 wp_step. apply wp_c_ipt, run_wp. intros o t' _.
  destruct o as [[]|e|w|]; cbn [kont]; [|eapply late_spec; [by right|exact H3|auto|done]|by split..].
  wp_step. by split.
Qed.

(** *** The whole command *)

(** What [add_pod] leaves, from [s]: the pod recorded and wired, or what was done undone. *)
Definition add_post (n ns netNS sb : string) (pn : PodNetwork) m s (o : outcome unit) s' : Prop :=
  (o = Ok tt → recs (<[PodKey n ns sb := pn]> m) s' ∧
     (canonical_ip (pn_VPCIP pn) → ∃ nic, pod_nic pn (cn_proc s) nic ∧ pod_wired n ns netNS nic pn s')) ∧
  (∀ e, o = Err e → undone pn (cn_members s) s' ∧
     (((released pn (cn_node s) s' ∨ release_failed pn (cn_node s) s') ∧ recs m s') ∨
      (late_error e ∧ (recs m s' ∨ recs (<[PodKey n ns sb := pn]> m) s')))).

Lemma add_pod_spec args conf n ns netNS sb asg pn m s :
  recs m s → named s → pa_network asg = Some pn → record_key pn = PodKey n ns sb →
  wp (add_pod CNIVersion args conf n ns netNS sb asg) (add_post n ns netNS sb pn m s) s.
Proof.
  intros Hm Hn Ha Hk. unfold add_pod. rewrite Ha. wp_step. cbn [deref]. wp_step. cbn [kont]. wp_step.
  eapply wp_mono; [apply (wp_maintains_of (recs m)); [apply wire_pod_recs|exact Hm|by apply wire_pod_spec]|].
  intros o s1 [[He Hok] Hm1]. destruct o as [added|e|w|]; cbn [kont]; [|split; [done|]; intros e' [= <-]|by split..].
  2:{ destruct (He e eq_refl) as [Hrel Hu]. split; [done|]. by left. }
  destruct (Hok _ eq_refl) as [Hst Hw]. clear He Hok.
  eapply wp_mono; [apply (finish_add_spec _ _ _ _ _ _ _ _ (cn_members s) m); done|]. intros o s2 [Hok He]. split.
  - intros Ho. destruct (Hok Ho) as [Hr V]. split; [done|]. intros Hip. destruct (Hw Hip) as (nic & Hpn & Hnic).
    exists nic. split; [done|]. by apply (pod_wired_view _ _ _ _ _ s1).
  - intros e Ho. destruct (He e Ho) as (Hl & Hr & Hu). split; [done|]. by right.
Qed.

(** What [cmdAdd] leaves. *)
Definition command_post (n ns sb : string) m (o : outcome unit) s' : Prop :=
  (o = Ok tt → ∃ pn netNS, record_key pn = PodKey n ns sb ∧ recs (<[PodKey n ns sb := pn]> m) s' ∧
     (canonical_ip (pn_VPCIP pn) → ∃ nic, pod_wired n ns netNS nic pn s')) ∧
  (∀ e, o = Err e → recs m s' ∨
     (late_error e ∧ ∃ pn, record_key pn = PodKey n ns sb ∧ recs (<[PodKey n ns sb := pn]> m) s')).

Lemma early_error n ns sb m (o' : outcome unit) s' :
  recs m s' → (∀ a, o' ≠ Ok a) → command_post n ns sb m o' s'.
Proof. intros Hm Ho. split; [intros ->; by destruct (Ho tt)|]. intros e _. by left. Qed.

(** A step that leaves records and rules in order. *)
Lemma wp_early {A} n ns sb m (p : M S A) (k : A → M S unit) s :
  maintains (recs m) p → maintains named p → recs m s → named s →
  (∀ a s', recs m s' → named s' → wp (k a) (command_post n ns sb m) s') →
  wp (x ← p; k x) (command_post n ns sb m) s.
Proof.
  intros Hr Hd Hm Hn Hk. wp_step.
  eapply wp_mono; [apply (wp_maintains_of (recs m)); [exact Hr|exact Hm|by apply (wp_maintains named)]|].
  intros o s1 [Hn1 Hm1]. destruct o as [a|e|w|]; cbn [kont]; [by apply Hk|by apply early_error..].
Qed.

Lemma cmdAdd_spec args m s :
  recs m s → named s →
  let a := loadSandboxArgs (ca_Args args) in
  wp (cmdAdd CNIVersion args)
     (command_post (arg a "K8S_POD_NAME") (arg a "K8S_POD_NAMESPACE") (arg a "K8S_POD_INFRA_CONTAINER_ID") m) s.
Proof.
  intros Hm Hn. cbv zeta. set (n := arg _ "K8S_POD_NAME"). set (ns := arg _ "K8S_POD_NAMESPACE").
  set (sb := arg _ "K8S_POD_INFRA_CONTAINER_ID"). unfold cmdAdd. apply wp_locked; [by intros o v s1 H|by split..|].
  intros v. change (recs m (c_set_proc v s)) in Hm. change (named (c_set_proc v s)) in Hn.
  set (s0 := c_set_proc v s) in *. clearbody s0. clear s v.
  apply wp_early; [unfold ParsePlugin; apply maintains_with_msg, maintains_with_msg; by intros ?..|done|done|].
  intros conf s Hm1 Hn1. clear s0 Hm Hn.
  apply wp_early; [apply recs_ipt|apply named_ipt|done|done|]. intros _ s1 Hm Hn. clear s Hm1 Hn1.
  apply wp_early; [apply recs_proc|apply named_proc|done|done|]. intros netNS s Hm1 Hn1. clear s1 Hm Hn.
  fold n ns sb. do 2 wp_step. eapply wp_mono.
  { apply (wp_maintains_of named); [apply assignPodIp_named|done|by apply assignPodIp_spec]. }
  intros o s1 [[Hm Ha] Hn]. destruct o as [asg|e|w|]; cbn [kont]; [|by apply early_error..].
  destruct (Ha _ eq_refl) as (_ & pn & Hpn & Hk).
  eapply wp_mono; [by apply (add_pod_spec _ _ _ _ _ _ _ pn m)|]. intros o s2 [Hok He]. split.
  - intros Ho. destruct (Hok Ho) as [Hr Hw]. exists pn, netNS. do 2 (split; [done|]).
    intros Hip. destruct (Hw Hip) as (nic & _ & Hnic). by exists nic.
  - intros e Ho. destruct (He e Ho) as [_ [[_ Hr]|[Hl [Hr|Hr]]]]; [by left..|]. right. split; [done|]. by exists pn.
Qed.
End add.

(** ** DEL *)

Section del.
Context {E T N K G : Type} `{!CloudApi E, !GoRuntime E, !UniApi E, !LockApi E, !IptApi T, !IptMoreApi T, !HostApi T}
  `{!IpsetApi N, !IpsetLaws N, !SysfsApi N, !RuleApi N, !RuleLaws N, !RouteApi N, !RouteLaws N, !VethApi N, !VethLaws N}
  `{!KubeApi K, !CniKubeApi K, !IpamdClient G, !BoltApi G, !JsonCodec PodNetwork, !JsonCodec Plugin, !RecordLaws G}.
#[local] Abbreviation S := (Cni E T N K G).
Implicit Types (s : S) (m : gmap string PodNetwork).

(** No policy rule is about the address. *)
Definition no_rules (ip : string) s : Prop :=
  ∀ r, r ∈ cn_rules s → net_is (rl_Dst r) ip = false ∧ net_is (rl_Src r) ip = false.

(** The address was given back after its policy rules were gone: the daemon, which was
    in the state [g0], has gone through the release and then the deletion of the record,
    and no rule about the address has come back. *)
Definition given_back (n ns sb : string) (pn : PodNetwork) g0 s : Prop :=
  no_rules (pn_VPCIP pn) s ∧
  ∃ s1 s2, cn_node s1 = g0 ∧ releasePodIp pn s1 = (Ok tt, s2) ∧ cn_rules s1 = cn_rules s ∧
    cn_node s = (delPodNetworkRecord n ns sb (cn_node s2)).2.

Lemma given_back_rules n ns sb pn g0 s s' :
  cn_rules s' = cn_rules s → cn_node s' = cn_node s → given_back n ns sb pn g0 s → given_back n ns sb pn g0 s'.
Proof.
  intros Hr Hg [Hn (s1 & s2 & H1 & H2 & H3 & H4)]. split; [unfold no_rules; by rewrite Hr|].
  exists s1, s2. by rewrite Hr, Hg.
Qed.

Lemma deleteNAT_rules ip : keeping (S := N) ip_rules (deleteNATGWOutgoingIP ip).
Proof.
  unfold deleteNATGWOutgoingIP. solve_keeping. apply keeping_call. eapply fst_keeps, ipset_Del_rest.
Qed.
Lemma delete_interface_rules netNS ifn : keeping (S := N) ip_rules (delete_interface netNS ifn).
Proof.
  unfold delete_interface. solve_keeping.
  - intros n. exact (f_equal (λ x, x.1.1) (keeping_call _ _ (GetNS_keeps netNS) n)).
  - intros n. exact (f_equal (λ x, x.1.1) (keeping_call _ _ (ns_Do_keeps netNS) n)).
  - intros n. destruct (ns_LinkByName_law netNS ifn n) as [V _]. exact (f_equal (λ x, x.1.1) V).
  - intros n'. exact (f_equal fst (keeping_call _ _ (ns_LinkDel_keeps netNS _) n')).
Qed.
Lemma c_net_rules {A} (p : M N A) : keeping ip_rules p → keeping (λ s : S, (cn_rules s, cn_node s)) (c_net p).
Proof.
  intros Hp s. unfold c_net, zoom. specialize (Hp (cn_net s)). destruct (p (cn_net s)) as [o n'].
  unfold cn_rules. simpl in *. by rewrite Hp.
Qed.
Lemma del_pod_quiet args conf netNS :
  keeping (λ s : S, (cn_rules s, cn_node s)) (del_pod args conf netNS).
Proof.
  unfold del_pod. solve_keeping; first [apply c_net_rules, delete_interface_rules | by apply keeping_zoom].
Qed.

(** What [forget_pod] leaves. *)
Definition forget_post (n ns sb : string) (pn : PodNetwork) m g0 (l : list IpRule) (o : outcome unit) s' : Prop :=
  others (pn_VPCIP pn) (cn_rules s') = others (pn_VPCIP pn) l ∧
  (recs m s' ∨ (recs (delete (PodKey n ns sb) m) s' ∧ given_back n ns sb pn g0 s')) ∧
  (o = Ok tt → given_back n ns sb pn g0 s').

Lemma forget_pod_spec n ns sb pn m s :
  recs m s → wp (forget_pod n ns sb pn) (forget_post n ns sb pn m (cn_node s) (cn_rules s)) s.
Proof.
  intros Hm. unfold forget_pod. unfold ignore at 1. do 3 wp_step.
  eapply wp_mono; [apply (wp_keep (λ s, (cn_rules s, cn_node s)))|].
  { apply keeping_attempt, c_net_rules, deleteNAT_rules. }
  intros o s1 [= R1 G1].
  assert (recs m s1) as Hm1 by (unfold recs in *; by rewrite G1). clear Hm. rewrite <- R1, <- G1. clear R1 G1 s.
  assert (∀ o s', (∀ a : unit, o ≠ Ok a) → others (pn_VPCIP pn) (cn_rules s') = others (pn_VPCIP pn) (cn_rules s1) →
    recs m s' → forget_post n ns sb pn m (cn_node s1) (cn_rules s1) o s') as Hfail.
  { intros o' s' Ho' Hr Hm'. split; [done|]. split; [by left|]. intros ->. by destruct (Ho' tt). }
  assert (wp (with_msg "fail to clean up ip rules" (c_net (cleanUpIPRoutePolicy (pn_VPCIP pn)));;
    with_msg "failed to release pod ip" (releasePodIp pn);;
    ignore (c_node (delPodNetworkRecord n ns sb))) (forget_post n ns sb pn m (cn_node s1) (cn_rules s1)) s1) as Hmain.
  2:{ destruct o as [[]|e|w|]; cbn [kont]; [by wp_step|by wp_step|by apply Hfail..]. }
  clear o. do 2 wp_step. apply wp_c_net. eapply wp_mono; [apply cleanUpIPRoutePolicy_correct|].
  intros o n2 (Hret & Ho & Hno). change (recs m (c_set_net n2 s1)) in Hm1. change (ip_rules n2) with (cn_rules (c_set_net n2 s1)) in *.
  change (ip_rules (cn_net s1)) with (cn_rules s1) in Ho. set (s2 := c_set_net n2 s1) in *. assert (cn_node s2 = cn_node s1) as G2 by done. clearbody s2. clear n2.
  destruct o as [[]|e|w|]; cbn [kont]; [|by apply Hfail|done|done]. specialize (Hno eq_refl). do 2 wp_step.
  apply run_wp. intros o s3 Hrel.
  assert (cn_net s3 = cn_net s2) as En by (pose proof (releasePodIp_net pn s2) as H; by rewrite Hrel in H).
  assert (recs m s3) as Hm3 by (pose proof (releasePodIp_recs m pn s2 Hm1) as H; by rewrite Hrel in H).
  assert (cn_rules s3 = cn_rules s2) as Er by (unfold cn_rules; by rewrite En). rewrite <- Er in Ho.
  destruct o as [[]|e|w|]; cbn [kont]; [|by apply Hfail..].
  unfold ignore. do 2 wp_step. apply wp_c_node, run_wp. intros o g Hdel.
  destruct (wp_run _ _ _ _ _ (delPodNetworkRecord_spec n ns sb (cn_node s3) m Hm3) Hdel) as (Hr & Hd).
  assert (forget_post n ns sb pn m (cn_node s1) (cn_rules s1) (Ok tt) (c_set_node g s3)) as Hend.
  { assert (given_back n ns sb pn (cn_node s1) (c_set_node g s3)) as Hg'.
    { split; [unfold no_rules; change (cn_rules (c_set_node g s3)) with (cn_rules s3); by rewrite Er|].
      exists s2, s3. split_and!; [done|done|done|]. by rewrite Hdel. }
    split; [exact Ho|]. split; [|done]. destruct Hd as [Hd|[Hd _]]; [by right|by left]. }
  destruct o as [[]|e| |]; [| |done|done]; cbn [kont]; by wp_step.
Qed.

(** The record of the pod could not be read from [g]. *)
Definition unread (n ns sb : string) (g : G) : Prop := ∃ e, (getPodNetworkRecord n ns sb g).1 = Err e.
(** The daemon after that reading. *)
Definition after_read (n ns sb : string) (g : G) : G := (getPodNetworkRecord n ns sb g).2.

(** What [cmdDel] leaves, when it ends, from the rules [l] and the daemon [g]. *)
Definition delete_post (n ns sb : string) m (l : list IpRule) (g : G) (o : outcome unit) s' : Prop :=
  returns o = true →
  (recs m s' ∨ ∃ pn, m !! PodKey n ns sb = Some pn ∧ given_back n ns sb pn (after_read n ns sb g) s' ∧
     recs (delete (PodKey n ns sb) m) s') ∧
  match m !! PodKey n ns sb with
  | Some pn =>
      others (pn_VPCIP pn) (cn_rules s') = others (pn_VPCIP pn) l ∧
      (o = Ok tt → given_back n ns sb pn (after_read n ns sb g) s' ∨
         (cn_rules s' = l ∧ (unread n ns sb g ∨ pn_VPCIP pn = "")))
  | None => cn_rules s' = l
  end.

Lemma delete_post_early n ns sb m l g o s' :
  recs m s' → cn_rules s' = l → o ≠ Ok tt → delete_post n ns sb m l g o s'.
Proof.
  intros Hm Hr Ho _. split; [by left|]. destruct (m !! _); [|done]. rewrite Hr. by split.
Qed.

(** From the record that was read to the end. *)
Lemma del_known_spec args conf netNS n ns sb m g pn s :
  recs m s → pn = m !! PodKey n ns sb → cn_node s = after_read n ns sb g →
  wp (match pn with
      | Some pn => if negb (String.eqb (pn_VPCIP pn) "") then forget_pod n ns sb pn else mret tt
      | None => mret tt
      end;; del_pod args conf netNS) (delete_post n ns sb m (cn_rules s) g) s.
Proof.
  intros Hm Hp Hg. wp_step.
  assert (∀ s', cn_rules s' = cn_rules s → recs m s' → (m !! PodKey n ns sb = None ∨ ∃ pn, m !! PodKey n ns sb = Some pn ∧ pn_VPCIP pn = "") →
    wp (del_pod args conf netNS) (delete_post n ns sb m (cn_rules s) g) s') as Hquiet.
  { intros s' E1 Hm' Hk. eapply wp_mono; [apply (wp_keep (λ s, (cn_rules s, cn_node s))), del_pod_quiet|].
    intros o s2 [= R2 G2] _. split; [left; unfold recs in *; by rewrite G2|].
    destruct Hk as [->|(pn' & -> & Hip)]; [congruence|]. split; [congruence|]. intros _. right. split; [congruence|by right]. }
  destruct pn as [pn|]; [|wp_step; cbn [kont]; apply Hquiet; auto].
  destruct (String.eqb_spec (pn_VPCIP pn) ""); cbn [negb]; [wp_step; cbn [kont]; apply Hquiet; [done..|right; by exists pn]|].
  clear Hquiet. eapply wp_mono; [by apply forget_pod_spec|]. rewrite Hg. intros o s2 (Ho & Hr & Hok).
  assert (∀ o' s3, cn_rules s3 = cn_rules s2 → cn_node s3 = cn_node s2 → (o' = Ok tt → o = Ok tt) →
    delete_post n ns sb m (cn_rules s) g o' s3) as Hend.
  { intros o' s3 R3 G3 Hoo _. assert (∀ m', recs m' s2 → recs m' s3) as Hrec by (intros m'; unfold recs; by rewrite G3).
    rewrite <- Hp. split.
    - destruct Hr as [Hr|[Hr Hgb]]; [left; by apply Hrec|right]. exists pn. split; [done|].
      split; [by apply (given_back_rules _ _ _ _ _ s2)|by apply Hrec].
    - rewrite R3. split; [done|]. intros E'. left. apply (given_back_rules _ _ _ _ _ s2); auto. }
  destruct o as [[]|e|w|]; cbn [kont]; [|by apply Hend..].
  eapply wp_mono; [apply (wp_keep (λ s, (cn_rules s, cn_node s))), del_pod_quiet|]. intros o s3 [= R3 G3]. by apply Hend.
Qed.

Lemma cmdDel_spec args m s :
  recs m s →
  let a := loadSandboxArgs (ca_Args args) in
  wp (cmdDel args)
     (delete_post (arg a "K8S_POD_NAME") (arg a "K8S_POD_NAMESPACE") (arg a "K8S_POD_INFRA_CONTAINER_ID") m
        (cn_rules s) (cn_node s)) s.
Proof.
  intros Hm. cbv zeta. set (n := arg _ "K8S_POD_NAME"). set (ns := arg _ "K8S_POD_NAMESPACE").
  set (sb := arg _ "K8S_POD_INFRA_CONTAINER_ID"). unfold cmdDel.
  apply wp_locked; [by intros o v s1 H|by intros|by intros|]. intros v.
  change (cn_rules s) with (cn_rules (c_set_proc v s)). change (recs m (c_set_proc v s)) in Hm.
  change (cn_node s) with (cn_node (c_set_proc v s)).
  set (s0 := c_set_proc v s) in *. clearbody s0. clear s v. wp_step.
  assert (∃ o, ParsePlugin (ca_StdinData args) s0 = (o, s0)) as [o0 Hp].
  { unfold ParsePlugin, with_msg, of_outcome. destruct (json_Unmarshal _); by eexists. }
  unfold wp. rewrite Hp. cbn [fst snd]. destruct o0 as [conf|e|w|]; cbn [kont]; [|by apply delete_post_early|done|done].
  fold n ns sb. wp_step. apply wp_c_proc, run_wp. intros o p _. change (recs m (c_set_proc p s0)) in Hm.
  change (cn_rules s0) with (cn_rules (c_set_proc p s0)). change (cn_node s0) with (cn_node (c_set_proc p s0)).
  set (s := c_set_proc p s0) in *. clearbody s. clear s0 p Hp.
  destruct o as [netNS|e|w|]; cbn [kont]; [|by apply delete_post_early|done|done]. do 2 wp_step. apply wp_c_node.
  pose proof (getPodNetworkRecord_spec n ns sb (cn_node s) m Hm) as Hg. unfold wp in Hg |- *.
  destruct (getPodNetworkRecord n ns sb (cn_node s)) as [o g] eqn:Eg. cbn [fst snd] in *. destruct Hg as (Hret & Hm1 & Hp).
  assert (after_read n ns sb (cn_node s) = g) as Hread by (unfold after_read; by rewrite Eg).
  change (recs m (c_set_node g s)) in Hm1. change (cn_rules s) with (cn_rules (c_set_node g s)).
  destruct o as [pn|e|w|]; cbn [kont];
    [by apply (del_known_spec _ _ _ _ _ _ m (cn_node s)); [|apply Hp|]|wp_step; intros _|done|done].
  split; [by left|]. destruct (m !! _); [|done]. split; [done|]. intros _. right.
  split; [done|]. left. exists e. by rewrite Eg.
Qed.
End del.

(** ** Theorems *)

Section theorems.
Context {E T N K G : Type} `{!CloudApi E, !GoRuntime E, !UniApi E, !LockApi E, !IptApi T, !IptMoreApi T, !HostApi T}
  `{!IpsetApi N, !IpsetLaws N, !SysfsApi N, !RuleApi N, !RuleLaws N, !RouteApi N, !RouteLaws N, !VethApi N, !VethLaws N}
  `{!KubeApi K, !CniKubeApi K, !IpamdClient G, !BoltApi G, !JsonCodec PodNetwork, !JsonCodec Plugin, !RecordLaws G}.
Implicit Types (s : Cni E T N K G) (m : gmap string PodNetwork).
Variable CNIVersion : string.

(** C4: After an ADD that succeeds the records have one new entry, under the key of pod,
    namespace and sandbox of the arguments, and the pod with that address is wired;
    after one that fails the records are as before, except that a late failure (of the
    record or of the port mapping) may leave the new entry. *)
Theorem cmdAdd_correct args m s :
  recs m s → named s →
  let a := loadSandboxArgs (ca_Args args) in
  wp (cmdAdd CNIVersion args)
     (command_post (arg a "K8S_POD_NAME") (arg a "K8S_POD_NAMESPACE") (arg a "K8S_POD_INFRA_CONTAINER_ID") m) s.
Proof. apply cmdAdd_spec. Qed.

(** C2: From the assigned address on, ADD either ends with the record of the pod stored
    and the pod wired (veth pair with the address in its namespace, rule to the address
    in the main table and, when the interface that has the MAC of a secondary network
    interface is not eth0, a rule from the address into the table of that interface), or
    with an error after which the member that it added to the NAT ipset is gone again,
    unless the kernel refused its deletion. At an error up to the last set-up step no
    record was written, the daemon has seen nothing but releases of the address, and the
    last thing done was such a release, which succeeded or reported its failure; a later
    error is one of the record or of the port mapping. *)
Theorem add_pod_correct args conf n ns netNS sb asg pn m s :
  recs m s → named s → pa_network asg = Some pn → record_key pn = PodKey n ns sb →
  wp (add_pod CNIVersion args conf n ns netNS sb asg) (add_post n ns netNS sb pn m s) s.
Proof. apply add_pod_spec. Qed.

(** C3: A DEL that returns touches at most the record of its own pod and the policy
    rules about its address. The record is deleted only after the address was released,
    which happens only after all rules about it are gone, and success means just that,
    unless the record could not be read or has no address; without a record the rules do
    not change. *)
Theorem cmdDel_correct args m s :
  recs m s →
  let a := loadSandboxArgs (ca_Args args) in
  wp (cmdDel args)
     (delete_post (arg a "K8S_POD_NAME") (arg a "K8S_POD_NAMESPACE") (arg a "K8S_POD_INFRA_CONTAINER_ID") m
        (cn_rules s) (cn_node s)) s.
Proof. apply cmdDel_spec. Qed.
End theorems.
