(* ===== verification/CniNode.v ===== *)
(** A node over time: the commands of the plugin one after the other, as the lock file
    makes them run, with whatever the daemon, the kernel and the API server do in
    between.  A command may succeed, fail or panic; the records stay keyed by pod,
    namespace and sandbox, and the record of a pod is changed by no command of
    another pod. *)
From S2P Require Export CniCommands.

(** ** Definitions *)

Section node.
Context {E T N K G : Type} `{!CloudApi E, !GoRuntime E, !UniApi E, !LockApi E, !IptApi T, !IptMoreApi T, !HostApi T}
  `{!IpsetApi N, !IpsetLaws N, !SysfsApi N, !RuleApi N, !RuleLaws N, !RouteApi N, !RouteLaws N, !VethApi N, !VethLaws N}
  `{!KubeApi K, !CniKubeApi K, !IpamdClient G, !BoltApi G, !JsonCodec PodNetwork, !JsonCodec Plugin, !RecordLaws G}.
#[local] Abbreviation S := (Cni E T N K G).
Implicit Types (s : S) (m : gmap string PodNetwork) (X : gset string).
Variable CNIVersion : string.

(** The key of the pod that a command is about. *)
Definition args_pod (args : CmdArgs) : string := arg (loadSandboxArgs (ca_Args args)) "K8S_POD_NAME".
Definition args_ns (args : CmdArgs) : string := arg (loadSandboxArgs (ca_Args args)) "K8S_POD_NAMESPACE".
Definition args_sandbox (args : CmdArgs) : string :=
  arg (loadSandboxArgs (ca_Args args)) "K8S_POD_INFRA_CONTAINER_ID".
Definition args_key (args : CmdArgs) : string := PodKey (args_pod args) (args_ns args) (args_sandbox args).
(** The daemon once a DEL in [s] has read the record of its pod. *)
Definition deleted_at (args : CmdArgs) s : G :=
  after_read (args_pod args) (args_ns args) (args_sandbox args) (cn_node s).

(** What happens on a node: a command, or something else that changes the records of
    the pods [X] at most and adds none ([CniLife] shows that the operations of the
    daemon are such events). *)
Inductive event : Type :=
| EvAdd (args : CmdArgs)
| EvDel (args : CmdArgs)
| EvOther (X : gset string).

Definition event_keys (e : event) : gset string :=
  match e with
  | EvAdd args | EvDel args => {[args_key args]}
  | EvOther X => X
  end.
(** The keys that an event may add. *)
Definition event_adds (e : event) : gset string :=
  match e with
  | EvAdd args => {[args_key args]}
  | EvDel _ | EvOther _ => ∅
  end.
Definition events_adds (es : list event) : gset string := ⋃ (event_adds <$> es).
Definition events_keys (es : list event) : gset string := ⋃ (event_keys <$> es).

(** Every record is stored under its own key. *)
Definition keyed m : Prop := map_Forall (λ k pn, record_key pn = k) m.

Definition agree_off X m m' : Prop := ∀ k, k ∉ X → m' !! k = m !! k.

(** What is not a command: it leaves the records of the other pods alone, keeps records
    under their key, adds none, and adds no policy rule without a table. *)
Definition other_ok X s s' : Prop :=
  (named s → named s') ∧
  ∀ m, recs m s → ∃ m', recs m' s' ∧ agree_off X m m' ∧ dom m' ⊆ dom m ∧ (keyed m → keyed m').

Inductive node_step : event → S → S → Prop :=
| step_add args s : node_step (EvAdd args) s (cmdAdd CNIVersion args s).2
| step_del args s : node_step (EvDel args) s (cmdDel args s).2
| step_other X s s' : other_ok X s s' → node_step (EvOther X) s s'.

Inductive node_run : list event → S → S → Prop :=
| run_nil s : node_run [] s s
| run_cons e es s s1 s2 : node_step e s s1 → node_run es s1 s2 → node_run (e :: es) s s2.

(** ** Lemmas *)

(** *** Sets of record maps *)

(** The records are one of [P]. *)
Definition some_recs (P : gmap string PodNetwork → Prop) s : Prop := ∃ m, recs m s ∧ P m.

Lemma some_recs_of {A} P (p : M S A) : (∀ m, maintains (recs m) p) → maintains (some_recs P) p.
Proof. intros Hp s (m & Hm & HP). exists m. split; [by apply Hp|done]. Qed.

Lemma maintains_and {A} (I J : S → Prop) (p : M S A) :
  maintains I p → maintains J p → maintains (λ s, I s ∧ J s) p.
Proof. intros HI HJ s [? ?]. split; [by apply HI|by apply HJ]. Qed.

Lemma maintains_deferred {A} (I : S → Prop) (fin : M S unit) (body : M S A) :
  maintains I fin → maintains I body → maintains I (deferred fin body).
Proof.
  intros Hf Hb s Hs. specialize (Hb s Hs). unfold deferred. destruct (body s) as [o s1]. simpl in Hb.
  specialize (Hf s1 Hb). destruct o; [..|exact Hb]; by destruct (fin s1) as [[] ?].
Qed.

(** The lock changes the process only. *)
Lemma wp_locked_all {A} (I : S → Prop) (body : M S A) s :
  (∀ v s, I s → I (c_set_proc v s)) →
  (∀ v, wp body (λ _ s', I s') (c_set_proc v s)) → I s → wp (locked body) (λ _ s', I s') s.
Proof.
  intros HI Hb Hs. unfold locked. wp_step. apply wp_c_proc, run_wp. intros o v _.
  destruct o as [[]|e|w|]; cbn [kont]; [|by apply HI..].
  apply wp_deferred. eapply wp_mono; [apply Hb|]. intros o s1 H1.
  assert (wp (c_proc releaseLock) (λ _ s', I s') s1) as Hr by (apply wp_c_proc, run_wp; intros; by apply HI).
  destruct o; [..|done]; (eapply wp_mono; [exact Hr|]); by intros [] s2 H2.
Qed.

(** *** ADD *)

(** The records after an ADD for the key [k] from [m]. *)
Definition added_at (k : string) m m' : Prop :=
  m' = m ∨ ∃ pn, record_key pn = k ∧ m' = <[k := pn]> m.

Lemma add_record_spec n ns sb pn m s :
  record_key pn = PodKey n ns sb → some_recs (added_at (PodKey n ns sb) m) s →
  wp (addPodNetworkRecord n ns sb pn) (λ _ s', some_recs (added_at (PodKey n ns sb) m) s') s.
Proof.
  intros Hk (m1 & Hm1 & H1). eapply wp_mono; [by apply (addPodNetworkRecord_spec _ _ _ _ _ m1)|].
  intros o s' [Hr|[Hr _]]; [|by exists m1]. eexists. split; [exact Hr|]. right. exists pn. split; [done|].
  destruct H1 as [->|(pn' & _ & ->)]; [done|]. by rewrite insert_insert_eq.
Qed.

Lemma finish_add_records args conf n ns netNS sb pn added m :
  record_key pn = PodKey n ns sb →
  maintains (some_recs (added_at (PodKey n ns sb) m)) (finish_add args conf n ns netNS sb pn added : M S unit).
Proof.
  intros Hk. assert (∀ links m1, maintains (recs m1) (link_routes links : M S _)) as Hl.
  { intros links m1. induction links as [|l links IH]; cbn [link_routes]; solve_recs. }
  assert (∀ e, maintains (some_recs (added_at (PodKey n ns sb) m)) (return_err pn added e : M S unit)) as He
    by (intros e; apply some_recs_of; intros m1; apply return_err_recs).
  unfold finish_add. apply maintains_bind.
  { apply some_recs_of. intros m1. unfold parseDNSConfig. solve_recs. by intros s0. }
  intros dns. apply maintains_bind; [apply some_recs_of; intros m1; unfold getRoutes; solve_recs|].
  intros [routes err]. apply maintains_bind; [apply maintains_attempt; intros s Hs; by apply add_record_spec|].
  intros [e|[]]; [apply He|]. apply maintains_bind; [apply some_recs_of; intros m1; solve_recs|].
  intros [e|[]]; [apply He|apply maintains_ret].
Qed.

Lemma add_pod_records args conf n ns netNS sb asg pn m :
  pa_network asg = Some pn → record_key pn = PodKey n ns sb →
  maintains (λ s, named s ∧ some_recs (added_at (PodKey n ns sb) m) s)
    (add_pod CNIVersion args conf n ns netNS sb asg : M S unit).
Proof.
  intros Ha Hk s. unfold add_pod. rewrite Ha. revert s.
  change (maintains (λ s, named s ∧ some_recs (added_at (PodKey n ns sb) m) s)
    (added ← wire_pod CNIVersion n ns netNS sb asg pn; finish_add args conf n ns netNS sb pn added : M S unit)).
  apply maintains_bind.
  - apply maintains_and; [apply wire_pod_named|]. apply some_recs_of. intros m1. apply wire_pod_recs.
  - intros added. apply maintains_and; [apply finish_add_named|by apply finish_add_records].
Qed.

(** A part of a command that touches neither rules without a table nor records. *)
Lemma wp_quiet_step {A B} (I : gmap string PodNetwork → S → Prop) m (p : M S A) (k : A → M S B) s :
  maintains named p → (∀ m, maintains (recs m) p) → named s → recs m s →
  (∀ s', named s' → recs m s' → I m s') →
  (∀ a s', named s' → recs m s' → wp (k a) (λ _ s', I m s') s') →
  wp (x ← p; k x) (λ _ s', I m s') s.
Proof.
  intros Hn Hr Hns Hm HI Hk. wp_step. eapply wp_mono.
  { apply (wp_maintains_of named); [exact Hn|exact Hns|]. by apply (wp_maintains (recs m)). }
  intros o s' [Hm' Hn']. destruct o; cbn [kont]; auto.
Qed.

Lemma parse_maintains (I : S → Prop) data : maintains I (ParsePlugin data : M S Plugin).
Proof. unfold ParsePlugin. apply maintains_with_msg. by intros s. Qed.

Definition after_add (k : string) m s : Prop := named s ∧ some_recs (added_at k m) s.

Lemma cmdAdd_records args m s :
  named s → recs m s → wp (cmdAdd CNIVersion args) (λ _ s', after_add (args_key args) m s') s.
Proof.
  intros Hn Hm. assert (∀ s', named s' → recs m s' → after_add (args_key args) m s') as Hq.
  { intros s' Hn' Hm'. split; [done|]. exists m. split; [done|by left]. }
  apply wp_locked_all; [done| |by apply Hq]. intros v.
  change (named (c_set_proc v s)) in Hn. change (recs m (c_set_proc v s)) in Hm.
  set (s0 := c_set_proc v s) in *. clearbody s0. clear s v.
  apply (wp_quiet_step (after_add (args_key args))); [apply maintains_with_msg, parse_maintains|intros m1; apply maintains_with_msg, parse_maintains|done|done|done|]. intros conf s Hn1 Hm1. clear s0 Hn Hm.
  apply (wp_quiet_step (after_add _)); [apply named_ipt|intros ?; apply recs_ipt|done|done|done|]. intros _ s1 Hn Hm. clear s Hn1 Hm1.
  apply (wp_quiet_step (after_add _)); [apply named_proc|intros ?; apply recs_proc|done|done|done|]. intros netNS s Hn1 Hm1. clear s1 Hn Hm.
  unfold args_key, args_pod, args_ns, args_sandbox. set (n := arg _ "K8S_POD_NAME"). set (ns := arg _ "K8S_POD_NAMESPACE").
  set (sb := arg _ "K8S_POD_INFRA_CONTAINER_ID"). do 2 wp_step. eapply wp_mono.
  { apply (wp_maintains_of named); [apply assignPodIp_named|done|by apply assignPodIp_spec]. }
  intros o s1 [[Hm Ha] Hn]. destruct o as [asg|e|w|]; cbn [kont]; [|by apply Hq..].
  destruct (Ha _ eq_refl) as (_ & pn & Hpn & Hk). by apply (add_pod_records _ _ _ _ _ _ _ pn), Hq.
Qed.

(** *** DEL *)

Definition removed_at (k : string) m m' : Prop := m' = m ∨ m' = delete k m.
Definition after_del (k : string) m s : Prop := named s ∧ some_recs (removed_at k m) s.

Lemma forget_pod_records n ns sb pn m :
  maintains (some_recs (removed_at (PodKey n ns sb) m)) (forget_pod n ns sb pn : M S unit).
Proof.
  unfold forget_pod. apply maintains_bind; [apply some_recs_of; intros m1; solve_recs|]. intros _.
  apply maintains_bind; [apply some_recs_of; intros m1; solve_recs|]. intros _. apply maintains_bind.
  { apply some_recs_of. intros m1. apply maintains_with_msg, releasePodIp_recs. }
  intros _. apply maintains_ignore. intros s (m1 & Hm1 & H1).
  change (wp (c_node (delPodNetworkRecord n ns sb)) (λ _ s', some_recs (removed_at (PodKey n ns sb) m) s') s). apply wp_c_node.
  eapply wp_mono; [by apply (delPodNetworkRecord_spec _ _ _ _ m1)|]. intros o g [_ [Hg|[Hg _]]]; [|by exists m1].
  exists (delete (PodKey n ns sb) m1). split; [done|]. right.
  destruct H1 as [->| ->]; [done|]. by rewrite delete_delete_eq.
Qed.

Lemma cmdDel_records args m s :
  named s → recs m s → wp (cmdDel args) (λ _ s', after_del (args_key args) m s') s.
Proof.
  intros Hn Hm. assert (∀ s', named s' → recs m s' → after_del (args_key args) m s') as Hq.
  { intros s' Hn' Hm'. split; [done|]. exists m. split; [done|by left]. }
  apply wp_locked_all; [done| |by apply Hq]. intros v.
  change (named (c_set_proc v s)) in Hn. change (recs m (c_set_proc v s)) in Hm.
  set (s0 := c_set_proc v s) in *. clearbody s0. clear s v.
  apply (wp_quiet_step (after_del (args_key args))); [apply parse_maintains|intros m1; apply parse_maintains|done|done|done|]. intros conf s Hn1 Hm1. clear s0 Hn Hm.
  apply (wp_quiet_step (after_del _)); [apply named_proc|intros ?; apply recs_proc|done|done|done|]. intros netNS s1 Hn Hm. clear s Hn1 Hm1.
  unfold args_key, args_pod, args_ns, args_sandbox in *. set (n := arg _ "K8S_POD_NAME") in *. set (ns := arg _ "K8S_POD_NAMESPACE") in *.
  set (sb := arg _ "K8S_POD_INFRA_CONTAINER_ID") in *.
  apply (wp_quiet_step (after_del _)); [apply maintains_attempt, named_node| |done|done|done|].
  { intros m1. apply maintains_attempt, recs_node, get_maintains. }
  intros [e|pn] s Hn1 Hm1; [wp_step; by apply Hq|]. clear s1 Hn Hm.
  assert (maintains (after_del (PodKey n ns sb) m)
    (match pn with
     | Some pn => if negb (String.eqb (pn_VPCIP pn) "") then forget_pod n ns sb pn else mret tt
     | None => mret tt
     end;; del_pod args conf netNS : M S unit)) as Hend; [|by apply Hend, Hq].
  apply maintains_bind; [|intros _].
  - destruct pn as [pn|]; [|apply maintains_ret]. destruct (negb _); [|apply maintains_ret].
    apply maintains_and; [apply forget_pod_named|apply forget_pod_records].
  - apply maintains_and; [apply del_pod_named|]. apply some_recs_of. intros m1. unfold del_pod. solve_recs.
Qed.

(** *** Steps *)

Lemma insert_agree k pn m : agree_off {[k]} m (<[k := pn]> m).
Proof. intros k' Hk. apply lookup_insert_ne. set_solver. Qed.
Lemma delete_agree k m : agree_off {[k]} m (delete k m).
Proof. intros k' Hk. apply lookup_delete_ne. set_solver. Qed.
Lemma insert_keyed k pn m : record_key pn = k → keyed m → keyed (<[k := pn]> m).
Proof. intros Hk Hm. by apply map_Forall_insert_2. Qed.
Lemma delete_keyed k m : keyed m → keyed (delete k m).
Proof. intros Hm. by apply map_Forall_delete. Qed.

(** What events with keys [X] and additions [Y] leave of the records. *)
Definition records_after X Y m s : Prop :=
  named s ∧ ∃ m', recs m' s ∧ keyed m' ∧ agree_off X m m' ∧ dom m' ⊆ dom m ∪ Y.

(** One step, on the records. *)
Lemma node_step_records e s s' m :
  node_step e s s' → named s → recs m s → keyed m → records_after (event_keys e) (event_adds e) m s'.
Proof.
  intros Hs Hn Hm Hk. destruct Hs as [args s|args s|X s s' [Hon Hor]]; cbn [event_keys event_adds].
  - destruct (cmdAdd_records args m s Hn Hm) as (Hn' & m' & Hm' & [->|(pn & Hpn & ->)]); (split; [done|]);
      eexists; (split; [exact Hm'|]); [split_and!; [done..|set_solver]|].
    split_and!; [by apply insert_keyed|apply insert_agree|rewrite dom_insert; set_solver].
  - destruct (cmdDel_records args m s Hn Hm) as (Hn' & m' & Hm' & [-> | ->]); (split; [done|]);
      eexists; (split; [exact Hm'|]); [split_and!; [done..|set_solver]|].
    split_and!; [by apply delete_keyed|apply delete_agree|rewrite dom_delete; set_solver].
  - split; [by apply Hon|]. destruct (Hor m Hm) as (m' & Hm' & Ha & Hd & Hk'). exists m'. split_and!; auto.
    set_solver.
Qed.

Lemma node_run_records es s s' m :
  node_run es s s' → named s → recs m s → keyed m → records_after (events_keys es) (events_adds es) m s'.
Proof.
  intros Hrun. revert m. induction Hrun as [s|e es s s1 s2 Hs _ IH]; intros m Hn Hm Hk.
  { split; [done|]. exists m. split_and!; [done..|set_solver]. }
  destruct (node_step_records _ _ _ _ Hs Hn Hm Hk) as (Hn1 & m1 & Hm1 & Hk1 & Ha1 & Hd1).
  destruct (IH m1 Hn1 Hm1 Hk1) as (Hn2 & m2 & Hm2 & Hk2 & Ha2 & Hd2). split; [done|]. exists m2.
  unfold events_keys, events_adds in *. cbn [fmap list_fmap union_list foldr] in *. split_and!; [done|done| |clear -Hd1 Hd2; set_solver].
  intros k Hin. rewrite Ha2, Ha1; [done|set_solver..].
Qed.

(** After an ADD that succeeded. *)
Lemma cmdAdd_step args s0 s1 m :
  named s0 → recs m s0 → keyed m → cmdAdd CNIVersion args s0 = (Ok tt, s1) →
  named s1 ∧ ∃ pn, recs (<[args_key args := pn]> m) s1 ∧ keyed (<[args_key args := pn]> m) ∧
    record_key pn = args_key args ∧
    (canonical_ip (pn_VPCIP pn) → ∃ netNS nic, pod_wired (args_pod args) (args_ns args) netNS nic pn s1).
Proof.
  intros Hn Hm Hk Hadd. destruct (cmdAdd_records args m s0 Hn Hm) as [Hn1 _]. rewrite Hadd in Hn1. split; [exact Hn1|].
  pose proof (wp_run _ _ _ _ _ (cmdAdd_spec CNIVersion args m s0 Hm Hn) Hadd) as [Hok _].
  destruct (Hok eq_refl) as (pn & netNS & Hpn & Hm1 & Hw). exists pn. split; [exact Hm1|].
  split; [by apply insert_keyed|]. split; [exact Hpn|]. intros Hip. destruct (Hw Hip) as [nic Hnic]. by exists netNS, nic.
Qed.

(** An ADD, events that are not about its pod, and a DEL of the pod. *)
Lemma lifecycle_spec args args' es s0 s1 s2 m :
  named s0 → recs m s0 → keyed m →
  cmdAdd CNIVersion args s0 = (Ok tt, s1) →
  node_run es s1 s2 → args_key args ∉ events_keys es → args_key args' = args_key args →
  ∃ pn m2, record_key pn = args_key args ∧ recs (<[args_key args := pn]> m) s1 ∧
    (canonical_ip (pn_VPCIP pn) → ∃ netNS nic, pod_wired (args_pod args) (args_ns args) netNS nic pn s1) ∧
    recs m2 s2 ∧ m2 !! args_key args = Some pn ∧ agree_off (events_keys es) (<[args_key args := pn]> m) m2 ∧
    wp (cmdDel args') (λ o s3, returns o = true →
      (recs m2 s3 ∨ (recs (delete (args_key args) m2) s3 ∧ given_back (args_pod args') (args_ns args') (args_sandbox args') pn (deleted_at args' s2) s3)) ∧
      others (pn_VPCIP pn) (cn_rules s3) = others (pn_VPCIP pn) (cn_rules s2) ∧
      (o = Ok tt → given_back (args_pod args') (args_ns args') (args_sandbox args') pn (deleted_at args' s2) s3 ∨
         (cn_rules s3 = cn_rules s2 ∧ (unread (args_pod args') (args_ns args') (args_sandbox args') (cn_node s2) ∨ pn_VPCIP pn = "")))) s2.
Proof.
  intros Hn Hm Hk Hadd Hrun Hout Hkey.
  destruct (cmdAdd_step args s0 s1 m Hn Hm Hk Hadd) as (Hn1 & pn & Hm1 & Hk1 & Hpn & Hw).
  destruct (node_run_records es s1 s2 _ Hrun Hn1 Hm1 Hk1) as (_ & m2 & Hm2 & _ & Ha & _).
  assert (m2 !! args_key args = Some pn) as Hl by (rewrite Ha by done; apply lookup_insert_eq).
  exists pn, m2. split; [done|]. split; [done|]. split; [done|].
  split; [done|]. split; [done|]. split; [done|].
  eapply wp_mono; [by apply (cmdDel_spec args' m2)|]. intros o s3 Hd Hret. specialize (Hd Hret).
  change (PodKey _ _ _) with (args_key args') in Hd. rewrite Hkey, Hl in Hd. destruct Hd as [Hr Ho]. split; [|exact Ho].
  destruct Hr as [Hr|(pn' & [= <-] & Hg & Hr)]; [by left|by right].
Qed.
End node.
