(* ===== verification/CniDaemon.v ===== *)
(** The plugin and the daemon put together.  A [Daemon] is the state of the node
    service with a flag that says whether its process runs; the gRPC calls of the
    plugin run the handlers of [IpamdRpc] on it, and the plugin can open the bolt
    file only when the process is gone.  The instance of [RecordLaws] says that the
    daemon keeps what [CniBase] assumes of it: the calls act on the record bucket as
    on a finite map, and assigning or releasing an address never touches a record. *)
From S2P Require Export CniAlloc IpamdRpc.

(** ** Definitions *)

Record Daemon (D K E : Type) : Type := mkDaemon { dm_up : bool; dm_st : St Bolt D K E }.
Arguments mkDaemon {D K E} _ _.
Arguments dm_up {D K E} _.
Arguments dm_st {D K E} _.

Section daemon.
Context {D K E : Type} `{!BoltApi D, !JsonCodec PodNetwork, !JsonCodec CooldownItem}
  `{!KubeApi K, !CloudApi E, !GoRuntime E, !RetryApi}.
#[local] Abbreviation G := (Daemon D K E).

Definition dm_file (g : G) : D := st_db (dm_st g).
Definition dm_set_file (d : D) (g : G) : G := mkDaemon (dm_up g) (set_db d (dm_st g)).

(** The file, as the plugin sees it once it has opened it. *)
Definition on_file {A} (f : D → A * D) (g : G) : A * G :=
  let '(a, d) := f (dm_file g) in (a, dm_set_file d g).
#[global] Instance Daemon_file : BoltApi G := {
  bolt_create_bucket b := on_file (bolt_create_bucket b);
  bolt_has_bucket b g := bolt_has_bucket b (dm_file g);
  bolt_put b k v := on_file (bolt_put b k v);
  bolt_delete b k := on_file (bolt_delete b k);
  bolt_begin_read := on_file bolt_begin_read;
  bolt_get b k g := bolt_get b k (dm_file g);
  bolt_cursor b g := bolt_cursor b (dm_file g);
  bolt_keyN b g := bolt_keyN b (dm_file g)
}.

(** A call of the service: the status error of the handler is the error of the call,
    and a handler that panics takes the process down. *)
Definition serve {A} (handler : M (St Bolt D K E) (reply A)) : Call G (Response A) := λ g,
  if dm_up g then
    match handler (dm_st g) with
    | (Ok (r, None), s) => (inr r, mkDaemon true s)
    | (Ok (_, Some _), s) => (inl (ExtErr "rpc status error"), mkDaemon true s)
    | (Err e, s) => (inl e, mkDaemon true s)
    | (Panic _, s) => (inl (ExtErr "connection lost"), mkDaemon false s)
    | (Diverge, s) => (inl (ExtErr "deadline exceeded"), mkDaemon true s)
    end
  else (inl (ExtErr "connection refused"), g).

(** A call that only asks whether the daemon is there. *)
Definition serve_up {A} (a : A) : Call G A := λ g,
  (if dm_up g then inr a else inl (ExtErr "connection refused"), g).

(** [grpc.Dial] does not wait for the connection, so it succeeds either way. *)
#[global] Instance Daemon_client : IpamdClient G := {
  grpc_Dial g := (inr tt, g);
  ig_Ping := serve_up tt;
  ig_SupportMultiSubnet := serve_up true;
  ig_AddPodNetwork req := serve (AddPodNetwork req);
  ig_DelPodNetwork pn := serve (DelPodNetwork pn);
  ig_AddPodNetworkRecord pn := serve (AddPodNetworkRecord pn);
  ig_DelPodNetworkRecord n ns sb := serve (DelPodNetworkRecord n ns sb);
  ig_GetPodNetworkRecord n ns sb := serve (GetPodNetworkRecord n ns sb);
  ig_ListPodNetworkRecord := serve ListPodNetworkRecord;
  bolt_Open g := (if dm_up g then inl (ExtErr "timeout") else inr tt, g)
}.
End daemon.

(** ** Lemmas *)

Section props.
Context {D K E : Type} `{!BoltApi D, !BoltLaws D}
  `{!JsonCodec PodNetwork, !JsonCodec CooldownItem, !JsonLaws PodNetwork, !JsonLaws CooldownItem}
  `{!KubeApi K, !KubeLaws K, !CloudApi E, !VpcLaws E, !GoRuntime E, !GoRuntimeLaws E, !RetryApi, !RetryLaws}.
#[local] Abbreviation G := (Daemon D K E).
Implicit Types (g : G) (m : gmap string PodNetwork).

#[local] Instance Daemon_file_laws : BoltLaws G.
Proof.
  refine {| bolt_view := λ g : G, bolt_view (dm_file g) |}; intros; cbn; unfold on_file.
  - apply bolt_has_bucket_view.
  - pose proof (bolt_create_view b (dm_file d)) as V. by destruct (bolt_create_bucket b (dm_file d)).
  - pose proof (bolt_put_view b k v (dm_file d) raw ltac:(done)) as V. by destruct (bolt_put b k v (dm_file d)).
  - pose proof (bolt_put_blank b v (dm_file d)) as V. by destruct (bolt_put b "" v (dm_file d)).
  - pose proof (bolt_delete_view b k (dm_file d) raw ltac:(done)) as V. by destruct (bolt_delete b k (dm_file d)).
  - pose proof (bolt_begin_read_view (dm_file d)) as V. by destruct (bolt_begin_read (dm_file d)).
  - by apply bolt_get_view.
  - by apply bolt_cursor_view.
  - by apply bolt_keyN_view.
  - by eapply bolt_view_blank.
Defined.

(** The daemon is in order and its record bucket holds [m]. *)
Definition dm_records g m : Prop :=
  ∃ c : ipamServer Bolt, 0 ≤ AvailablePodIPHighWatermark c ∧ ok_state (λ n, n = m) c (dm_st g).

(** *** The handlers that assign and release *)

Lemma release_ok N c pn : leaves (keeps_ok N c) (backupReleaseSecondaryIP pn : M (St Bolt D K E) unit).
Proof.
  apply leaves_of_wp. intros s a Hr Hc Ha Hn. eapply wp_mono; [by apply backupRelease_spec|].
  intros o s' [_ Hr']. by exists a.
Qed.
Lemma annotate_ok N c p pn : leaves (keeps_ok N c) (setAnnotationForCalicoPolicy p pn : M (St Bolt D K E) unit).
Proof. apply leaves_k8s_ok. unfold setAnnotationForCalicoPolicy, setPodAnnotation. solve_leaves. apply leaves_retry; [apply _|apply leaves_in_k8s]. Qed.

Lemma AddPodNetwork_ok N c req :
  0 ≤ AvailablePodIPHighWatermark c →
  leaves (keeps_ok N c) (AddPodNetwork req : M (St Bolt D K E) (reply (option PodNetwork))).
Proof.
  intros Hh. unfold AddPodNetwork.
  apply leaves_bind; [apply _|apply leaves_attempt, leaves_k8s_ok, leaves_in_k8s|]. intros [e|p]; [apply leaves_ret, _|].
  apply leaves_bind; [apply _|by apply manager_round_ok|]. intros [|[e|pn]|]; try apply leaves_ret, _.
  apply leaves_bind; [apply _|apply leaves_attempt, annotate_ok|]. intros [e|[]]; [|apply leaves_ret, _].
  apply leaves_bind; [apply _|apply release_ok|]. intros; apply leaves_ret, _.
Qed.
Lemma DelPodNetwork_ok N c pn :
  0 ≤ AvailablePodIPHighWatermark c →
  leaves (keeps_ok N c) (DelPodNetwork pn : M (St Bolt D K E) (reply unit)).
Proof.
  intros Hh. unfold DelPodNetwork. destruct pn; [|apply leaves_ret, _].
  apply leaves_bind; [apply _|by apply manager_round_ok|]. intros; apply leaves_ret, _.
Qed.

(** *** The calls *)

(** What a call of the service may end in, from what its handler may. *)
Lemma serve_spec {A} (h : M (St Bolt D K E) (reply A)) (Q : outcome (Response A) → G → Prop) g :
  (dm_up g = false → ∀ e, Q (Err e) g) →
  wp h (λ o s, ∀ up,
    (∀ e, (∀ r, o ≠ Ok (r, None)) → Q (Err e) (mkDaemon up s)) ∧
    (∀ r, o = Ok (r, None) → Q (Ok r) (mkDaemon up s))) (dm_st g) →
  wp (call (serve h)) Q g.
Proof.
  intros Hdown Hh. unfold wp, call, serve in *. destruct (dm_up g); [|by apply Hdown].
  destruct (h (dm_st g)) as [[[r [code|]]|e|w|] s]; simpl in *;
    first [by apply (Hh true)|by apply (Hh false)].
Qed.

(** The call of a handler that leaves the records alone. *)
Lemma serve_keeps {A} (h : M (St Bolt D K E) (reply A)) g m :
  (∀ c, 0 ≤ AvailablePodIPHighWatermark c → leaves (keeps_ok (λ n, n = m) c) h) →
  dm_records g m → wp (call (serve h)) (λ _ g', dm_records g' m) g.
Proof.
  intros Hl (c & Hc & Hok). apply serve_spec; [intros _ _; by exists c|].
  pose proof (Hl c Hc (dm_st g) Hok) as Hok'. unfold wp. intros up. split; intros; by exists c.
Qed.

(** An address that is handed out bears the name of its pod. *)
Lemma AddPodNetwork_key req (s : St Bolt D K E) :
  wp (AddPodNetwork req) (λ o _, ∀ r, o = Ok (r, None) → ∃ pn, resp_payload r = Some pn ∧
    record_key pn = PodKey (ar_PodName req) (ar_PodNamespace req) (ar_SandboxID req)) s.
Proof.
  unfold AddPodNetwork. do 2 wp_step. apply run_wp. intros o s1 _. destruct o as [p|e|w|]; cbn [kont]; [|wp_step; by intros ? [=]|by intros ? [=]..].
  wp_step. apply run_wp. intros o s2 _. destruct o as [[|[e|pn]|]|e|w|]; cbn [kont]; try wp_step; try (by intros ? [=]).
  wp_step. apply run_wp. intros o s3 _. destruct o as [[]|e|w|]; cbn [kont]; try (by intros ? [=]).
  - wp_step. intros r [= <-]. eexists. by split.
  - wp_step. apply run_wp. intros o s4 _. destruct o as [[]|e'|w|]; cbn [kont]; try wp_step; by intros ? [=].
Qed.

Lemma serve_AddPod req g m :
  dm_records g m →
  wp (call (serve (AddPodNetwork req))) (λ o g', dm_records g' m ∧
    ∀ r, o = Ok r → resp_Code r = CNISuccess → ∃ pn, resp_payload r = Some pn ∧
      record_key pn = PodKey (ar_PodName req) (ar_PodNamespace req) (ar_SandboxID req)) g.
Proof.
  intros (c & Hc & Hok). apply serve_spec; [intros _ e; split; [by exists c|by intros ? [=]]|].
  pose proof (AddPodNetwork_ok (λ n, n = m) c req Hc (dm_st g) Hok) as Hok'.
  pose proof (AddPodNetwork_key req (dm_st g)) as Hkey. unfold wp in *. intros up.
  split; intros; (split; [by exists c|]); [by intros ? [=]|]. intros r' [= <-] _. by apply Hkey.
Qed.

(** Good states after a change of the records. *)
Lemma dm_records_intro up s a c :
  rep s a → pool_consistent a → a_cfg a = c → 0 ≤ AvailablePodIPHighWatermark c →
  dm_records (mkDaemon up s : G) (a_net a).
Proof. intros. exists c. split; [done|]. by exists a. Qed.

Lemma serve_AddRecord pn g m :
  dm_records g m →
  wp (call (serve (AddPodNetworkRecord (Some pn)))) (λ o g',
    dm_records g' (<[record_key pn := pn]> m) ∨
    (dm_records g' m ∧ ∀ r, o = Ok r → resp_Code r ≠ CNISuccess)) g.
Proof.
  intros (c & Hc & a & Hr & Hp & Ha & <-).
  apply serve_spec; [intros _ e; right; split; [exists c; split; [done|by exists a]|by intros ? [=]]|].
  eapply wp_mono; [by apply AddPodNetworkRecord_spec|].
  intros o s' [[-> Hr']|[-> Hr']] up; pose proof (dm_records_intro up s' _ c Hr' Hp Ha Hc) as Hd; split.
  - intros e He. by destruct (He (mkResp CNISuccess tt)).
  - intros r _. by left.
  - intros e _. right. split; [exact Hd|by intros ? [=]].
  - by intros r [=].
Qed.

Lemma serve_DelRecord n ns sb g m :
  dm_records g m →
  wp (call (serve (DelPodNetworkRecord n ns sb))) (λ o g',
    dm_records g' (delete (PodKey n ns sb) m) ∨
    (dm_records g' m ∧ ∀ r, o = Ok r → resp_Code r ≠ CNISuccess)) g.
Proof.
  intros (c & Hc & a & Hr & Hp & Ha & <-).
  apply serve_spec; [intros _ e; right; split; [exists c; split; [done|by exists a]|by intros ? [=]]|].
  eapply wp_mono; [by apply DelPodNetworkRecord_spec|].
  intros o s' [[-> Hr']|[-> Hr']] up; pose proof (dm_records_intro up s' _ c Hr' Hp Ha Hc) as Hd; split.
  - intros e He. by destruct (He (mkResp CNISuccess tt)).
  - intros r _. by left.
  - intros e _. right. split; [exact Hd|by intros ? [=]].
  - by intros r [=].
Qed.

Lemma serve_GetRecord n ns sb g m :
  dm_records g m →
  wp (call (serve (GetPodNetworkRecord n ns sb))) (λ o g', dm_records g' m ∧
    ∀ r, o = Ok r → resp_Code r = CNISuccess → resp_payload r = m !! PodKey n ns sb) g.
Proof.
  intros (c & Hc & a & Hr & Hp & Ha & <-).
  apply serve_spec; [intros _ e; split; [exists c; split; [done|by exists a]|by intros ? [=]]|].
  eapply wp_mono; [by apply GetPodNetworkRecord_spec|].
  intros o s' [Hr' Ho] up. pose proof (dm_records_intro up s' _ c Hr' Hp Ha Hc) as Hd.
  split; [intros e _; split; [exact Hd|by intros ? [=]]|].
  intros r Hor. split; [exact Hd|]. intros r' [= <-] _. by destruct Ho as [->| ->]; injection Hor as <-.
Qed.

Lemma serve_ListRecord g m :
  dm_records g m →
  wp (call (serve ListPodNetworkRecord)) (λ o g', dm_records g' m ∧
    ∀ r, o = Ok r → resp_Code r = CNISuccess → resp_payload r ≡ₚ (map_to_list m).*2) g.
Proof.
  intros (c & Hc & a & Hr & Hp & Ha & <-).
  apply serve_spec; [intros _ e; split; [exists c; split; [done|by exists a]|by intros ? [=]]|].
  eapply wp_mono; [by apply ListPodNetworkRecord_spec|].
  intros o s' [Hr' Ho] up. pose proof (dm_records_intro up s' _ c Hr' Hp Ha Hc) as Hd.
  split; [intros e _; split; [exact Hd|by intros ? [=]]|].
  intros r Hor. split; [exact Hd|]. intros r' [= <-] _.
  destruct Ho as [(l & -> & Hl)| ->]; by injection Hor as <-.
Qed.

(** *** The file *)

(** What a direct access to the file leaves alone. *)
Definition dm_rest g := (dm_up g, st_srv (dm_st g), st_k8s (dm_st g), st_proc (dm_st g)).

Lemma keeping_on_file (f : D → option error * D) : keeping dm_rest (bolt_update (on_file f)).
Proof. intros g. unfold bolt_update, on_file. by destruct (f (dm_file g)) as [[] ?]. Qed.
Lemma keeping_pure {A} (o : outcome A) : keeping dm_rest (λ g, (o, g)).
Proof. done. Qed.
#[local] Hint Resolve keeping_on_file keeping_pure : keep.

Ltac solve_file := repeat (first [progress solve_keeping | apply keeping_on_file | apply keeping_pure]).

Lemma decode_keeping data : keeping dm_rest (decodeValue (T := PodNetwork) (D := G) data).
Proof. apply keeping_with_msg, keeping_pure. Qed.
Lemma entries_keeping l : keeping dm_rest (decode_entries (T := PodNetwork) (D := G) l).
Proof.
  induction l as [|[k v] l IH]; cbn [decode_entries]; [solve_file|].
  apply keeping_bind; [apply decode_keeping|]. intros x. apply keeping_bind; [exact IH|]. solve_file.
Qed.

(** The records after an access, from the view of the file. *)
Lemma dm_records_file g g' m m' :
  dm_records g m → dm_rest g' = dm_rest g →
  only_touches (D := G) (db_handle NetworkDBName) g g' →
  db_holds (T := PodNetwork) (db_handle NetworkDBName) g' m' → dm_records g' m'.
Proof.
  intros (c & Hc & a & Hr & Hp & Ha & <-) Hrest Ht Hd. exists c. split; [done|].
  exists (set_a_net m' a). split; [|done].
  pose proof (rep_set_net (dm_st g) a (dm_file g') m' Hr Ht Hd) as Hr'.
  unfold dm_rest in Hrest. destruct g' as [up [sv d k p]], g as [up0 [sv0 d0 k0 p0]]. simpl in *.
  by injection Hrest as -> -> -> ->.
Qed.

Lemma dm_records_holds g m : dm_records g m → db_holds (T := PodNetwork) (D := G) (db_handle NetworkDBName) g m.
Proof. intros (c & _ & a & Hr & _ & _ & <-). exact (rep_net _ _ Hr). Qed.

(** A direct access: its law, and what it leaves alone. *)
Lemma file_access {A} (p : M G A) (P Q : outcome A → G → Prop) g :
  wp p P g → keeping dm_rest p → (∀ o g', P o g' → dm_rest g' = dm_rest g → Q o g') → wp p Q g.
Proof. intros Hp Hk HQ. apply HQ; [exact Hp|apply Hk]. Qed.

Lemma file_New g m :
  dm_records g m →
  wp (NewBolt CNIVpcDbName) (λ o g', dm_records g' m ∧ (o = Ok recordBolt ∨ ∃ e, o = Err e)) g.
Proof.
  intros Hm. change (NewBolt CNIVpcDbName) with (db_New (T := PodNetwork) (H := Bolt) (D := G) NetworkDBName).
  refine (file_access _ _ _ _ (db_New_law (T := PodNetwork) (D := G) NetworkDBName g) _ _).
  { unfold NewBolt. solve_file. }
  intros o g' (Ht & Hh & Hc) Hk. split.
    + apply (dm_records_file g g' m m); try done. by apply Hh, dm_records_holds.
    + destruct Hc as [[-> _]|(e & -> & _)]; [by left|by right; exists e].
Qed.

Lemma file_Put k (v : PodNetwork) g m :
  dm_records g m →
  wp (Bolt_Put recordBolt k v) (λ o g', returns o = true ∧
    (dm_records g' (<[k := v]> m) ∨ (dm_records g' m ∧ o ≠ Ok tt))) g.
Proof.
  intros Hm. change (Bolt_Put recordBolt k v) with (db_Put (T := PodNetwork) (D := G) recordBolt k v).
  refine (file_access _ _ _ _ (db_Put_law (T := PodNetwork) (D := G) recordBolt k v g m (dm_records_holds g m Hm)) _ _).
  { unfold Bolt_Put. solve_file. }
  intros o g' (Ht & Hc) Hk.
    destruct Hc as [[-> Hd]|(e & -> & Hd)]; (split; [done|]); [left|right; split; [|done]];
      by eapply dm_records_file.
Qed.

Lemma file_Delete k g m :
  dm_records g m →
  wp (Bolt_Delete recordBolt k) (λ o g', returns o = true ∧
    (dm_records g' (delete k m) ∨ (dm_records g' m ∧ o ≠ Ok tt))) g.
Proof.
  intros Hm. change (Bolt_Delete recordBolt k) with (db_Delete (T := PodNetwork) (D := G) recordBolt k).
  refine (file_access _ _ _ _ (db_Delete_law (T := PodNetwork) (D := G) recordBolt k g m (dm_records_holds g m Hm)) _ _).
  { unfold Bolt_Delete. solve_file. }
  intros o g' (Ht & Hc) Hk.
    destruct Hc as [[-> Hd]|(e & -> & Hd)]; (split; [done|]); [left|right; split; [|done]];
      by eapply dm_records_file.
Qed.

Lemma file_Get k g m :
  dm_records g m →
  wp (Bolt_Get (T := PodNetwork) recordBolt k) (λ o g', returns o = true ∧ dm_records g' m ∧
    ∀ v, o = Ok v → m !! k = Some v) g.
Proof.
  intros Hm. change (Bolt_Get recordBolt k) with (db_Get (T := PodNetwork) (D := G) recordBolt k).
  refine (file_access _ _ _ _ (db_Get_law (T := PodNetwork) (D := G) recordBolt k g m (dm_records_holds g m Hm)) _ _).
  { unfold Bolt_Get, bolt_read. solve_file. }
  intros o g' (Ht & Hd & Hc) Hk.
    assert (dm_records g' m) by (by eapply dm_records_file).
    destruct Hc as [(v & -> & Hv)|[[-> _]|(e & -> & _)]]; split_and!; try done. by intros v' [= <-].
Qed.

Lemma file_List g m :
  dm_records g m →
  wp (Bolt_List (T := PodNetwork) recordBolt) (λ o g', returns o = true ∧ dm_records g' m ∧
    ∀ kvs, o = Ok kvs → Values kvs ≡ₚ (map_to_list m).*2) g.
Proof.
  intros Hm. change (Bolt_List recordBolt) with (db_List (T := PodNetwork) (D := G) recordBolt).
  refine (file_access _ _ _ _ (db_List_law (T := PodNetwork) (D := G) recordBolt g m (dm_records_holds g m Hm)) _ _).
  { unfold Bolt_List, bolt_read. solve_file. apply entries_keeping. }
  intros o g' (Ht & Hd & Hc) Hk.
    assert (dm_records g' m) by (by eapply dm_records_file).
    destruct Hc as [(kvs & -> & Hp)|(e & ->)]; split_and!; try done. intros kvs' [= <-].
    by apply Values_perm.
Qed.

Lemma asks {A} (f : G → error + A) g m : dm_records g m → wp (call (λ g, (f g, g))) (λ _ g', dm_records g' m) g.
Proof. intros Hm. unfold wp, call. by destruct (f g). Qed.

#[global] Instance Daemon_records : RecordLaws G.
Proof.
  refine {| records := dm_records |}.
  - done.
  - by apply asks.
  - by apply asks.
  - by apply asks.
  - apply serve_AddPod.
  - intros pn g m. apply serve_keeps. intros c. apply DelPodNetwork_ok.
  - apply serve_AddRecord.
  - apply serve_DelRecord.
  - apply serve_GetRecord.
  - apply serve_ListRecord.
  - intros g m Hm. apply file_New; done.
  - apply file_Put.
  - apply file_Delete.
  - apply file_Get.
  - apply file_List.
Defined.

(** ** Theorems *)

(** The process of the daemon is started or stopped. *)
Definition dm_switch (up : bool) g : G := mkDaemon up (dm_st g).

Lemma dm_switch_records up g m : dm_records g m → dm_records (dm_switch up g) m.
Proof. done. Qed.

(** C19: A record that the plugin stored without an error, through the daemon or in the
    file, is what it reads back later, through the daemon or from the file, whether the
    process of the daemon was started or stopped in between; a listing shows exactly the
    stored records. *)
Theorem records_shared {E' T N K'} `{!CloudApi E', !GoRuntime E', !UniApi E'} n ns sb pn m (s : Cni E' T N K' G) :
  recs m s → record_key pn = PodKey n ns sb →
  wp (addPodNetworkRecord n ns sb pn) (λ o s', o = Ok tt → ∀ up,
    wp (getPodNetworkRecord n ns sb) (λ o' _, ∀ p, o' = Ok p → p = Some pn) (dm_switch up (cn_node s')) ∧
    wp listPodNetworkRecords (λ o' _, ∀ l, o' = Ok l → l ≡ₚ (map_to_list (<[PodKey n ns sb := pn]> m)).*2)
      (dm_switch up (cn_node s'))) s.
Proof.
  intros Hm Hk. eapply wp_mono; [by apply (addPodNetworkRecord_spec _ _ _ _ _ m)|].
  intros o s' [Hr|[_ ?]]; [|done]. intros _ up. apply (dm_switch_records up) in Hr. split.
  - eapply wp_mono; [by apply getPodNetworkRecord_spec|]. intros o' g (_ & _ & Hp) p Ho.
    by rewrite (Hp p Ho), lookup_insert_eq.
  - eapply wp_mono; [by apply listPodNetworkRecords_spec|]. by intros o' g (_ & _ & Hl).
Qed.
End props.
