(* ===== verification/CniLife.v ===== *)
(** The daemon between the commands of the plugin: the operations of [IpamdRpc] that
    run on a node while no command does are events of [CniNode], with the records that
    they may change. *)
From S2P Require Export CniNode CniDaemon.

(** ** Definitions *)

Section life.
Context {D K E : Type} `{!BoltApi D, !BoltLaws D}
  `{!JsonCodec PodNetwork, !JsonCodec CooldownItem, !JsonLaws PodNetwork, !JsonLaws CooldownItem}
  `{!KubeApi K, !KubeLaws K, !CloudApi E, !VpcLaws E, !GoRuntime E, !GoRuntimeLaws E, !RetryApi, !RetryLaws}.
#[local] Abbreviation G := (Daemon D K E).
Context {E' T N K' : Type} `{!CloudApi E', !GoRuntime E', !UniApi E', !LockApi E', !IptApi T, !IptMoreApi T, !HostApi T}
  `{!IpsetApi N, !IpsetLaws N, !SysfsApi N, !RuleApi N, !RuleLaws N, !RouteApi N, !RouteLaws N, !VethApi N, !VethLaws N}
  `{!KubeApi K', !CniKubeApi K', !JsonCodec Plugin}.
#[local] Abbreviation S := (Cni E' T N K' G).
Variable CNIVersion : string.
Implicit Types (s : S) (g : G) (m : gmap string PodNetwork).

(** An operation of the daemon. *)
Definition daemon_op (op : server_op) s : S :=
  let g := cn_node s in c_set_node (mkDaemon (dm_up g) (run_op op (dm_st g)).2) s.
(** Its process ends, or comes up again. *)
Definition daemon_switch (up : bool) s : S := c_set_node (dm_switch up (cn_node s)) s.

(** A pod of the list has the name and the uid of the record. *)
Definition claimed (pods : list Pod) (pn : PodNetwork) : bool :=
  negb (String.eqb (pn_PodUID pn) "") &&
  existsb (λ p, record_of_pod p pn && String.eqb (pod_UID p) (pn_PodUID pn)) pods.

(** The records that a reconciliation may change: those of pods that the API server
    does not list with their uid. *)
Definition unclaimed m s : gset string :=
  match local_pods (dm_st (cn_node s)) with
  | Some pods => dom (filter (λ kv, claimed pods kv.2 = false) m)
  | None => ∅
  end.

(** A step of the node that is not about the pod [k]: a command for another pod, an
    operation of the daemon, its end or restart, a reconciliation to which the API server
    shows the pod, and changes outside plugin and daemon that add no policy rule without
    a table. *)
Inductive life_step (k : string) : S → S → Prop :=
| life_add args s : args_key args ≠ k → life_step k s (cmdAdd CNIVersion args s).2
| life_del args s : args_key args ≠ k → life_step k s (cmdDel args s).2
| life_op op s : pool_op op → life_step k s (daemon_op op s)
| life_switch up s : life_step k s (daemon_switch up s)
| life_reconcile s :
    (∀ m, recs m s → k ∉ unclaimed m s) → life_step k s (daemon_op OpReconcile s)
| life_outside s s' :
    cn_node s' = cn_node s → (named s → named s') → life_step k s s'.

(** *** The whole history of a node *)

Inductive node_event : Type :=
| NodeAdd (args : CmdArgs)
| NodeDel (args : CmdArgs)
| NodeOp (op : server_op)        (* a pool operation of the daemon *)
| NodeSwitch (up : bool)
| NodeReconcile
| NodeOutside.                   (* what changes neither daemon nor bolt file *)

Definition happens (e : node_event) s s' : Prop :=
  match e with
  | NodeAdd args => s' = (cmdAdd CNIVersion args s).2
  | NodeDel args => s' = (cmdDel args s).2
  | NodeOp op => pool_op op ∧ s' = daemon_op op s
  | NodeSwitch up => s' = daemon_switch up s
  | NodeReconcile => s' = daemon_op OpReconcile s
  | NodeOutside => cn_node s' = cn_node s ∧ (named s → named s')
  end.

(** Events, each with the state that it happened in. *)
Inductive history : list (node_event * S) → S → S → Prop :=
| history_nil s : history [] s s
| history_cons e h s s1 s2 : happens e s s1 → history h s1 s2 → history ((e, s) :: h) s s2.

(** The pods that an event is about, in a state with the records [m]. *)
Definition about (e : node_event) m s : gset string :=
  match e with
  | NodeAdd args | NodeDel args => {[args_key args]}
  | NodeReconcile => unclaimed m s
  | _ => ∅
  end.
(** No event of the history is about the pod. *)
Definition untouched (k : string) (h : list (node_event * S)) : Prop :=
  ∀ e s m, (e, s) ∈ h → recs m s → k ∉ about e m s.

(** ** Lemmas *)

Lemma dm_records_fun g m m' : dm_records g m → dm_records g m' → m = m'.
Proof. intros H1 H2. exact (db_holds_fun _ _ _ _ (dm_records_holds g m H1) (dm_records_holds g m' H2)). Qed.

(** Pool rounds, lending and releases are events that change no record. *)
Lemma pool_op_event op s : pool_op op → other_ok ∅ s (daemon_op op s).
Proof.
  intros Hop. split; [done|]. intros m (c & Hc & Hok). exists m. split; [|done].
  exists c. split; [done|]. by apply (pool_op_ok (λ n, n = m) c op).
Qed.
Lemma switch_event up s : other_ok ∅ s (daemon_switch up s).
Proof. split; [done|]. intros m Hm. exists m. split; [|done]. exact Hm. Qed.

Lemma claimed_owned pods pn : claimed pods pn = true → pn_PodUID pn ≠ "" ∧ owned pods pn.
Proof.
  intros [Hu He]%andb_true_iff. apply negb_true_iff, String.eqb_neq in Hu. split; [done|].
  apply existsb_exists in He as (p & Hin & [Hr Hp]%andb_true_iff). exists p. split; [by apply list_elem_of_In|].
  split; [done|]. left. by apply String.eqb_eq.
Qed.

(** A reconciliation is an event for the unclaimed records. *)
Lemma reconcile_event m s : recs m s → other_ok (unclaimed m s) s (daemon_op OpReconcile s).
Proof.
  intros Hm. split; [done|]. intros m0 Hm0. rewrite (dm_records_fun _ _ _ Hm0 Hm). clear m0 Hm0.
  destruct Hm as (c & Hc & a & Hr & Hp & Ha & Hnet).
  pose proof (doReconcile_spec (dm_st (cn_node s)) a Hr) as (_ & n & Hr' & Hn). rewrite Hnet in Hn.
  exists n. split; [|split; [|split]].
  - exists c. split; [done|]. eexists. split; [exact Hr'|]. split_and!; [|done..].
    by apply pool_consistent_k8s.
  - unfold unclaimed. destruct Hn as [->|(pods & -> & Hd & Hrec)]; [done|]. intros k Hk.
    destruct (m !! k) as [pn|] eqn:Ek; [|apply not_elem_of_dom; apply not_elem_of_dom in Ek; set_solver].
    destruct (claimed pods pn) eqn:Ec.
    2:{ destruct Hk. apply elem_of_dom. exists pn. by apply map_lookup_filter_Some. }
    apply claimed_owned in Ec as [Hu Ho]. destruct (Hrec k pn Ek) as [?|[(p & _ & _ & ? & _)|(_ & _ & ?)]]; done.
  - by destruct Hn as [->|(pods & _ & Hd & _)].
  - intros Hk. destruct Hn as [->|(pods & _ & Hd & Hrec)]; [done|]. intros k v Hv.
    assert (is_Some (m !! k)) as [pn Ek] by (apply elem_of_dom, Hd, elem_of_dom; by exists v).
    specialize (Hk k pn Ek). destruct (Hrec k pn Ek) as [H1|[(p & _ & _ & _ & H1)|(H1 & _)]]; [congruence| |congruence].
    rewrite Hv in H1. injection H1 as ->. exact Hk.
Qed.

(** Such steps are events that are not about the pod. *)
Lemma life_run k s s' m :
  rtc (life_step k) s s' → named s → recs m s → keyed m →
  ∃ es, node_run CNIVersion es s s' ∧ k ∉ events_keys es.
Proof.
  intros Hrun. revert m. induction Hrun as [s|s s1 s' Hs _ IH]; intros m Hn Hm Hk.
  { exists []. split; [constructor|]. unfold events_keys. set_solver. }
  assert (∃ e, node_step CNIVersion e s s1 ∧ k ∉ event_keys e) as (e & He & Hke).
  { destruct Hs as [args s Ha|args s Ha|op s Hop|up s|s Hc|s s3 Hnode Hn'].
    - exists (EvAdd args). split; [constructor|cbn; set_solver].
    - exists (EvDel args). split; [constructor|cbn; set_solver].
    - exists (EvOther ∅). split; [by constructor; apply pool_op_event|cbn; set_solver].
    - exists (EvOther ∅). split; [constructor; apply switch_event|cbn; set_solver].
    - exists (EvOther (unclaimed m s)). split; [by constructor; apply reconcile_event|by apply Hc].
    - exists (EvOther ∅). split; [|cbn; set_solver]. constructor. split; [done|].
      intros m0 Hm0. exists m0. split; [|done]. unfold recs in *. by rewrite Hnode. }
  destruct (node_step_records _ _ _ _ _ He Hn Hm Hk) as (Hn1 & m1 & Hm1 & Hk1 & _).
  destruct (IH m1 Hn1 Hm1 Hk1) as (es & Hes & Hkes). exists (e :: es). split; [by econstructor|].
  unfold events_keys in *. cbn [fmap list_fmap union_list foldr] in *. set_solver.
Qed.

(** What happens is an event of [CniNode]. *)
Lemma happens_step e s s' m :
  happens e s s' → recs m s →
  ∃ e', node_step CNIVersion e' s s' ∧ event_keys e' ⊆ about e m s ∧
    event_adds e' ⊆ match e with NodeAdd args => {[args_key args]} | _ => ∅ end.
Proof.
  intros Hs Hm. destruct e as [args|args|op|up| |]; cbn [happens about] in *.
  - subst s'. exists (EvAdd args). by split; [constructor|].
  - subst s'. exists (EvDel args). by split; [constructor|].
  - destruct Hs as [Hop ->]. exists (EvOther ∅). split; [by constructor; apply pool_op_event|done].
  - subst s'. exists (EvOther ∅). split; [constructor; apply switch_event|done].
  - subst s'. exists (EvOther (unclaimed m s)). split; [by constructor; apply reconcile_event|by split].
  - destruct Hs as [Hn Ho]. exists (EvOther ∅). split; [|done]. constructor. split; [done|].
    intros m0 Hm0. exists m0. split; [|done]. unfold recs in *. by rewrite Hn.
Qed.

(** ** Theorems *)

(** C5: A pod that was added successfully is deleted with the very network that its ADD
    recorded and wired, whatever commands of other pods and operations of the daemon, a
    restart or a reconciliation that sees the pod included, came in between: the DEL
    changes the policy rules of that address only, drops the record only after the
    address was given back, and succeeds only then, unless the record could not be read
    or had no address. *)
Theorem pod_lifecycle args args' s0 s1 s2 m :
  named s0 → recs m s0 → keyed m →
  cmdAdd CNIVersion args s0 = (Ok tt, s1) →
  rtc (life_step (args_key args)) s1 s2 → args_key args' = args_key args →
  ∃ pn m2, record_key pn = args_key args ∧ recs (<[args_key args := pn]> m) s1 ∧
    (canonical_ip (pn_VPCIP pn) → ∃ netNS nic, pod_wired (args_pod args) (args_ns args) netNS nic pn s1) ∧
    recs m2 s2 ∧ m2 !! args_key args = Some pn ∧
    wp (cmdDel args') (λ o s3, returns o = true →
      (recs m2 s3 ∨ (recs (delete (args_key args) m2) s3 ∧ given_back (args_pod args') (args_ns args') (args_sandbox args') pn (deleted_at args' s2) s3)) ∧
      others (pn_VPCIP pn) (cn_rules s3) = others (pn_VPCIP pn) (cn_rules s2) ∧
      (o = Ok tt → given_back (args_pod args') (args_ns args') (args_sandbox args') pn (deleted_at args' s2) s3 ∨
         (cn_rules s3 = cn_rules s2 ∧
          (unread (args_pod args') (args_ns args') (args_sandbox args') (cn_node s2) ∨ pn_VPCIP pn = "")))) s2.
Proof.
  intros Hn Hm Hk Hadd Hrun Hkey.
  pose proof (cmdAdd_step CNIVersion args s0 s1 m Hn Hm Hk Hadd) as (Hn1 & pn & Hm1 & Hk1 & _).
  destruct (life_run _ _ _ _ Hrun Hn1 Hm1 Hk1) as (es & Hes & Hkes).
  destruct (lifecycle_spec CNIVersion args args' es s0 s1 s2 m Hn Hm Hk Hadd Hes Hkes Hkey)
    as (pn' & m2 & H1 & H2 & H3 & H4 & H5 & _ & H6). by exists pn', m2.
Qed.

(** C6: Over any history of a node (commands that succeed, fail or panic, pool
    operations of the daemon, its stops and restarts, reconciliations), every record
    stays under its own key, the record of a pod stays as it is while no command is for
    that pod and every reconciliation sees it, and a pod that has a record at the end
    had it at the start or there was an ADD of that pod. *)
Theorem node_records_correct h s s' m :
  history h s s' → named s → recs m s → keyed m →
  named s' ∧ ∃ m', recs m' s' ∧ keyed m' ∧
    (∀ k, untouched k h → m' !! k = m !! k) ∧
    (∀ k, k ∈ dom m' → k ∈ dom m ∨ ∃ args s1, (NodeAdd args, s1) ∈ h ∧ args_key args = k).
Proof.
  intros Hh. revert m. induction Hh as [s|e h s s1 s2 Hs _ IH]; intros m Hn Hm Hk.
  { split; [done|]. exists m. split_and!; auto. }
  destruct (happens_step e s s1 m Hs Hm) as (e' & He & Hkeys & Hadds).
  destruct (node_step_records _ _ _ _ _ He Hn Hm Hk) as (Hn1 & m1 & Hm1 & Hk1 & Ha1 & Hd1).
  destruct (IH m1 Hn1 Hm1 Hk1) as (Hn2 & m2 & Hm2 & Hk2 & Ha2 & Hd2). split; [done|]. exists m2.
  split_and!; [done|done|..]; intros k Hx.
  - rewrite Ha2, Ha1; [done| |].
    + intros Hin. apply (Hx e s m (list_elem_of_here _ _) Hm). by apply Hkeys.
    + intros e0 s0 m0 Hin. apply Hx. by apply list_elem_of_further.
  - destruct (Hd2 k Hx) as [Hd|(args & s3 & Hin & Hkey)].
    + apply Hd1, elem_of_union in Hd as [Hd|Hd]; [by left|]. apply Hadds in Hd.
      destruct e as [args| | | | |]; [|by apply not_elem_of_empty in Hd..]. apply elem_of_singleton in Hd.
      right. exists args, s. split; [apply list_elem_of_here|done].
    + right. exists args, s3. split; [by apply list_elem_of_further|done].
Qed.
End life.
