(* ===== verification/CniPlugin.v ===== *)
(** The process of the plugin ([main] of [cmd/cnivpc/main.go]) and the tool that asks
    the daemon for the version of the installed plugin ([hack/version.go]).

    [PluginMain] of the CNI library reads the command from the environment and calls
    the function for it; it is the parameter of [main], with what it does as the
    hypothesis [dispatches]. *)
From S2P Require Export CniNode LogFollow.

(** ** Definitions *)

Definition envFilePath : string := "/etc/kubernetes/ucloud".

(** [os.Stat], [os.IsNotExist] and [godotenv.Load], which sets variables of the process. *)
Class EnvFileApi (E : Type) : Type := {
  env_Stat : string → Call E unit;
  env_Load : string → Call E unit
}.

(** A response to the request for [/version]: its status and its body. *)
Record http_response : Type := mkResponse { hr_StatusCode : Z; hr_Body : string }.
Definition StatusOK : Z := 200.

(** [queryVersion]: what it prints, and the error.  [create] is the error of making the
    request, [response] what the HTTP client gives, [decode] the JSON decoder of the
    field [version], which stays empty when the document does not have it. *)
Definition queryVersion (decode : string → error + string) (create : option error)
    (response : error + http_response) (expected : string) : list string * option error :=
  match create with
  | Some err => ([], Some (Wrap "main.queryVersion create request" err))
  | None =>
      match response with
      | inl err => ([], Some (Wrap "main.queryVersion GET" err))
      | inr response =>
          if negb (hr_StatusCode response =? StatusOK)
          then ([], Some (Errorf "main.queryVersion unexpected HTTP status")) else
          match decode (hr_Body response) with
          | inl err => ([], Some (Wrap "main.queryVersion decode response" err))
          | inr version =>
              if String.eqb version "" then ([], Some (Errorf "main.queryVersion response has an empty version")) else
              (["version=" +:+ version],
               if negb (String.eqb expected "") && negb (String.eqb version expected)
               then Some (Errorf "main.queryVersion got another version") else None)
          end
      end
  end.

(** What the HTTP server of the daemon makes of a reply; a stream is not a document. *)
Definition respond (encode : string → string) (reply : http_reply) : error + http_response :=
  match reply with
  | HttpError msg status => inr (mkResponse status msg)
  | HttpJSON version => inr (mkResponse StatusOK (encode version))
  | HttpStream _ => inl (ExtErr "not a document")
  end.

Section main.
Context {E T N K G : Type} `{!CloudApi E, !GoRuntime E, !UniApi E, !LockApi E, !EnvFileApi E, !IptApi T, !IptMoreApi T, !HostApi T}
  `{!IpsetApi N, !IpsetLaws N, !SysfsApi N, !RuleApi N, !RuleLaws N, !RouteApi N, !RouteLaws N, !VethApi N, !VethLaws N}
  `{!KubeApi K, !CniKubeApi K, !IpamdClient G, !BoltApi G, !JsonCodec PodNetwork, !JsonCodec Plugin, !RecordLaws G}.
#[local] Abbreviation S := (Cni E T N K G).
#[local] Abbreviation command := (CmdArgs → M S unit).
Variable CNIVersion : string.

Definition cmdVersion (args : CmdArgs) : M S unit := mret tt.

(** Only a file that is there is loaded; its errors are logged. *)
Definition load_env : M S unit :=
  r ← attempt (c_proc (ext (env_Stat envFilePath)));
  match r with
  | inl _ => mret tt
  | inr _ => ignore (c_proc (ext (env_Load envFilePath)))
  end.

Definition about_text : string := "ucloud-uk8s-cnivpc version " +:+ CNIVersion.

(** The timer of [tickSuicide] ends a process that runs for too long; a run of [main] is
    one that ends before. *)
Definition main (PluginMain : command → command → command → string → M S unit) (args : list string) : M S unit :=
  if (length args =? 2)%nat && String.eqb (default "" (args !! 1%nat)) "version" then panic "os.Exit(0)" else
  load_env;; PluginMain (cmdAdd CNIVersion) cmdVersion cmdDel about_text.

(** *** What [PluginMain] does *)

(** It calls at most one of its functions, once, and changes nothing else but the
    process. *)
Definition dispatches (PluginMain : command → command → command → string → M S unit) : Prop :=
  ∀ add check del about s,
    (∃ p, (PluginMain add check del about s).2 = c_set_proc p s) ∨
    ∃ p p' args, let s' := (PluginMain add check del about s).2 in
      s' = c_set_proc p' (add args (c_set_proc p s)).2 ∨
      s' = c_set_proc p' (check args (c_set_proc p s)).2 ∨
      s' = c_set_proc p' (del args (c_set_proc p s)).2.

(** ** Theorems *)

(** The process may change on its own. *)
Lemma proc_event p (s : S) : node_step CNIVersion (EvOther ∅) s (c_set_proc p s).
Proof. constructor. split; [done|]. intros m Hm. by exists m. Qed.

(** A process of the plugin is at most one command, with events around it that are
    about no pod. *)
Theorem main_run PluginMain args s :
  dispatches PluginMain →
  ∃ es, node_run CNIVersion es s (main PluginMain args s).2 ∧
    (es = [EvOther ∅] ∨ ∃ e, es = [EvOther ∅; e; EvOther ∅]).
Proof.
  intros Hd. assert (∀ s', (∃ p, s' = c_set_proc p s) →
    ∃ es, node_run CNIVersion es s s' ∧ (es = [EvOther ∅] ∨ ∃ e, es = [EvOther ∅; e; EvOther ∅])) as Hproc.
  { intros s' [p ->]. exists [EvOther ∅]. split; [|by left]. eapply run_cons; [apply proc_event|constructor]. }
  assert (∃ es, node_run CNIVersion es s
    ((load_env;; PluginMain (cmdAdd CNIVersion) cmdVersion cmdDel about_text : M S unit) s).2 ∧
    (es = [EvOther ∅] ∨ ∃ e, es = [EvOther ∅; e; EvOther ∅])) as Hmain.
  { cbv [mbind M_bind]. assert (∃ p, (load_env s).2 = c_set_proc p s) as [p Hp].
    { unfold load_env, ignore, attempt, c_proc, ext, zoom, call. cbv [mbind M_bind mret M_ret].
      destruct (env_Stat _ _) as [[] ?]; [by eexists|]. simpl. destruct (env_Load _ _) as [[] ?]; by eexists. }
    destruct (load_env s) as [[[]|e|w|] s1]; simpl in Hp; subst s1; [|by apply Hproc; exists p..].
    destruct (Hd (cmdAdd CNIVersion) cmdVersion cmdDel about_text (c_set_proc p s))
      as [(p1 & ->)|(p1 & p2 & a & [-> |[-> | ->]])].
    - apply Hproc. by exists p1.
    - exists [EvOther ∅; EvAdd a; EvOther ∅]. split; [|right; by eexists].
      eapply run_cons; [apply (proc_event p1)|]. eapply run_cons; [apply step_add|].
      eapply run_cons; [apply proc_event|]. constructor.
    - apply Hproc. by exists p2.
    - exists [EvOther ∅; EvDel a; EvOther ∅]. split; [|right; by eexists].
      eapply run_cons; [apply (proc_event p1)|]. eapply run_cons; [apply step_del|].
      eapply run_cons; [apply proc_event|]. constructor. }
  unfold main. destruct (_ && _); [|exact Hmain]. apply Hproc. exists (cn_proc s). by destruct s.
Qed.
End main.

(** *** The version *)

Definition no_space (s : string) : Prop := str_all (λ a, negb (is_space a)) s = true.

Lemma str_rev_app a b : str_rev (a +:+ b) = str_rev b +:+ str_rev a.
Proof.
  unfold str_rev. assert (∀ x y, String.list_ascii_of_string (x +:+ y)
    = String.list_ascii_of_string x ++ String.list_ascii_of_string y) as ->.
  { intros x y. induction x as [|c x IH]; [done|]. simpl. by rewrite IH. }
  rewrite reverse_app. generalize (reverse (String.list_ascii_of_string b)). intros l.
  induction l as [|c l IH]; [done|]. simpl. by rewrite IH.
Qed.
Lemma trim_left_skip p ws s : str_all p ws = true → trim_left p (ws +:+ s) = trim_left p s.
Proof. induction ws as [|a ws IH]; [done|]. simpl. intros [-> Hw]%andb_true_iff. by apply IH. Qed.
Lemma trim_left_stop p v s : v ≠ "" → str_all (λ a, negb (p a)) v = true → trim_left p (v +:+ s) = v +:+ s.
Proof. destruct v as [|a v]; [done|]. simpl. intros _ [Ha%negb_true_iff _]%andb_true_iff. by rewrite Ha. Qed.

(** White space at the end is trimmed, up to a word. *)
Lemma trim_word a v ws :
  v ≠ "" → no_space v → str_all is_space ws = true → trim_right is_space (a +:+ v +:+ ws) = a +:+ v.
Proof.
  intros Hv Hs Hw. unfold trim_right. rewrite !str_rev_app, <- str_app_assoc.
  rewrite trim_left_skip by (by apply str_all_rev). rewrite trim_left_stop; [|intros E|by apply str_all_rev].
  - by rewrite <- str_rev_app, str_rev_involutive.
  - apply Hv. rewrite <- (str_rev_involutive v), E. reflexivity.
Qed.

(** What the daemon makes of the text of [about_text], with the end of its line. *)
Lemma about_parsed version ws :
  version ≠ "" → no_space version → str_all is_space ws = true →
  loadCNIVersion (inr (about_text version +:+ ws)) = inr version.
Proof.
  intros Hv Hs Hw. unfold loadCNIVersion, parseCNIVersion, about_text.
  assert (TrimSpace (("ucloud-uk8s-cnivpc version " +:+ version) +:+ ws) = cniVersionPrefix +:+ version) as ->.
  { rewrite <- str_app_assoc. by apply (trim_word "ucloud-uk8s-cnivpc version " version ws). }
  rewrite HasPrefix_app, TrimPrefix_app. cbn [negb].
  assert (TrimSpace version = version) as ->.
  { pose proof (trim_word "" version "" Hv Hs eq_refl) as H. cbn [String.append] in H. rewrite str_app_nil_r in H.
    unfold TrimSpace. by rewrite trim_left_none. }
  by destruct (String.eqb_spec version "").
Qed.

(** When the plugin prints its version, the tool prints exactly that version, through the
    daemon, and fails only when another one was expected. *)
Theorem query_version_roundtrip (encode : string → string) (decode : string → error + string) version ws expected :
  (∀ v, decode (encode v) = inr v) →
  version ≠ "" → no_space version → str_all is_space ws = true →
  queryVersion decode None
    (respond encode (version_handler (loadCNIVersion (inr (about_text version +:+ ws))))) expected
  = (["version=" +:+ version],
     if String.eqb expected "" || String.eqb version expected then None
     else Some (Errorf "main.queryVersion got another version")).
Proof.
  intros Hd Hv Hs Hw. rewrite about_parsed by done. unfold queryVersion. simpl. rewrite Hd.
  destruct (String.eqb_spec version ""); [done|]. by destruct (String.eqb expected ""), (String.eqb version expected).
Qed.
