(* ===== verification/CniWorld.v ===== *)
(** Concrete instances for the plugin: the node's network (rules, routes, files,
    ipsets), the pod networkings of the API server, and the VPC with its network
    interfaces.  They show that the law classes of the plugin's interfaces can be
    satisfied; the witnesses of its theorems run on them, together with the
    concrete iptables of [Chain], the cluster of [World] and a [Daemon]. *)
From Stdlib Require Import Ascii.
From S2P Require Export CniDaemon CniCommands.

(** ** The network of a node *)

Record node_net : Type := mkNet {
  nn_rules : list IpRule;
  nn_routes : gmap (Z * option string) Route;
  nn_files : gmap string string;
  nn_sets : gmap string (gset (list Z));
  nn_veths : gmap string (string * string * list string)
}.
Definition nn_set_rules (r : list IpRule) (n : node_net) := mkNet r (nn_routes n) (nn_files n) (nn_sets n) (nn_veths n).
Definition nn_set_routes (r : gmap (Z * option string) Route) (n : node_net) :=
  mkNet (nn_rules n) r (nn_files n) (nn_sets n) (nn_veths n).
Definition nn_set_files (f : gmap string string) (n : node_net) :=
  mkNet (nn_rules n) (nn_routes n) f (nn_sets n) (nn_veths n).
Definition nn_set_sets (s : gmap string (gset (list Z))) (n : node_net) :=
  mkNet (nn_rules n) (nn_routes n) (nn_files n) s (nn_veths n).
Definition nn_set_veths (v : gmap string (string * string * list string)) (n : node_net) :=
  mkNet (nn_rules n) (nn_routes n) (nn_files n) (nn_sets n) v.

Definition on_part {S T A} (get : S → T) (put : T → S → S) (c : Call T A) : Call S A :=
  λ s, let '(r, t) := c (get s) in (r, put t s).

#[global] Instance node_rules : RuleApi node_net := {
  nl_RuleList := on_part nn_rules nn_set_rules nl_RuleList;
  nl_RuleAdd r := on_part nn_rules nn_set_rules (nl_RuleAdd r);
  nl_RuleDel r := on_part nn_rules nn_set_rules (nl_RuleDel r);
  netlink_NewIPNet ip := mkIPNet ip [255; 255; 255; 255]
}.
#[global] Instance node_files : SysfsApi node_net := {
  os_Glob p := on_part nn_files nn_set_files (os_Glob p);
  os_ReadFile f := on_part nn_files nn_set_files (os_ReadFile f);
  os_WriteFile f c := on_part nn_files nn_set_files (os_WriteFile f c)
}.

(** Link and address changes succeed; the table of an interface keeps no route of
    another next hop under the same key. *)
#[global] Instance node_routes : RouteApi node_net := {
  nl_RouteList l n := (inr (filter (λ kr, ro_Link kr.2 = l ∧ route_key kr.2 = kr.1)
                                   (map_to_list (nn_routes n))).*2, n);
  nl_RouteReplace r n := (inr tt, nn_set_routes (<[route_key r := r]> (nn_routes n)) n);
  nl_RouteAdd r n :=
    match nn_routes n !! route_key r with
    | Some _ => (inl (ExtErr "file exists"), n)
    | None => (inr tt, nn_set_routes (<[route_key r := r]> (nn_routes n)) n)
    end;
  nl_RouteDel r n := (inr tt, nn_set_routes (delete (route_key r) (nn_routes n)) n);
  nl_LinkSetMTU _ _ n := (inr tt, n);
  nl_LinkSetUp _ n := (inr tt, n);
  netlink_ParseAddr s :=
    match ParseCIDR s with inr (ip, net) => inr (mkIPNet ip (net_Mask net)) | inl e => inl e end;
  nl_AddrReplace _ _ n := (inr tt, n);
  arping_Gratuitous _ _ n := (inr tt, n)
}.

(** The kernel takes addresses of four octets. *)
#[global] Instance is_octet_dec v : Decision (is_octet v).
Proof. unfold is_octet. apply _. Defined.
Definition an_address (e : list Z) : Prop := length e = 4%nat ∧ Forall is_octet e.
#[global] Instance an_address_dec e : Decision (an_address e).
Proof. unfold an_address. apply _. Defined.
Definition nn_view (n : node_net) : gmap string (gset (list Z)) := filter an_address <$> nn_sets n.

#[global] Instance node_ipsets : IpsetApi node_net := {
  ipset_Create name n :=
    match nn_sets n !! name with
    | Some _ => (inr tt, n)
    | None => (inr tt, nn_set_sets (<[name := ∅]> (nn_sets n)) n)
    end;
  ipset_Add name e n :=
    match nn_view n !! name with
    | None => (inl (ExtErr "ENOENT"), n)
    | Some s =>
        if bool_decide (e ∈ s) then (inl (ExtErr "IPSET_ERR_EXIST"), n)
        else if bool_decide (an_address e) then (inr tt, nn_set_sets (<[name := {[e]} ∪ s]> (nn_sets n)) n)
        else (inl (ExtErr "EINVAL"), n)
    end;
  ipset_Del name e n :=
    match nn_view n !! name with
    | None => (inl (ExtErr "ENOENT"), n)
    | Some s => (inr tt, nn_set_sets (<[name := s ∖ {[e]}]> (nn_sets n)) n)
    end;
  ipset_List name n :=
    match nn_view n !! name with
    | None => (inl (ExtErr "ENOENT"), n)
    | Some s => (inr (elements s), n)
    end;
  is_ipset_exist e := bool_decide (e = ExtErr "IPSET_ERR_EXIST");
  is_enoent e := bool_decide (e = ExtErr "ENOENT")
}.

(** Veth pairs: a host end leads to a name in a namespace; the interface [eth0] of the
    node has none. *)
Definition veth_hw (name : string) : list Z := take 6 (sha1_sum (string_bytes name)).
Definition veth_ends (ns name : string) (n : node_net) : list (string * (string * string * list string)) :=
  filter (λ kv, kv.2.1 = (ns, name)) (map_to_list (nn_veths n)).
#[global] Instance node_veths : VethApi node_net := {
  ns_GetNS ns n := (if String.eqb ns "" then inl (ExtErr "no such file or directory") else inr tt, n);
  ns_Do _ n := (inr tt, n);
  ip_SetupVethWithName ns ifn host mtu n :=
    match nn_veths n !! host with
    | Some _ => (inl (ExtErr "file exists"), n)
    | None => (inr (mkIface host (veth_hw host) mtu, mkIface ifn (veth_hw ifn) mtu),
               nn_set_veths (<[host := (ns, ifn, [])]> (nn_veths n)) n)
    end;
  ns_LinkByName ns name n :=
    match veth_ends ns name n with
    | [] => (inl (ExtErr "Link not found"), n)
    | _ => (inr (mkIface name (veth_hw name) 1500), n)
    end;
  ns_AddrAdd ns link a n :=
    (inr tt, nn_set_veths ((λ v, if bool_decide (v.1 = (ns, link)) then (v.1, v.2 ++ [IP_String (net_IP a)]) else v)
                           <$> nn_veths n) n);
  ns_DefaultRouteAdd _ _ _ n := (inr tt, n);
  ns_NeighAdd _ _ _ _ n := (inr tt, n);
  ns_LinkDel ns name n := (inr tt, nn_set_veths (filter (λ kv, kv.2.1 ≠ (ns, name)) (nn_veths n)) n);
  ns_Bash _ _ n := (inr tt, n);
  nl_LinkByName name n :=
    match nn_veths n !! name with
    | Some _ => (inr (mkIface name (veth_hw name) 1500), n)
    | None => (inl (ExtErr "Link not found"), n)
    end;
  nl_LinkDel name n := (inr tt, nn_set_veths (delete name (nn_veths n)) n);
  is_LinkNotFoundError e := bool_decide (e = ExtErr "Link not found");
  ip_ErrLinkNotFound := ExtErr "link not found";
  os_IsExist e := bool_decide (e = ExtErr "file exists");
  os_IsNotExist e := bool_decide (e = ExtErr "no such file");
  os_Truncate f n :=
    match nn_files n !! f with
    | Some _ => (inr tt, nn_set_files (<[f := ""]> (nn_files n)) n)
    | None => (inl (ExtErr "no such file"), n)
    end;
  os_OpenAppend f n := (inr tt, nn_set_files (<[f := default "" (nn_files n !! f)]> (nn_files n)) n);
  os_Append f c n := (inr tt, nn_set_files (<[f := default "" (nn_files n !! f) +:+ c]> (nn_files n)) n);
  os_IsDir _ n := (inr true, n);
  os_MkdirAll _ n := (inr tt, n);
  exec_Run c _ n := ((c, None), n);
  error_Error e := match e with ExtErr msg | Errorf msg | Wrap msg _ => msg | _ => "error" end
}.

(** *** The laws *)

#[global] Instance node_rules_laws : RuleLaws node_net.
Proof.
  refine {| ip_rules n := ip_rules (nn_rules n) |}; cbn; unfold on_part.
  - done.
  - done.
  - intros n l [= ->]. done.
  - intros r n. right. split; [done|]. exists (nn_rules n), [], r. by rewrite app_nil_r.
  - intros r n. pose proof (RuleDel_law r (nn_rules n)) as V. cbn in V.
    by destruct (list_find _ (nn_rules n)) as [[i r']|].
Defined.

#[global] Instance node_routes_laws : RouteLaws node_net.
Proof.
  refine {| routes := nn_routes |}; cbn; unfold on_part; try done.
  - intros r n. unfold wp, call. split; [done|]. by left.
  - intros l n rs [= <-] r ([k r'] & -> & [[Hl Hk] Hr]%list_elem_of_filter)%list_elem_of_fmap.
    cbn in *. rewrite Hk. split; [by apply elem_of_map_to_list|done].
  - intros f c n. by destruct (mask_value c).
Defined.

Lemma to4_address e q : an_address e → To4 e = Some q → e = q ∧ Forall is_octet q.
Proof.
  intros [Hl Ho]. unfold To4. rewrite Hl. simpl. by intros [= <-].
Qed.
Lemma view_insert name s n : nn_view (nn_set_sets (<[name := s]> (nn_sets n)) n) = <[name := filter an_address s]> (nn_view n).
Proof. unfold nn_view. cbn. by rewrite fmap_insert. Qed.
Lemma view_filtered n name s : nn_view n !! name = Some s → filter an_address s = s.
Proof.
  unfold nn_view. rewrite lookup_fmap. intros (s0 & _ & ->)%fmap_Some. apply set_eq. intros e.
  rewrite !elem_of_filter. tauto.
Qed.

#[global] Instance node_ipsets_laws : IpsetLaws node_net.
Proof.
  refine {| ipsets := nn_view |}.
  - intros n name s e q Hs He Hq. apply view_filtered in Hs. rewrite <- Hs in He.
    apply elem_of_filter in He as [Ha _]. by apply to4_address.
  - intros name n. unfold wp, call. cbn -[nn_set_sets nn_view].
    destruct (nn_sets n !! name) as [s|] eqn:E; cbn -[nn_set_sets nn_view].
    + split; [by left|]. intros _. unfold nn_view. rewrite lookup_fmap, E. by eexists.
    + rewrite view_insert. split; [right|intros _; rewrite lookup_insert_eq; by eexists].
      unfold nn_view at 1. rewrite lookup_fmap, E. done.
  - intros name e n. unfold wp, call. cbn -[nn_set_sets nn_view]. destruct (nn_view n !! name) as [s|] eqn:E; cbn -[nn_set_sets nn_view]; [|by split; [|intros ?%bool_decide_eq_true]].
    case_bool_decide as He; cbn -[nn_set_sets nn_view]; [by split; [|intros _; exists s]|].
    case_bool_decide as Ha; cbn -[nn_set_sets nn_view]; [|by split; [|intros ?%bool_decide_eq_true]]. exists s. split; [done|]. split; [done|].
    rewrite view_insert. f_equal. apply view_filtered in E. rewrite filter_union_L, E, filter_singleton_L, decide_True by (done || apply _). done.
  - intros name e n. unfold wp, call. cbn -[nn_set_sets nn_view]. destruct (nn_view n !! name) as [s|] eqn:E; cbn -[nn_set_sets nn_view]; [|done].
    exists s. split; [done|]. rewrite view_insert. f_equal. apply view_filtered in E.
    apply set_eq. intros x. rewrite elem_of_filter, !elem_of_difference.
    assert (x ∈ s → an_address x) by (rewrite <- E; rewrite elem_of_filter; tauto). tauto.
  - intros name n. unfold wp, call. cbn -[nn_set_sets nn_view]. destruct (nn_view n !! name) as [s|] eqn:E; cbn -[nn_set_sets nn_view]; [|done].
    split; [done|]. intros l [= <-]. by rewrite list_to_set_elements_L.
Defined.

Lemma ParseCIDR_32 ip a net : ParseCIDR (ip +:+ "/32") = inr (a, net) → ParseIP ip = Some a.
Proof.
  unfold ParseCIDR. change (ip +:+ "/32") with (ip +:+ String "/"%char "32"). rewrite Split_at.
  change (Split "32" "/") with ["32"]. pose proof (Join_Split ip "/"%char) as Hj.
  pose proof (Split_nonempty ip "/"%char). destruct (Split ip "/"%char) as [|x [|y [|z l]]]; try done; simpl in *.
  subst x. destruct (ParseIP ip) as [v|]; [|done]. destruct (_ <? _); [done|]. by intros [= <- _].
Qed.

#[global] Instance node_veths_laws : VethLaws node_net.
Proof.
  refine {| veths := nn_veths |}; cbn -[veth_ends ParseCIDR]; unfold on_part, keeps; intros; cbn -[veth_ends ParseCIDR] in *;
    try done; try solve [repeat (case_match; cbn -[nn_view] in *; simplify_eq; try done)].
  - destruct (ParseCIDR (ip +:+ "/32")) as [e|[v net]] eqn:E; simplify_eq/=. by rewrite (ParseCIDR_32 _ _ _ E).
  - unfold wp, call. cbn. destruct (nn_veths n !! host); cbn; split_and!; try done. by intros h c [= <- <-].
  - unfold wp, call. cbn. destruct (veth_ends ns name n); cbn; (split; [done|]); by intros i [= <-].
  - unfold wp, call. cbn. split_and!; try done. intros _ host l Hl. rewrite lookup_fmap, Hl. cbn.
    by rewrite bool_decide_eq_true_2.
  - unfold wp, call. cbn. destruct (nn_veths n !! name); cbn; (split; [done|]); by intros i [= <-].
Defined.

(** ** A VPC with network interfaces *)

(** The interfaces are numbered; each has its subnet and whether it is attached to
    the host.  The host knows the attached ones as eth1, eth2, ... and sees them in
    its metadata. *)
Record uworld : Type := mkUworld {
  uw_world : world;
  uw_unis : gmap nat (string * bool);
  uw_faults : nat
}.
Definition uw_set_world (w : world) (u : uworld) := mkUworld w (uw_unis u) (uw_faults u).
Definition uw_set_unis (m : gmap nat (string * bool)) (u : uworld) := mkUworld (uw_world u) m (uw_faults u).
Definition uw_fault (u : uworld) := mkUworld (uw_world u) (uw_unis u) (S (uw_faults u)).
Definition uw_call {A} (c : Call world A) : Call uworld A := on_part uw_world uw_set_world c.

Definition uni_name (n : nat) : string := "uni-" +:+ pretty n.
Definition uni_hw (n : nat) : list Z := [82; 84; 0; 0; 1; Z.of_nat n].
Definition uni_link (n : nat) : NetIface := mkIface ("eth" +:+ pretty (S n)) (uni_hw n) 1452.
Definition uni_of (n : nat) (v : string * bool) : NetworkInterface :=
  mkNI (uni_name n) v.1 (HardwareAddr_String (uni_hw n)) ["10.1.0." +:+ pretty (n + 10)%nat] "10.1.0.1" "255.255.0.0"
    (if v.2 then "uhost-1" else "").
Definition attached (u : uworld) : list (nat * (string * bool)) :=
  filter (λ kv, kv.2.2 = true) (map_to_list (uw_unis u)).
Definition uw_meta (u : uworld) (md : Metadata) : Metadata :=
  mkMetadata (md_Region md) (md_InstanceId md) (md_AvailabilityZone md) (md_UHost_ProjectId md)
    (md_UHost_NetworkInterfaces md ++
     ((λ kv, mkMDIface (uni_name kv.1) (HardwareAddr_String (uni_hw kv.1)) kv.2.1 "vpc-1" false) <$> attached u))
    (md_UPHost_ProjectId md) (md_UPHost_NetworkInterfaces md).
Definition uw_links (u : uworld) : list NetIface := w_iface :: ((λ kv, uni_link kv.1) <$> attached u).
Definition uw_find (p : NetIface → bool) : Call uworld NetIface := λ u,
  match list_find (λ i, p i = true) (uw_links u) with
  | Some (_, i) => (inr i, u)
  | None => (inl (ExtErr "Link not found"), u)
  end.

#[global] Instance uworld_cloud : CloudApi uworld := {
  ext_Getenv k u := ext_Getenv k (uw_world u);
  ext_Now u := let '(t, w) := ext_Now (uw_world u) in (t, uw_set_world w u);
  ext_LoadSTSConfigV2 := uw_call ext_LoadSTSConfigV2;
  ext_GetInstanceIdentityDocument u :=
    match ext_GetInstanceIdentityDocument (uw_world u) with
    | (inr md, w) => (inr (uw_meta u md), uw_set_world w u)
    | (inl e, w) => (inl e, uw_set_world w u)
    end;
  ext_GetMetadata k := uw_call (ext_GetMetadata k);
  ext_NumCPU u := ext_NumCPU (uw_world u);
  ext_DescribeUHostInstance _ u := (inr [mkUHost [mkIPSet "true" "uni-default"] ""], u);
  ext_AllocateSecondaryIp r u :=
    let '(a, w) := ext_AllocateSecondaryIp r (uw_world u) in (a, uw_set_world w u);
  ext_DescribeSecondaryIp r := uw_call (ext_DescribeSecondaryIp r);
  ext_DeleteSecondaryIp r u :=
    let '(a, w) := ext_DeleteSecondaryIp r (uw_world u) in (a, uw_set_world w u);
  ext_MoveSecondaryIPMac r := uw_call (ext_MoveSecondaryIPMac r);
  ext_DescribeSubnet r := uw_call (ext_DescribeSubnet r);
  ext_Interfaces u := (inr (uw_links u), u);
  ext_InterfaceByName n := uw_find (λ i, String.eqb (if_Name i) n);
  ext_LinkList u := (inr (uw_links u), u);
  ext_LinkByName n := uw_find (λ i, String.eqb (if_Name i) n);
  ext_AddrListV4 i := uw_call (ext_AddrListV4 i);
  ext_TZOffset t u := ext_TZOffset t (uw_world u);
  ext_ArpSocket i := uw_call (ext_ArpSocket i);
  ext_ArpExchange f i u := let '(a, w) := ext_ArpExchange f i (uw_world u) in (a, uw_set_world w u);
  ext_Dial a := uw_call (ext_Dial a);
  ext_BorrowIP a r := uw_call (ext_BorrowIP a r)
}.
#[global] Instance uworld_runtime : GoRuntime uworld := {
  rt_range V l u := (l, u);
  rt_sort V := rt_sort (E := world)
}.
#[global] Instance uworld_runtime_laws : GoRuntimeLaws uworld.
Proof. split; [done|apply (rt_sort_perm (E := world))|apply (rt_sort_sorted (E := world))]. Qed.

(** The next of the scheduled faults of the VPC. *)
Definition uw_try (u : uworld) : bool * uworld :=
  let '(r, w) := w_call (λ w, (inr tt, w)) (uw_world u) in
  (match r with inl _ => false | inr _ => true end, uw_set_world w u).

#[global] Instance uworld_uni : UniApi uworld := {
  ext_CreateNetworkInterface req u :=
    let '(ok, u) := uw_try u in
    if ok : bool then
      let n := fresh (dom (uw_unis u)) in
      (inr (0, uni_of n (ur_SubnetId req, false)), uw_set_unis (<[n := (ur_SubnetId req, false)]> (uw_unis u)) u)
    else (inl (ExtErr "vpc api error"), uw_fault u);
  ext_DeleteNetworkInterface id u :=
    let '(ok, u) := uw_try u in
    if ok : bool then (inr 0, uw_set_unis (filter (λ kv, uni_name kv.1 ≠ id) (uw_unis u)) u)
    else (inl (ExtErr "vpc api error"), uw_fault u);
  ext_AttachNetworkInterface id _ u :=
    let '(ok, u) := uw_try u in
    if ok : bool then (inr 0, uw_set_unis (map_imap (λ n v, Some (v.1, v.2 || String.eqb (uni_name n) id)) (uw_unis u)) u)
    else (inl (ExtErr "vpc api error"), u);
  ext_DescribeNetworkInterface id u :=
    let '(ok, u) := uw_try u in
    if ok : bool
    then (inr (0, (λ kv, uni_of kv.1 kv.2) <$> filter (λ kv, uni_name kv.1 = id) (map_to_list (uw_unis u))), u)
    else (inl (ExtErr "vpc api error"), u);
  ext_UNITicks u := (3%nat, u)
}.

Definition uw_ids (u : uworld) : gset string := set_map uni_name (dom (uw_unis u)).
#[global] Instance uni_name_inj : Inj (=) (=) uni_name.
Proof. intros n n' E. unfold uni_name in E. cbn [String.app] in E. injection E as E. by apply (inj pretty). Qed.
Lemma elem_ids id u : id ∈ uw_ids u ↔ ∃ n, id = uni_name n ∧ is_Some (uw_unis u !! n).
Proof. unfold uw_ids. rewrite elem_of_map. setoid_rewrite elem_of_dom. done. Qed.
Lemma uw_try_keeps u : uw_unis (uw_try u).2 = uw_unis u ∧ uw_faults (uw_try u).2 = uw_faults u.
Proof. unfold uw_try. by destruct (w_call _ _) as [[] ?]. Qed.

#[global] Instance uworld_uni_laws : UniLaws uworld.
Proof.
  refine {| unis := uw_ids; uni_faults := uw_faults |}; unfold keeps; cbn.
  - intros req u. destruct (uw_try_keeps u) as [E1 E2], (uw_try u) as [[] u1]; cbn in *; [|congruence].
    split; [done|]. set (n := fresh (dom (uw_unis u1))). split.
    + apply set_eq. intros id. rewrite elem_of_union, elem_of_singleton, !elem_ids, <- E1. cbn.
      split.
      * intros (k & -> & Hk). destruct (decide (n = k)) as [<-|Hne]; [by left|right].
        rewrite lookup_insert_ne in Hk by done. eauto.
      * intros [->|(k & -> & Hk)].
        -- exists n. rewrite lookup_insert_eq. eauto.
        -- exists k. split; [done|]. destruct (decide (n = k)) as [<-|Hne]; [rewrite lookup_insert_eq; eauto|].
           by rewrite lookup_insert_ne.
    + rewrite elem_ids, <- E1. intros (n' & E%(inj uni_name) & Hn). subst n'.
      apply elem_of_dom in Hn. by apply (is_fresh (dom (uw_unis u1))).
  - intros id u. destruct (uw_try_keeps u) as [E1 E2], (uw_try u) as [[] u1]; cbn in *; [|congruence].
    split; [done|]. apply set_eq. intros x. rewrite elem_of_difference, elem_of_singleton, !elem_ids, <- E1. cbn.
    split.
    + intros (n & -> & v & [Hv Hne]%map_lookup_filter_Some). eauto.
    + intros [(n & -> & v & Hv) Hne]. exists n. split; [done|]. exists v. by apply map_lookup_filter_Some.
  - intros id inst u. destruct (uw_try_keeps u) as [E1 E2], (uw_try u) as [[] u1]; cbn in *;
      unfold uw_ids; cbn; [|by rewrite E1, E2].
    rewrite E2, <- E1. f_equal. apply set_eq. intros x. rewrite !elem_of_map. setoid_rewrite elem_of_dom.
    setoid_rewrite map_lookup_imap. split; intros (n & -> & Hn); exists n; (split; [done|]);
      destruct (uw_unis u1 !! n); cbn in *; eauto; by destruct Hn.
  - intros id u. destruct (uw_try_keeps u) as [E1 E2], (uw_try u) as [[] u1]; cbn in *; unfold uw_ids; by rewrite E1, E2.
  - done.
  - intros u. by destruct (w_meta (uw_world u)).
  - intros r u. unfold uw_call, on_part. by destruct (w_call _ (uw_world u)).
  - done.
Defined.

#[global] Instance uworld_vpc : VpcLaws uworld.
Proof.
  refine {| vpc_addrs u := vpc_addrs (uw_world u) |}; unfold keeps; cbn; unfold uw_call, on_part; try done.
  - intros r u. pose proof (vpc_Describe_keeps r (uw_world u)) as V. cbn in V. by destruct (w_describe r (uw_world u)).
  - intros z mac ip v sub u l u'. destruct (w_describe _ (uw_world u)) as [r w] eqn:E. intros [= -> <-].
    exact (vpc_Describe_law (E := world) z mac ip v sub (uw_world u) l w E).
  - intros z mac ip oid v sub u code err u'. destruct (w_delete _ (uw_world u)) as [[c e] w] eqn:E.
    intros [= -> -> <-]. exact (vpc_Delete_law (E := world) z mac ip oid v sub (uw_world u) code err w E).
  - intros u. by destruct (w_meta (uw_world u)).
  - intros n u. unfold uw_find. by destruct (list_find _ (uw_links u)) as [[]|].
Defined.

(** *** The lock: free, or held by others for a while *)

#[global] Instance uworld_lock : LockApi uworld := {
  lock_TryLock u := (if String.eqb (ext_Getenv "LOCK" u) "" then inr tt else inl (ExtErr "Locked by other process"), u);
  lock_Unlock u := (inr tt, u);
  is_ErrBusy e := bool_decide (e = ExtErr "Locked by other process")
}.

(** ** An API server with pod networkings *)

Record kworld : Type := mkKworld { kw_cluster : cluster; kw_podnets : list PodNetworking }.
Definition kw_set_cluster (c : cluster) (k : kworld) : kworld := mkKworld c (kw_podnets k).
Definition kw_call {A} (c : Call cluster A) : Call kworld A := on_part kw_cluster kw_set_cluster c.

#[global] Instance kworld_kube : KubeApi kworld := {
  k_GetPod ns n := kw_call (k_GetPod ns n);
  k_PatchPodAnnotations ns n l := kw_call (k_PatchPodAnnotations ns n l);
  k_ListPodsOnNode n := kw_call (k_ListPodsOnNode n);
  k_ListPods := kw_call k_ListPods;
  k_GetNode n := kw_call (k_GetNode n);
  k_ListNodes := kw_call k_ListNodes;
  k_ListIpamds := kw_call k_ListIpamds;
  k_GetIpamd n := kw_call (k_GetIpamd n);
  k_CreateIpamd i := kw_call (k_CreateIpamd i);
  k_UpdateIpamd i := kw_call (k_UpdateIpamd i);
  k_DeleteIpamd n := kw_call (k_DeleteIpamd n);
  k_GetClaim ns n := kw_call (k_GetClaim ns n);
  k_ListClaimsNamed ns n := kw_call (k_ListClaimsNamed ns n);
  k_CreateClaim c := kw_call (k_CreateClaim c);
  k_UpdateClaim c := kw_call (k_UpdateClaim c)
}.
#[global] Instance kworld_cni : CniKubeApi kworld := {
  ck_Stat f k := (if String.eqb f "/etc/kubernetes/kubelet.kubeconfig" then inr tt else inl (ExtErr "no such file"), k);
  ck_IsNotExist e := bool_decide (e = ExtErr "no such file");
  ck_BuildConfig _ k := (inr tt, k);
  ck_NewForConfig k := (inr tt, k);
  ck_GetPodNetworking n k :=
    (match head (filter (λ p, pnw_Name p = n) (kw_podnets k)) with
     | Some p => inr p
     | None => inl (K8sErr NotFound)
     end, k);
  ck_ListPodNetworkings k := (inr (kw_podnets k), k)
}.
