(* ===== verification/CniDemo.v ===== *)
(** The plugin on the concrete node of [CniWorld]: an ADD and a DEL through the
    daemon and without it, and the witnesses of the theorems of the plugin. *)
From S2P Require Export CniWorld CniLife.
From Stdlib Require Import Ascii.

(** ** A node *)

#[global] Instance plugin_codec : JsonCodec Plugin := {
  json_Marshal _ := Err (ExtErr "unused");
  json_Unmarshal s := if String.eqb s "{}" then Ok demo_conf else Err (ExtErr "unexpected end of JSON input")
}.

Definition demo_add_env : gmap string string :=
  {["CNI_NETNS" := "/var/run/netns/web-1"; "CNI_IFNAME" := "eth0"]}.
Definition demo_uni_meta : Metadata :=
  mkMetadata "cn-bj2" "uhost-1" "cn-bj2-02" "org-1"
    [mkMDIface "uni-default" "52:54:00:01:02:03" "subnet-a" "uvnet-1" true] "" [].
Definition demo_uworld : uworld :=
  mkUworld (mkWorld 1000 demo_add_env (Some demo_uni_meta) [] ["10.1.0.60"] [] None []) ∅ 0.
Definition demo_netw : node_net :=
  mkNet [mkIpRule 0 255 None None (-1) (-1); mkIpRule 32766 254 None None (-1) (-1)] ∅
    {["/proc/sys/net/ipv4/conf/eth0/proxy_arp" := "0"; "/proc/sys/net/ipv4/conf/eth1/proxy_arp" := "0"]} ∅ ∅.
Definition cni_tables : Tables :=
  {[(false, "nat", "PREROUTING") := []; (false, "nat", "OUTPUT") := []; (false, "nat", "POSTROUTING") := [];
    (false, "mangle", "PREROUTING") := []; (false, "raw", "PREROUTING") := []; (false, "filter", "FORWARD") := [];
    (true, "nat", "OUTPUT") := []]}.
Definition demo_k8s : kworld := mkKworld demo_k4 [].
Definition demo_daemon (up : bool) : Daemon mem_bolt cluster world := mkDaemon up (demo4 demo_world).
Definition demo_cni (up : bool) : Cni uworld Tables node_net kworld (Daemon mem_bolt cluster world) :=
  mkCni (mkProc demo_uworld None false) cni_tables demo_netw demo_k8s (demo_daemon up).
(** The same node with a network interface in the pods' subnet and a pod networking. *)
Definition demo_podnet : PodNetworking :=
  mkPodNetworking "default" (mkPodNetworkingSpec [] ["subnet-a"] "balanced" true).
Definition demo_cni_uni (up : bool) : Cni uworld Tables node_net kworld (Daemon mem_bolt cluster world) :=
  mkCni (mkProc (mkUworld (uw_world demo_uworld) {[0%nat := ("subnet-a", true)]} 0) None false)
    cni_tables demo_netw (mkKworld demo_k4 [demo_podnet]) (demo_daemon up).
Definition demo_args : CmdArgs :=
  mkCmdArgs "c1" "eth0"
    "IgnoreUnknown=1;K8S_POD_NAMESPACE=default;K8S_POD_NAME=web-0;K8S_POD_INFRA_CONTAINER_ID=sandbox-1" "{}".
#[local] Abbreviation Demo := (Cni uworld Tables node_net kworld (Daemon mem_bolt cluster world)).

Lemma demo_recs s (up : bool) : cn_node s = demo_daemon up → recs ∅ (s : Demo).
Proof.
  intros Hs. unfold recs. rewrite Hs. exists demo_server. split; [done|]. exists demo4_abs. split; [apply demo4_rep|].
  split; [apply demo4_consistent|]. by split.
Qed.
Lemma demo_named s : cn_net s = demo_netw → named (s : Demo).
Proof.
  intros Hs. unfold named, all_named. rewrite Hs. intros r Hr _. cbn in Hr.
  repeat (apply elem_of_cons in Hr as [->|Hr]; [discriminate|]). by apply elem_of_nil in Hr.
Qed.
(** ** Witnesses *)

Definition demo_pod_key : string := PodKey "web-0" "default" "sandbox-1".
Definition demo_given : PodNetwork :=
  pn_set_NetNS "/var/run/netns/web-1" (pn_set_PodUID "uid-1"
    (pn_set_Pod "web-0" "default" "sandbox-1" (demo_pn "10.0.0.50"))).

Lemma cmdAdd_witness (a := loadSandboxArgs (ca_Args demo_args)) (s := demo_cni_uni true) :
  command_post (arg a "K8S_POD_NAME") (arg a "K8S_POD_NAMESPACE") (arg a "K8S_POD_INFRA_CONTAINER_ID") ∅
    (cmdAdd "1" demo_args s).1 (cmdAdd "1" demo_args s).2 ∧
  (cmdAdd "1" demo_args s).1 = Ok tt.
Proof.
  split; [|vm_compute; reflexivity].
  exact (cmdAdd_correct (E := uworld) (T := Tables) (N := node_net) (K := kworld) "1" demo_args ∅ s
    (demo_recs s true eq_refl) (demo_named s eq_refl)).
Defined.

Definition demo_assignment : podIPAssignment := mkAssignment (Some demo_given) true true.
Lemma add_pod_witness (s := demo_cni_uni true) :
  add_post "web-0" "default" "" "sandbox-1" demo_given ∅ s
    (add_pod "1" demo_args demo_conf "web-0" "default" "" "sandbox-1" demo_assignment s).1
    (add_pod "1" demo_args demo_conf "web-0" "default" "" "sandbox-1" demo_assignment s).2 ∧
  (add_pod "1" demo_args demo_conf "web-0" "default" "" "sandbox-1" demo_assignment s).1
  = Err (Errorf "failed to setup veth network").
Proof.
  split; [|vm_compute; reflexivity].
  exact (add_pod_correct (E := uworld) (T := Tables) (N := node_net) (K := kworld) "1" demo_args demo_conf
    "web-0" "default" "" "sandbox-1" demo_assignment demo_given ∅ s
    (demo_recs s true eq_refl) (demo_named s eq_refl) eq_refl eq_refl).
Defined.

(** The node with the records of two pods. *)
Definition demo_recorded_cni (t : Tables) (up : bool) : Demo :=
  mkCni (mkProc demo_uworld None false) t demo_netw (mkKworld demo_k4 [demo_podnet]) (mkDaemon up demo5).
Lemma demo_recorded_recs t up : recs demo_records (demo_recorded_cni t up).
Proof.
  exists demo_server. split; [done|]. exists demo5_abs. split; [apply demo5_rep|].
  split; [apply demo_consistent; vm_compute; reflexivity|]. by split.
Qed.

Lemma cmdDel_witness (a := loadSandboxArgs (ca_Args demo_args)) (s := demo_recorded_cni cni_tables true) :
  delete_post (arg a "K8S_POD_NAME") (arg a "K8S_POD_NAMESPACE") (arg a "K8S_POD_INFRA_CONTAINER_ID") demo_records (cn_rules s) (cn_node s)
    (cmdDel demo_args s).1 (cmdDel demo_args s).2 ∧
  (cmdDel demo_args s).1 = Ok tt ∧
  (getPodNetworkRecord "web-0" "default" "sandbox-1" (cn_node (cmdDel demo_args s).2)).1 = Ok None.
Proof.
  split; [|split; vm_compute; reflexivity].
  exact (cmdDel_correct (E := uworld) (T := Tables) (N := node_net) (K := kworld) demo_args demo_records s
    (demo_recorded_recs cni_tables true)).
Defined.

(** An ADD through the daemon, then a DEL while it runs. *)
Example add_then_delete :
  let s1 := (cmdAdd "1" demo_args (demo_cni_uni true)).2 in
  let s2 := (cmdDel demo_args s1).2 in
  (cmdAdd "1" demo_args (demo_cni_uni true)).1 = Ok tt ∧ (cmdDel demo_args s1).1 = Ok tt ∧
  elements (cn_members s1) = [[10; 0; 0; 50]] ∧ elements (cn_members s2) = [] ∧
  (getPodNetworkRecord "web-0" "default" "sandbox-1" (cn_node s1)).1 = Ok (Some demo_given) ∧
  (getPodNetworkRecord "web-0" "default" "sandbox-1" (cn_node s2)).1 = Ok None ∧
  length (cn_rules s1) = 5%nat ∧ length (cn_rules s2) = 4%nat ∧
  map_to_list (nn_veths (cn_net s1)) = [("ucni0d7763386da", ("/var/run/netns/web-1", "eth0", ["10.0.0.50"]))] ∧
  map_to_list (nn_veths (cn_net s2)) = [].
Proof. vm_compute. repeat split. Qed.

(** A failure of the set-up takes the member out again and gives the address back. *)
Example add_rolled_back :
  let r := add_pod "1" demo_args demo_conf "web-0" "default" "" "sandbox-1" demo_assignment (demo_cni_uni true) in
  elements (cn_members r.2) = [] ∧ length (cn_rules r.2) = 2%nat.
Proof. vm_compute. repeat split. Qed.

Lemma assignPodIp_witness (s := demo_cni_uni false) :
  wp (assignPodIp "web-0" "default" "/var/run/netns/web-1" "sandbox-1") (λ o s', recs ∅ s' ∧
    ∀ a, o = Ok a → (pa_fromIPAMD a = false → not_static "web-0" "default" (cn_k8s s')) ∧
      ∃ pn, pa_network a = Some pn ∧ record_key pn = PodKey "web-0" "default" "sandbox-1") s ∧
  ∃ a, (assignPodIp "web-0" "default" "/var/run/netns/web-1" "sandbox-1" s).1 = Ok a ∧ pa_fromIPAMD a = false.
Proof.
  split; [|eexists; split; vm_compute; reflexivity].
  exact (assignPodIp_correct (E := uworld) (T := Tables) (N := node_net) (K := kworld) "web-0" "default"
    "/var/run/netns/web-1" "sandbox-1" s ∅ (demo_recs s false eq_refl)).
Defined.

Lemma records_shared_witness (s := demo_cni false) :
  wp (addPodNetworkRecord "web-0" "default" "sandbox-1" demo_given) (λ o s', o = Ok tt → ∀ up,
    wp (getPodNetworkRecord "web-0" "default" "sandbox-1") (λ o' _, ∀ p, o' = Ok p → p = Some demo_given)
      (dm_switch up (cn_node s')) ∧
    wp listPodNetworkRecords (λ o' _, ∀ l, o' = Ok l →
      l ≡ₚ (map_to_list (<[PodKey "web-0" "default" "sandbox-1" := demo_given]> (∅ : gmap string PodNetwork))).*2)
      (dm_switch up (cn_node s'))) s ∧
  (let g := cn_node (addPodNetworkRecord "web-0" "default" "sandbox-1" demo_given s).2 in
   (getPodNetworkRecord "web-0" "default" "sandbox-1" (dm_switch true g)).1 = Ok (Some demo_given) ∧
   (getPodNetworkRecord "web-0" "default" "sandbox-1" (dm_switch false g)).1 = Ok (Some demo_given)).
Proof.
  split; [|split; vm_compute; reflexivity].
  exact (records_shared (E := world) (K := cluster) (E' := uworld) (T := Tables) (N := node_net) "web-0" "default" "sandbox-1"
    demo_given ∅ s (demo_recs s false eq_refl) eq_refl).
Defined.

(** A set left by an earlier version, with an address that is gone. *)
Definition stale_set (s : Demo) : Demo :=
  c_set_net (nn_set_sets {[natGWOutgoingEnabledIPSetName := {[[10; 0; 0; 99]]}]} (cn_net s)) s.

Lemma migrate_witness (s := stale_set (demo_recorded_cni cni_tables false)) :
  wp (migrateLegacyNATGWOutgoingIPs "node-1") (λ o s', returns o = true ∧
    records (cn_node s') demo_records ∧ cn_ipt s' = cn_ipt s ∧
    ((o ≠ Ok tt ∧ cn_texts s' = cn_texts s) ∨
     (∃ X, wanted_members "node-1" s demo_records X ∧ cn_texts s ∩ X ⊆ cn_texts s' ∧ cn_texts s' ⊆ cn_texts s ∪ X ∧
        (o = Ok tt → cn_texts s' = X)))) s ∧
  (migrateLegacyNATGWOutgoingIPs "node-1" s).1 = Ok tt ∧
  elements (cn_texts s) = ["10.0.0.99"] ∧
  elements (cn_texts (migrateLegacyNATGWOutgoingIPs "node-1" s).2) = ["10.0.0.50"].
Proof.
  split; [|repeat split; vm_compute; reflexivity].
  exact (migrate_correct (E := uworld) (T := Tables) (N := node_net) (K := kworld) "node-1" s demo_records
    (demo_recorded_recs cni_tables false)).
Defined.

Lemma demo_bypass_alone : bypass_alone demo_manager (T := Tables).
Proof.
  intros (r & Hr & Hk & Hc). revert Hk Hc. pattern r. revert r Hr. apply Forall_forall.
  vm_compute. repeat constructor; intros; discriminate.
Qed.

Lemma updateRules_witness (s := stale_set (demo_recorded_cni demo_node false)) :
  wp (updateRules demo_manager "node-1" true) (λ o s', returns o = true ∧
    records (cn_node s') demo_records ∧ vpc_first demo_manager (tables (cn_ipt s')) ∧
    (canon natGWOutgoingBypassRule ∈ rules_at connmark_key (tables (cn_ipt s')) →
       true = true ∧ wanted_members "node-1" s demo_records (cn_texts s'))) s ∧
  (updateRules demo_manager "node-1" true s).1 = Ok tt.
Proof.
  split; [|vm_compute; reflexivity].
  refine (updateRules_correct (E := uworld) (T := Tables) (N := node_net) (K := kworld) demo_manager "node-1" true s
    demo_records (demo_recorded_recs demo_node false) demo_rules_differ demo_bypass_alone _ _).
  - split; intros rs Hrs; discriminate Hrs.
  - intros Hin. vm_compute in Hin. by apply elem_of_nil in Hin.
Defined.

Lemma uni_route_witness (s := demo_cni_uni false) :
  wp (ensureUNIPrimaryIPRoute "10.1.0.10" "52:54:00:00:01:00" "10.1.0.1" "255.255.0.0") (λ o s',
    others "10.1.0.10" (cn_rules s') = others "10.1.0.10" (cn_rules s) ∧
    (o = Ok tt → ∃ link tableId, mac_link "52:54:00:00:01:00" (cn_proc s) link ∧ ifNameToTableId (if_Name link) = inr tableId ∧
       (∃ r, r ∈ cn_rules s' ∧ net_is (rl_Src r) "10.1.0.10" = true ∧ rl_Table r = tableId ∧ rl_Dst r = None) ∧
       (routed (if_Name link) "10.1.0.1" tableId (cn_net s') ∨
        ∃ r, routes (cn_net s') !! route_key r = Some r ∧ ro_Link r = if_Name link ∧ IP_String (ro_Gw r) = "10.1.0.1" ∧ ro_Table r = tableId))) s ∧
  (ensureUNIPrimaryIPRoute "10.1.0.10" "52:54:00:00:01:00" "10.1.0.1" "255.255.0.0" s).1 = Ok tt.
Proof.
  split; [|vm_compute; reflexivity].
  refine (ensureUNIPrimaryIPRoute_correct (E := uworld) (T := Tables) (N := node_net) (K := kworld)
    "10.1.0.10" "52:54:00:00:01:00" "10.1.0.1" "255.255.0.0" s _ _); [vm_compute; reflexivity|].
  apply all_named_tables. exact (demo_named s eq_refl).
Defined.

(** *** A life of a pod *)

(** The daemon knows its node, so that its reconciliation sees pods. *)
Definition life_world : world :=
  mkWorld 1000 {["KUBE_NODE_NAME" := "node-1"]} (Some demo_meta) [demo_info "10.0.0.50"; demo_info "10.0.0.51"]
    ["10.0.0.60"] [] None [].
Definition life_start : Demo :=
  mkCni (cn_proc (demo_cni_uni true)) cni_tables demo_netw (mkKworld demo_k4 [demo_podnet])
    (mkDaemon true (demo4 life_world)).
Definition life_other_args : CmdArgs :=
  mkCmdArgs "c9" "eth0" "K8S_POD_NAMESPACE=default;K8S_POD_NAME=web-9;K8S_POD_INFRA_CONTAINER_ID=sandbox-9" "{}".

(** The pod is added; a pod that does not exist is added, without success, and deleted;
    the daemon reconciles and is restarted. *)
Definition life1 : Demo := (cmdAdd "1" demo_args life_start).2.
Definition life2 : Demo := (cmdAdd "1" life_other_args life1).2.
Definition life3 : Demo := (cmdDel life_other_args life2).2.
Definition life4 : Demo := daemon_op OpReconcile life3.
Definition life5 : Demo := daemon_switch true (daemon_switch false life4).

Lemma life_recs : recs ∅ life_start.
Proof.
  exists demo_server. split; [done|]. exists demo4_abs. split; [apply demo4_rep|].
  split; [apply demo4_consistent|]. by split.
Qed.
Lemma life_claimed m : recs m life3 → args_key demo_args ∉ unclaimed m life3.
Proof.
  intros Hm. assert (m !! args_key demo_args = Some demo_given) as Hl.
  { destruct (getPodNetworkRecord_spec "web-0" "default" "sandbox-1" _ m Hm) as (_ & _ & Hp).
    symmetry. change (args_key demo_args) with (PodKey "web-0" "default" "sandbox-1").
    apply Hp. vm_compute. reflexivity. }
  unfold unclaimed. assert (∃ pods, local_pods (dm_st (cn_node life3)) = Some pods ∧ claimed pods demo_given = true)
    as (pods & -> & Hc) by (eexists; split; vm_compute; reflexivity).
  intros [x Hx]%elem_of_dom. apply map_lookup_filter_Some in Hx as [Hx Hf]. rewrite Hl in Hx. injection Hx as <-.
  simpl in Hf. congruence.
Qed.
Lemma life_steps : rtc (life_step "1" (args_key demo_args)) life1 life5.
Proof.
  assert (args_key life_other_args ≠ args_key demo_args) as Hne by (vm_compute; discriminate).
  refine (rtc_l _ life1 life2 life5 (life_add "1" _ _ life1 Hne) _).
  refine (rtc_l _ life2 life3 life5 (life_del "1" _ _ life2 Hne) _).
  refine (rtc_l _ life3 life4 life5 (life_reconcile "1" _ life3 life_claimed) _).
  refine (rtc_l _ life4 (daemon_switch false life4) life5 (life_switch "1" _ false life4) _).
  exact (rtc_once _ _ (life_switch "1" _ true (daemon_switch false life4))).
Qed.

Lemma run_pair {A B} (p : A * B) a : p.1 = a → p = (a, p.2).
Proof. destruct p. by intros <-. Qed.

Lemma pod_lifecycle_witness (k := args_key demo_args) :
  (∃ pn m2, record_key pn = k ∧ recs (<[k := pn]> ∅) life1 ∧
    (canonical_ip (pn_VPCIP pn) → ∃ netNS nic,
       pod_wired (args_pod demo_args) (args_ns demo_args) netNS nic pn life1) ∧
    recs m2 life5 ∧ m2 !! k = Some pn ∧
    wp (cmdDel demo_args) (λ o s3, returns o = true →
      (recs m2 s3 ∨ (recs (delete k m2) s3 ∧ given_back (args_pod demo_args) (args_ns demo_args) (args_sandbox demo_args) pn (deleted_at demo_args life5) s3)) ∧
      others (pn_VPCIP pn) (cn_rules s3) = others (pn_VPCIP pn) (cn_rules life5) ∧
      (o = Ok tt → given_back (args_pod demo_args) (args_ns demo_args) (args_sandbox demo_args) pn (deleted_at demo_args life5) s3 ∨
         (cn_rules s3 = cn_rules life5 ∧
          (unread (args_pod demo_args) (args_ns demo_args) (args_sandbox demo_args) (cn_node life5)
           ∨ pn_VPCIP pn = "")))) life5) ∧
  (cmdDel demo_args life5).1 = Ok tt ∧
  (getPodNetworkRecord "web-0" "default" "sandbox-1" (cn_node (cmdDel demo_args life5).2)).1 = Ok None.
Proof.
  split; [|split; vm_compute; reflexivity].
  refine (pod_lifecycle "1" demo_args demo_args life_start life1 life5 ∅ (demo_named life_start eq_refl) life_recs
    (map_Forall_empty _) (run_pair _ _ _) life_steps eq_refl).
  vm_compute. reflexivity.
Defined.

(** Two pods come, one goes, and the daemon reconciles. *)
Definition life_history : list (node_event * Demo) :=
  [(NodeAdd demo_args, life_start); (NodeAdd life_other_args, life1); (NodeDel life_other_args, life2); (NodeReconcile, life3)].
Lemma life_happened : history "1" life_history life_start life4.
Proof. repeat (eapply history_cons; [reflexivity|]). constructor. Qed.

Lemma node_records_witness :
  (named life4 ∧ ∃ m', recs m' life4 ∧ keyed m' ∧ (∀ k, untouched k life_history → m' !! k = (∅ : gmap string PodNetwork) !! k) ∧
     (∀ k, k ∈ dom m' → k ∈ dom (∅ : gmap string PodNetwork) ∨
        ∃ args s1, (NodeAdd args, s1) ∈ life_history ∧ args_key args = k)) ∧
  (getPodNetworkRecord "web-0" "default" "sandbox-1" (cn_node life4)).1 = Ok (Some demo_given).
Proof.
  split; [|vm_compute; reflexivity].
  exact (node_records_correct "1" life_history life_start life4 ∅ life_happened (demo_named life_start eq_refl) life_recs
    (map_Forall_empty _)).
Defined.
